(* ===== verification/_CoqProject ===== *)
-Q . S2P
Prelude.v
Time.v
Task.v
RunQueue.v
TimerQueue.v
Executor.v
ExecutorInv.v
ExecutorProofs.v
TimerProofs.v
Bystander.v
ExecutorThms.v
RunQueueConc.v
Timer.v
Io.v
IoProofs.v
RingBuffer.v
Lag.v
Interrupt.v
RtcClock.v
NrfRtc.v
RtcRun.v
Stm32Rtc.v
Stm32Run.v
Sync.v
Usb.v
UsbProofs.v
UsbSet.v
LowPower.v
Doorbell.v
Multiprio.v
Sleep.v
SleepRtc.v
Await.v
Fairness.v
SleepStm32.v
System.v
Macros.v
EasyDma.v
LevelIrq.v
Exti.v
ExtiHal.v
Can.v
Serial.v
Stm32Tables.v
BufferedUarte.v
BufferedUarteProofs.v
Uarte.v
UarteProofs.v
Port.v
NrfGpio.v
RpGpio.v
Ppi.v
Rp.v
RpClocks.v
Gpiote.v
GpioteTasks.v
PpiExample.v
Peripherals.v
Qspi.v
Flash.v
QspiFlash.v
QspiSetup.v
Spim.v
Saadc.v
Std.v
MainSetup.v
