(* ===== verification/Prelude.v ===== *)
(** * Embassy: an asynchronous executor and its drivers, modelled and verified

    Embassy is an async runtime for microcontrollers.  Tasks are statically
    allocated futures; a waker is a pointer to a task; an executor holds a queue of
    the tasks to poll and a queue of those that wait for the clock, sleeps, and is
    woken by interrupts.  The drivers turn interrupts into wake-ups.  This library
    translates the crates [embassy], [embassy-extras], [embassy-std] and the drivers of
    [embassy-nrf], [embassy-stm32] and [embassy-rp] into executable definitions, with the
    code that the macros of [embassy-macros] emit, and proves what each part promises to
    the others.

    ** The parts

    The file's names are those of the modules of the source.

    - [Prelude]: [Result], [Poll], panics ([outcome]), machine arithmetic, slices.
    - [Time] (src/embassy/src/time): [Duration], [Instant], the access to the clock.
    - [Task], [RunQueue], [TimerQueue], [Executor] (src/embassy/src/executor: raw.rs,
      run_queue.rs, timer_queue.rs, waker.rs, mod.rs).  [Task] has the memory -- a heap
      of task headers with their state words and intrusive links, and the executors --
      and the state monad [M] in which following a bad pointer, reading an
      uninitialised cell or running out of fuel is [None].  A future is any program of
      type [Executor.Prog] over the executor's interface: its polls may wake, spawn,
      read the clock, register a timer.  [ExecutorInv] is the invariant of that
      memory, [ExecutorProofs] and [TimerProofs] show that each operation keeps it
      (through the predicate [wp]), [ExecutorThms] has the properties.
    - [RunQueueConc]: the same queue and state word as a transition system whose steps
      are single atomic accesses, for any number of threads and interrupt handlers.
    - [Doorbell] (executor/mod.rs): [Executor] and [InterruptExecutor], that is, the
      machine of [RunQueueConc] with what puts it to sleep and wakes it.  The class
      [Doorbell] is the signal and the wait, with the event register (SEV and WFE) and
      the pending bit of an interrupt as instances of its laws.
    - [Bystander] and [Sleep]: the executor with an alarm, over time.  What a pass does to
      the tasks it does not poll; then the executor that sleeps, is rung by its alarm or
      by a wake, and runs passes that take time.  The alarm is the classes [TimedAlarm]
      and [TimedAlarmLaws]; [SleepRtc] and [SleepStm32] have the counters of
      the nRF and of the STM32 as instances.  [Await] is a task that awaits a [Timer] on
      that executor.
    - [Fairness] (src/embassy-nrf-examples/src/bin/executor_fairness_test.rs) and
      [Multiprio] (bin/multiprio.rs): the tasks of two examples, run by that executor,
      and by three executors in thread mode and in two interrupts.
    - [Timer] (executor/timer.rs): [Timer], [Ticker], [Delay], [with_timeout], as
      [Prog]s.
    - [Io], [IoProofs] (src/embassy/src/io): [AsyncBufRead] and [AsyncWrite] are classes
      of operations, their documented contracts the classes [Reader] and [Writer];
      every future of util/ is proved against the contracts, and instances with
      chunked readers and limited writers discharge them.
    - [Sync] (src/embassy/src/util): [Signal], both [WakerRegistration]s and
      [AtomicWaker]s, [Portal], [Forever], drop guards.
    - [Interrupt] (src/embassy/src/interrupt.rs, util/signal.rs, the macro's trampoline,
      the HALs' priorities, src/embassy-extras/src/peripheral.rs): one interrupt line,
      [InterruptFuture], [PeripheralMutex].
    - [RingBuffer] (src/embassy-extras/src/ring_buffer.rs), used by the next two.
    - [LowPower] (src/embassy-extras/src/lib.rs): the WFE loop of the drivers that wait
      when they are dropped, for any machine and condition.
    - [Usb], [UsbProofs] (src/embassy-extras/src/usb): the CDC-ACM class, the serial
      port, its interfaces.  The endpoints are the class [UsbBus].  [UsbSet] is the state
      of the USB interrupt: one or two ports with the device, the class [UsbDevice].
    - [BufferedUarte], [BufferedUarteProofs] (src/embassy-nrf/src/buffered_uarte.rs):
      handler, task side, DMA, drop.
    - [Uarte], [UarteProofs] (src/embassy-nrf/src/uarte.rs): transfers of one future at
      a time, with cancellation, and the drop of the driver through [LowPower].
    - [EasyDma] (src/embassy-nrf/src/lib.rs, and the polls that wait for an END or READY
      event), used by [Qspi], [Spim] and [Saadc] (files of these names).
    - [Port] has the interface of an output port, a class with its law; [NrfGpio] and
      [RpGpio] (gpio.rs of both crates) are instances, each proved against one state
      per pin.  [Ppi] (ppi.rs, and the wiring in buffered_uarte.rs).
    - [RtcClock], [NrfRtc], [Stm32Rtc] (rtc.rs of both HALs): a 64-bit clock and alarms
      from a 24- or 16-bit counter.  [Stm32Rtc] is proved against the class of its
      trait [Instance], and the two timers the macro makes are instances of it.
      [RtcRun] is [NrfRtc] as time goes by: the counter counts, a register that matches
      raises its event, and the handler runs within a latency; [Stm32Run] is the same for
      [Stm32Rtc], whose handler has other sources.
    - [Gpiote] (src/embassy-nrf/src/gpiote.rs): pin events.
    - [LevelIrq]: an interrupt a device asserts until its flag is cleared, with an
      [InterruptFuture] on it; [Exti], [Can], [Serial] (exti.rs, can.rs, f4/serial.rs of
      embassy-stm32) are built on it, against the interface of the HAL's EXTI line
      (class [ExtiLine]) and of bxcan (class [BxCan]).  [ExtiHal] has the two HALs
      exti.rs is written for (classes [HalF4], [HalL0]), whose lines are instances of
      [ExtiLine].
    - [Stm32Tables], [Peripherals]: what each chip declares -- interrupts, pins,
      peripherals -- and which of them the drivers name.  [Peripherals] also has
      [Peripherals::take].
    - [Rp] (src/embassy-rp/src: pll.rs, resets.rs, system.rs, uart.rs, dma.rs).
    - [Flash]: the trait of embassy-traits/src/flash.rs as a class with its laws, and the
      program of the example bin/qspi.rs against it; [QspiFlash] shows that the driver of
      [Qspi] is an instance.
    - [Lag]: hardware that reports a change some looks after it was asked for, and busy
      waits on it; [NrfRtc.start] waits so, too.  [System] (src/embassy-nrf/src/system.rs), [QspiSetup] (qspi.rs: [new]
      and [sleep]) and [RpClocks] (src/embassy-rp/src/system.rs, pll.rs, resets.rs) are the
      set-ups that wait so.
    - [GpioteTasks] (gpiote.rs): channels driven by tasks, and the wiring of an event to
      a task through [Ppi].  [PpiExample] (bin/ppi.rs): buttons wired to lights.
    - [Macros] (src/embassy-macros/src/lib.rs): [task], [main], [interrupt_declare] and
      [interrupt_take] as functions from what they read of a function to the parts of
      the code they emit, whose meaning is given by [Executor] and [Interrupt].
      [MainSetup] (src/embassy-macros/src/chip): the set-up [main] makes for each family,
      composed of [System], [RpClocks], the timers, [Time] and [Task].
    - [Std] (src/embassy-std/src/lib.rs): the executor of a thread, with a clock, an
      alarm and a condition variable.

    How they meet: an RTC's alarm runs the callback an executor set with
    [Executor::set_alarm]; [Executor.run_queued] asks for the earliest expiration of
    its timer queue, [Timer.poll] puts one there; handlers wake tasks through
    [Sync.WakerTask] or the context word of [Interrupt]; the serial drivers own a
    [PeripheralMutex] and two [RingBuffer]s and offer the contracts of [Io].

    ** What is proved

    C1-C5: for any futures, any sequence of calls keeps the executors' memory well
    formed, follows no bad pointer and terminates; a pass polls each task of its batch
    exactly once and in order; the alarm covers every waiting timer; spawn does what it
    says on every branch; a task woken is polled. C6, C7: the same queue under every
    interleaving: one owner per queued task, no lost wake-up. C8, C9: the executor with
    the hardware that wakes it: it never sleeps with work to do, whatever polls and
    interrupts do to that hardware, and it falls asleep once there is none. C10, C11: a
    task that waits for a time is polled by then, but for the alarm's delay and two
    passes, and its [Timer] has completed. C12: a task that wakes itself at every poll
    does not starve the others. C13: an executor in an interrupt of higher priority runs
    within a task of a lower one, none runs within itself, and the task spawned in
    [start] is polled before [main] goes on. C14, C15: what the macros emit: [main]'s
    task runs, and which functions are accepted. C16: the I/O futures lose and invent no
    byte. C17: the ring buffer is a queue. C18-C20: the nRF's clock is exact and its
    alarms ring in time, if they are not set for the first ticks of a later period;
    those of the STM32 ring within a turn of its counter and the latency of its
    interrupt. C21, C22: interrupt futures, and the peripheral mutex for closures that
    leave the interrupt they are handed masked. C23: signals. C24-C26: the serial port
    over USB, two of them behind one interrupt, the line coding. C27: the buffered
    UARTE. C28-C30: the UARTE's DMA writes only what it was lent, its futures complete,
    and dropping them stops it. C31: pin events. C32, C33: the flash, and a program that
    erases, writes and reads it back. C34-C36: SPI, pins, a pin wired to a pin. C37:
    EXTI of the STM32. C38, C39: the start-up of an nRF, with its clocks and its timer,
    and of the RP2040, which never loses the clock it runs on, and ends if its PLLs lock
    with the dividers it writes. C40: the executor of a thread.
    Theorems without a number are as much part of the library: what a wake does
    ([Executor]), that an executor runs dry, that a pool of [n] takes [n] tasks, the
    taking of interrupts and peripherals, the chips' tables of interrupts, the set-up of
    the flash, timers, tickers, timeouts, the conversions of time and errors, the other
    futures of [Io], portals, waker registrations, setting an alarm on every branch,
    alarms that fire early after a stale compare event, and one that is lost
    ([alarm_lost]: it is set for the first ticks of a period in the last one before;
    [alarm_lost_by_rewriting]: it is set for them long before), what becomes of an
    STM32's clock and alarms because its overflow is not an interrupt
    ([stm32_clock_falls_back], [stm32_alarm_late]), the drops of both UARTEs, samples,
    levels on pins, event routing, the buttons and lights of an example ([ppi_example]),
    the EXTI lines of two HALs, CAN and the serial port of the STM32, the set-up of
    [main] on the other families, and the tables, UART and DMA of the RP2040.
    Most theorems end with what the code does outside the conditions it needs, such as
    an overflow, a second waiter, or a buffer longer than a register can say.

    ** Conventions

    Integers are [Z] with their width in the operations: [arith w] panics on overflow
    or wraps, according to the [Profile] (debug or release build); [wrap w] is an [as]
    cast.  A function that may panic returns an [outcome].  Loops that are not
    structural take fuel and give [None] without it:
    - walking the run queue or the timer queue takes one unit per task and the
      operations pass the size of the heap (plus one), which is enough because the
      queues are duplicate-free (C1 shows that [None] does not happen);
    - a future of [Io] needs more fuel than the reader has bytes left, or than the
      writer is given; [Drain] alone has no fuel that is enough
      ([drain_never_ends]);
    - the interrupt handler of the UARTE turns each of its loops at most twice, a
      call to a portal recurses at most once more, a bit iterator yields at most 32
      bits: fuels 2, 2 and 33;
    - [Can.receive_poll] takes one unit per look at the FIFO: two are enough for a frame
      that is there; [Uarte.spin], [Std.run] and [LowPower.wait_run] recurse on the
      list of steps of the environment, [Rp.Dma.run] on the words to copy;
    - the program of [QspiFlash] takes a unit per look of an await, and twice the time
      a transfer may take plus four are enough; [Fairness] has one round per poll;
    - a busy wait ([Lag.wait_until]) takes a unit per look, and two more than the
      hardware needs are enough; the wait of [NrfRtc.start] is over once the counter has
      been cleared, which takes [S clear_time] edges of its clock with [S looks] looks to
      each; [RpClocks.steps] counts accesses and looks, and [rp_configure_safe] gives a
      number that is enough, or shows that none is.
    The time of [RtcRun] is bounded by 2^54 ticks, that is, 17 thousand years, and the
    latency of its interrupt by 2^22 - 3 ticks (two minutes); in [Stm32Run] these are 2^46
    ticks (68 years) and 2^14 (half a second).  The build is a release one, for the
    drivers panic in the other ([next_period_spec]).
    Interrupt handlers and the hardware act between any two steps of a driver; where
    the source masks an interrupt or takes a critical section the steps are one.  A handler
    is one step as well, except in [RunQueueConc], [Doorbell] and [Multiprio]: what wakes a
    task and then masks its line is not interrupted between the two by an executor more
    urgent than it.  In [Std] no time passes between the reading of the clock and the call
    that waits, so a deadline is counted from that reading.  A write to a compare register
    of [RtcRun] takes effect within two ticks, also when it does not change the register.

    ** What is not modelled

    Memory orderings weaker than sequential consistency ([RunQueueConc]); [Display] and
    formatting; the parsing and printing of Rust in the macros, which is that of the crates
    syn and quote; HAL traits, which are interfaces without code; the delays between
    writes that nothing depends on.  Third-party crates
    (usb_device, the futures combinators, the HALs of the STM32, bxcan, the register
    crates, cortex-m) are parameters with their documented behaviour, and the hardware
    is modelled as the reference manuals describe it.  Of the examples, those that only
    show how to call a driver are left out; of the traits, [Flash] has a client and an
    implementation in this repository and is modelled with both. *)

(** Shared vocabulary of the development. *)
From stdpp Require Export prelude list gmap fin_maps.
From Stdlib Require Export ZArith Lia.

Declare Scope embassy_scope.
Delimit Scope embassy_scope with embassy.

(** ** Outcomes

    A Rust function that may panic returns an [outcome]; [Result] and [Poll] are
    the types of the same name in [core]. *)
Inductive outcome (A : Type) : Type :=
| Done (a : A)
| Panic.
Arguments Done {A} a.
Arguments Panic {A}.

Inductive Result (A E : Type) : Type :=
| Ok (a : A)
| Err (e : E).
Arguments Ok {A E} a.
Arguments Err {A E} e.

Inductive Poll (A : Type) : Type :=
| Ready (a : A)
| Pending.
Arguments Ready {A} a.
Arguments Pending {A}.

#[export] Instance outcome_ret : MRet outcome := λ A a, Done a.
#[export] Instance outcome_bind : MBind outcome := λ A B f m,
  match m with Done a => f a | Panic => Panic end.
#[export] Instance outcome_fmap : FMap outcome := λ A B f m,
  match m with Done a => Done (f a) | Panic => Panic end.

(** [Option::expect]/[unwrap] and [assert!]. *)
Definition expect {A} (o : option A) : outcome A :=
  match o with Some a => Done a | None => Panic end.
Definition assert (b : bool) : outcome unit := if b then Done tt else Panic.

Lemma bind_Done {A B} (m : outcome A) (f : A → outcome B) b :
  m ≫= f = Done b ↔ ∃ a, m = Done a ∧ f a = Done b.
Proof.
  destruct m as [a|]; simpl; split.
  - eauto.
  - by intros (? & [= ->] & ?).
  - done.
  - by intros (? & ? & ?).
Qed.

Lemma bind_Panic {A B} (m : outcome A) (f : A → outcome B) :
  m ≫= f = Panic ↔ m = Panic ∨ ∃ a, m = Done a ∧ f a = Panic.
Proof.
  destruct m as [a|]; simpl; split.
  - eauto.
  - by intros [|(? & [= ->] & ?)].
  - eauto.
  - done.
Qed.

(** ** Machine integers

    An unsigned [w]-bit integer is a [Z] in [[0, 2^w)].  Rust's plain operators
    panic on overflow when overflow checks are compiled in and wrap otherwise;
    the build profile is a parameter of the definitions that use them. *)
Class Profile : Set := overflow_checks : bool.

Definition fits (w z : Z) : bool := (0 <=? z)%Z && (z <? 2 ^ w)%Z.
Definition wrap (w z : Z) : Z := (z mod 2 ^ w)%Z.
Definition checked (w z : Z) : option Z := if fits w z then Some z else None.
Definition arith {P : Profile} (w z : Z) : outcome Z :=
  if fits w z then Done z
  else if overflow_checks then Panic else Done (wrap w z).

Lemma fits_spec w z : fits w z = true ↔ (0 ≤ z < 2 ^ w)%Z.
Proof. unfold fits. rewrite andb_true_iff, Z.leb_le, Z.ltb_lt. done. Qed.

Lemma fits_false w z : fits w z = false ↔ ¬ (0 ≤ z < 2 ^ w)%Z.
Proof. rewrite <-fits_spec. by destruct (fits w z). Qed.

Lemma wrap_range w z : (0 ≤ w)%Z → (0 ≤ wrap w z < 2 ^ w)%Z.
Proof. intros. apply Z.mod_pos_bound, Z.pow_pos_nonneg; lia. Qed.

Lemma wrap_small w z : (0 ≤ z < 2 ^ w)%Z → wrap w z = z.
Proof. apply Z.mod_small. Qed.

Lemma arith_fits {P : Profile} w z : (0 ≤ z < 2 ^ w)%Z → arith w z = Done z.
Proof. intros H%fits_spec. unfold arith. by rewrite H. Qed.

Lemma arith_overflow {P : Profile} w z :
  ¬ (0 ≤ z < 2 ^ w)%Z →
  arith w z = if overflow_checks then Panic else Done (wrap w z).
Proof. intros H%fits_false. unfold arith. by rewrite H. Qed.

Lemma arith_range {P : Profile} w z r :
  (0 ≤ w)%Z → arith w z = Done r → (0 ≤ r < 2 ^ w)%Z.
Proof.
  unfold arith. destruct (fits w z) eqn:E.
  - apply fits_spec in E. by intros ? [= <-].
  - destruct overflow_checks; [done|]. intros ? [= <-]. by apply wrap_range.
Qed.

Lemma checked_Some w z r : checked w z = Some r ↔ r = z ∧ (0 ≤ z < 2 ^ w)%Z.
Proof.
  unfold checked. destruct (fits w z) eqn:E.
  - apply fits_spec in E. split; [by intros [= <-]|by intros [-> _]].
  - apply fits_false in E. split; [done|by intros [_ ?]].
Qed.

Lemma checked_None w z : checked w z = None ↔ ¬ (0 ≤ z < 2 ^ w)%Z.
Proof.
  unfold checked. destruct (fits w z) eqn:E.
  - apply fits_spec in E. split; [done|by intros []].
  - apply fits_false in E. done.
Qed.

(** Testing a flag. *)
Lemma land_bit k s : (0 ≤ k)%Z → negb (Z.land s (2 ^ k) =? 0)%Z = Z.testbit s k.
Proof.
  intros Hk. destruct (Z.eqb_spec (Z.land s (2 ^ k)) 0) as [E|E]; simpl.
  - apply (f_equal (λ z, Z.testbit z k)) in E.
    rewrite Z.land_spec, Z.pow2_bits_true, Z.bits_0, andb_true_r in E; done.
  - destruct (Z.testbit s k) eqn:B; [done|]. destruct E.
    apply Z.bits_inj'. intros n Hn. rewrite Z.land_spec, Z.bits_0.
    destruct (decide (n = k)) as [->|Hne]; [by rewrite B|].
    rewrite Z.pow2_bits_false by done. apply andb_false_r.
Qed.

(** ** Lists *)
Lemma filter_ext_in {A} (P Q : A → Prop) `{!∀ x, Decision (P x), !∀ x, Decision (Q x)} (l : list A) :
  (∀ x, x ∈ l → P x ↔ Q x) → filter P l = filter Q l.
Proof.
  induction l as [|x l IH]; intros Hl; [done|]. rewrite !filter_cons, IH by set_solver.
  specialize (Hl x ltac:(by left)). destruct (decide (P x)), (decide (Q x)); tauto.
Qed.
(** ** Hints and tactics *)
Create HintDb embassy.
#[export] Hint Resolve wrap_range : embassy.

(** Case analysis on the boolean comparison a goal or hypothesis branches on. *)
Ltac case_bool :=
  match goal with
  | |- context [Z.ltb ?a ?b] => destruct (Z.ltb_spec a b)
  | |- context [Z.leb ?a ?b] => destruct (Z.leb_spec a b)
  | |- context [Z.eqb ?a ?b] => destruct (Z.eqb_spec a b)
  | |- context [Nat.ltb ?a ?b] => destruct (Nat.ltb_spec a b)
  | |- context [Nat.leb ?a ?b] => destruct (Nat.leb_spec a b)
  | |- context [Nat.eqb ?a ?b] => destruct (Nat.eqb_spec a b)
  | H : context [Z.ltb ?a ?b] |- _ => destruct (Z.ltb_spec a b)
  | H : context [Z.leb ?a ?b] |- _ => destruct (Z.leb_spec a b)
  | H : context [Z.eqb ?a ?b] |- _ => destruct (Z.eqb_spec a b)
  | H : context [Nat.ltb ?a ?b] |- _ => destruct (Nat.ltb_spec a b)
  | H : context [Nat.leb ?a ?b] |- _ => destruct (Nat.leb_spec a b)
  | H : context [Nat.eqb ?a ?b] |- _ => destruct (Nat.eqb_spec a b)
  end.

(** [lia] after division and modulo have been given their equations. *)
Ltac zdiv := Z.to_euclidean_division_equations; lia.
