(* ===== verification/Time.v ===== *)
(** * Time: durations and instants

    [embassy/src/time]: [duration.rs], [instant.rs] and the clock access of
    [mod.rs].  Ticks are [u64] values; every operator is modelled at that width,
    with the panics of [expect]/[unwrap] and of checked arithmetic. *)
From S2P Require Import Prelude.
Local Open Scope Z_scope.

Definition TICKS_PER_SECOND : Z := 32768.
Definition u64_MAX : Z := 2 ^ 64 - 1.

(** ** [Duration] *)
Module Duration.

Record t : Type := mk { ticks : Z }.

#[global] Instance eq_dec : EqDecision t.
Proof. solve_decision. Defined.

Definition wf (d : t) : Prop := 0 ≤ ticks d < 2 ^ 64.

Section ops.
Context {P : Profile}.

Definition as_ticks (self : t) : Z := ticks self.
Definition as_secs (self : t) : Z := ticks self / TICKS_PER_SECOND.
Definition as_millis (self : t) : outcome Z :=
  p ← arith 64 (ticks self * 1000); Done (p / TICKS_PER_SECOND).
Definition as_micros (self : t) : outcome Z :=
  p ← arith 64 (ticks self * 1000000); Done (p / TICKS_PER_SECOND).

Definition from_ticks (n : Z) : t := mk n.
Definition from_secs (secs : Z) : outcome t :=
  n ← arith 64 (secs * TICKS_PER_SECOND); Done (mk n).
Definition from_millis (millis : Z) : outcome t :=
  n ← arith 64 (millis * TICKS_PER_SECOND); Done (mk (n / 1000)).
Definition from_micros (micros : Z) : outcome t :=
  n ← arith 64 (micros * TICKS_PER_SECOND); Done (mk (n / 1000000)).

Definition checked_add (self rhs : t) : option t :=
  mk <$> checked 64 (ticks self + ticks rhs).
Definition checked_sub (self rhs : t) : option t :=
  mk <$> checked 64 (ticks self - ticks rhs).
Definition checked_mul (self : t) (rhs : Z) : option t :=
  mk <$> checked 64 (ticks self * rhs).
Definition checked_div (self : t) (rhs : Z) : option t :=
  mk <$> (if rhs =? 0 then None else Some (ticks self / rhs)).

Definition add (self rhs : t) : outcome t := expect (checked_add self rhs).
Definition sub (self rhs : t) : outcome t := expect (checked_sub self rhs).
Definition mul (self : t) (rhs : Z) : outcome t := expect (checked_mul self rhs).
Definition mul_u32 (self : Z) (rhs : t) : outcome t := mul rhs self.
Definition div (self : t) (rhs : Z) : outcome t := expect (checked_div self rhs).
(** The [*Assign] forms write the result back through [&mut self]. *)
Definition add_assign (self rhs : t) : outcome t := add self rhs.
Definition sub_assign (self rhs : t) : outcome t := sub self rhs.
Definition mul_assign (self : t) (rhs : Z) : outcome t := mul self rhs.
Definition div_assign (self : t) (rhs : Z) : outcome t := div self rhs.

End ops.
End Duration.

(** ** [Instant] *)
Module Instant.

Record t : Type := mk { ticks : Z }.

#[global] Instance eq_dec : EqDecision t.
Proof. solve_decision. Defined.

Definition wf (i : t) : Prop := 0 ≤ ticks i < 2 ^ 64.

Definition MIN : t := mk 0.
Definition MAX : t := mk u64_MAX.

(** The derived [PartialOrd]/[Ord] and [core::cmp::min]. *)
Definition leb (a b : t) : bool := ticks a <=? ticks b.
Definition min (a b : t) : t := if leb a b then a else b.

Section ops.
Context {P : Profile}.

Definition from_ticks (n : Z) : t := mk n.
Definition from_millis (millis : Z) : outcome t :=
  n ← arith 64 (millis * TICKS_PER_SECOND); Done (mk (n / 1000)).
Definition from_secs (seconds : Z) : outcome t :=
  n ← arith 64 (seconds * TICKS_PER_SECOND); Done (mk n).
Definition as_ticks (self : t) : Z := ticks self.
Definition as_secs (self : t) : Z := ticks self / TICKS_PER_SECOND.
Definition as_millis (self : t) : outcome Z :=
  p ← arith 64 (ticks self * 1000); Done (p / TICKS_PER_SECOND).

Definition duration_since (self earlier : t) : outcome Duration.t :=
  n ← expect (checked 64 (ticks self - ticks earlier)); Done (Duration.mk n).
Definition checked_duration_since (self earlier : t) : option Duration.t :=
  if ticks self <? ticks earlier then None
  else Some (Duration.mk (ticks self - ticks earlier)).
Definition saturating_duration_since (self earlier : t) : Duration.t :=
  Duration.mk (if ticks self <? ticks earlier then 0
               else ticks self - ticks earlier).

Definition checked_add (self : t) (d : Duration.t) : option t :=
  mk <$> checked 64 (ticks self + Duration.ticks d).
Definition checked_sub (self : t) (d : Duration.t) : option t :=
  mk <$> checked 64 (ticks self - Duration.ticks d).
Definition add (self : t) (other : Duration.t) : outcome t :=
  expect (checked_add self other).
Definition sub (self : t) (other : Duration.t) : outcome t :=
  expect (checked_sub self other).
Definition add_assign (self : t) (other : Duration.t) : outcome t := add self other.
Definition sub_assign (self : t) (other : Duration.t) : outcome t := sub self other.
Definition sub_instant (self other : t) : outcome Duration.t :=
  duration_since self other.

End ops.
End Instant.

(** ** The global clock

    [CLOCK] is the static set by [set_clock]; a clock is what its [now] returns
    at the moment of the call. *)
Definition set_clock (CLOCK : option Z) (clock : Z) : option Z := Some clock.
Definition now (CLOCK : option Z) : outcome Z := expect CLOCK.
Definition Instant_now (CLOCK : option Z) : outcome Instant.t :=
  n ← now CLOCK; Done (Instant.mk n).
Definition elapsed (CLOCK : option Z) (self : Instant.t) : outcome Duration.t :=
  n ← Instant_now CLOCK; Instant.sub_instant n self.

(** ** Lemmas *)
Lemma checked_in w z : (0 ≤ z < 2 ^ w)%Z → checked w z = Some z.
Proof. intros. by apply checked_Some. Qed.

Lemma checked_out w z : ¬ (0 ≤ z < 2 ^ w)%Z → checked w z = None.
Proof. apply checked_None. Qed.

(** [n] ticks per second scaled down by [k] and back loses less than one unit
    of [k] ticks. *)
Lemma scale_roundtrip n k :
  0 ≤ n → 0 < k →
  let x := n * TICKS_PER_SECOND / k in
  x * k ≤ n * TICKS_PER_SECOND ∧ n * TICKS_PER_SECOND < x * k + k ∧ 0 ≤ x.
Proof.
  unfold TICKS_PER_SECOND. intros Hn Hk.
  pose proof (Z.mul_div_le (n * 32768) k Hk).
  pose proof (Z.mul_succ_div_gt (n * 32768) k Hk).
  pose proof (Z.div_pos (n * 32768) k ltac:(lia) Hk). cbv zeta. lia.
Qed.

(** ** Properties *)

(** converting a span of seconds, milliseconds or microseconds that does not
    overflow to a [Duration] and back: seconds are exact, milliseconds lose at
    most one and are exact precisely at the multiples of 125, microseconds lose
    at most 31 (one tick is 30.5us). *)
Theorem duration_units_roundtrip {P : Profile} (n : Z) :
  0 ≤ n → n * TICKS_PER_SECOND < 2 ^ 64 →
  (∃ d, Duration.from_secs n = Done d ∧ Duration.as_secs d = n) ∧
  (∃ d m, Duration.from_millis n = Done d ∧ Duration.as_millis d = Done m ∧
          n - 1 ≤ m ≤ n ∧ (m = n ↔ n mod 125 = 0)) ∧
  (∃ d u, Duration.from_micros n = Done d ∧ Duration.as_micros d = Done u ∧
          n - 31 ≤ u ≤ n).
Proof.
  intros Hn Hb.
  unfold Duration.from_secs, Duration.from_millis, Duration.from_micros,
    Duration.as_secs, Duration.as_millis, Duration.as_micros.
  rewrite arith_fits by (unfold TICKS_PER_SECOND in *; lia).
  split; [|split].
  - eexists; split; [done|]. simpl. by apply Z.div_mul.
  - destruct (scale_roundtrip n 1000) as (H1 & H2 & H3); [lia..|].
    eexists _, _. split; [done|]. simpl. split.
    { rewrite arith_fits by lia. done. }
    unfold TICKS_PER_SECOND in *. set (x := n * 32768 / 1000) in *. clearbody x.
    split; [zdiv|]. split; intros; zdiv.
  - destruct (scale_roundtrip n 1000000) as (H1 & H2 & H3); [lia..|].
    eexists _, _. split; [done|]. simpl. split.
    { rewrite arith_fits by lia. done. }
    unfold TICKS_PER_SECOND in *. set (x := n * 32768 / 1000000) in *. clearbody x.
    zdiv.
Qed.

Lemma duration_units_roundtrip_witness :
  let _ : Profile := true in
  (0 ≤ 7 ∧ 7 * TICKS_PER_SECOND < 2 ^ 64) ∧
  ∃ d m, Duration.from_millis 7 = Done d ∧ Duration.as_millis d = Done m ∧
         7 - 1 ≤ m ≤ 7 ∧ (m = 7 ↔ 7 mod 125 = 0).
Proof.
  split; [split; vm_compute; congruence|].
  apply (duration_units_roundtrip (P := true) 7); vm_compute; congruence.
Defined.

(** [Instant + Duration] on every branch: it panics exactly when the sum
    leaves [u64]; otherwise the result is in range, subtracting the duration
    gives the instant back, and the difference of the two instants is the
    duration, through the panicking, the checked and the saturating form. *)
Theorem instant_add_sub (i : Instant.t) (d : Duration.t) :
  Instant.wf i → Duration.wf d →
  match Instant.add i d with
  | Done j =>
      Instant.wf j ∧ Instant.sub j d = Done i ∧
      Instant.sub_instant j i = Done d ∧
      Instant.checked_duration_since j i = Some d ∧
      Instant.saturating_duration_since j i = d ∧
      (Duration.ticks d ≠ 0 →
         Instant.duration_since i j = Panic ∧
         Instant.checked_duration_since i j = None ∧
         Instant.saturating_duration_since i j = Duration.mk 0)
  | Panic => 2 ^ 64 ≤ Instant.ticks i + Duration.ticks d
  end.
Proof.
  destruct i as [i], d as [d]. unfold Instant.wf, Duration.wf. simpl. intros Hi Hd.
  unfold Instant.add, Instant.checked_add. simpl.
  destruct (decide (i + d < 2 ^ 64)).
  2:{ rewrite checked_out by lia. simpl. lia. }
  rewrite checked_in by lia. simpl.
  unfold Instant.sub, Instant.checked_sub, Instant.sub_instant,
    Instant.duration_since, Instant.checked_duration_since,
    Instant.saturating_duration_since. simpl.
  replace (i + d - d) with i by lia. replace (i + d - i) with d by lia.
  rewrite !checked_in by lia.
  destruct (Z.ltb_spec (i + d) i); [lia|]. simpl.
  do 5 (split; [done || lia|]). intros Hd0.
  rewrite checked_out by lia. destruct (Z.ltb_spec i (i + d)); [done|lia].
Qed.

Lemma instant_add_sub_witness :
  (Instant.wf (Instant.mk 5) ∧ Duration.wf (Duration.mk 9)) ∧
  Instant.sub (Instant.mk 14) (Duration.mk 9) = Done (Instant.mk 5).
Proof.
  split; [split; vm_compute; split; congruence|].
  refine (proj1 (proj2 (instant_add_sub (Instant.mk 5) (Duration.mk 9) _ _)));
    vm_compute; split; congruence.
Defined.
