(* ===== verification/Task.v ===== *)
(** * Task: task headers, the executors' memory and the effects of running it

    The data of [embassy/src/executor/raw.rs], [run_queue.rs], [timer_queue.rs]
    and [waker.rs]: a heap of statically allocated [Task]s addressed by pointers,
    the executors, and a small state monad over them.  A step that dereferences
    a pointer to no task, reads an uninitialised cell or runs out of fuel is
    [None]; the theorems show that it does not happen. *)
From S2P Require Import Prelude Time.
Local Open Scope Z_scope.

Abbreviation ptr := positive.
Abbreviation eid := positive.

(** ** The state word *)
Definition STATE_SPAWNED : Z := Z.shiftl 1 0.
Definition STATE_RUN_QUEUED : Z := Z.shiftl 1 1.
Definition STATE_TIMER_QUEUED : Z := Z.shiftl 1 2.

(** [state & FLAG != 0], [state | FLAG] and [state & !FLAG] on [u32]. *)
Definition has (flag s : Z) : bool := negb (Z.land s flag =? 0).
Definition fetch_or (flag s : Z) : Z := Z.lor s flag.
Definition fetch_and_not (flag s : Z) : Z :=
  Z.land s (Z.lxor flag (2 ^ 32 - 1)).

(** ** Task headers and tasks *)
Record TaskHeader : Type := mkTaskHeader {
  state : Z;
  run_queue_next : option ptr;
  expires_at : Instant.t;
  timer_queue_next : option ptr;
  executor : option eid
}.

Definition TaskHeader_new : TaskHeader :=
  mkTaskHeader 0 None (Instant.from_ticks 0) None None.

Definition set_state (f : Z → Z) (t : TaskHeader) : TaskHeader :=
  mkTaskHeader (f (state t)) (run_queue_next t) (expires_at t)
    (timer_queue_next t) (executor t).
Definition set_run_next (n : option ptr) (t : TaskHeader) : TaskHeader :=
  mkTaskHeader (state t) n (expires_at t) (timer_queue_next t) (executor t).
Definition set_expires (i : Instant.t) (t : TaskHeader) : TaskHeader :=
  mkTaskHeader (state t) (run_queue_next t) i (timer_queue_next t) (executor t).
Definition set_timer_next (n : option ptr) (t : TaskHeader) : TaskHeader :=
  mkTaskHeader (state t) (run_queue_next t) (expires_at t) n (executor t).
Definition set_executor (e : eid) (t : TaskHeader) : TaskHeader :=
  mkTaskHeader (state t) (run_queue_next t) (expires_at t)
    (timer_queue_next t) (Some e).

(** [Task<F>]: the header, and the cell holding the future; [None] is an
    uninitialised [UninitCell]. *)
Record Task (F : Type) : Type := mkTask { raw : TaskHeader; future : option F }.
Arguments mkTask {F} _ _.
Arguments raw {F} _.
Arguments future {F} _.

Definition Task_new {F} : Task F := mkTask TaskHeader_new None.

Definition upd_raw {F} (f : TaskHeader → TaskHeader) (t : Task F) : Task F :=
  mkTask (f (raw t)) (future t).

(** [raw::Executor]: the heads of its two queues, the context its signal
    function is called with, and whether an alarm is set. *)
Record Executor : Type := mkExecutor {
  run_queue : option ptr;
  timer_queue : option ptr;
  signal_ctx : Z;
  alarm : bool
}.

Definition Executor_new (ctx : Z) : Executor := mkExecutor None None ctx false.
Definition set_alarm (ex : Executor) : Executor :=
  mkExecutor (run_queue ex) (timer_queue ex) (signal_ctx ex) true.
Definition set_signal_ctx (ctx : Z) (ex : Executor) : Executor :=
  mkExecutor (run_queue ex) (timer_queue ex) ctx (alarm ex).
Definition set_run_head (h : option ptr) (ex : Executor) : Executor :=
  mkExecutor h (timer_queue ex) (signal_ctx ex) (alarm ex).
Definition set_timer_head (h : option ptr) (ex : Executor) : Executor :=
  mkExecutor (run_queue ex) h (signal_ctx ex) (alarm ex).

(** ** The world and its monad

    [U] is whatever state the futures share (signals, drivers); [trace] records
    the calls that leave the executor: the signal function, the alarm, and which
    task is polled. *)
Inductive Event : Type :=
| EvSignal (ctx : Z)
| EvSetCallback (e : eid) (ctx : Z)
| EvSetAlarm (e : eid) (timestamp : Z)
| EvPoll (p : ptr).

Record World (F U : Type) : Type := mkWorld {
  heap : gmap ptr (Task F);
  execs : gmap eid Executor;
  reads : nat;
  user : U;
  trace : list Event
}.
Arguments mkWorld {F U} _ _ _ _ _.
Arguments heap {F U} _.
Arguments execs {F U} _.
Arguments reads {F U} _.
Arguments user {F U} _.
Arguments trace {F U} _.

Definition M (F U A : Type) : Type := World F U → option (A * World F U).

Section monad.
Context {F U : Type}.
Implicit Types w : World F U.

#[export] Instance M_ret : MRet (M F U) := λ A a w, Some (a, w).
#[export] Instance M_bind : MBind (M F U) := λ A B f m w,
  match m w with Some (a, w') => f a w' | None => None end.

Lemma M_bind_inv {A B} (m : M F U A) (f : A → M F U B) w b w' :
  (m ≫= f) w = Some (b, w') → ∃ a w1, m w = Some (a, w1) ∧ f a w1 = Some (b, w').
Proof. unfold mbind, M_bind. destruct (m w) as [[a w1]|]; [eauto|done]. Qed.

(** Undefined behaviour or exhausted fuel. *)
Definition fail {A} : M F U A := λ _, None.

Definition with_heap (h : gmap ptr (Task F)) w : World F U :=
  mkWorld h (execs w) (reads w) (user w) (trace w).
Definition with_execs (x : gmap eid Executor) w : World F U :=
  mkWorld (heap w) x (reads w) (user w) (trace w).

Definition deref (p : ptr) : M F U (Task F) := λ w,
  match heap w !! p with Some t => Some (t, w) | None => None end.
Definition deref_mut (p : ptr) (f : Task F → Task F) : M F U unit := λ w,
  match heap w !! p with
  | Some t => Some (tt, with_heap (<[p := f t]> (heap w)) w)
  | None => None
  end.
Definition deref_exec (e : eid) : M F U Executor := λ w,
  match execs w !! e with Some x => Some (x, w) | None => None end.
Definition deref_exec_mut (e : eid) (f : Executor → Executor) : M F U unit := λ w,
  match execs w !! e with
  | Some x => Some (tt, with_execs (<[e := f x]> (execs w)) w)
  | None => None
  end.
Definition emit (ev : Event) : M F U unit := λ w,
  Some (tt, mkWorld (heap w) (execs w) (reads w) (user w) (trace w ++ [ev])).
Definition get_user : M F U U := λ w, Some (user w, w).
Definition put_user (u : U) : M F U unit := λ w,
  Some (tt, mkWorld (heap w) (execs w) (reads w) u (trace w)).

(** [Instant::now()]: the [n]-th reading of the clock set by [set_clock]. *)
Definition Instant_now_M (clock : nat → Z) : M F U Instant.t := λ w,
  Some (Instant.mk (clock (reads w)),
        mkWorld (heap w) (execs w) (S (reads w)) (user w) (trace w)).

End monad.

(** ** Flags *)
Lemma has_testbit k s : 0 ≤ k → has (Z.shiftl 1 k) s = Z.testbit s k.
Proof. intros Hk. unfold has. rewrite Z.shiftl_1_l. by apply land_bit. Qed.

Lemma has_or j k s : 0 ≤ j → 0 ≤ k →
  has (Z.shiftl 1 k) (fetch_or (Z.shiftl 1 j) s) =
  has (Z.shiftl 1 k) s || (j =? k).
Proof.
  intros. rewrite !has_testbit by done. unfold fetch_or.
  by rewrite Z.lor_spec, Z.shiftl_1_l, Z.pow2_bits_eqb.
Qed.

Lemma has_and_not j k s : 0 ≤ j < 32 → 0 ≤ k < 32 →
  has (Z.shiftl 1 k) (fetch_and_not (Z.shiftl 1 j) s) =
  has (Z.shiftl 1 k) s && negb (j =? k).
Proof.
  intros Hj Hk. rewrite !has_testbit by lia. unfold fetch_and_not.
  rewrite Z.land_spec, Z.lxor_spec, Z.shiftl_1_l, Z.pow2_bits_eqb by lia.
  replace (2 ^ 32 - 1) with (Z.ones 32) by reflexivity.
  rewrite Z.ones_spec_low by lia. by destruct (j =? k).
Qed.

(** The word holds nothing but the three flags. *)
Definition flags_only (s : Z) : Prop :=
  0 ≤ s ∧ ∀ k, 3 ≤ k → Z.testbit s k = false.

Lemma flags_only_0 : flags_only 0.
Proof. split; [done|]. intros. apply Z.bits_0. Qed.

Lemma flags_only_or j s : 0 ≤ j < 3 → flags_only s →
  flags_only (fetch_or (Z.shiftl 1 j) s).
Proof.
  intros Hj [H0 H]. unfold fetch_or. split.
  - apply Z.lor_nonneg. split; [done|]. rewrite Z.shiftl_nonneg. lia.
  - intros k Hk. rewrite Z.lor_spec, H, Z.shiftl_1_l, Z.pow2_bits_false; [done|lia..].
Qed.

Lemma flags_only_and_not j s : flags_only s →
  flags_only (fetch_and_not (Z.shiftl 1 j) s).
Proof.
  intros [H0 H]. unfold fetch_and_not. split.
  - apply Z.land_nonneg. by left.
  - intros k Hk. by rewrite Z.land_spec, H.
Qed.

Lemma flags_zero s : flags_only s →
  s = 0 ↔ has STATE_SPAWNED s = false ∧ has STATE_RUN_QUEUED s = false ∧
          has STATE_TIMER_QUEUED s = false.
Proof.
  intros [_ H]. unfold STATE_SPAWNED, STATE_RUN_QUEUED, STATE_TIMER_QUEUED.
  rewrite !has_testbit by lia. split; [by intros ->|]. intros (A & B & C).
  apply Z.bits_inj'. intros n Hn. rewrite Z.bits_0.
  destruct (decide (3 ≤ n)); [by apply H|].
  assert (n = 0 ∨ n = 1 ∨ n = 2) as [->|[->| ->]] by lia; done.
Qed.

Lemma has_or_spawned s f : f = STATE_RUN_QUEUED ∨ f = STATE_TIMER_QUEUED →
  has STATE_SPAWNED (fetch_or f s) = has STATE_SPAWNED s.
Proof.
  intros [-> | ->]; unfold STATE_SPAWNED, STATE_RUN_QUEUED, STATE_TIMER_QUEUED;
    rewrite has_or by lia; apply orb_false_r.
Qed.

(** Rewriting a flag of an updated word to the flags of the old word. *)
Lemma has_upd f g s :
  f ∈ [STATE_SPAWNED; STATE_RUN_QUEUED; STATE_TIMER_QUEUED] →
  g ∈ [STATE_SPAWNED; STATE_RUN_QUEUED; STATE_TIMER_QUEUED] →
  has g (fetch_or f s) = has g s || (f =? g) ∧
  has g (fetch_and_not f s) = has g s && negb (f =? g).
Proof.
  unfold STATE_SPAWNED, STATE_RUN_QUEUED, STATE_TIMER_QUEUED.
  intros Hf Hg. rewrite !list_elem_of_In in Hf, Hg. simpl in Hf, Hg.
  destruct Hf as [<-|[<-|[<-|[]]]], Hg as [<-|[<-|[<-|[]]]];
    rewrite has_or, has_and_not by lia; done.
Qed.

(** ** Weakest preconditions

    [wp m w Φ]: started in [w], the step [m] neither misbehaves nor runs out of
    fuel, and its result satisfies [Φ]. *)
Section wp.
Context {F U : Type}.
Implicit Types w : World F U.

Definition wp {A} (m : M F U A) w (Φ : A → World F U → Prop) : Prop :=
  match m w with Some (a, w') => Φ a w' | None => False end.

Lemma wp_run {A} (m : M F U A) w Φ :
  wp m w Φ ↔ ∃ a w', m w = Some (a, w') ∧ Φ a w'.
Proof.
  unfold wp. destruct (m w) as [[a w']|]; split.
  - eauto.
  - by intros (? & ? & [= <- <-] & ?).
  - done.
  - by intros (? & ? & ? & _).
Qed.

Lemma wp_ret {A} (a : A) w (Φ : A → World F U → Prop) : Φ a w → wp (mret a) w Φ.
Proof. done. Qed.

Lemma wp_bind {A B} (m : M F U A) (f : A → M F U B) w Φ :
  wp m w (λ a w', wp (f a) w' Φ) → wp (m ≫= f) w Φ.
Proof.
  unfold wp, mbind, M_bind. by destruct (m w) as [[a w']|].
Qed.

Lemma wp_mono {A} (m : M F U A) w (Φ Ψ : A → World F U → Prop) :
  wp m w Φ → (∀ a w', Φ a w' → Ψ a w') → wp m w Ψ.
Proof. unfold wp. destruct (m w) as [[a w']|]; auto. Qed.

Lemma wp_conj {A} (m : M F U A) w (Φ Ψ : A → World F U → Prop) :
  wp m w Φ → (∀ a w', m w = Some (a, w') → Ψ a w') → wp m w (λ a w', Φ a w' ∧ Ψ a w').
Proof. unfold wp. destruct (m w) as [[a w']|]; auto. Qed.

Lemma wp_deref p t w Φ : heap w !! p = Some t → Φ t w → wp (deref p) w Φ.
Proof. intros E H. unfold wp, deref. by rewrite E. Qed.

Lemma wp_deref_mut p f t w (Φ : unit → World F U → Prop) :
  heap w !! p = Some t → Φ tt (with_heap (<[p := f t]> (heap w)) w) →
  wp (deref_mut p f) w Φ.
Proof. intros E H. unfold wp, deref_mut. by rewrite E. Qed.

Lemma wp_deref_exec e x w Φ : execs w !! e = Some x → Φ x w → wp (deref_exec e) w Φ.
Proof. intros E H. unfold wp, deref_exec. by rewrite E. Qed.

Lemma wp_deref_exec_mut e f x w (Φ : unit → World F U → Prop) :
  execs w !! e = Some x → Φ tt (with_execs (<[e := f x]> (execs w)) w) →
  wp (deref_exec_mut e f) w Φ.
Proof. intros E H. unfold wp, deref_exec_mut. by rewrite E. Qed.

Definition ticked w : World F U :=
  mkWorld (heap w) (execs w) (S (reads w)) (user w) (trace w).
Definition emitted (ev : Event) w : World F U :=
  mkWorld (heap w) (execs w) (reads w) (user w) (trace w ++ [ev]).
Definition with_user (u : U) w : World F U :=
  mkWorld (heap w) (execs w) (reads w) u (trace w).

Lemma wp_now clock w (Φ : Instant.t → World F U → Prop) :
  Φ (Instant.mk (clock (reads w))) (ticked w) → wp (Instant_now_M clock) w Φ.
Proof. done. Qed.

Lemma wp_emit ev w (Φ : unit → World F U → Prop) :
  Φ tt (emitted ev w) → wp (emit ev) w Φ.
Proof. done. Qed.

Lemma wp_get_user w (Φ : U → World F U → Prop) : Φ (user w) w → wp get_user w Φ.
Proof. done. Qed.

Lemma wp_put_user u w (Φ : unit → World F U → Prop) :
  Φ tt (with_user u w) → wp (put_user u) w Φ.
Proof. done. Qed.

(** *** Pointer-linked lists

    [links nx l]: following [nx] from each element of [l] gives the next one, and
    null after the last. *)
Fixpoint links (nx : ptr → option (option ptr)) (l : list ptr) : Prop :=
  match l with
  | [] => True
  | p :: l' => nx p = Some (head l') ∧ links nx l'
  end.

Lemma links_ext nx nx' l :
  links nx l → (∀ p, p ∈ l → nx' p = nx p) → links nx' l.
Proof.
  induction l as [|p l IH]; simpl; [done|]. intros [H1 H2] E. split.
  - rewrite E; [done|]. apply list_elem_of_here.
  - apply IH; [done|]. intros q Hq. apply E. by apply list_elem_of_further.
Qed.

Lemma links_app nx l1 l2 :
  links nx (l1 ++ l2) → links nx l2.
Proof. induction l1; simpl; [done|]. by intros [_ ?]; auto. Qed.

Definition run_next_of w (p : ptr) : option (option ptr) :=
  (λ t, run_queue_next (raw t)) <$> heap w !! p.
Definition timer_next_of w (p : ptr) : option (option ptr) :=
  (λ t, timer_queue_next (raw t)) <$> heap w !! p.

End wp.
