(* ===== verification/RunQueue.v ===== *)
(** * RunQueue: the executor's run queue, run without interference

    [embassy/src/executor/run_queue.rs].  The queue is a list threaded through
    the headers; this file gives its meaning when nobody else touches the head
    meanwhile, [RunQueueConc] runs the same operations interleaved. *)
From S2P Require Import Prelude Time Task.

Section run_queue.
Context {F U : Type}.
Implicit Types w : World F U.

(** [RunQueue::enqueue]: returns whether the queue was empty.  Without
    interference the compare-exchange succeeds with the head just loaded. *)
Definition RunQueue_enqueue (e : eid) (item : ptr) : M F U bool :=
  ex ← deref_exec e;
  let prev := run_queue ex in
  _ ← deref_mut item (upd_raw (set_run_next prev));
  _ ← deref_exec_mut e (set_run_head (Some item));
  mret (bool_decide (prev = None)).

(** The [while] loop of [dequeue_all]. *)
Fixpoint dequeue_loop (fuel : nat) (task : option ptr) (on_task : ptr → M F U unit)
    : M F U unit :=
  match task with
  | None => mret tt
  | Some p =>
      match fuel with
      | O => fail
      | S n =>
          t ← deref p;
          let next := run_queue_next (raw t) in
          _ ← on_task p;
          dequeue_loop n next on_task
      end
  end.

Definition heap_size : M F U nat := λ w, Some (size (heap w), w).

(** [RunQueue::dequeue_all].  A batch visits no task twice, so the number of
    tasks bounds its length. *)
Definition RunQueue_dequeue_all (e : eid) (on_task : ptr → M F U unit) : M F U unit :=
  ex ← deref_exec e;
  let task := run_queue ex in
  _ ← deref_exec_mut e (set_run_head None);
  n ← heap_size;
  dequeue_loop n task on_task.

Lemma RunQueue_enqueue_run e p ex t w :
  execs w !! e = Some ex → heap w !! p = Some t →
  RunQueue_enqueue e p w =
  Some (bool_decide (run_queue ex = None),
        mkWorld (<[p := upd_raw (set_run_next (run_queue ex)) t]> (heap w))
          (<[e := set_run_head (Some p) ex]> (execs w)) (reads w) (user w) (trace w)).
Proof.
  intros He Hp. unfold RunQueue_enqueue, mbind, M_bind, deref_exec.
  rewrite He. unfold deref_mut. rewrite Hp. unfold deref_exec_mut. simpl.
  by rewrite He.
Qed.

(** The batch loop: [P l w] holds of the tasks still to visit and the world. *)
Lemma wp_dequeue_loop (P : list ptr → World F U → Prop) on_task l fuel w :
  (∀ p l w, P (p :: l) w → run_next_of w p = Some (head l)) →
  (∀ p l w, P (p :: l) w → wp (on_task p) w (λ _ w', P l w')) →
  length l ≤ fuel → P l w →
  wp (dequeue_loop fuel (head l) on_task) w (λ _ w', P [] w').
Proof.
  intros Hnext Hstep. revert l w.
  induction fuel as [|n IH]; intros [|p l] w Hlen HP; simpl in Hlen;
    simpl; [by apply wp_ret|lia|by apply wp_ret|].
  pose proof (Hnext _ _ _ HP) as Hn. unfold run_next_of in Hn.
  destruct (heap w !! p) as [t|] eqn:Hp; simpl in Hn; [|done].
  injection Hn as Hn.
  apply wp_bind. eapply wp_deref; [done|]. simpl.
  apply wp_bind. eapply wp_mono; [by apply Hstep|]. intros ? w1 HP1.
  rewrite Hn. apply IH; [lia|done].
Qed.

End run_queue.
