(* ===== verification/TimerQueue.v ===== *)
(** * TimerQueue: the executor's timer queue

    [embassy/src/executor/timer_queue.rs]: a singly linked list threaded through
    the headers, walked by [retain] with a cursor on the cell that points to the
    current task. *)
From S2P Require Import Prelude Time Task RunQueue.

Section timer_queue.
Context {F U : Type}.
Implicit Types w : World F U.

(** [TimerQueue::update]. *)
Definition TimerQueue_update (e : eid) (p : ptr) : M F U unit :=
  task ← deref p;
  if bool_decide (expires_at (raw task) ≠ Instant.MAX) then
    let old_state := state (raw task) in
    _ ← deref_mut p (upd_raw (set_state (fetch_or STATE_TIMER_QUEUED)));
    let is_new := negb (has STATE_TIMER_QUEUED old_state) in
    if is_new then
      ex ← deref_exec e;
      _ ← deref_mut p (upd_raw (set_timer_next (timer_queue ex)));
      deref_exec_mut e (set_timer_head (Some p))
    else mret tt
  else mret tt.

(** The cells [retain]'s [prev] points to: the head, or a task's [next]. *)
Inductive cell : Type :=
| Head
| Next (p : ptr).

Definition cell_get (e : eid) (c : cell) : M F U (option ptr) :=
  match c with
  | Head => ex ← deref_exec e; mret (timer_queue ex)
  | Next p => t ← deref p; mret (timer_queue_next (raw t))
  end.
Definition cell_set (e : eid) (c : cell) (v : option ptr) : M F U unit :=
  match c with
  | Head => deref_exec_mut e (set_timer_head v)
  | Next p => deref_mut p (upd_raw (set_timer_next v))
  end.

(** The [while] loop of [retain]; [S] is what the [FnMut] captures. *)
Fixpoint retain_loop {S} (fuel : nat) (e : eid) (f : ptr → S → M F U (bool * S))
    (prev : cell) (s : S) : M F U S :=
  match fuel with
  | O => fail
  | Datatypes.S n =>
      h ← cell_get e prev;
      match h with
      | None => mret s
      | Some p =>
          '(keep, s') ← f p s;
          if keep : bool then retain_loop n e f (Next p) s'
          else
            task ← deref p;
            _ ← cell_set e prev (timer_queue_next (raw task));
            _ ← deref_mut p (upd_raw (set_state (fetch_and_not STATE_TIMER_QUEUED)));
            retain_loop n e f prev s'
      end
  end.

Definition TimerQueue_retain {S} (e : eid) (f : ptr → S → M F U (bool * S)) (s : S)
    : M F U S :=
  n ← heap_size;
  retain_loop (Datatypes.S n) e f Head s.

(** [TimerQueue::next_expiration]. *)
Definition TimerQueue_next_expiration (e : eid) : M F U Instant.t :=
  TimerQueue_retain e (λ p res,
    task ← deref p;
    let expires := expires_at (raw task) in
    mret (bool_decide (expires ≠ Instant.MAX), Instant.min res expires))
  Instant.MAX.

(** [TimerQueue::dequeue_expired]. *)
Definition TimerQueue_dequeue_expired (e : eid) (now : Instant.t)
    (on_task : ptr → M F U unit) : M F U unit :=
  TimerQueue_retain e (λ p s,
    task ← deref p;
    if Instant.leb (expires_at (raw task)) now
    then _ ← on_task p; mret (false, s)
    else mret (true, s))
  tt.

End timer_queue.
