(* ===== verification/Executor.v ===== *)
(** * Executor: tasks, wakers and the raw executor

    [embassy/src/executor/raw.rs], [waker.rs] and the spawners of [mod.rs], run
    without interference from interrupts.  The futures are programs over the
    executor's interface: they may wake tasks, read the clock, register the
    timer of their own task, and spawn. *)
From S2P Require Import Prelude Time Task RunQueue TimerQueue.
Local Open Scope Z_scope.

(** ** What a future may do while it is polled *)
Inductive Prog (F A : Type) : Type :=
| PRet (a : A)
| PWake (t : ptr) (k : Prog F A)
| PNow (k : Instant.t → Prog F A)
| PRegisterTimer (at_ : Instant.t) (k : Prog F A)
| PSpawn (e : eid) (pool : list ptr) (fut : F) (k : bool → Prog F A).
Arguments PRet {F A} _.
Arguments PWake {F A} _ _.
Arguments PNow {F A} _.
Arguments PRegisterTimer {F A} _ _.
Arguments PSpawn {F A} _ _ _ _.

Fixpoint PBind {F A B} (m : Prog F A) (f : A → Prog F B) : Prog F B :=
  match m with
  | PRet a => f a
  | PWake t k => PWake t (PBind k f)
  | PNow k => PNow (λ i, PBind (k i) f)
  | PRegisterTimer i k => PRegisterTimer i (PBind k f)
  | PSpawn e pool fut k => PSpawn e pool fut (λ b, PBind (k b) f)
  end.

Section executor.
Context {F U : Type}.
(** [Future::poll] of every future: what it does, its next state, the shared
    state it leaves, and whether it is ready. *)
Context (fut_poll : F → U → Prog F (F * U * Poll unit)).
(** The readings of the clock passed to [set_clock]. *)
Context (clock : nat → Z).

(** ** Waking *)

(** [Executor::enqueue]. *)
Definition Executor_enqueue (e : eid) (item : ptr) : M F U unit :=
  was_empty ← RunQueue_enqueue e item;
  if was_empty : bool then
    ex ← deref_exec e; emit (EvSignal (signal_ctx ex))
  else mret tt.

(** [TaskHeader::enqueue]. *)
Definition TaskHeader_enqueue (self : ptr) : M F U unit :=
  t ← deref self;
  let current := state (raw t) in
  if has STATE_RUN_QUEUED current || negb (has STATE_SPAWNED current) then mret tt
  else
    _ ← deref_mut self (upd_raw (set_state (fetch_or STATE_RUN_QUEUED)));
    match executor (raw t) with
    | Some e => Executor_enqueue e self
    | None => fail
    end.

(** [raw::wake_task], the [wake] entry of the waker's virtual table. *)
Definition wake_task (task : ptr) : M F U unit := TaskHeader_enqueue task.

(** [raw::register_timer]. *)
Definition register_timer (at_ : Instant.t) (task : ptr) : M F U unit :=
  t ← deref task;
  deref_mut task (upd_raw (set_expires (Instant.min (expires_at (raw t)) at_))).

(** ** Spawning *)

(** [Task::spawn_allocate]: compare-exchange of the state from 0. *)
Definition spawn_allocate (self : ptr) : M F U bool :=
  t ← deref self;
  if state (raw t) =? 0 then
    _ ← deref_mut self
      (upd_raw (set_state (λ _, Z.lor STATE_SPAWNED STATE_RUN_QUEUED)));
    mret true
  else mret false.

(** [Task::spawn_initialize]; the token is the pointer. *)
Definition spawn_initialize (self : ptr) (fut : F) : M F U (option ptr) :=
  _ ← deref_mut self (λ t, mkTask (raw t) (Some fut));
  mret (Some self).

(** [Task::spawn]. *)
Definition Task_spawn (self : ptr) (fut : F) : M F U (option ptr) :=
  ok ← spawn_allocate self;
  if ok : bool then spawn_initialize self fut else mret None.

(** [Task::spawn_pool]. *)
Fixpoint Task_spawn_pool (pool : list ptr) (fut : F) : M F U (option ptr) :=
  match pool with
  | [] => mret None
  | task :: pool' =>
      ok ← spawn_allocate task;
      if ok : bool then spawn_initialize task fut else Task_spawn_pool pool' fut
  end.

(** [raw::Executor::spawn]. *)
Definition Executor_spawn (self : eid) (task : ptr) : M F U unit :=
  _ ← deref_mut task (upd_raw (set_executor self));
  Executor_enqueue self task.

Inductive SpawnError : Type := Busy.

(** [Spawner::spawn]; [SendSpawner::spawn] has the same body. *)
Definition Spawner_spawn (self : eid) (token : option ptr)
    : M F U (Result unit SpawnError) :=
  match token with
  | Some task => _ ← Executor_spawn self task; mret (Ok tt)
  | None => mret (Err Busy)
  end.
Definition SendSpawner_spawn (self : eid) (token : option ptr)
    : M F U (Result unit SpawnError) :=
  match token with
  | Some header => _ ← Executor_spawn self header; mret (Ok tt)
  | None => mret (Err Busy)
  end.

(** ** Polling *)

(** A future's program, run on behalf of the task [p] it belongs to. *)
Fixpoint interp {A} (p : ptr) (prog : Prog F A) : M F U A :=
  match prog with
  | PRet a => mret a
  | PWake t k => _ ← wake_task t; interp p k
  | PNow k => i ← Instant_now_M clock; interp p (k i)
  | PRegisterTimer i k => _ ← register_timer i p; interp p k
  | PSpawn e pool fut k =>
      token ← Task_spawn_pool pool fut;
      r ← Spawner_spawn e token;
      interp p (k match r with Ok _ => true | Err _ => false end)
  end.

(** [Task::poll]. *)
Definition Task_poll (p : ptr) : M F U unit :=
  _ ← emit (EvPoll p);
  this ← deref p;
  match future this with
  | None => fail
  | Some fut =>
      u ← get_user;
      r ← interp p (fut_poll fut u);
      let '(fut', u', res) := r in
      _ ← put_user u';
      match res with
      | Ready _ =>
          _ ← deref_mut p (λ t, mkTask (raw t) None);
          deref_mut p (upd_raw (set_state (fetch_and_not STATE_SPAWNED)))
      | Pending => deref_mut p (λ t, mkTask (raw t) (Some fut'))
      end
  end.

(** The closure [run_queued] passes to [dequeue_all]. *)
Definition run_task (e : eid) (p : ptr) : M F U unit :=
  _ ← deref_mut p (upd_raw (set_expires Instant.MAX));
  task ← deref p;
  let st := state (raw task) in
  _ ← deref_mut p (upd_raw (set_state (fetch_and_not STATE_RUN_QUEUED)));
  if negb (has STATE_SPAWNED st) then mret tt
  else
    _ ← Task_poll p;
    TimerQueue_update e p.

(** [raw::Executor::run_queued]. *)
Definition run_queued (self : eid) : M F U unit :=
  ex ← deref_exec self;
  _ ← (if alarm ex then
         now ← Instant_now_M clock;
         TimerQueue_dequeue_expired self now TaskHeader_enqueue
       else mret tt);
  _ ← RunQueue_dequeue_all self (run_task self);
  if alarm ex then
    next_expiration ← TimerQueue_next_expiration self;
    _ ← emit (EvSetCallback self (signal_ctx ex));
    emit (EvSetAlarm self (Instant.as_ticks next_expiration))
  else mret tt.

End executor.
