(* ===== verification/ExecutorInv.v ===== *)
(** * ExecutorInv: the invariant of the executors' memory

    What the unsafe code of [embassy/src/executor] relies on: which tasks the
    run queues and timer queues hold, and how that is reflected in the state
    words.  [rq]/[tq] give the contents of the queues of every executor, [held]
    is the part of a batch that [dequeue_all] has taken off a run queue and not
    visited yet, [cur] the task being polled. *)
From stdpp Require Import functions.
From S2P Require Import Prelude Time Task RunQueue TimerQueue Executor.
Local Open Scope Z_scope.

Section inv.
Context {F U : Type}.
Implicit Types w : World F U.
Implicit Types rq tq : eid → list ptr.

Definition spawned (t : Task F) : bool := has STATE_SPAWNED (state (raw t)).
Definition run_queued_flag (t : Task F) : bool := has STATE_RUN_QUEUED (state (raw t)).
Definition timer_queued_flag (t : Task F) : bool := has STATE_TIMER_QUEUED (state (raw t)).

Record task_inv (rq tq : eid → list ptr) (held : list ptr) (cur : option ptr)
    (p : ptr) (t : Task F) : Prop := {
  ti_flags : flags_only (state (raw t));
  ti_future : spawned t = true → is_Some (future t);
  ti_executor : state (raw t) ≠ 0 → is_Some (executor (raw t));
  ti_run : run_queued_flag t = true →
    p ∈ held ∨ ∃ e, executor (raw t) = Some e ∧ p ∈ rq e;
  ti_timer : timer_queued_flag t = true →
    ∃ e, executor (raw t) = Some e ∧ p ∈ tq e;
  ti_pending : cur ≠ Some p → state (raw t) ≠ 0 → run_queued_flag t = false →
    expires_at (raw t) ≠ Instant.MAX → timer_queued_flag t = true
}.

Record Inv w (rq tq : eid → list ptr) (held : list ptr) (cur : option ptr) : Prop := {
  inv_task : ∀ p t, heap w !! p = Some t → task_inv rq tq held cur p t;
  inv_exec_valid : ∀ p t e, heap w !! p = Some t → executor (raw t) = Some e →
    is_Some (execs w !! e);
  inv_rq : ∀ e p, p ∈ rq e → ∃ t, heap w !! p = Some t ∧
    run_queued_flag t = true ∧ executor (raw t) = Some e ∧ p ∉ held;
  inv_held : ∀ p, p ∈ held → ∃ t, heap w !! p = Some t ∧ run_queued_flag t = true;
  inv_tq : ∀ e p, p ∈ tq e → ∃ t, heap w !! p = Some t ∧
    timer_queued_flag t = true ∧ executor (raw t) = Some e;
  inv_rq_nodup : ∀ e, NoDup (rq e);
  inv_tq_nodup : ∀ e, NoDup (tq e);
  inv_held_nodup : NoDup held;
  inv_exec : ∀ e ex, execs w !! e = Some ex →
    run_queue ex = head (rq e) ∧ timer_queue ex = head (tq e);
  inv_rq_links : ∀ e, links (run_next_of w) (rq e);
  inv_tq_links : ∀ e, links (timer_next_of w) (tq e);
  inv_held_links : links (run_next_of w) held
}.

(** ** Updates that leave both queues alone *)

Lemma run_next_of_insert w p (t : Task F) h q :
  heap w = <[p := t]> h →
  run_next_of w q = if decide (p = q) then Some (run_queue_next (raw t))
                    else (λ t, run_queue_next (raw t)) <$> h !! q.
Proof.
  intros E. unfold run_next_of. rewrite E, lookup_insert. by case_decide.
Qed.

Lemma timer_next_of_insert w p (t : Task F) h q :
  heap w = <[p := t]> h →
  timer_next_of w q = if decide (p = q) then Some (timer_queue_next (raw t))
                      else (λ t, timer_queue_next (raw t)) <$> h !! q.
Proof.
  intros E. unfold timer_next_of. rewrite E, lookup_insert. by case_decide.
Qed.

Lemma task_inv_cur rq tq held cur cur' p t :
  task_inv rq tq held cur p t →
  (cur = cur' ∨ cur ≠ Some p) →
  task_inv rq tq held cur' p t.
Proof.
  intros [H1 H2 H3 H4 H5 H6] Hc. split; try done. intros Hne.
  destruct Hc as [->|Hc]; auto.
Qed.

(** The invariant is about the heap and the executors only. *)
Lemma Inv_same w w' rq tq held cur :
  heap w' = heap w → execs w' = execs w → Inv w rq tq held cur → Inv w' rq tq held cur.
Proof.
  intros Hh He []. split; unfold run_next_of, timer_next_of in *; rewrite ?Hh, ?He; done.
Qed.

(** A task that keeps its place in both queues may change the rest. *)
Lemma Inv_update w w' rq tq held cur cur' p t t' :
  Inv w rq tq held cur →
  heap w !! p = Some t →
  heap w' = <[p := t']> (heap w) → execs w' = execs w →
  run_queue_next (raw t') = run_queue_next (raw t) →
  timer_queue_next (raw t') = timer_queue_next (raw t) →
  executor (raw t') = executor (raw t) →
  run_queued_flag t' = run_queued_flag t →
  timer_queued_flag t' = timer_queued_flag t →
  task_inv rq tq held cur' p t' →
  (∀ q, q ≠ p → cur = cur' ∨ cur ≠ Some q) →
  Inv w' rq tq held cur'.
Proof.
  intros I Hp Hh He Hr Ht Hx Hrf Htf Hti Hcur.
  assert (Hrun : ∀ q, run_next_of w' q = run_next_of w q).
  { intros q. erewrite run_next_of_insert by done. case_decide; [subst|done].
    unfold run_next_of. by rewrite Hp, Hr. }
  assert (Htim : ∀ q, timer_next_of w' q = timer_next_of w q).
  { intros q. erewrite timer_next_of_insert by done. case_decide; [subst|done].
    unfold timer_next_of. by rewrite Hp, Ht. }
  assert (Hlk : ∀ q u, heap w !! q = Some u → ∃ u', heap w' !! q = Some u' ∧
    executor (raw u') = executor (raw u) ∧
    run_queued_flag u' = run_queued_flag u ∧
    timer_queued_flag u' = timer_queued_flag u).
  { intros q u Hq. rewrite Hh, lookup_insert. case_decide; [subst|by eauto].
    rewrite Hp in Hq. injection Hq as <-. eauto. }
  split.
  - intros q u. rewrite Hh, lookup_insert. case_decide; [intros [= <-]; by subst|].
    intros Hq. eapply task_inv_cur; [by eapply inv_task|]. by apply Hcur.
  - intros q u e. rewrite Hh, lookup_insert, He. case_decide.
    + subst. intros [= <-]. rewrite Hx. by eapply inv_exec_valid.
    + by eapply inv_exec_valid.
  - intros e q Hq. destruct (inv_rq _ _ _ _ _ I e q Hq) as (u & Hu & ? & ? & ?).
    destruct (Hlk _ _ Hu) as (u' & ? & E1 & E2 & E3).
    exists u'. by rewrite E1, E2.
  - intros q Hq. destruct (inv_held _ _ _ _ _ I q Hq) as (u & Hu & ?).
    destruct (Hlk _ _ Hu) as (u' & ? & E1 & E2 & E3). exists u'. by rewrite E2.
  - intros e q Hq. destruct (inv_tq _ _ _ _ _ I e q Hq) as (u & Hu & ? & ?).
    destruct (Hlk _ _ Hu) as (u' & ? & E1 & E2 & E3). exists u'. by rewrite E1, E3.
  - apply I.
  - apply I.
  - apply I.
  - rewrite He. apply I.
  - intros e. eapply links_ext; [apply I|]. auto.
  - intros e. eapply links_ext; [apply I|]. auto.
  - eapply links_ext; [apply I|]. auto.
Qed.

Lemma Inv_uncur w rq tq held p t :
  Inv w rq tq held (Some p) → heap w !! p = Some t →
  task_inv rq tq held None p t → Inv w rq tq held None.
Proof.
  intros I Hp Ht. eapply (Inv_update w w rq tq held (Some p) None p t t); try done.
  - by rewrite insert_id.
  - intros q Hq. right. congruence.
Qed.

(** ** Joining a run queue *)

Lemma not_queued_not_in w rq tq held cur p t :
  Inv w rq tq held cur → heap w !! p = Some t → run_queued_flag t = false →
  (p ∉ held) ∧ (∀ e, p ∉ rq e).
Proof.
  intros I Hp Hf. split.
  - intros Hin. destruct (inv_held _ _ _ _ _ I p Hin) as (? & ? & ?). congruence.
  - intros e Hin. destruct (inv_rq _ _ _ _ _ I e p Hin) as (? & ? & ? & _). congruence.
Qed.

Lemma not_timer_queued_not_in w rq tq held cur p t :
  Inv w rq tq held cur → heap w !! p = Some t → timer_queued_flag t = false →
  ∀ e, p ∉ tq e.
Proof.
  intros I Hp Hf e Hin. destruct (inv_tq _ _ _ _ _ I e p Hin) as (? & ? & ? & _).
  congruence.
Qed.

(** The queue of executor [e] with [p] put in front. *)
Definition push (f : eid → list ptr) (e : eid) (p : ptr) : eid → list ptr :=
  <[e := p :: f e]> f.

Lemma push_eq f e p : push f e p e = p :: f e.
Proof. apply fn_lookup_insert. Qed.

Lemma push_ne f e e' p : e ≠ e' → push f e p e' = f e'.
Proof. apply fn_lookup_insert_ne. Qed.

Lemma elem_of_push f e e' p q :
  q ∈ push f e p e' ↔ (e = e' ∧ q = p) ∨ q ∈ f e'.
Proof.
  destruct (decide (e = e')) as [->|].
  - rewrite push_eq, elem_of_cons. split; [intros [->|?]; auto|intros [[_ ->]|?]; auto].
  - rewrite push_ne by done. split; [auto|]. by intros [[]|].
Qed.

Lemma Inv_push_rq w w' rq tq held cur p t t' e ex :
  Inv w rq tq held cur →
  heap w !! p = Some t → run_queued_flag t = false → execs w !! e = Some ex →
  heap w' = <[p := t']> (heap w) →
  execs w' = <[e := set_run_head (Some p) ex]> (execs w) →
  run_queued_flag t' = true → run_queue_next (raw t') = run_queue ex →
  executor (raw t') = Some e →
  timer_queue_next (raw t') = timer_queue_next (raw t) →
  timer_queued_flag t' = timer_queued_flag t →
  (timer_queued_flag t = true → executor (raw t) = Some e) →
  flags_only (state (raw t')) → is_Some (future t') →
  Inv w' (push rq e p) tq held cur.
Proof.
  intros I Hp Hf Hex Hh He Hf' Hn Hx Ht Htf Htx Hfl Hfut.
  destruct (not_queued_not_in _ _ _ _ _ _ _ I Hp Hf) as [Hheld Hrq].
  destruct (inv_exec _ _ _ _ _ I e ex Hex) as [Hhead Hthead].
  assert (Hlk : ∀ q u, q ≠ p → heap w !! q = Some u → heap w' !! q = Some u).
  { intros q u Hq. by rewrite Hh, lookup_insert_ne. }
  assert (Hself : heap w' !! p = Some t') by by rewrite Hh, lookup_insert_eq.
  assert (Hrn : ∀ q, q ≠ p → run_next_of w' q = run_next_of w q).
  { intros q Hq. unfold run_next_of. by rewrite Hh, lookup_insert_ne. }
  assert (Htn : ∀ q, timer_next_of w' q = timer_next_of w q).
  { intros q. erewrite timer_next_of_insert by done. case_decide; [subst|done].
    unfold timer_next_of. by rewrite Hp, Ht. }
  split.
  - intros q u Hq. destruct (decide (q = p)) as [->|Hne].
    + rewrite Hself in Hq. injection Hq as <-. split; try done.
      * intros _. right. exists e. split; [done|]. apply elem_of_push. by left.
      * rewrite Htf. intros Htrue.
        destruct (ti_timer _ _ _ _ _ _ (inv_task _ _ _ _ _ I _ _ Hp) Htrue) as (e' & Hx' & Hin).
        rewrite Htx in Hx' by done. injection Hx' as <-. eauto.
      * congruence.
    + rewrite Hh, lookup_insert_ne in Hq by done.
      destruct (inv_task _ _ _ _ _ I q u Hq) as [? ? ? Hr ? ?]. split; try done.
      intros Hu. destruct (Hr Hu) as [?|(e' & ? & ?)]; [by left|].
      right. exists e'. split; [done|]. apply elem_of_push. by right.
  - intros q u e' Hq Hu. rewrite He, lookup_insert_is_Some.
    destruct (decide (e = e')); [by left|right; split; [done|]].
    rewrite Hh, lookup_insert in Hq. case_decide.
    + injection Hq as <-. congruence.
    + by eapply inv_exec_valid.
  - intros e' q. rewrite elem_of_push. intros [[<- ->]|Hq]; [by eauto|].
    destruct (inv_rq _ _ _ _ _ I e' q Hq) as (u & Hu & ? & ? & ?).
    exists u. split; [|done]. apply Hlk; [|done]. intros ->. by apply (Hrq e').
  - intros q Hq. destruct (inv_held _ _ _ _ _ I q Hq) as (u & Hu & ?).
    exists u. split; [|done]. apply Hlk; [|done]. by intros ->.
  - intros e' q Hq. destruct (inv_tq _ _ _ _ _ I e' q Hq) as (u & Hu & Hu1 & Hu2).
    destruct (decide (q = p)) as [->|]; [|by eauto].
    rewrite Hp in Hu. injection Hu as <-. exists t'. split; [done|].
    rewrite Htf. split; [done|]. rewrite Hx. rewrite Htx in Hu2 by done. done.
  - intros e'. destruct (decide (e = e')) as [<-|].
    + rewrite push_eq. constructor; [apply Hrq|apply I].
    + rewrite push_ne by done. apply I.
  - apply I.
  - apply I.
  - intros e' ex'. rewrite He, lookup_insert. case_decide.
    + subst. intros [= <-]. simpl. by rewrite push_eq.
    + rewrite push_ne by done. apply I.
  - intros e'. destruct (decide (e = e')) as [<-|].
    + rewrite push_eq. simpl. split.
      * unfold run_next_of. rewrite Hself. simpl. by rewrite Hn, Hhead.
      * eapply links_ext; [apply I|]. intros q Hq. apply Hrn.
        intros ->. by apply (Hrq e).
    + rewrite push_ne by done. eapply links_ext; [apply I|].
      intros q Hq. apply Hrn. intros ->. by apply (Hrq e').
  - intros e'. eapply links_ext; [apply I|]. auto.
  - eapply links_ext; [apply I|]. intros q Hq. apply Hrn. by intros ->.
Qed.

(** ** Taking a batch off a run queue *)

Lemma Inv_take w w' rq tq e ex :
  Inv w rq tq [] None → execs w !! e = Some ex →
  heap w' = heap w → execs w' = <[e := set_run_head None ex]> (execs w) →
  Inv w' (<[e := []]> rq) tq (rq e) None.
Proof.
  intros I Hex Hh He.
  assert (Hrn : run_next_of w' = run_next_of w) by (unfold run_next_of; by rewrite Hh).
  assert (Htn : timer_next_of w' = timer_next_of w)
    by (unfold timer_next_of; by rewrite Hh).
  split; rewrite ?Hh, ?Hrn, ?Htn; try apply I.
  - intros p t Hp. destruct (inv_task _ _ _ _ _ I p t Hp) as [? ? ? Hr ? ?].
    split; try done. intros Hf. destruct (Hr Hf) as [Hnil|(e' & Hx & Hin)].
    { by apply not_elem_of_nil in Hnil. }
    destruct (decide (e = e')) as [<-|]; [by left|right]. exists e'.
    by rewrite fn_lookup_insert_ne.
  - intros p t e' Hp Hx. rewrite He, lookup_insert_is_Some.
    destruct (decide (e = e')); [by left|right; split; [done|]].
    by eapply inv_exec_valid.
  - intros e' p. destruct (decide (e = e')) as [<-|].
    { rewrite fn_lookup_insert. by intros ?%not_elem_of_nil. }
    rewrite fn_lookup_insert_ne by done. intros Hp.
    destruct (inv_rq _ _ _ _ _ I e' p Hp) as (t & Ht & ? & Hx & _).
    exists t. split_and!; try done. intros Hin.
    destruct (inv_rq _ _ _ _ _ I e p Hin) as (t' & Ht' & _ & Hx' & _). congruence.
  - intros p Hp. destruct (inv_rq _ _ _ _ _ I e p Hp) as (t & ? & ? & _). eauto.
  - intros e'. destruct (decide (e = e')) as [<-|].
    + rewrite fn_lookup_insert. constructor.
    + rewrite fn_lookup_insert_ne by done. apply I.
  - intros e' ex'. rewrite He, lookup_insert. case_decide.
    + subst. intros [= <-]. rewrite fn_lookup_insert. simpl. split; [done|].
      by apply (inv_exec _ _ _ _ _ I).
    + rewrite fn_lookup_insert_ne by done. apply I.
  - intros e'. destruct (decide (e = e')) as [<-|].
    + by rewrite fn_lookup_insert.
    + rewrite fn_lookup_insert_ne by done. apply I.
Qed.

(** ** Leaving the batch *)

Lemma Inv_visit w w' rq tq held p t t' :
  Inv w rq tq (p :: held) None →
  heap w !! p = Some t →
  heap w' = <[p := t']> (heap w) → execs w' = execs w →
  raw t' = set_state (fetch_and_not STATE_RUN_QUEUED)
             (set_expires (expires_at (raw t')) (raw t)) →
  future t' = future t →
  Inv w' rq tq held (Some p).
Proof.
  intros I Hp Hh He Hraw Hfut.
  assert (Hin : p ∈ p :: held) by apply list_elem_of_here.
  pose proof (inv_held_nodup _ _ _ _ _ I) as Hnd.
  apply NoDup_cons in Hnd as [Hnin Hnd].
  pose proof (inv_task _ _ _ _ _ I p t Hp) as Hti.
  assert (Hsp : spawned t' = spawned t ∧ run_queued_flag t' = false ∧
                timer_queued_flag t' = timer_queued_flag t).
  { unfold spawned, run_queued_flag, timer_queued_flag. rewrite Hraw. simpl.
    unfold STATE_SPAWNED, STATE_RUN_QUEUED, STATE_TIMER_QUEUED.
    rewrite !has_and_not by lia. simpl.
    by rewrite !andb_true_r, andb_false_r. }
  destruct Hsp as (Hsp & Hrf & Htf).
  assert (Hnrq : ∀ e, p ∉ rq e).
  { intros e Hq. by destruct (inv_rq _ _ _ _ _ I e p Hq) as (? & ? & ? & ? & []). }
  assert (Hself : heap w' !! p = Some t') by by rewrite Hh, lookup_insert_eq.
  assert (Hlk : ∀ q u, q ≠ p → heap w !! q = Some u → heap w' !! q = Some u).
  { intros q u Hq. by rewrite Hh, lookup_insert_ne. }
  assert (Hrn : ∀ q, run_next_of w' q = run_next_of w q).
  { intros q. erewrite run_next_of_insert by done. case_decide; [subst|done].
    unfold run_next_of. by rewrite Hp, Hraw. }
  assert (Htn : ∀ q, timer_next_of w' q = timer_next_of w q).
  { intros q. erewrite timer_next_of_insert by done. case_decide; [subst|done].
    unfold timer_next_of. by rewrite Hp, Hraw. }
  split.
  - intros q u Hq. destruct (decide (q = p)) as [->|Hne].
    + rewrite Hself in Hq. injection Hq as <-. split.
      * rewrite Hraw. apply flags_only_and_not, Hti.
      * rewrite Hsp, Hfut. apply Hti.
      * rewrite Hraw. simpl. intros Hs. apply Hti. intros E. rewrite E in Hs.
        by destruct Hs.
      * congruence.
      * rewrite Htf, Hraw. apply Hti.
      * done.
    + rewrite Hh, lookup_insert_ne in Hq by done.
      destruct (inv_task _ _ _ _ _ I q u Hq) as [? ? ? Hr ? Hpend]. split; try done.
      * intros Hu. destruct (Hr Hu) as [Hqh|?]; [left|by right].
        apply elem_of_cons in Hqh as [?|?]; done.
      * auto.
  - intros q u e. rewrite He. intros Hq Hu. destruct (decide (q = p)) as [->|Hne].
    + rewrite Hself in Hq. injection Hq as <-. rewrite Hraw in Hu. simpl in Hu.
      by eapply inv_exec_valid.
    + rewrite Hh, lookup_insert_ne in Hq by done. by eapply inv_exec_valid.
  - intros e q Hq. destruct (inv_rq _ _ _ _ _ I e q Hq) as (u & Hu & ? & ? & Hnh).
    exists u. rewrite elem_of_cons in Hnh. split; [|naive_solver].
    apply Hlk; [|done]. intros ->. by apply (Hnrq e).
  - intros q Hq. destruct (inv_held _ _ _ _ _ I q) as (u & Hu & ?);
      [by apply list_elem_of_further|].
    exists u. split; [|done]. apply Hlk; [|done]. by intros ->.
  - intros e q Hq. destruct (inv_tq _ _ _ _ _ I e q Hq) as (u & Hu & Hu1 & Hu2).
    destruct (decide (q = p)) as [->|]; [|by eauto].
    rewrite Hp in Hu. injection Hu as <-. exists t'. rewrite Htf, Hraw. done.
  - apply I.
  - apply I.
  - done.
  - rewrite He. apply I.
  - intros e. eapply links_ext; [apply I|]. auto.
  - intros e. eapply links_ext; [apply I|]. auto.
  - eapply links_ext; [|auto]. by destruct (inv_held_links _ _ _ _ _ I).
Qed.

(** ** Joining and leaving a timer queue *)

Lemma Inv_push_tq w w' rq tq held p t t' e ex :
  Inv w rq tq held (Some p) →
  heap w !! p = Some t → timer_queued_flag t = false → execs w !! e = Some ex →
  executor (raw t) = Some e →
  heap w' = <[p := t']> (heap w) →
  execs w' = <[e := set_timer_head (Some p) ex]> (execs w) →
  raw t' = set_timer_next (timer_queue ex)
             (set_state (fetch_or STATE_TIMER_QUEUED) (raw t)) →
  future t' = future t →
  Inv w' rq (push tq e p) held None.
Proof.
  intros I Hp Hf Hex Hx Hh He Hraw Hfut.
  pose proof (not_timer_queued_not_in _ _ _ _ _ _ _ I Hp Hf) as Htq.
  pose proof (inv_task _ _ _ _ _ I p t Hp) as Hti.
  destruct (inv_exec _ _ _ _ _ I e ex Hex) as [Hhead Hthead].
  assert (Hsp : spawned t' = spawned t ∧ run_queued_flag t' = run_queued_flag t ∧
                timer_queued_flag t' = true).
  { unfold spawned, run_queued_flag, timer_queued_flag. rewrite Hraw. simpl.
    unfold STATE_SPAWNED, STATE_RUN_QUEUED, STATE_TIMER_QUEUED.
    rewrite !has_or by lia. simpl. by rewrite !orb_false_r, orb_true_r. }
  destruct Hsp as (Hsp & Hrf & Htf).
  assert (Hself : heap w' !! p = Some t') by by rewrite Hh, lookup_insert_eq.
  assert (Hlk : ∀ q u, q ≠ p → heap w !! q = Some u → heap w' !! q = Some u).
  { intros q u Hq. by rewrite Hh, lookup_insert_ne. }
  assert (Hrn : ∀ q, run_next_of w' q = run_next_of w q).
  { intros q. erewrite run_next_of_insert by done. case_decide; [subst|done].
    unfold run_next_of. by rewrite Hp, Hraw. }
  assert (Htn : ∀ q, q ≠ p → timer_next_of w' q = timer_next_of w q).
  { intros q Hq. unfold timer_next_of. by rewrite Hh, lookup_insert_ne. }
  split.
  - intros q u Hq. destruct (decide (q = p)) as [->|Hne].
    + rewrite Hself in Hq. injection Hq as <-. split.
      * rewrite Hraw. apply (flags_only_or 2); [lia|apply Hti].
      * rewrite Hsp, Hfut. apply Hti.
      * rewrite Hraw. simpl. by rewrite Hx.
      * rewrite Hrf, Hraw. apply Hti.
      * intros _. exists e. rewrite Hraw. simpl. split; [done|].
        apply elem_of_push. by left.
      * done.
    + rewrite Hh, lookup_insert_ne in Hq by done.
      destruct (inv_task _ _ _ _ _ I q u Hq) as [? ? ? ? Ht Hpend]. split; try done.
      * intros Hu. destruct (Ht Hu) as (e' & ? & ?). exists e'. split; [done|].
        apply elem_of_push. by right.
      * intros _. apply Hpend. congruence.
  - intros q u e' Hq Hu. rewrite He, lookup_insert_is_Some.
    destruct (decide (e = e')); [by left|right; split; [done|]].
    rewrite Hh, lookup_insert in Hq. case_decide.
    + injection Hq as <-. rewrite Hraw in Hu. simpl in Hu. congruence.
    + by eapply inv_exec_valid.
  - intros e' q Hq. destruct (inv_rq _ _ _ _ _ I e' q Hq) as (u & Hu & Hu1 & Hu2 & ?).
    destruct (decide (q = p)) as [->|]; [|by eauto 10].
    rewrite Hp in Hu. injection Hu as <-. exists t'. rewrite Hrf, Hraw. done.
  - intros q Hq. destruct (inv_held _ _ _ _ _ I q Hq) as (u & Hu & Hu1).
    destruct (decide (q = p)) as [->|]; [|by eauto].
    rewrite Hp in Hu. injection Hu as <-. exists t'. by rewrite Hrf.
  - intros e' q. rewrite elem_of_push. intros [[<- ->]|Hq].
    + exists t'. rewrite Hraw. done.
    + destruct (inv_tq _ _ _ _ _ I e' q Hq) as (u & Hu & ? & ?).
      exists u. split; [|done]. apply Hlk; [|done]. intros ->. by apply (Htq e').
  - apply I.
  - intros e'. destruct (decide (e = e')) as [<-|].
    + rewrite push_eq. constructor; [apply Htq|apply I].
    + rewrite push_ne by done. apply I.
  - apply I.
  - intros e' ex'. rewrite He, lookup_insert. case_decide.
    + subst. intros [= <-]. simpl. by rewrite push_eq.
    + rewrite push_ne by done. apply I.
  - intros e'. eapply links_ext; [apply I|]. auto.
  - intros e'. destruct (decide (e = e')) as [<-|].
    + rewrite push_eq. simpl. split.
      * unfold timer_next_of. rewrite Hself. simpl. by rewrite Hraw, <-Hthead.
      * eapply links_ext; [apply I|]. intros q Hq. apply Htn.
        intros ->. by apply (Htq e).
    + rewrite push_ne by done. eapply links_ext; [apply I|].
      intros q Hq. apply Htn. intros ->. by apply (Htq e').
  - eapply links_ext; [apply I|]. auto.
Qed.

(** ** Leaving a timer queue *)

Lemma links_remove nx nx' kept (p : ptr) todo :
  NoDup (kept ++ p :: todo) →
  links nx (kept ++ p :: todo) →
  (∀ q, q ∈ kept ++ todo →
     nx' q = if decide (last kept = Some q) then Some (head todo) else nx q) →
  links nx' (kept ++ todo).
Proof.
  induction kept as [|k kept IH]; simpl; intros Hnd Hl Hnx.
  - destruct Hl as [_ Hl]. eapply links_ext; [done|]. intros q Hq. by apply Hnx.
  - apply NoDup_cons in Hnd as [Hk Hnd]. destruct Hl as [Hk1 Hl]. split.
    + rewrite Hnx by apply list_elem_of_here. case_decide as Hlast.
      * destruct kept as [|k' kept]; [done|]. exfalso. apply Hk.
        apply elem_of_app. left. apply last_Some in Hlast as [l' Hl'].
        assert (k ∈ k :: k' :: kept) as _ by apply list_elem_of_here.
        destruct l' as [|x l']; simpl in Hl'; [by simplify_eq|].
        injection Hl' as <- ->. apply elem_of_app. right. apply list_elem_of_here.
      * rewrite Hk1. destruct kept; [done|done].
    + apply IH; [done|done|]. intros q Hq.
      rewrite Hnx by by apply list_elem_of_further.
      destruct kept as [|k' kept]; [|done]. simpl.
      case_decide as Hd; [|done]. injection Hd as ->. exfalso. apply Hk.
      simpl in Hq. by apply list_elem_of_further.
Qed.

(** [w2] is [w1] with [p] unlinked from the timer queue of [e], where [kept] and
    [todo] are the tasks before and after it. *)
Record Unlinked (e : eid) (kept : list ptr) (p : ptr) (todo : list ptr) w1 w2 : Prop := {
  un_task : ∀ q t, heap w1 !! q = Some t → ∃ t', heap w2 !! q = Some t' ∧
    future t' = future t ∧ executor (raw t') = executor (raw t) ∧
    run_queue_next (raw t') = run_queue_next (raw t) ∧
    expires_at (raw t') = expires_at (raw t) ∧
    state (raw t') = (if decide (q = p)
      then fetch_and_not STATE_TIMER_QUEUED (state (raw t)) else state (raw t)) ∧
    timer_queue_next (raw t') = (if decide (last kept = Some q)
      then head todo else timer_queue_next (raw t));
  un_dom : dom (heap w2) = dom (heap w1);
  un_exec : ∀ e' ex, execs w1 !! e' = Some ex → ∃ ex', execs w2 !! e' = Some ex' ∧
    run_queue ex' = run_queue ex ∧ signal_ctx ex' = signal_ctx ex ∧ alarm ex' = alarm ex ∧
    timer_queue ex' = (if decide (e' = e ∧ kept = []) then head todo else timer_queue ex);
  un_exec_dom : dom (execs w2) = dom (execs w1);
  un_trace : trace w2 = trace w1;
  un_reads : reads w2 = reads w1
}.

Lemma Unlinked_inv e kept p todo w1 w2 q t' :
  Unlinked e kept p todo w1 w2 → heap w2 !! q = Some t' →
  ∃ t, heap w1 !! q = Some t ∧
    future t' = future t ∧ executor (raw t') = executor (raw t) ∧
    run_queue_next (raw t') = run_queue_next (raw t) ∧
    expires_at (raw t') = expires_at (raw t) ∧
    state (raw t') = (if decide (q = p)
      then fetch_and_not STATE_TIMER_QUEUED (state (raw t)) else state (raw t)) ∧
    timer_queue_next (raw t') = (if decide (last kept = Some q)
      then head todo else timer_queue_next (raw t)).
Proof.
  intros Un Hq. assert (is_Some (heap w1 !! q)) as [t Ht].
  { apply elem_of_dom. rewrite <-(un_dom _ _ _ _ _ _ Un). by eapply elem_of_dom_2. }
  destruct (un_task _ _ _ _ _ _ Un q t Ht) as (t0 & Ht0 & H).
  rewrite Hq in Ht0. injection Ht0 as <-. eauto.
Qed.

Lemma clear_timer_flags s :
  has STATE_SPAWNED (fetch_and_not STATE_TIMER_QUEUED s) = has STATE_SPAWNED s ∧
  has STATE_RUN_QUEUED (fetch_and_not STATE_TIMER_QUEUED s) = has STATE_RUN_QUEUED s ∧
  has STATE_TIMER_QUEUED (fetch_and_not STATE_TIMER_QUEUED s) = false.
Proof.
  unfold STATE_SPAWNED, STATE_RUN_QUEUED, STATE_TIMER_QUEUED.
  rewrite !has_and_not by lia. simpl. by rewrite !andb_true_r, andb_false_r.
Qed.

(** A task leaves the timer queue only when nothing is lost by it: it is about to
    run, it is finished, or its timer is unset. *)
Lemma Inv_unlink w1 w2 rq tq e kept p todo t :
  Inv w1 rq tq [] None → Unlinked e kept p todo w1 w2 →
  tq e = kept ++ p :: todo → heap w1 !! p = Some t →
  (run_queued_flag t = true ∨ spawned t = false ∨ expires_at (raw t) = Instant.MAX) →
  Inv w2 rq (<[e := kept ++ todo]> tq) [] None.
Proof.
  intros I Un Htq Hp Hok.
  pose proof (inv_tq_nodup _ _ _ _ _ I e) as Hnd. rewrite Htq in Hnd.
  assert (Hnd' : NoDup (kept ++ todo) ∧ p ∉ kept ++ todo).
  { apply NoDup_app in Hnd as (N1 & N2 & [N3 N4]%NoDup_cons).
    rewrite elem_of_app. split; [|intros [Hk|?]; [|done]].
    - apply NoDup_app. split_and!; [done| |done]. intros x Hx Hx'.
      apply (N2 x Hx). by apply list_elem_of_further.
    - apply (N2 p Hk). apply list_elem_of_here. }
  destruct Hnd' as [Hnd' Hpn].
  assert (Hsub : ∀ e' q, q ∈ (<[e := kept ++ todo]> tq : eid → list ptr) e' → q ∈ tq e' ∧ q ≠ p).
  { intros e' q. destruct (decide (e = e')) as [<-|].
    - rewrite fn_lookup_insert, Htq. intros Hq. split; [|by intros ->].
      rewrite elem_of_app, elem_of_cons. apply elem_of_app in Hq as [?|?]; auto.
    - rewrite fn_lookup_insert_ne by done. intros Hq. split; [done|]. intros ->.
      destruct (inv_tq _ _ _ _ _ I e' p Hq) as (t1 & ? & _ & Hx1).
      destruct (inv_tq _ _ _ _ _ I e p) as (t2 & ? & _ & Hx2); [|congruence].
      rewrite Htq. apply elem_of_app. right. apply list_elem_of_here. }
  assert (Hflag : ∀ q u u', heap w1 !! q = Some u → heap w2 !! q = Some u' →
    spawned u' = spawned u ∧ run_queued_flag u' = run_queued_flag u ∧
    timer_queued_flag u' = if decide (q = p) then false else timer_queued_flag u).
  { intros q u u' Hu Hu'. destruct (un_task _ _ _ _ _ _ Un q u Hu) as (u0 & Hu0 & _ & _ & _ & _ & Hs & _).
    rewrite Hu' in Hu0. injection Hu0 as <-.
    unfold spawned, run_queued_flag, timer_queued_flag. rewrite Hs.
    case_decide; [|done]. apply clear_timer_flags. }
  assert (Hrn : ∀ q, run_next_of w2 q = run_next_of w1 q).
  { intros q. unfold run_next_of. destruct (heap w1 !! q) as [u|] eqn:Hu.
    - destruct (un_task _ _ _ _ _ _ Un q u Hu) as (u' & -> & _ & _ & Hr & _).
      simpl. by rewrite Hr.
    - apply not_elem_of_dom in Hu. rewrite <-(un_dom _ _ _ _ _ _ Un) in Hu.
      apply not_elem_of_dom in Hu. by rewrite Hu. }
  assert (Htn : ∀ q, is_Some (heap w1 !! q) →
    timer_next_of w2 q = if decide (last kept = Some q) then Some (head todo)
                         else timer_next_of w1 q).
  { intros q [u Hu]. unfold timer_next_of. rewrite Hu.
    destruct (un_task _ _ _ _ _ _ Un q u Hu) as (u' & -> & _ & _ & _ & _ & _ & Hr).
    simpl. rewrite Hr. by case_decide. }
  split; try apply I.
  - intros q u' Hu'. destruct (Unlinked_inv _ _ _ _ _ _ q u' Un Hu') as
      (u & Hu & Hf & Hx & _ & Hexp & Hs & _).
    destruct (Hflag q u u' Hu Hu') as (Fl1 & Fl2 & Fl3).
    destruct (inv_task _ _ _ _ _ I q u Hu) as [T1 T2 T3 T4 T5 T6]. split.
    + rewrite Hs. case_decide; [by apply (flags_only_and_not 2)|done].
    + by rewrite Fl1, Hf.
    + rewrite Hx, Hs. intros Hne. apply T3. intros E. apply Hne. rewrite E.
      by case_decide.
    + by rewrite Fl2, Hx.
    + rewrite Fl3, Hx. case_decide as Hqp; [done|]. intros Htf.
      destruct (T5 Htf) as (e' & Hxe & Hin). exists e'. split; [done|].
      destruct (decide (e = e')) as [<-|].
      * rewrite fn_lookup_insert. rewrite Htq in Hin. revert Hin.
        rewrite !elem_of_app, elem_of_cons. intros [?|[?|?]]; auto. done.
      * by rewrite fn_lookup_insert_ne.
    + rewrite Fl2, Fl3, Hexp. intros _ Hne Hrf Hmax. case_decide as Hqp.
      * subst q. rewrite Hp in Hu. injection Hu as <-. exfalso.
        destruct Hok as [?|[Hsp|?]]; [congruence| |done].
        apply Hne. rewrite Hs.
        apply flags_zero; [by apply (flags_only_and_not 2)|].
        destruct (clear_timer_flags (state (raw t))) as (-> & -> & ->). done.
      * apply T6; try done. by rewrite Hs in Hne.
  - intros q u' e' Hu' Hxe. destruct (Unlinked_inv _ _ _ _ _ _ q u' Un Hu') as
      (u & Hu & _ & Hx & _). rewrite Hx in Hxe.
    apply elem_of_dom. rewrite (un_exec_dom _ _ _ _ _ _ Un). apply elem_of_dom.
    by eapply inv_exec_valid.
  - intros e' q Hq. destruct (inv_rq _ _ _ _ _ I e' q Hq) as (u & Hu & ? & ? & ?).
    destruct (un_task _ _ _ _ _ _ Un q u Hu) as (u' & Hu' & _ & Hx & _).
    exists u'. destruct (Hflag q u u' Hu Hu') as (_ & -> & _). by rewrite Hx.
  - intros q Hq. by apply not_elem_of_nil in Hq.
  - intros e' q Hq. destruct (Hsub e' q Hq) as [Hin Hne].
    destruct (inv_tq _ _ _ _ _ I e' q Hin) as (u & Hu & ? & ?).
    destruct (un_task _ _ _ _ _ _ Un q u Hu) as (u' & Hu' & _ & Hx & _).
    exists u'. destruct (Hflag q u u' Hu Hu') as (_ & _ & ->). rewrite Hx.
    by case_decide.
  - intros e'. destruct (decide (e = e')) as [<-|].
    + by rewrite fn_lookup_insert.
    + rewrite fn_lookup_insert_ne by done. apply I.
  - intros e' ex' He'. assert (is_Some (execs w1 !! e')) as [ex Hex].
    { apply elem_of_dom. rewrite <-(un_exec_dom _ _ _ _ _ _ Un). by eapply elem_of_dom_2. }
    destruct (un_exec _ _ _ _ _ _ Un e' ex Hex) as (ex0 & Hex0 & Hr & _ & _ & Htm).
    rewrite He' in Hex0. injection Hex0 as <-. rewrite Hr, Htm.
    destruct (inv_exec _ _ _ _ _ I e' ex Hex) as [H1 H2]. split; [done|].
    destruct (decide (e = e')) as [<-|Hee].
    + rewrite fn_lookup_insert. case_decide as Hd.
      * by destruct Hd as [_ ->].
      * rewrite H2, Htq. destruct kept; [|done]. by destruct Hd.
    + rewrite fn_lookup_insert_ne by done. case_decide as Hd; [|done].
      by destruct Hd as [-> _].
  - intros e'. eapply links_ext; [apply I|]. auto.
  - intros e'. destruct (decide (e = e')) as [<-|Hee].
    + rewrite fn_lookup_insert. eapply links_remove; [done|rewrite <-Htq; apply I|].
      intros q Hq. apply Htn.
      destruct (inv_tq _ _ _ _ _ I e q) as (u & ? & _); [|by eexists].
      rewrite Htq, elem_of_app, elem_of_cons. apply elem_of_app in Hq as [?|?]; auto.
    + rewrite fn_lookup_insert_ne by done. eapply links_ext; [apply I|].
      intros q Hq. destruct (inv_tq _ _ _ _ _ I e' q Hq) as (u & Hu & _ & Hx).
      rewrite Htn by by eexists. case_decide as Hl; [|done]. exfalso.
      apply last_Some in Hl as [l' ->].
      destruct (inv_tq _ _ _ _ _ I e q) as (u2 & Hu2 & _ & Hx2); [|congruence].
      rewrite Htq, !elem_of_app. left. right. apply list_elem_of_here.
Qed.

(** Lists of distinct tasks are no longer than the heap. *)
Lemma nodup_heap_bound w (l : list ptr) :
  NoDup l → (∀ p, p ∈ l → is_Some (heap w !! p)) → (length l ≤ size (heap w))%nat.
Proof.
  intros Hnd Hin. rewrite <-(size_list_to_set (C := gset ptr) l) by done.
  rewrite <-size_dom. apply subseteq_size. intros p Hp.
  apply elem_of_list_to_set in Hp. apply elem_of_dom. auto.
Qed.

End inv.
