(* ===== verification/ExecutorProofs.v ===== *)
(** * ExecutorProofs: the executor keeps its invariant and does its work

    Every operation of [Executor] is total on the invariant of [ExecutorInv] and
    preserves it; [run_queued] polls each task of its batch once. *)
From stdpp Require Import functions.
From S2P Require Import Prelude Time Task RunQueue TimerQueue Executor ExecutorInv.
Local Open Scope Z_scope.

(** The polls of a trace, in order. *)
Definition polls (tr : list Event) : list ptr :=
  omap (λ ev, match ev with EvPoll p => Some p | _ => None end) tr.

Section proofs.
Context {F U : Type}.
Implicit Types w : World F U.
Implicit Types rq tq : eid → list ptr.

Lemma polls_app tr1 tr2 : polls (tr1 ++ tr2) = polls tr1 ++ polls tr2.
Proof. apply omap_app. Qed.

(** What every step of a poll leaves alone. *)
Record Frame (held : list ptr) w w' : Prop := {
  fr_dom : dom (heap w') = dom (heap w);
  fr_exec : ∀ e ex, execs w !! e = Some ex → ∃ ex', execs w' !! e = Some ex' ∧
    signal_ctx ex' = signal_ctx ex ∧ alarm ex' = alarm ex;
  fr_held : ∀ p, p ∈ held → heap w' !! p = heap w !! p;
  fr_polls : polls (trace w') = polls (trace w)
}.

Lemma Frame_refl held w : Frame held w w.
Proof. split; naive_solver. Qed.

Lemma Frame_trans held w1 w2 w3 : Frame held w1 w2 → Frame held w2 w3 → Frame held w1 w3.
Proof.
  intros [D1 E1 H1 P1] [D2 E2 H2 P2]. split; try congruence.
  - intros e ex He. destruct (E1 e ex He) as (ex' & He' & ? & ?).
    destruct (E2 e ex' He') as (ex'' & ? & ? & ?). exists ex''. split_and!; congruence.
  - intros p Hp. rewrite H2, H1; done.
Qed.

Lemma Frame_same held w w' :
  heap w' = heap w → execs w' = execs w → polls (trace w') = polls (trace w) →
  Frame held w w'.
Proof. intros Hh He Ht. split; rewrite ?Hh, ?He; naive_solver. Qed.

Lemma Frame_same_l held w w' w'' :
  heap w' = heap w → execs w' = execs w → polls (trace w') = polls (trace w) →
  Frame held w' w'' → Frame held w w''.
Proof. intros ???. by apply Frame_trans, Frame_same. Qed.

Lemma Frame_update held w w' p t t' :
  heap w !! p = Some t → p ∉ held →
  heap w' = <[p := t']> (heap w) → execs w' = execs w → trace w' = trace w →
  Frame held w w'.
Proof.
  intros Hp Hn Hh He Ht. split.
  - rewrite Hh, dom_insert_L. apply (subseteq_union_1_L {[p]}), singleton_subseteq_l.
    by apply elem_of_dom_2 with t.
  - intros e ex Hex. exists ex. by rewrite He.
  - intros q Hq. rewrite Hh, lookup_insert_ne; [done|]. by intros ->.
  - by rewrite Ht.
Qed.

Lemma Frame_push held w w' p t t' e ex evs :
  heap w !! p = Some t → p ∉ held → execs w !! e = Some ex →
  heap w' = <[p := t']> (heap w) →
  execs w' = <[e := set_run_head (Some p) ex]> (execs w) →
  trace w' = trace w ++ evs → polls evs = [] →
  Frame held w w'.
Proof.
  intros Hp Hn Hex Hh He Ht Hevs. split.
  - rewrite Hh, dom_insert_L. apply (subseteq_union_1_L {[p]}), singleton_subseteq_l.
    by apply elem_of_dom_2 with t.
  - intros e' ex' Hex'. rewrite He, lookup_insert. case_decide; [|by eauto].
    subst. rewrite Hex in Hex'. injection Hex' as <-. eauto.
  - intros q Hq. rewrite Hh, lookup_insert_ne; [done|]. by intros ->.
  - by rewrite Ht, polls_app, Hevs, app_nil_r.
Qed.

(** ** Waking *)

Definition wakeable (t : Task F) : bool := spawned t && negb (run_queued_flag t).

(** The world after a task that was not queued has been put on the run queue of
    executor [e]. *)
Definition enqueued (e : eid) (ex : Executor) (p : ptr) (t : Task F) w : World F U :=
  mkWorld (<[p := upd_raw (set_run_next (run_queue ex)) t]> (heap w))
    (<[e := set_run_head (Some p) ex]> (execs w)) (reads w) (user w)
    (trace w ++ if bool_decide (run_queue ex = None)
                then [EvSignal (signal_ctx ex)] else []).

Lemma Executor_enqueue_run e ex p t w :
  execs w !! e = Some ex → heap w !! p = Some t →
  Executor_enqueue e p w = Some (tt, enqueued e ex p t w).
Proof.
  intros He Hp. unfold Executor_enqueue, enqueued. unfold mbind at 1, M_bind.
  rewrite (RunQueue_enqueue_run e p ex t w He Hp).
  case_bool_decide; [|by rewrite app_nil_r].
  unfold mbind, M_bind, deref_exec. simpl. by rewrite lookup_insert_eq.
Qed.

Lemma TaskHeader_enqueue_idle p t w :
  heap w !! p = Some t → wakeable t = false → TaskHeader_enqueue p w = Some (tt, w).
Proof.
  intros Hp Hw. unfold TaskHeader_enqueue, mbind, M_bind, deref. rewrite Hp.
  unfold wakeable, spawned, run_queued_flag in Hw.
  by destruct (has STATE_SPAWNED _), (has STATE_RUN_QUEUED _).
Qed.

Definition mark_queued (t : Task F) : Task F :=
  upd_raw (set_state (fetch_or STATE_RUN_QUEUED)) t.

Lemma TaskHeader_enqueue_run p t e ex w :
  heap w !! p = Some t → wakeable t = true → executor (raw t) = Some e →
  execs w !! e = Some ex →
  TaskHeader_enqueue p w =
  Some (tt, enqueued e ex p (mark_queued t) w).
Proof.
  intros Hp Hw Hx He. unfold TaskHeader_enqueue, mbind, M_bind, deref. rewrite Hp.
  unfold wakeable, spawned, run_queued_flag in Hw.
  destruct (has STATE_SPAWNED _); [|done].
  destruct (has STATE_RUN_QUEUED _); [done|]. simpl.
  unfold deref_mut. rewrite Hp, Hx.
  rewrite (Executor_enqueue_run e ex p (mark_queued t)); [|done|].
  - unfold enqueued. simpl. by rewrite insert_insert_eq.
  - simpl. by rewrite lookup_insert_eq.
Qed.

Lemma mark_queued_flags (t : Task F) :
  spawned (mark_queued t) = spawned t ∧ run_queued_flag (mark_queued t) = true ∧
  timer_queued_flag (mark_queued t) = timer_queued_flag t.
Proof.
  unfold spawned, run_queued_flag, timer_queued_flag, mark_queued. simpl.
  unfold STATE_SPAWNED, STATE_RUN_QUEUED, STATE_TIMER_QUEUED.
  rewrite !has_or by lia. simpl. by rewrite !orb_false_r, orb_true_r.
Qed.

Lemma spawned_nonzero (t : Task F) : spawned t = true → state (raw t) ≠ 0.
Proof. unfold spawned. by intros H E; rewrite E in H. Qed.

(** Marking a task queued and putting it on its executor's queue keeps the
    invariant. *)
Lemma Inv_enqueued w rq tq held cur p t t' e ex :
  Inv w rq tq held cur →
  heap w !! p = Some t → run_queued_flag t = false → execs w !! e = Some ex →
  run_queued_flag t' = true → executor (raw t') = Some e →
  timer_queue_next (raw t') = timer_queue_next (raw t) →
  timer_queued_flag t' = timer_queued_flag t →
  (timer_queued_flag t = true → executor (raw t) = Some e) →
  flags_only (state (raw t')) → is_Some (future t') →
  Inv (enqueued e ex p t' w) (push rq e p) tq held cur ∧
  Frame held w (enqueued e ex p t' w).
Proof.
  intros I Hp Hf He Hf' Hx Ht Htf Htx Hfl Hfut. split.
  - eapply (Inv_push_rq w _ rq tq held cur p t
      (upd_raw (set_run_next (run_queue ex)) t')); done.
  - eapply Frame_push; try done.
    + by destruct (not_queued_not_in _ _ _ _ _ _ _ I Hp Hf).
    + by case_bool_decide.
Qed.

Lemma wp_wake p t w rq tq held cur :
  Inv w rq tq held cur → heap w !! p = Some t →
  wp (TaskHeader_enqueue p) w (λ _ w',
    ∃ rq', Inv w' rq' tq held cur ∧ Frame held w w' ∧ reads w' = reads w ∧
      (if wakeable t then
         ∃ e ex, executor (raw t) = Some e ∧ execs w !! e = Some ex ∧
           rq' = push rq e p ∧ w' = enqueued e ex p (mark_queued t) w
       else rq' = rq ∧ w' = w)).
Proof.
  intros I Hp. pose proof (inv_task _ _ _ _ _ I p t Hp) as Hti. unfold wp.
  destruct (wakeable t) eqn:Hw.
  2:{ rewrite (TaskHeader_enqueue_idle p t) by done. exists rq.
      split_and!; try done. apply Frame_refl. }
  pose proof Hw as [Hs Hq%negb_true_iff]%andb_true_iff.
  destruct (ti_executor _ _ _ _ _ _ Hti) as [e Hx]; [by apply spawned_nonzero|].
  destruct (inv_exec_valid _ _ _ _ _ I p t e Hp Hx) as [ex He].
  rewrite (TaskHeader_enqueue_run p t e ex) by done.
  destruct (mark_queued_flags t) as (Hs' & Hq' & Ht').
  destruct (Inv_enqueued w rq tq held cur p t (mark_queued t) e ex) as [I' F']; try done.
  - apply (flags_only_or 1); [lia|apply Hti].
  - by apply Hti.
  - exists (push rq e p). split_and!; try done. by exists e, ex.
Qed.

(** ** Registering a timer *)

Lemma wp_register_timer p at_ t w rq tq held :
  Inv w rq tq held (Some p) → heap w !! p = Some t → p ∉ held →
  wp (register_timer at_ p) w (λ _ w',
    Inv w' rq tq held (Some p) ∧ Frame held w w' ∧ reads w' = reads w ∧
    heap w' = <[p := upd_raw (set_expires (Instant.min (expires_at (raw t)) at_)) t]>
                (heap w)).
Proof.
  intros I Hp Hn. unfold register_timer.
  apply wp_bind. eapply wp_deref; [done|]. eapply wp_deref_mut; [done|].
  split_and!; [|by eapply Frame_update|done|done].
  eapply (Inv_update w _ rq tq held (Some p) (Some p) p t); try done; [|by left].
  destruct (inv_task _ _ _ _ _ I p t Hp). by split.
Qed.

(** ** Spawning *)

(** The first task of the pool whose state is 0. *)
Definition first_free w (pool : list ptr) : option ptr :=
  find (λ p, match heap w !! p with
             | Some t => state (raw t) =? 0 | None => false end) pool.

Definition allocated (fut : F) (t : Task F) : Task F :=
  mkTask (set_state (λ _, Z.lor STATE_SPAWNED STATE_RUN_QUEUED) (raw t)) (Some fut).

Lemma spawn_allocate_run p t w :
  heap w !! p = Some t →
  spawn_allocate p w =
  Some (if state (raw t) =? 0 then
          (true, with_heap (<[p := upd_raw (set_state (λ _,
             Z.lor STATE_SPAWNED STATE_RUN_QUEUED)) t]> (heap w)) w)
        else (false, w)).
Proof.
  intros Hp. unfold spawn_allocate, mbind, M_bind, deref, deref_mut. rewrite Hp.
  case_match; [|done]. by rewrite Hp.
Qed.

Lemma spawn_initialize_run p fut (t : Task F) w :
  heap w !! p = Some t →
  spawn_initialize p fut w =
  Some (Some p, with_heap (<[p := mkTask (raw t) (Some fut)]> (heap w)) w).
Proof.
  intros Hp. unfold spawn_initialize, mbind, M_bind, deref_mut. by rewrite Hp.
Qed.

Lemma Task_spawn_pool_run pool fut w :
  Forall (λ p, is_Some (heap w !! p)) pool →
  Task_spawn_pool pool fut w =
  Some (match first_free w pool with
        | Some p =>
            (Some p, match heap w !! p with
                     | Some t => with_heap (<[p := allocated fut t]> (heap w)) w
                     | None => w end)
        | None => (None, w)
        end).
Proof.
  induction pool as [|p pool IH]; [done|].
  intros [[t Hp] Hall]%Forall_cons. simpl. rewrite Hp.
  destruct (Z.eqb_spec (state (raw t)) 0) as [Hs|Hs].
  - unfold mbind, M_bind. rewrite (spawn_allocate_run p t) by done.
    rewrite (proj2 (Z.eqb_eq _ _) Hs).
    erewrite spawn_initialize_run by apply lookup_insert_eq. simpl.
    by rewrite insert_insert_eq, Hp.
  - unfold mbind, M_bind. rewrite (spawn_allocate_run p t) by done.
    rewrite (proj2 (Z.eqb_neq _ _) Hs). by apply IH.
Qed.

(** The world after [Spawner::spawn(task_fn())] has succeeded with task [p]. *)
Definition fresh (e : eid) (fut : F) (t : Task F) : Task F :=
  upd_raw (set_executor e) (allocated fut t).

Lemma Spawner_spawn_run e ex p fut t w :
  heap w !! p = Some t → execs w !! e = Some ex →
  Spawner_spawn e (Some p) (with_heap (<[p := allocated fut t]> (heap w)) w) =
  Some (Ok tt, enqueued e ex p (fresh e fut t) w).
Proof.
  intros Hp He. unfold Spawner_spawn, Executor_spawn, mbind, M_bind, deref_mut.
  simpl. rewrite lookup_insert_eq. simpl. rewrite insert_insert_eq.
  erewrite Executor_enqueue_run; [| done | simpl; apply lookup_insert_eq].
  unfold enqueued. simpl. by rewrite insert_insert_eq.
Qed.

Lemma fresh_flags e fut (t : Task F) :
  state (raw t) = 0 →
  spawned (fresh e fut t) = true ∧ run_queued_flag (fresh e fut t) = true ∧
  timer_queued_flag (fresh e fut t) = false ∧
  spawned t = false ∧ run_queued_flag t = false ∧ timer_queued_flag t = false ∧
  flags_only (state (raw (fresh e fut t))).
Proof.
  unfold spawned, run_queued_flag, timer_queued_flag. intros ->. simpl.
  split_and!; try reflexivity.
  apply (flags_only_or 1); [lia|]. split; [done|]. intros k Hk.
  unfold STATE_SPAWNED. rewrite Z.shiftl_1_l. apply Z.pow2_bits_false. lia.
Qed.

Lemma first_free_Some w pool p :
  first_free w pool = Some p → p ∈ pool ∧ ∃ t, heap w !! p = Some t ∧ state (raw t) = 0.
Proof.
  unfold first_free. intros [Hin Hp]%find_some. split; [by apply list_elem_of_In|].
  destruct (heap w !! p) as [t|] eqn:Ht; [|done]. exists t.
  by apply Z.eqb_eq in Hp.
Qed.

(** Tasks that have a future keep it. *)
Definition Alive w w' : Prop :=
  ∀ q t, heap w !! q = Some t → spawned t = true →
    ∃ t', heap w' !! q = Some t' ∧ spawned t' = true ∧
      executor (raw t') = executor (raw t).

Lemma Alive_refl w : Alive w w.
Proof. unfold Alive. eauto. Qed.

Lemma Alive_trans w1 w2 w3 : Alive w1 w2 → Alive w2 w3 → Alive w1 w3.
Proof.
  intros A1 A2 q t Hq Hs. destruct (A1 q t Hq Hs) as (t' & Hq' & Hs' & <-).
  by apply (A2 q t').
Qed.

Lemma Alive_insert w w' p t t' :
  heap w !! p = Some t → heap w' = <[p := t']> (heap w) →
  (spawned t = true → spawned t' = true ∧ executor (raw t') = executor (raw t)) →
  Alive w w'.
Proof.
  intros Hp Hh Hs q u Hq Hu. rewrite Hh, lookup_insert. case_decide; [|eauto].
  subst. rewrite Hp in Hq. injection Hq as <-. destruct (Hs Hu). eauto.
Qed.

Lemma wp_spawn e pool fut w rq tq held cur :
  Inv w rq tq held cur → Forall (λ p, is_Some (heap w !! p)) pool →
  is_Some (execs w !! e) →
  wp (token ← Task_spawn_pool pool fut; Spawner_spawn e token) w (λ r w',
    match first_free w pool with
    | Some p => ∃ t ex, heap w !! p = Some t ∧ execs w !! e = Some ex ∧ r = Ok tt ∧
        w' = enqueued e ex p (fresh e fut t) w ∧
        Inv w' (push rq e p) tq held cur ∧ Frame held w w' ∧ Alive w w'
    | None => r = Err Busy ∧ w' = w
    end).
Proof.
  intros I Hpool [ex He]. unfold wp, mbind, M_bind.
  rewrite (Task_spawn_pool_run pool fut w Hpool).
  destruct (first_free w pool) as [p|] eqn:Hff; [|done].
  destruct (first_free_Some w pool p Hff) as (_ & t & Hp & Hs). rewrite Hp.
  rewrite (Spawner_spawn_run e ex p fut t w Hp He). exists t, ex.
  destruct (fresh_flags e fut t Hs) as (F1 & F2 & F3 & F4 & F5 & F6 & F7).
  destruct (Inv_enqueued w rq tq held cur p t (fresh e fut t) e ex) as [I' Fr'];
    try done; try congruence.
  split_and!; try done. eapply (Alive_insert w _ p t); [done|done|]. congruence.
Qed.

(** ** Polling *)

(** The references a future's program holds point to tasks in [D] and executors
    in [E], as Rust's references do. *)
Inductive prog_valid (D : gset ptr) (E : gset eid) {A} : Prog F A → Prop :=
| pv_ret a : prog_valid D E (PRet a)
| pv_wake t k : t ∈ D → prog_valid D E k → prog_valid D E (PWake t k)
| pv_now k : (∀ i, prog_valid D E (k i)) → prog_valid D E (PNow k)
| pv_timer i k : prog_valid D E k → prog_valid D E (PRegisterTimer i k)
| pv_spawn e pool fut k : e ∈ E → Forall (λ t, t ∈ D) pool →
    (∀ b, prog_valid D E (k b)) → prog_valid D E (PSpawn e pool fut k).

Lemma wp_bind_inv {A B} (m : M F U A) (f : A → M F U B) w Φ :
  wp (m ≫= f) w Φ → wp m w (λ a w', wp (f a) w' Φ).
Proof. unfold wp, mbind, M_bind. by destruct (m w) as [[a w']|]. Qed.

Context (clock : nat → Z).

Lemma wp_interp {A} (prog : Prog F A) p D E w rq tq held :
  prog_valid D E prog → D = dom (heap w) → (∀ e, e ∈ E → is_Some (execs w !! e)) →
  Inv w rq tq held (Some p) → p ∈ D → p ∉ held →
  wp (interp clock p prog) w (λ _ w',
    ∃ rq', Inv w' rq' tq held (Some p) ∧ Frame held w w' ∧ Alive w w').
Proof.
  intros Hv. revert w rq.
  induction Hv as [a|t k Ht Hk IH|k Hk IH|i k Hk IH|e pool fut k He Hpool Hk IH];
    intros w rq HD HE I Hp Hn; simpl.
  - apply wp_ret. exists rq. split_and!; [done|apply Frame_refl|apply Alive_refl].
  - rewrite HD in Ht. apply elem_of_dom in Ht as [tk Htk].
    apply wp_bind. eapply wp_mono; [by eapply wp_wake|].
    intros _ w1 (rq1 & I1 & F1 & _ & Hcase).
    eapply wp_mono; [eapply IH; try done|].
    + rewrite HD. symmetry. apply F1.
    + intros e He. destruct (HE e He) as [ex Hex].
      destruct (fr_exec _ _ _ F1 e ex Hex) as (? & ? & _). by eexists.
    + intros a w2 (rq2 & I2 & F2 & A2). exists rq2. split; [done|].
      split; [by eapply Frame_trans|]. eapply Alive_trans; [|done].
      destruct (wakeable tk) eqn:Hwk; [|by destruct Hcase as [_ ->]; apply Alive_refl].
      destruct Hcase as (e & ex & _ & _ & _ & ->).
      eapply Alive_insert; [done|done|].
      intros Hs. split; [|done]. change (spawned (mark_queued tk) = true).
      by rewrite (proj1 (mark_queued_flags tk)).
  - apply wp_bind, wp_now. eapply wp_mono; [eapply IH; try done; by apply (Inv_same w)|].
    intros a w2 (rq2 & I2 & F2 & A2). exists rq2. split; [done|].
    split; [by eapply (Frame_same_l _ _ (ticked w))|done].
  - rewrite HD in Hp. pose proof Hp as [t Ht]%elem_of_dom.
    apply wp_bind. eapply wp_mono; [by eapply wp_register_timer|].
    intros _ w1 (I1 & F1 & _ & Hh1). eapply wp_mono; [eapply IH; try done|].
    + rewrite HD. symmetry. apply F1.
    + intros e He. destruct (HE e He) as [ex Hex].
      destruct (fr_exec _ _ _ F1 e ex Hex) as (? & ? & _). by eexists.
    + by rewrite HD.
    + intros a w2 (rq2 & I2 & F2 & A2). exists rq2. split; [done|].
      split; [by eapply Frame_trans|]. eapply Alive_trans; [|done].
      by eapply Alive_insert.
  - apply wp_bind.
    assert (Hall : Forall (λ q, is_Some (heap w !! q)) pool).
    { eapply Forall_impl; [done|]. intros q. rewrite HD. apply elem_of_dom. }
    pose proof (wp_spawn e pool fut w rq tq held (Some p) I Hall (HE e He)) as Hsp.
    apply wp_bind_inv in Hsp. eapply wp_mono; [exact Hsp|]. intros token w0 Hsp0.
    apply wp_bind. eapply wp_mono; [exact Hsp0|]. intros r w1 Hr. clear Hsp Hsp0 w0.
    destruct (first_free w pool) as [q|].
    + destruct Hr as (t & ex & _ & _ & -> & _ & I1 & F1 & A1).
      eapply wp_mono; [eapply IH; try done|].
      * rewrite HD. symmetry. apply F1.
      * intros e' He'. destruct (HE e' He') as [ex' Hex'].
        destruct (fr_exec _ _ _ F1 e' ex' Hex') as (? & ? & _). by eexists.
      * intros a w2 (rq2 & I2 & F2 & A2). exists rq2. split; [done|].
        split; [by eapply Frame_trans|by eapply Alive_trans].
    + destruct Hr as [-> ->]. by eapply IH.
Qed.

Section polling.
Context (fut_poll : F → U → Prog F (F * U * Poll unit)).
Context (D : gset ptr) (E : gset eid).
Hypothesis Hvalid : ∀ fut u, prog_valid D E (fut_poll fut u).

(** The tasks and executors of a world are [D] and at least [E]. *)
Definition in_scope w : Prop :=
  D = dom (heap w) ∧ ∀ e, e ∈ E → is_Some (execs w !! e).

Lemma in_scope_frame held w w' : in_scope w → Frame held w w' → in_scope w'.
Proof.
  intros [HD HE] Fr. split; [by rewrite (fr_dom _ _ _ Fr)|].
  intros e He. destruct (HE e He) as [ex Hex].
  destruct (fr_exec _ _ _ Fr e ex Hex) as (? & ? & _). by eexists.
Qed.

(** Clearing SPAWNED leaves the queues' flags alone. *)
Lemma finish_flags (t : Task F) :
  let t' : Task F :=
    upd_raw (set_state (fetch_and_not STATE_SPAWNED)) (mkTask (raw t) None) in
  spawned t' = false ∧ run_queued_flag t' = run_queued_flag t ∧
  timer_queued_flag t' = timer_queued_flag t.
Proof.
  unfold spawned, run_queued_flag, timer_queued_flag. simpl.
  unfold STATE_SPAWNED, STATE_RUN_QUEUED, STATE_TIMER_QUEUED.
  rewrite !has_and_not by lia. simpl. by rewrite !andb_true_r, andb_false_r.
Qed.

Lemma wp_Task_poll p t w rq tq held :
  Inv w rq tq held (Some p) → in_scope w → heap w !! p = Some t →
  spawned t = true → p ∉ held →
  wp (Task_poll fut_poll clock p) w (λ _ w',
    ∃ rq' t', Inv w' rq' tq held (Some p) ∧ Frame held (emitted (EvPoll p) w) w' ∧
      heap w' !! p = Some t' ∧ executor (raw t') = executor (raw t)).
Proof.
  intros I [HD HE] Hp Hs Hn. unfold Task_poll.
  pose proof (inv_task _ _ _ _ _ I p t Hp) as Hti.
  destruct (ti_future _ _ _ _ _ _ Hti Hs) as [fut Hfut].
  apply wp_bind, wp_emit, wp_bind. eapply wp_deref; [done|]. rewrite Hfut.
  apply wp_bind, wp_get_user, wp_bind.
  eapply wp_mono; [eapply (wp_interp _ p D E _ rq tq held); try done|].
  - by apply (Inv_same w).
  - rewrite HD. by apply elem_of_dom_2 in Hp.
  - intros [[fut' u'] res] w1 (rq1 & I1 & F1 & A1).
    apply wp_bind, wp_put_user.
    destruct (A1 p t Hp Hs) as (t1 & Hp1 & Hs1 & Hx1).
    pose proof (inv_task _ _ _ _ _ I1 p t1 Hp1) as Hti1.
    destruct res as [[]|].
    + destruct (finish_flags t1) as (Fl1 & Fl2 & Fl3).
      apply wp_bind. eapply wp_deref_mut; [done|].
      eapply wp_deref_mut; [apply lookup_insert_eq|].
      set (t2 := upd_raw (set_state (fetch_and_not STATE_SPAWNED)) _) in *.
      exists rq1, t2. split; [|split; [|split; [apply lookup_insert_eq|done]]].
      * eapply (Inv_update w1 _ rq1 tq held (Some p) (Some p) p t1 t2); try done;
          [simpl; apply insert_insert_eq| |by left].
        split; try done.
        -- apply (flags_only_and_not 0), Hti1.
        -- congruence.
        -- intros _. apply (ti_executor _ _ _ _ _ _ Hti1). by apply spawned_nonzero.
        -- rewrite Fl2. apply Hti1.
        -- rewrite Fl3. apply Hti1.
      * eapply Frame_trans; [done|].
        eapply (Frame_update held w1 _ p t1 t2); try done. apply insert_insert_eq.
    + eapply wp_deref_mut; [done|].
      set (t2 := mkTask (raw t1) (Some fut')).
      exists rq1, t2. split; [|split; [|split; [apply lookup_insert_eq|done]]].
      * eapply (Inv_update w1 _ rq1 tq held (Some p) (Some p) p t1 t2); try done; [|by left].
        split; try done; try apply Hti1.
      * eapply Frame_trans; [done|]. by eapply (Frame_update held w1 _ p t1 t2).
Qed.

(** ** After a poll *)

Lemma or_timer_flags (t : Task F) :
  let t' : Task F := upd_raw (set_state (fetch_or STATE_TIMER_QUEUED)) t in
  spawned t' = spawned t ∧ run_queued_flag t' = run_queued_flag t ∧
  timer_queued_flag t' = true.
Proof.
  unfold spawned, run_queued_flag, timer_queued_flag. simpl.
  unfold STATE_SPAWNED, STATE_RUN_QUEUED, STATE_TIMER_QUEUED.
  rewrite !has_or by lia. simpl. by rewrite !orb_false_r, orb_true_r.
Qed.

Lemma wp_update e p t w rq tq held :
  Inv w rq tq held (Some p) → heap w !! p = Some t → executor (raw t) = Some e →
  p ∉ held →
  wp (TimerQueue_update e p) w (λ _ w', ∃ tq', Inv w' rq tq' held None ∧ Frame held w w').
Proof.
  intros I Hp Hx Hn. unfold TimerQueue_update.
  pose proof (inv_task _ _ _ _ _ I p t Hp) as Hti.
  destruct (inv_exec_valid _ _ _ _ _ I p t e Hp Hx) as [ex Hex].
  apply wp_bind. eapply wp_deref; [done|]. case_bool_decide as Hmax.
  2:{ apply wp_ret. exists tq. split; [|apply Frame_refl].
      eapply Inv_uncur; [done..|]. destruct Hti. by split. }
  destruct (or_timer_flags t) as (Fl1 & Fl2 & Fl3).
  set (t1 := upd_raw (set_state (fetch_or STATE_TIMER_QUEUED)) t) in *.
  apply wp_bind. eapply wp_deref_mut; [done|]. fold t1.
  fold (timer_queued_flag t). destruct (timer_queued_flag t) eqn:Htq; simpl.
  - apply wp_ret. exists tq. split; [|by eapply Frame_update].
    eapply (Inv_update w _ rq tq held (Some p) None p t t1); try done; try congruence.
    + destruct Hti. split; try done.
      * apply (flags_only_or 2); [lia|done].
      * by rewrite Fl1.
      * by rewrite Fl2.
      * auto.
    + intros q Hq. right. congruence.
  - apply wp_bind. eapply wp_deref_exec; [done|]. apply wp_bind.
    eapply wp_deref_mut; [apply lookup_insert_eq|].
    eapply wp_deref_exec_mut; [done|].
    exists (push tq e p). split.
    + eapply (Inv_push_tq w _ rq tq held p t
        (upd_raw (set_timer_next (timer_queue ex)) t1)); try done.
      simpl. apply insert_insert_eq.
    + split.
      * simpl. rewrite insert_insert_eq, dom_insert_L.
        apply (subseteq_union_1_L {[p]}), singleton_subseteq_l.
        by apply elem_of_dom_2 with t.
      * intros e' ex' Hex'. simpl. rewrite lookup_insert. case_decide; [|by eauto].
        subst. rewrite Hex in Hex'. injection Hex' as <-. eauto.
      * intros q Hq. simpl. rewrite !lookup_insert_ne; [done| |]; by intros ->.
      * done.
Qed.

(** ** One task of the batch *)

(** The world in which the task [p] of a batch has been taken for running. *)
Definition visited (t : Task F) : Task F :=
  upd_raw (set_state (fetch_and_not STATE_RUN_QUEUED))
    (upd_raw (set_expires Instant.MAX) t).

Lemma visited_flags t : spawned (visited t) = spawned t.
Proof.
  unfold spawned, visited. simpl. unfold STATE_SPAWNED, STATE_RUN_QUEUED.
  rewrite has_and_not by lia. simpl. by rewrite andb_true_r.
Qed.

Definition batch_polls (t : Task F) (p : ptr) : list ptr :=
  if spawned t then [p] else [].

Lemma wp_run_task e p t w rq tq held :
  Inv w rq tq (p :: held) None → in_scope w → heap w !! p = Some t →
  executor (raw t) = Some e →
  wp (run_task fut_poll clock e p) w (λ _ w',
    ∃ rq' tq', Inv w' rq' tq' held None ∧ in_scope w' ∧
      (∀ q, q ∈ held → heap w' !! q = heap w !! q) ∧
      (∀ e' ex, execs w !! e' = Some ex → ∃ ex', execs w' !! e' = Some ex' ∧
         signal_ctx ex' = signal_ctx ex ∧ alarm ex' = alarm ex) ∧
      polls (trace w') = polls (trace w) ++ batch_polls t p).
Proof.
  intros I HS Hp Hx. unfold run_task.
  apply wp_bind. eapply wp_deref_mut; [done|].
  apply wp_bind. eapply wp_deref; [apply lookup_insert_eq|].
  apply wp_bind. eapply wp_deref_mut; [apply lookup_insert_eq|].
  fold (visited t). set (w1 := with_heap _ _).
  assert (Hh1 : heap w1 = <[p := visited t]> (heap w)) by apply insert_insert_eq.
  assert (I1 : Inv w1 rq tq held (Some p)) by by eapply Inv_visit.
  pose proof (inv_held_nodup _ _ _ _ _ I) as [Hn _]%NoDup_cons.
  assert (F1 : Frame held w w1) by by eapply Frame_update.
  assert (Hp1 : heap w1 !! p = Some (visited t)) by (rewrite Hh1; apply lookup_insert_eq).
  assert (HS1 : in_scope w1) by by eapply in_scope_frame.
  clearbody w1. simpl. fold (spawned t). unfold batch_polls.
  destruct (spawned t) eqn:Hs; simpl.
  - apply wp_bind. eapply wp_mono.
    { eapply (wp_Task_poll p); try done. by rewrite visited_flags. }
    intros _ w2 (rq2 & t2 & I2 & F2 & Hp2 & Hx2). simpl in F2.
    assert (F2' : Frame held (emitted (EvPoll p) w1) w2) by done.
    eapply wp_mono; [eapply (wp_update e p); try done|].
    { rewrite Hx2. done. }
    intros _ w3 (tq3 & I3 & F3). exists rq2, tq3.
    pose proof (Frame_trans _ _ _ _ F2' F3) as F4.
    split_and!; [done| | | |].
    + eapply in_scope_frame; [|done]. by destruct HS1.
    + intros q Hq. rewrite (fr_held _ _ _ F4), <-(fr_held _ _ _ F1); done.
    + intros e' ex Hex. destruct (fr_exec _ _ _ F1 e' ex Hex) as (ex1 & Hex1 & ? & ?).
      destruct (fr_exec _ _ _ F4 e' ex1 Hex1) as (ex2 & ? & ? & ?).
      exists ex2. split_and!; congruence.
    + rewrite (fr_polls _ _ _ F4), <-(fr_polls _ _ _ F1). simpl. apply polls_app.
  - apply wp_ret. exists rq, tq. split_and!; try done; try apply F1.
    + eapply Inv_uncur; [done..|].
      destruct (inv_task _ _ _ _ _ I1 p _ Hp1). by split.
    + rewrite app_nil_r. apply F1.
Qed.

(** ** The batch *)

(** The tasks of [l] that have a future. *)
Definition live w (l : list ptr) : list ptr :=
  List.filter (λ p, match heap w !! p with Some t => spawned t | None => false end) l.

Definition same_execs w w' : Prop :=
  ∀ e ex, execs w !! e = Some ex → ∃ ex', execs w' !! e = Some ex' ∧
    signal_ctx ex' = signal_ctx ex ∧ alarm ex' = alarm ex.

Lemma same_execs_trans w1 w2 w3 :
  same_execs w1 w2 → same_execs w2 w3 → same_execs w1 w3.
Proof.
  intros H1 H2 e ex He. destruct (H1 e ex He) as (ex1 & He1 & ? & ?).
  destruct (H2 e ex1 He1) as (ex2 & He2 & ? & ?). exists ex2. split_and!; congruence.
Qed.

(** [R] follows the pass: of the tasks visited so far, and the world. *)
Lemma wp_dequeue_all e w rq tq (R : list ptr → World F U → Prop) :
  Inv w rq tq [] None → in_scope w → is_Some (execs w !! e) →
  (∀ x, R [] (with_execs x w)) →
  (∀ l q w1 w2, q ∈ rq e → R l w1 → run_task fut_poll clock e q w1 = Some (tt, w2) →
     R (l ++ [q]) w2) →
  wp (RunQueue_dequeue_all e (run_task fut_poll clock e)) w (λ _ w',
    ∃ rq' tq', Inv w' rq' tq' [] None ∧ in_scope w' ∧ same_execs w w' ∧
      polls (trace w') = polls (trace w) ++ live w (rq e) ∧ R (rq e) w').
Proof.
  intros I HS [ex Hex] HR0 HR. unfold RunQueue_dequeue_all.
  apply wp_bind. eapply wp_deref_exec; [done|].
  apply wp_bind. eapply wp_deref_exec_mut; [done|].
  set (w1 := with_execs _ w).
  assert (I1 : Inv w1 (<[e := []]> rq) tq (rq e) None) by by eapply Inv_take.
  assert (X1 : same_execs w w1).
  { intros e' ex' He'. simpl. rewrite lookup_insert. case_decide; [|by eauto].
    subst. rewrite Hex in He'. injection He' as <-. eauto. }
  assert (HS1 : in_scope w1).
  { destruct HS as [HD HE]. split; [done|]. intros e' He'.
    destruct (HE e' He') as [ex' Hex']. by destruct (X1 e' ex' Hex') as (? & ? & _). }
  apply wp_bind. unfold wp at 1, heap_size.
  destruct (inv_exec _ _ _ _ _ I e ex Hex) as [-> _].
  eapply wp_mono.
  { apply (wp_dequeue_loop (λ l w', ∃ rq' tq' visited_l,
      Inv w' rq' tq' l None ∧ in_scope w' ∧ same_execs w w' ∧
      rq e = visited_l ++ l ∧ (∀ q, q ∈ l → heap w' !! q = heap w !! q) ∧
      polls (trace w') = polls (trace w) ++ live w visited_l ∧ R visited_l w')).
    - intros p l w' (rq' & tq' & vl & I' & _). by apply (inv_held_links _ _ _ _ _ I').
    - intros p l w' (rq' & tq' & vl & I' & HS' & HX' & Hl & Hsame & Hpolls & HRw).
      assert (Hpin : p ∈ rq e).
      { rewrite Hl. apply elem_of_app. right. apply list_elem_of_here. }
      destruct (inv_rq _ _ _ _ _ I e p Hpin) as (t & Hp & _ & Hx & _).
      pose proof (wp_run_task e p t w' rq' tq' l I' HS') as Hrun.
      apply wp_run in Hrun as ([] & w2 & Hrw & rq2 & tq2 & I2 & HS2 & Hsame2 & HX2 & Hpolls2);
        [|rewrite Hsame; [done|apply list_elem_of_here]|done].
      unfold wp. rewrite Hrw.
      exists rq2, tq2, (vl ++ [p]). split_and!; try done.
      + by eapply same_execs_trans.
      + by rewrite Hl, <-app_assoc.
      + intros q Hq. rewrite Hsame2, Hsame; [done| |done]. by apply list_elem_of_further.
      + rewrite Hpolls2, Hpolls, <-app_assoc. f_equal. unfold live.
        rewrite List.filter_app. f_equal. simpl. rewrite Hp.
        unfold batch_polls. by destruct (spawned t).
      + by apply (HR vl p w').
    - apply nodup_heap_bound; [apply I|]. intros p Hp.
      destruct (inv_rq _ _ _ _ _ I e p Hp) as (t & ? & _). simpl. by eexists.
    - exists (<[e := []]> rq), tq, []. split_and!; try done.
      + by rewrite app_nil_r.
      + by apply HR0. }
  intros _ w2 (rq2 & tq2 & vl & I2 & HS2 & HX2 & Hl & _ & Hpolls & HRw).
  exists rq2, tq2. rewrite app_nil_r in Hl. by rewrite Hl.
Qed.

End polling.

End proofs.
