(* ===== verification/TimerProofs.v ===== *)
(** * TimerProofs: walking the executor's timer queue

    [retain] with a callback that may wake tasks: a loop rule, and with it what
    [dequeue_expired] and [next_expiration] do. *)
From stdpp Require Import functions.
From S2P Require Import Prelude Time Task RunQueue TimerQueue Executor ExecutorInv.
From S2P Require Import ExecutorProofs.
Local Open Scope Z_scope.

Section timer_proofs.
Context {F U : Type}.
Implicit Types w : World F U.
Implicit Types rq tq : eid → list ptr.

(** The cell that points to the task after [kept]. *)
Definition cell_of (kept : list ptr) : cell :=
  match last kept with Some q => Next q | None => Head end.

Lemma cell_of_snoc kept p : cell_of (kept ++ [p]) = Next p.
Proof. unfold cell_of. by rewrite last_snoc. Qed.

Lemma links_last nx kept (q : ptr) todo :
  links nx (kept ++ todo) → last kept = Some q → nx q = Some (head todo).
Proof.
  intros Hl [l' ->]%last_Some. rewrite <-app_assoc in Hl.
  by apply links_app in Hl as [-> _].
Qed.

Lemma wp_cell_get e kept todo w rq tq ex (Φ : option ptr → World F U → Prop) :
  Inv w rq tq [] None → tq e = kept ++ todo → execs w !! e = Some ex →
  Φ (head todo) w → wp (cell_get e (cell_of kept)) w Φ.
Proof.
  intros I Htq Hex HΦ. unfold cell_of. destruct (last kept) as [q|] eqn:Hlast; simpl.
  - pose proof (inv_tq_links _ _ _ _ _ I e) as Hl. rewrite Htq in Hl.
    apply (links_last _ _ q) in Hl; [|done]. unfold timer_next_of in Hl.
    destruct (heap w !! q) as [t|] eqn:Hq; [|done]. injection Hl as Hl.
    apply wp_bind. eapply wp_deref; [done|]. apply wp_ret. by rewrite Hl.
  - apply last_None in Hlast as ->. apply wp_bind. eapply wp_deref_exec; [done|].
    apply wp_ret. destruct (inv_exec _ _ _ _ _ I e ex Hex) as [_ ->]. by rewrite Htq.
Qed.

(** What [retain] does to a task its callback rejects. *)
Definition unlink e prev p : M F U unit :=
  task ← deref p;
  _ ← cell_set e prev (timer_queue_next (raw task));
  deref_mut p (upd_raw (set_state (fetch_and_not STATE_TIMER_QUEUED))).

Lemma wp_unlink e kept p todo w rq tq ex t :
  Inv w rq tq [] None → tq e = kept ++ p :: todo → execs w !! e = Some ex →
  heap w !! p = Some t →
  wp (unlink e (cell_of kept) p) w (λ _ w', Unlinked e kept p todo w w').
Proof.
  intros I Htq Hex Hp. unfold unlink, cell_of.
  pose proof (inv_tq_links _ _ _ _ _ I e) as Hl. rewrite Htq in Hl.
  apply links_app in Hl as [Hn _]. unfold timer_next_of in Hn. rewrite Hp in Hn.
  injection Hn as Hn.
  apply wp_bind. eapply wp_deref; [done|]. rewrite Hn.
  destruct (last kept) as [q|] eqn:Hlast; apply wp_bind; simpl.
  - pose proof Hlast as [l' ->]%last_Some.
    pose proof (inv_tq_nodup _ _ _ _ _ I e) as Hnd. rewrite Htq in Hnd.
    assert (Hqp : q ≠ p).
    { intros ->. apply NoDup_app in Hnd as (_ & Hnd & _). apply (Hnd p).
      - apply elem_of_app. right. apply list_elem_of_here.
      - apply list_elem_of_here. }
    destruct (inv_tq _ _ _ _ _ I e q) as (u & Hq & _).
    { rewrite Htq, !elem_of_app. left. right. apply list_elem_of_here. }
    eapply wp_deref_mut; [done|]. eapply wp_deref_mut; [simpl; by rewrite lookup_insert_ne|].
    split; simpl; try done.
    + intros r v Hr. rewrite !lookup_insert, Hlast.
      repeat case_decide; simplify_eq; eexists; done.
    + rewrite !dom_insert_L. apply elem_of_dom_2 in Hp, Hq. set_solver.
    + intros e' x Hx. exists x. split_and!; try done.
      rewrite decide_False; [done|]. intros [_ ?]. by destruct l'.
  - apply last_None in Hlast as ->. eapply wp_deref_exec_mut; [done|].
    eapply wp_deref_mut; [done|]. split; simpl; try done.
    + intros r v Hr. rewrite !lookup_insert.
      repeat case_decide; simplify_eq; eexists; done.
    + rewrite !dom_insert_L. apply elem_of_dom_2 in Hp. set_solver.
    + intros e' x Hx. rewrite lookup_insert.
      repeat case_decide; naive_solver.
    + rewrite dom_insert_L. apply elem_of_dom_2 in Hex. set_solver.
Qed.

(** ** The loop rule *)

(** Nothing is lost when [t] leaves the timer queue. *)
Definition releasable (t : Task F) : Prop :=
  run_queued_flag t = true ∨ spawned t = false ∨ expires_at (raw t) = Instant.MAX.

Section retain.
Context {S : Type} (e : eid) (f : ptr → S → M F U (bool * S)).
Context (J : list ptr → list ptr → (eid → list ptr) → (eid → list ptr) → S →
             World F U → Prop).
Hypothesis J_inv : ∀ kept todo rq tq s w, J kept todo rq tq s w →
  Inv w rq tq [] None ∧ tq e = kept ++ todo ∧ is_Some (execs w !! e).
Hypothesis J_step : ∀ kept p todo rq tq s w, J kept (p :: todo) rq tq s w →
  wp (f p s) w (λ '(keep, s') w', ∃ rq',
    if keep : bool then J (kept ++ [p]) todo rq' tq s' w'
    else Inv w' rq' tq [] None ∧ is_Some (execs w' !! e) ∧
      (∃ t, heap w' !! p = Some t ∧ releasable t) ∧
      ∀ w'', Unlinked e kept p todo w' w'' →
        Inv w'' rq' (<[e := kept ++ todo]> tq) [] None →
        J kept todo rq' (<[e := kept ++ todo]> tq) s' w'').

Lemma wp_retain_loop fuel kept todo rq tq s w :
  J kept todo rq tq s w → (length todo < fuel)%nat →
  wp (retain_loop fuel e f (cell_of kept) s) w (λ s' w', ∃ kept' rq' tq',
    J kept' [] rq' tq' s' w').
Proof using J_inv J_step.
  revert kept todo rq tq s w.
  induction fuel as [|n IH]; intros kept todo rq tq s w HJ Hlen; [lia|]. simpl.
  destruct (J_inv _ _ _ _ _ _ HJ) as (I & Htq & [ex Hex]).
  apply wp_bind. eapply (wp_cell_get e kept todo w rq tq ex); [done..|].
  destruct todo as [|p todo]; simpl in *; [apply wp_ret; eauto|].
  apply wp_bind. eapply wp_mono; [exact (J_step _ _ _ _ _ _ _ HJ)|].
  intros [[] s'] w1 [rq1 H1].
  - rewrite <-(cell_of_snoc kept p). apply (IH _ _ _ _ _ _ H1). lia.
  - destruct H1 as (I1 & [ex1 Hex1] & (t & Hp & Hrel) & Hnext).
    pose proof (wp_unlink e kept p todo w1 rq1 tq ex1 t I1 Htq Hex1 Hp) as Hun.
    unfold unlink in Hun. apply wp_bind_inv in Hun.
    apply wp_bind. eapply wp_mono; [exact Hun|]. intros t1 w1' Hun1.
    apply wp_bind_inv in Hun1. apply wp_bind. eapply wp_mono; [exact Hun1|].
    intros [] w1'' Hun2. apply wp_bind. eapply wp_mono; [exact Hun2|].
    intros [] w2 Un. apply (IH _ _ _ _ _ _ (Hnext w2 Un
      (Inv_unlink _ _ _ _ _ _ _ _ _ I1 Un Htq Hp Hrel))). lia.
Qed.

Lemma wp_retain rq tq s w :
  J [] (tq e) rq tq s w →
  wp (TimerQueue_retain e f s) w (λ s' w', ∃ kept' rq' tq', J kept' [] rq' tq' s' w').
Proof using J_inv J_step.
  intros HJ. unfold TimerQueue_retain. apply wp_bind.
  change (wp (retain_loop (Datatypes.S (size (heap w))) e f Head s) w
    (λ s' w', ∃ kept' rq' tq', J kept' [] rq' tq' s' w')).
  destruct (J_inv _ _ _ _ _ _ HJ) as (I & _ & _).
  apply (wp_retain_loop _ [] (tq e) rq tq s w HJ).
  apply le_n_S, nodup_heap_bound; [apply I|].
  intros p Hp. destruct (inv_tq _ _ _ _ _ I e p Hp) as (t & ? & _). by eexists.
Qed.
End retain.

(** ** What walking the queue leaves alone *)

Record Quiet w w' : Prop := {
  qu_dom : dom (heap w') = dom (heap w);
  qu_task : ∀ q t, heap w !! q = Some t → ∃ t', heap w' !! q = Some t' ∧
    spawned t' = spawned t ∧ executor (raw t') = executor (raw t) ∧
    expires_at (raw t') = expires_at (raw t) ∧ future t' = future t;
  qu_execs : same_execs w w';
  qu_polls : polls (trace w') = polls (trace w);
  qu_reads : reads w' = reads w
}.

Lemma same_execs_refl w : same_execs w w.
Proof. intros e ex ?. eauto. Qed.

Lemma Quiet_refl w : Quiet w w.
Proof. split; try done; [eauto 10|apply same_execs_refl]. Qed.

Lemma Quiet_trans w1 w2 w3 : Quiet w1 w2 → Quiet w2 w3 → Quiet w1 w3.
Proof.
  intros [D1 T1 X1 P1 R1] [D2 T2 X2 P2 R2]. split; try congruence.
  - intros q t Hq. destruct (T1 q t Hq) as (t1 & Hq1 & E1 & E2 & E3 & E4).
    destruct (T2 q t1 Hq1) as (t2 & ? & ? & ? & ? & ?).
    exists t2. split_and!; congruence.
  - by eapply same_execs_trans.
Qed.

Lemma same_execs_is_Some w w' e :
  same_execs w w' → is_Some (execs w !! e) → is_Some (execs w' !! e).
Proof. intros H [ex Hex]. destruct (H e ex Hex) as (? & ? & _). by eexists. Qed.

Lemma Quiet_unlinked e kept p todo w w' : Unlinked e kept p todo w w' → Quiet w w'.
Proof.
  intros [T D X XD Tr R]. split; try done.
  - intros q t Hq. destruct (T q t Hq) as (t' & Hq' & Hf & Hx & _ & He & Hs & _).
    exists t'. split_and!; try done. unfold spawned. rewrite Hs.
    case_decide; [|done]. apply clear_timer_flags.
  - intros e' ex Hex. destruct (X e' ex Hex) as (ex' & ? & _ & ? & ? & _). eauto.
  - by rewrite Tr.
Qed.

Lemma Quiet_enqueued w p t e ex :
  heap w !! p = Some t → execs w !! e = Some ex →
  Quiet w (enqueued e ex p (mark_queued t) w).
Proof.
  intros Hp He. split; simpl; try done.
  - rewrite dom_insert_L. apply elem_of_dom_2 in Hp. set_solver.
  - intros q u Hq. rewrite lookup_insert. case_decide; [|eauto 10].
    subst. rewrite Hp in Hq. injection Hq as <-. eexists. split; [done|].
    split; [|done]. apply mark_queued_flags.
  - intros e' ex' Hex. simpl. rewrite lookup_insert. case_decide; [|eauto].
    subst. rewrite He in Hex. injection Hex as <-. eauto.
  - rewrite polls_app. case_bool_decide; by rewrite app_nil_r.
Qed.

(** ** Expired timers *)

Definition expired w (now : Instant.t) (p : ptr) : bool :=
  match heap w !! p with
  | Some t => Instant.leb (expires_at (raw t)) now | None => false end.
Definition can_wake w (p : ptr) : bool :=
  match heap w !! p with Some t => wakeable t | None => false end.

(** The tasks an expired timer puts on the run queue, in the order in which the
    timer queue has them. *)
Definition woken w (now : Instant.t) (l : list ptr) : list ptr :=
  List.filter (λ p, expired w now p && can_wake w p) l.

Lemma filter_snoc {A} (g : A → bool) l x :
  List.filter g (l ++ [x]) = List.filter g l ++ if g x then [x] else [].
Proof. rewrite List.filter_app. simpl. by destruct (g x). Qed.

(** The state of the walk: [seen] is the part of the queue that has been walked. *)
Record Walk w0 rq0 tq0 e now kept todo rq tq w : Prop := {
  wk_inv : Inv w rq tq [] None;
  wk_tq : tq e = kept ++ todo;
  wk_exec : is_Some (execs w !! e);
  wk_quiet : Quiet w0 w;
  wk_todo : ∀ q, q ∈ todo → can_wake w q = can_wake w0 q;
  wk_seen : ∃ seen, tq0 e = seen ++ todo ∧
    kept = List.filter (λ p, negb (expired w0 now p)) seen ∧
    rq e = rev (woken w0 now seen) ++ rq0 e;
  wk_other : ∀ e', e' ≠ e → rq e' = rq0 e'
}.

Lemma can_wake_unlinked e kept p todo w w' q :
  Unlinked e kept p todo w w' → q ≠ p → can_wake w' q = can_wake w q.
Proof.
  intros Un Hne. unfold can_wake. destruct (heap w !! q) as [t|] eqn:Hq.
  - destruct (un_task _ _ _ _ _ _ Un q t Hq) as (t' & -> & _ & _ & _ & _ & Hs & _).
    unfold wakeable, spawned, run_queued_flag. rewrite Hs. by rewrite decide_False.
  - apply not_elem_of_dom in Hq. rewrite <-(un_dom _ _ _ _ _ _ Un) in Hq.
    apply not_elem_of_dom in Hq. by rewrite Hq.
Qed.

Lemma can_wake_enqueued e ex p t w q :
  q ≠ p → can_wake (enqueued e ex p t w) q = can_wake w q.
Proof. intros Hne. unfold can_wake. simpl. by rewrite lookup_insert_ne. Qed.

Lemma expired_quiet w w' now p :
  Quiet w w' → expired w' now p = expired w now p.
Proof.
  intros Q. unfold expired. destruct (heap w !! p) as [t|] eqn:Hp.
  - destruct (qu_task _ _ Q p t Hp) as (t' & -> & _ & _ & -> & _). done.
  - apply not_elem_of_dom in Hp. rewrite <-(qu_dom _ _ Q) in Hp.
    apply not_elem_of_dom in Hp. by rewrite Hp.
Qed.

(** The walked part grows by [p], which is kept. *)
Lemma Walk_keep w0 rq0 tq0 e now kept p todo rq tq w :
  Walk w0 rq0 tq0 e now kept (p :: todo) rq tq w → expired w now p = false →
  Walk w0 rq0 tq0 e now (kept ++ [p]) todo rq tq w.
Proof.
  intros [I Htq He Q Ht (seen & Hseen & Hk & Hrq) Ho] Hx.
  rewrite (expired_quiet w0 w now p Q) in Hx.
  split; try done.
  - by rewrite <-app_assoc.
  - intros q Hq. apply Ht. by apply list_elem_of_further.
  - exists (seen ++ [p]). unfold woken. rewrite !filter_snoc, Hx. simpl.
    rewrite <-app_assoc, app_nil_r, Hk. done.
Qed.

(** ... or which is woken, if it can be, and unlinked. *)
Lemma Walk_drop w0 rq0 tq0 e now kept p todo rq tq w rq1 w1 w2 :
  Walk w0 rq0 tq0 e now kept (p :: todo) rq tq w → expired w now p = true →
  Quiet w w1 → (∀ q, q ≠ p → can_wake w1 q = can_wake w q) →
  (∀ e', rq1 e' = if can_wake w p then push rq e p e' else rq e') →
  Unlinked e kept p todo w1 w2 →
  Inv w2 rq1 (<[e := kept ++ todo]> tq) [] None →
  Walk w0 rq0 tq0 e now kept todo rq1 (<[e := kept ++ todo]> tq) w2.
Proof.
  intros [I Htq He Q Ht (seen & Hseen & Hk & Hrq) Ho] Hx Q1 Hcw Hrq1 Un I2.
  pose proof (Quiet_trans _ _ _ Q1 (Quiet_unlinked _ _ _ _ _ _ Un)) as Q2.
  pose proof (inv_tq_nodup _ _ _ _ _ I e) as Hnd. rewrite Htq in Hnd.
  apply NoDup_app in Hnd as (_ & _ & [Hp _]%NoDup_cons).
  rewrite (expired_quiet w0 w now p Q) in Hx.
  assert (Hw : can_wake w p = can_wake w0 p) by apply Ht, list_elem_of_here.
  split; try done.
  - by rewrite fn_lookup_insert.
  - eapply same_execs_is_Some; [apply Q2|done].
  - by eapply Quiet_trans.
  - intros q Hq. assert (q ≠ p) by by intros ->.
    rewrite (can_wake_unlinked e kept p todo w1 w2 q Un), Hcw by done.
    apply Ht. by apply list_elem_of_further.
  - exists (seen ++ [p]). unfold woken. rewrite !filter_snoc, Hx. simpl.
    rewrite <-app_assoc, app_nil_r. split_and!; [done|done|].
    rewrite Hrq1, Hw. destruct (can_wake w0 p).
    + by rewrite push_eq, rev_app_distr, Hrq.
    + by rewrite app_nil_r.
  - intros e' He'. rewrite Hrq1. destruct (can_wake w p); [|by apply Ho].
    rewrite push_ne by done. by apply Ho.
Qed.

Lemma wp_expire_step w0 rq0 tq0 e now kept p todo rq tq w :
  Walk w0 rq0 tq0 e now kept (p :: todo) rq tq w →
  expired w now p = true →
  wp (TaskHeader_enqueue p) w (λ _ w1, ∃ rq1, Inv w1 rq1 tq [] None ∧
    (∃ t, heap w1 !! p = Some t ∧ releasable t) ∧ Quiet w w1 ∧
    (∀ q, q ≠ p → can_wake w1 q = can_wake w q) ∧
    (∀ e', rq1 e' = if can_wake w p then push rq e p e' else rq e')).
Proof.
  intros Wk Hx. pose proof (wk_inv _ _ _ _ _ _ _ _ _ _ Wk) as I.
  destruct (inv_tq _ _ _ _ _ I e p) as (t & Hp & _ & Hxe).
  { rewrite (wk_tq _ _ _ _ _ _ _ _ _ _ Wk). apply elem_of_app.
    right. apply list_elem_of_here. }
  eapply wp_mono; [by eapply wp_wake|].
  intros _ w1 (rq1 & I1 & _ & _ & Hc). exists rq1. split; [done|].
  unfold can_wake at 3. rewrite Hp. destruct (wakeable t) eqn:Hw.
  - destruct Hc as (e' & ex & Hxe' & Hex & -> & ->).
    rewrite Hxe in Hxe'. injection Hxe' as <-. split_and!.
    + eexists. split; [apply lookup_insert_eq|]. left.
      apply (mark_queued_flags t).
    + by eapply Quiet_enqueued.
    + intros q Hq. by apply can_wake_enqueued.
    + done.
  - destruct Hc as [-> ->]. split_and!; [|apply Quiet_refl|done|done].
    exists t. split; [done|]. unfold releasable.
    apply andb_false_iff in Hw as [?|?%negb_false_iff]; auto.
Qed.

Lemma wp_dequeue_expired e now w rq tq :
  Inv w rq tq [] None → is_Some (execs w !! e) →
  wp (TimerQueue_dequeue_expired e now TaskHeader_enqueue) w (λ _ w',
    ∃ rq' tq', Inv w' rq' tq' [] None ∧ Quiet w w' ∧
      rq' e = rev (woken w now (tq e)) ++ rq e ∧
      (∀ e', e' ≠ e → rq' e' = rq e') ∧
      tq' e = List.filter (λ p, negb (expired w now p)) (tq e)).
Proof.
  intros I He. unfold TimerQueue_dequeue_expired.
  eapply wp_mono; [eapply (wp_retain e _
    (λ kept todo rq' tq' (_ : unit) w', Walk w rq tq e now kept todo rq' tq' w'))|].
  - intros kept todo rq1 tq1 _ w1 Wk. split_and!; apply Wk.
  - intros kept p todo rq1 tq1 [] w1 Wk.
    pose proof (wk_inv _ _ _ _ _ _ _ _ _ _ Wk) as I1.
    destruct (inv_tq _ _ _ _ _ I1 e p) as (t & Hp & _).
    { rewrite (wk_tq _ _ _ _ _ _ _ _ _ _ Wk). apply elem_of_app.
      right. apply list_elem_of_here. }
    assert (Hx : expired w1 now p = Instant.leb (expires_at (raw t)) now).
    { unfold expired. by rewrite Hp. }
    apply wp_bind. eapply wp_deref; [done|]. rewrite <-Hx.
    destruct (expired w1 now p) eqn:Hexp.
    + apply wp_bind. eapply wp_mono; [by eapply wp_expire_step|].
      intros _ w2 (rq2 & I2 & Hrel & Q & Hcw & Hrq2). apply wp_ret. exists rq2.
      split_and!; [done| |done|].
      * eapply same_execs_is_Some; [apply Q|apply Wk].
      * intros w3 Un I3. by eapply Walk_drop.
    + apply wp_ret. exists rq1. by apply Walk_keep.
  - split; try done; [apply Quiet_refl|]. by exists [].
  - intros _ w' (kept & rq' & tq' & Wk). exists rq', tq'.
    destruct (wk_seen _ _ _ _ _ _ _ _ _ _ Wk) as (seen & Hs & Hk & Hrq).
    pose proof (wk_tq _ _ _ _ _ _ _ _ _ _ Wk) as Htq'.
    rewrite app_nil_r in Hs, Htq'. rewrite Hs, Htq'.
    split_and!; try apply Wk; done.
Qed.

(** ** The next expiration *)

Definition expiry w (p : ptr) : Z :=
  match heap w !! p with
  | Some t => Instant.as_ticks (expires_at (raw t)) | None => 0 end.

Lemma expiry_quiet w w' p : Quiet w w' → expiry w' p = expiry w p.
Proof.
  intros Q. unfold expiry. destruct (heap w !! p) as [t|] eqn:Hp.
  - destruct (qu_task _ _ Q p t Hp) as (t' & -> & _ & _ & -> & _). done.
  - apply not_elem_of_dom in Hp. rewrite <-(qu_dom _ _ Q) in Hp.
    apply not_elem_of_dom in Hp. by rewrite Hp.
Qed.

(** [r] is the earliest expiration among the tasks of [l], [MAX] without any. *)
Definition earliest w (l : list ptr) (r : Instant.t) : Prop :=
  (∀ p, p ∈ l → Instant.as_ticks r ≤ expiry w p) ∧
  (r = Instant.MAX ∨ ∃ p, p ∈ l ∧ Instant.as_ticks r = expiry w p).

Lemma earliest_quiet w w' l r : Quiet w w' → earliest w l r → earliest w' l r.
Proof.
  intros Q [H1 H2]. split.
  - intros p Hp. rewrite (expiry_quiet w w' p Q). auto.
  - destruct H2 as [?|(p & ? & ?)]; [by left|right].
    exists p. by rewrite (expiry_quiet w w' p Q).
Qed.

Lemma earliest_snoc w l p t r :
  heap w !! p = Some t → earliest w l r →
  earliest w (l ++ [p]) (Instant.min r (expires_at (raw t))).
Proof.
  intros Hp [H1 H2].
  assert (Hx : expiry w p = Instant.as_ticks (expires_at (raw t))).
  { unfold expiry. by rewrite Hp. }
  unfold Instant.min, Instant.leb. unfold Instant.as_ticks in *.
  split.
  - intros q [Hq| ->%list_elem_of_singleton]%elem_of_app.
    + specialize (H1 q Hq). unfold Instant.as_ticks; case_bool; lia.
    + rewrite Hx. unfold Instant.as_ticks; case_bool; lia.
  - case_bool; cbv iota.
    + destruct H2 as [?|(q & ? & ?)]; [by left|right].
      exists q. rewrite elem_of_app. auto.
    + right. exists p. rewrite elem_of_app. split; [right; apply list_elem_of_here|done].
Qed.

Lemma earliest_drop w l p t r :
  heap w !! p = Some t → expires_at (raw t) = Instant.MAX → earliest w l r →
  earliest w l (Instant.min r (expires_at (raw t))).
Proof.
  intros Hp -> [H1 H2]. unfold Instant.min, Instant.leb.
  case_bool; [done|]. unfold earliest, Instant.as_ticks in *. split; [|by left].
  intros q Hq. specialize (H1 q Hq). lia.
Qed.

Lemma wp_next_expiration e w rq tq :
  Inv w rq tq [] None → is_Some (execs w !! e) →
  wp (TimerQueue_next_expiration e) w (λ r w',
    ∃ tq', Inv w' rq tq' [] None ∧ Quiet w w' ∧ trace w' = trace w ∧
      earliest w' (tq' e) r ∧
      (∀ p, p ∈ tq' e ↔ p ∈ tq e ∧ expiry w p ≠ Instant.as_ticks Instant.MAX)).
Proof.
  intros I He. unfold TimerQueue_next_expiration.
  eapply wp_mono; [eapply (wp_retain e _
    (λ kept todo rq' tq' r w', Inv w' rq' tq' [] None ∧ tq' e = kept ++ todo ∧
       is_Some (execs w' !! e) ∧ rq' = rq ∧ Quiet w w' ∧ trace w' = trace w ∧
       earliest w' kept r ∧ ∃ seen, tq e = seen ++ todo ∧
       ∀ p, p ∈ kept ↔ p ∈ seen ∧ expiry w p ≠ Instant.as_ticks Instant.MAX))|].
  - intros kept todo rq1 tq1 r w1 (? & ? & ? & _). done.
  - intros kept p todo rq1 tq1 r w1
      (I1 & Htq & He1 & -> & Q & Htr & Hearl & seen & Hseen & Hkept).
    destruct (inv_tq _ _ _ _ _ I1 e p) as (t & Hp & _).
    { rewrite Htq. apply elem_of_app. right. apply list_elem_of_here. }
    assert (Hx : expiry w p = Instant.as_ticks (expires_at (raw t))).
    { rewrite <-(expiry_quiet w w1 p Q). unfold expiry. by rewrite Hp. }
    apply wp_bind. eapply wp_deref; [done|]. apply wp_ret. exists rq.
    case_bool_decide as Hmax.
    + split_and!; try done; [by rewrite <-app_assoc|by apply earliest_snoc|].
      exists (seen ++ [p]). split; [by rewrite <-app_assoc|].
      intros q. rewrite !elem_of_app, !list_elem_of_singleton, Hkept.
      split; [|naive_solver]. intros [?| ->]; [naive_solver|].
      split; [by right|]. rewrite Hx. intros E. apply Hmax.
      unfold Instant.as_ticks in E. destruct (expires_at (raw t)). simpl in E. by subst.
    + split_and!; try done.
      { exists t. split; [done|]. right. by right. }
      intros w2 Un I2. pose proof (Quiet_unlinked _ _ _ _ _ _ Un) as Q2.
      split_and!; try done.
      * by rewrite fn_lookup_insert.
      * eapply same_execs_is_Some; [apply Q2|done].
      * by eapply Quiet_trans.
      * rewrite <-Htr. apply Un.
      * eapply earliest_quiet; [done|]. by apply (earliest_drop w1 kept p).
      * exists (seen ++ [p]). split; [by rewrite <-app_assoc|].
        intros q. rewrite Hkept, !elem_of_app, list_elem_of_singleton.
        split; [naive_solver|]. intros [[?| ->] Hq]; [done|].
        by rewrite Hx, Hmax in Hq.
  - split_and!; try done; [apply Quiet_refl| |].
    + split; [|by left]. intros p Hp. by apply not_elem_of_nil in Hp.
    + exists []. split; [done|]. intros p. rewrite elem_of_nil. naive_solver.
  - intros r w' (kept & rq' & tq' & I' & Htq & _ & -> & Q & Htr & Hearl & seen & Hs & Hk).
    rewrite app_nil_r in Htq, Hs. exists tq'. rewrite Htq, Hs. done.
Qed.

End timer_proofs.
