(* ===== verification/Bystander.v ===== *)
(** * Bystander: what the executor does to the tasks it does not poll

    While other tasks are polled, woken and spawned, a task that has a future keeps it, its
    executor, the time it waits for and its place in the timer queue: [Keeps].  Nothing but
    the poll of a future touches the state the futures share: [Calm].  The lemmas are about
    every result of a step, in any world. *)
From S2P Require Import Prelude Time Task RunQueue TimerQueue Executor ExecutorInv.
From S2P Require Import ExecutorProofs.
Local Open Scope Z_scope.

Section bystander.
Context {F U : Type}.
Implicit Types w : World F U.
Context (p : ptr).

(** What [p] keeps. *)
Definition same_wait (t t' : Task F) : Prop :=
  spawned t = true → spawned t' = true ∧ executor (raw t') = executor (raw t) ∧
    expires_at (raw t') = expires_at (raw t) ∧ timer_queued_flag t' = timer_queued_flag t ∧
    future t' = future t.
Definition Keeps w w' : Prop :=
  ∀ t, heap w !! p = Some t → spawned t = true → ∃ t', heap w' !! p = Some t' ∧ same_wait t t'.
Definition keeps {A} (m : M F U A) : Prop := ∀ w a w', m w = Some (a, w') → Keeps w w'.

Lemma same_wait_refl t : same_wait t t.
Proof. by intros ?. Qed.
Lemma same_wait_trans t1 t2 t3 : same_wait t1 t2 → same_wait t2 t3 → same_wait t1 t3.
Proof.
  intros H1 H2 Hs. destruct (H1 Hs) as (S1 & X1 & E1 & T1 & F1).
  destruct (H2 S1) as (S2 & X2 & E2 & T2 & F2). split_and!; congruence.
Qed.

Lemma Keeps_heap w w' : heap w' !! p = heap w !! p → Keeps w w'.
Proof. intros Hh t Ht _. exists t. rewrite Hh. split; [done|apply same_wait_refl]. Qed.
Lemma Keeps_trans w1 w2 w3 : Keeps w1 w2 → Keeps w2 w3 → Keeps w1 w3.
Proof.
  intros K1 K2 t Ht Hs. destruct (K1 t Ht Hs) as (t1 & Ht1 & H1).
  destruct (K2 t1 Ht1 (proj1 (H1 Hs))) as (t2 & Ht2 & H2).
  exists t2. split; [done|by eapply same_wait_trans].
Qed.

(** ** Steps *)
Lemma keeps_ret {A} (a : A) : keeps (mret a).
Proof. intros w ? w' [= _ <-]. by apply Keeps_heap. Qed.

Lemma keeps_bind {A B} (m : M F U A) (f : A → M F U B) :
  keeps m → (∀ a, keeps (f a)) → keeps (m ≫= f).
Proof.
  intros Hm Hf w b w'. unfold mbind, M_bind. destruct (m w) as [[a w1]|] eqn:E; [|done].
  intros Hw. eapply Keeps_trans; [by eapply Hm|by eapply Hf].
Qed.

Lemma keeps_deref q : keeps (deref q).
Proof. intros w t w'. unfold deref. case_match; [|done]. intros [= _ <-]. by apply Keeps_heap. Qed.
Lemma keeps_deref_exec e : keeps (deref_exec e).
Proof. intros w x w'. unfold deref_exec. case_match; [|done]. intros [= _ <-]. by apply Keeps_heap. Qed.
Lemma keeps_deref_exec_mut e f : keeps (deref_exec_mut e f).
Proof.
  intros w x w'. unfold deref_exec_mut. case_match; [|done]. intros [= _ <-]. by apply Keeps_heap.
Qed.
Lemma keeps_emit ev : keeps (emit ev).
Proof. intros w ? w' [= _ <-]. by apply Keeps_heap. Qed.
Lemma keeps_now clock : keeps (Instant_now_M clock).
Proof. intros w ? w' [= _ <-]. by apply Keeps_heap. Qed.
Lemma keeps_get_user : keeps get_user.
Proof. intros w ? w' [= _ <-]. by apply Keeps_heap. Qed.
Lemma keeps_put_user u : keeps (put_user u).
Proof. intros w ? w' [= _ <-]. by apply Keeps_heap. Qed.
Lemma keeps_fail {A} : keeps (fail (A := A)).
Proof. done. Qed.

(** A header is changed: that of another task, or in a way that keeps the wait. *)
Lemma keeps_deref_mut q f : (q = p → ∀ t, same_wait t (f t)) → keeps (deref_mut q f).
Proof.
  intros Hf w ? w'. unfold deref_mut. destruct (heap w !! q) as [t|] eqn:Hq; [|done].
  intros [= _ <-]. destruct (decide (q = p)) as [->|Hne].
  - intros t0 Ht _. rewrite Hq in Ht. injection Ht as <-. exists (f t). simpl.
    rewrite lookup_insert_eq. split; [done|by apply Hf].
  - apply Keeps_heap. simpl. by rewrite lookup_insert_ne.
Qed.

Hint Resolve keeps_ret keeps_deref keeps_deref_exec keeps_deref_exec_mut keeps_emit keeps_now
  keeps_get_user keeps_put_user keeps_fail : embassy.
#[local] Ltac keep_step :=
  match goal with
  | |- keeps (mbind _ _) => apply keeps_bind; [|intros ?]
  | |- keeps (if ?b then _ else _) => destruct b
  | |- keeps (match ?o with Some _ => _ | None => _ end) => destruct o
  | |- keeps (let _ := _ in _) => cbv zeta
  | |- keeps (deref_mut _ _) => apply keeps_deref_mut
  | |- keeps _ => by auto with embassy
  end.

Lemma same_wait_run_next x t : same_wait t (upd_raw (set_run_next x) t).
Proof. by intros ?. Qed.
Lemma same_wait_mark t : same_wait t (upd_raw (set_state (fetch_or STATE_RUN_QUEUED)) t).
Proof.
  intros Hs. destruct (mark_queued_flags t) as (H1 & _ & H3). unfold mark_queued in *.
  by rewrite H1, H3.
Qed.

(** ** Waking and spawning *)
Lemma keeps_Executor_enqueue e q : keeps (Executor_enqueue e q).
Proof.
  unfold Executor_enqueue, RunQueue_enqueue.
  repeat keep_step. intros _ t. apply same_wait_run_next.
Qed.

Lemma keeps_wake q : keeps (TaskHeader_enqueue q).
Proof.
  unfold TaskHeader_enqueue. repeat keep_step;
    [intros _ t; apply same_wait_mark|apply keeps_Executor_enqueue].
Qed.

(** A task that has a future is not taken from a pool. *)
Lemma spawn_allocate_keeps q w b w' : spawn_allocate q w = Some (b, w') →
  Keeps w w' ∧ (b = true → q = p → ∀ t, heap w !! p = Some t → spawned t = false).
Proof.
  unfold spawn_allocate, mbind, M_bind, deref. destruct (heap w !! q) as [t|] eqn:Hq; [|done].
  destruct (Z.eqb_spec (state (raw t)) 0) as [Hz|Hz].
  - unfold deref_mut. rewrite Hq. intros [= <- <-].
    assert (Hsp : spawned t = false) by (unfold spawned; by rewrite Hz).
    split.
    + destruct (decide (q = p)) as [->|Hne]; [|by apply Keeps_heap; simpl; rewrite lookup_insert_ne].
      intros t0 Ht Hs. rewrite Hq in Ht. injection Ht as <-. congruence.
    + intros _ -> t0 Ht. rewrite Hq in Ht. by injection Ht as <-.
  - intros [= <- <-]. split; [by apply Keeps_heap|done].
Qed.

Lemma spawn_pool_keeps pool fut w o w' : Task_spawn_pool pool fut w = Some (o, w') →
  Keeps w w' ∧ (o = Some p → ∀ t, heap w !! p = Some t → spawned t = false).
Proof.
  revert w. induction pool as [|q pool IH]; intros w; cbn [Task_spawn_pool].
  { intros [= <- <-]. split; [by apply Keeps_heap|done]. }
  unfold mbind, M_bind. destruct (spawn_allocate q w) as [[b w1]|] eqn:Ha; [|done].
  destruct (spawn_allocate_keeps q w b w1 Ha) as [K1 H1]. destruct b.
  - unfold spawn_initialize, mbind, M_bind, deref_mut.
    destruct (heap w1 !! q) as [t1|] eqn:Hq; [|done]. intros [= <- <-]. split.
    + destruct (decide (q = p)) as [->|Hne].
      * intros t Ht Hs. by rewrite (H1 eq_refl eq_refl t Ht) in Hs.
      * eapply Keeps_trans; [done|]. apply Keeps_heap. simpl. by rewrite lookup_insert_ne.
    + intros [= ->]. by apply H1.
  - intros H. destruct (IH w1 H) as [K2 H2]. split; [by eapply Keeps_trans|].
    intros Ho t Ht. destruct (spawned t) eqn:Hs; [|done].
    destruct (K1 t Ht Hs) as (t1 & Ht1 & Hw). destruct (Hw Hs) as [Hs1 _].
    by rewrite (H2 Ho t1 Ht1) in Hs1.
Qed.

Lemma keeps_spawn {A} e pool fut (k : Result unit SpawnError → M F U A) :
  (∀ r, keeps (k r)) →
  keeps (token ← Task_spawn_pool pool fut; r ← Spawner_spawn e token; k r).
Proof.
  intros Hk w a w'. unfold mbind at 1, M_bind.
  destruct (Task_spawn_pool pool fut w) as [[o w1]|] eqn:Hp; [|done].
  destruct (spawn_pool_keeps pool fut w o w1 Hp) as [K1 Ho]. intros Hr.
  destruct (decide (o = Some p)) as [->|Hne].
  - intros t Ht Hs. by rewrite (Ho eq_refl t Ht) in Hs.
  - eapply Keeps_trans; [exact K1|]. eapply (keeps_bind (Spawner_spawn e o)); [|apply Hk|exact Hr].
    unfold Spawner_spawn, Executor_spawn. destruct o as [q|]; [|apply keeps_ret].
    repeat keep_step; [congruence|apply keeps_Executor_enqueue].
Qed.

(** ** Polling another task *)
Context (clock : nat → Z).

Lemma keeps_interp {A} q (prog : Prog F A) : q ≠ p → keeps (interp clock q prog).
Proof.
  intros Hne. induction prog as [a|t k IH|k IH|i k IH|e pool fut k IH]; cbn [interp].
  - apply keeps_ret.
  - apply keeps_bind; [apply keeps_wake|done].
  - apply keeps_bind; [apply keeps_now|done].
  - apply keeps_bind; [|done]. unfold register_timer. repeat keep_step. congruence.
  - apply keeps_spawn. intros r. apply IH.
Qed.

Context (fut_poll : F → U → Prog F (F * U * Poll unit)).

Lemma keeps_run_task e q : q ≠ p → keeps (run_task fut_poll clock e q).
Proof.
  intros Hne. unfold run_task, Task_poll, TimerQueue_update.
  repeat (keep_step || (case_match; simplify_eq) || (apply keeps_interp; congruence)); congruence.
Qed.
End bystander.

(** ** The state the futures share

    What runs outside the futures' own code leaves it alone; readings of the clock are only
    added. *)
Section calm.
Context {F U : Type} (clock : nat → Z).
Implicit Types w : World F U.

Definition Calm w w' : Prop := (reads w ≤ reads w')%nat ∧ user w' = user w.
Definition calm {A} (m : M F U A) : Prop := ∀ w a w', m w = Some (a, w') → Calm w w'.

Lemma Calm_refl w : Calm w w.
Proof. done. Qed.
Lemma Calm_trans w1 w2 w3 : Calm w1 w2 → Calm w2 w3 → Calm w1 w3.
Proof. intros [R1 U1] [R2 U2]. split; [lia|congruence]. Qed.

Lemma calm_ret {A} (a : A) : calm (mret a).
Proof. by intros w ? w' [= _ <-]. Qed.
Lemma calm_bind {A B} (m : M F U A) (f : A → M F U B) :
  calm m → (∀ a, calm (f a)) → calm (m ≫= f).
Proof.
  intros Hm Hf w b w'. unfold mbind, M_bind. destruct (m w) as [[a w1]|] eqn:E; [|done].
  intros Hw. eapply Calm_trans; [by eapply Hm|by eapply Hf].
Qed.
Lemma calm_deref q : calm (deref q).
Proof. intros w t w'. unfold deref. case_match; [|done]. by intros [= _ <-]. Qed.
Lemma calm_deref_mut q f : calm (deref_mut q f).
Proof. intros w t w'. unfold deref_mut. case_match; [|done]. by intros [= _ <-]. Qed.
Lemma calm_deref_exec e : calm (deref_exec e).
Proof. intros w t w'. unfold deref_exec. case_match; [|done]. by intros [= _ <-]. Qed.
Lemma calm_deref_exec_mut e f : calm (deref_exec_mut e f).
Proof. intros w t w'. unfold deref_exec_mut. case_match; [|done]. by intros [= _ <-]. Qed.
Lemma calm_emit ev : calm (emit ev).
Proof. by intros w ? w' [= _ <-]. Qed.
Lemma calm_now : calm (Instant_now_M clock).
Proof. intros w ? w' [= _ <-]. split; simpl; [lia|done]. Qed.
Lemma calm_get_user : calm get_user.
Proof. by intros w ? w' [= _ <-]. Qed.
Lemma calm_heap_size : calm heap_size.
Proof. by intros w ? w' [= _ <-]. Qed.
Lemma calm_fail {A} : calm (fail (A := A)).
Proof. done. Qed.

Hint Resolve calm_ret calm_deref calm_deref_mut calm_deref_exec calm_deref_exec_mut calm_emit
  calm_now calm_get_user calm_heap_size calm_fail : embassy.
#[local] Ltac calm_step :=
  match goal with
  | |- calm (mbind _ _) => apply calm_bind; [|intros ?]
  | |- calm (if ?b then _ else _) => destruct b
  | |- calm (match ?o with Some _ => _ | None => _ end) => destruct o
  | |- calm (match ?x with (_, _) => _ end) => destruct x
  | |- calm (let _ := _ in _) => cbv zeta
  | |- calm _ => by auto with embassy
  end.

Lemma calm_Executor_enqueue e q : calm (Executor_enqueue e q).
Proof. unfold Executor_enqueue, RunQueue_enqueue. repeat calm_step. Qed.
Hint Resolve calm_Executor_enqueue : embassy.
Lemma calm_wake q : calm (TaskHeader_enqueue q).
Proof. unfold TaskHeader_enqueue. repeat calm_step. Qed.
Lemma calm_register_timer at_ q : calm (register_timer at_ q).
Proof. unfold register_timer. repeat calm_step. Qed.
Lemma calm_spawn_pool pool fut : calm (Task_spawn_pool pool fut).
Proof.
  induction pool as [|q pool IH]; cbn [Task_spawn_pool]; [by auto with embassy|].
  unfold spawn_allocate, spawn_initialize. repeat calm_step; exact IH.
Qed.
Lemma calm_Spawner_spawn e o : calm (Spawner_spawn e o).
Proof. unfold Spawner_spawn, Executor_spawn. repeat calm_step. Qed.
Lemma calm_update e q : calm (TimerQueue_update e q).
Proof. unfold TimerQueue_update. repeat calm_step. Qed.
Hint Resolve calm_wake calm_register_timer calm_spawn_pool calm_Spawner_spawn calm_update : embassy.

Lemma calm_interp {A} q (prog : Prog F A) : calm (interp clock q prog).
Proof. induction prog; cbn [interp]; unfold wake_task; repeat (calm_step || done). Qed.

(** *** The timer queue *)
Lemma calm_retain_loop {S} fuel e (f : ptr → S → M F U (bool * S)) : (∀ q s, calm (f q s)) →
  ∀ prev s, calm (retain_loop fuel e f prev s).
Proof.
  intros Hf. induction fuel as [|n IH]; intros prev s; cbn [retain_loop]; [by apply calm_fail|].
  apply calm_bind; [unfold cell_get; destruct prev; repeat calm_step|]. intros h.
  repeat (calm_step || apply Hf || apply IH). unfold cell_set. destruct prev; repeat calm_step.
Qed.
Lemma calm_retain {S} e (f : ptr → S → M F U (bool * S)) s :
  (∀ q s, calm (f q s)) → calm (TimerQueue_retain e f s).
Proof. intros Hf. unfold TimerQueue_retain. calm_step; [calm_step|]. by apply calm_retain_loop. Qed.
Lemma calm_next_expiration e : calm (TimerQueue_next_expiration e).
Proof. apply calm_retain. intros q s. repeat calm_step. Qed.
Lemma calm_expire_pass e (b : bool) :
  calm (if b then now ← Instant_now_M clock; TimerQueue_dequeue_expired e now TaskHeader_enqueue
        else mret tt).
Proof.
  repeat calm_step. apply calm_retain. intros q s. repeat calm_step.
Qed.
End calm.
