(* ===== verification/ExecutorThms.v ===== *)
(** * ExecutorThms: what the executor promises

    The properties of [embassy/src/executor]: memory safety and termination of
    every pass over the queues for any futures, each queued task polled exactly
    once per pass, no timer and no wake-up lost. *)
From stdpp Require Import functions.
From S2P Require Import Prelude Time Task RunQueue TimerQueue Executor ExecutorInv.
From S2P Require Import ExecutorProofs TimerProofs Bystander.
Local Open Scope Z_scope.

(** ** Sequences of calls from outside *)

(** The calls an application and its interrupt handlers make into the executor
    between two passes; [mod.rs]'s [Executor::run] is [CSpawn]s followed by
    [CRunQueued]s. *)
Inductive Call (F : Type) : Type :=
| CWake (p : ptr)
| CSpawn (e : eid) (pool : list ptr) (fut : F)
| CSetAlarm (e : eid)
| CSetSignalCtx (e : eid) (ctx : Z)
| CRunQueued (e : eid).
Arguments CWake {F} _.
Arguments CSpawn {F} _ _ _.
Arguments CSetAlarm {F} _.
Arguments CSetSignalCtx {F} _ _.
Arguments CRunQueued {F} _.

Section thms.
Context {F U : Type}.
Implicit Types w : World F U.
Implicit Types rq tq : eid → list ptr.
Context (fut_poll : F → U → Prog F (F * U * Poll unit)) (clock : nat → Z).

Definition run_call (c : Call F) : M F U unit :=
  match c with
  | CWake p => wake_task p
  | CSpawn e pool fut =>
      token ← Task_spawn_pool pool fut; _ ← Spawner_spawn e token; mret tt
  | CSetAlarm e => deref_exec_mut e set_alarm
  | CSetSignalCtx e ctx => deref_exec_mut e (set_signal_ctx ctx)
  | CRunQueued e => run_queued fut_poll clock e
  end.

Fixpoint run_calls (cs : list (Call F)) : M F U unit :=
  match cs with
  | [] => mret tt
  | c :: cs' => _ ← run_call c; run_calls cs'
  end.

(** The static tasks [D] and executors [E] before anything has run. *)
Definition boot (D : gset ptr) (E : gset eid) (u : U) : World F U :=
  mkWorld (gset_to_gmap Task_new D) (gset_to_gmap (Executor_new 0) E) 0 u [].

Definition call_valid (D : gset ptr) (E : gset eid) (c : Call F) : Prop :=
  match c with
  | CWake p => p ∈ D
  | CSpawn e pool _ => e ∈ E ∧ Forall (λ p, p ∈ D) pool
  | CSetAlarm e | CSetSignalCtx e _ | CRunQueued e => e ∈ E
  end.

Context (D : gset ptr) (E : gset eid).

(** ** One pass *)

(** The batch a pass over the queues of [e] takes. *)
Definition batch e (ex : Executor) w rq tq : list ptr :=
  if alarm ex then
    rev (woken w (Instant.mk (clock (reads w))) (tq e)) ++ rq e
  else rq e.

Lemma live_quiet w w' l : Quiet w w' → live w' l = live w l.
Proof.
  intros Q. unfold live. apply List.filter_ext. intros p.
  destruct (heap w !! p) as [t|] eqn:Hp.
  - by destruct (qu_task _ _ Q p t Hp) as (t' & -> & -> & _).
  - apply not_elem_of_dom in Hp. rewrite <-(qu_dom _ _ Q) in Hp.
    apply not_elem_of_dom in Hp. by rewrite Hp.
Qed.

Lemma in_scope_quiet w w' : in_scope D E w → Quiet w w' → in_scope D E w'.
Proof.
  intros [HD HE] Q. split; [by rewrite (qu_dom _ _ Q)|].
  intros e He. eapply same_execs_is_Some; [apply Q|auto].
Qed.

(** What a pass leaves behind when it has an alarm: the alarm is the last thing
    it sets, to the earliest expiration in the timer queue. *)
Definition alarm_set e (ctx : Z) w (l : list ptr) : Prop :=
  ∃ tr r, trace w = tr ++ [EvSetCallback e ctx; EvSetAlarm e (Instant.as_ticks r)] ∧
    earliest w l r.

Hypothesis Hvalid : ∀ fut u, prog_valid D E (fut_poll fut u).

Lemma wp_expire_pass e ex w rq tq :
  Inv w rq tq [] None → execs w !! e = Some ex →
  wp (if alarm ex then
        now ← Instant_now_M clock;
        TimerQueue_dequeue_expired e now TaskHeader_enqueue
      else mret tt) w (λ _ w', ∃ rq' tq' w0, heap w0 = heap w ∧ execs w0 = execs w ∧
    trace w0 = trace w ∧ Inv w' rq' tq' [] None ∧ Quiet w0 w' ∧
    rq' e = batch e ex w rq tq ∧
    (alarm ex = true → tq' e =
       List.filter (λ p, negb (expired w (Instant.mk (clock (reads w))) p)) (tq e))).
Proof.
  intros I Hex. unfold batch. destruct (alarm ex).
  - apply wp_bind, wp_now. eapply wp_mono.
    { eapply wp_dequeue_expired; [by apply (Inv_same w)|by eexists]. }
    intros _ w' (rq' & tq' & I' & Q & Hrq & _ & Htq).
    by exists rq', tq', (ticked w).
  - apply wp_ret. exists rq, tq, w. split_and!; try done. apply Quiet_refl.
Qed.

(** A task in the timer queue that the pass does not take stays there and waits for the
    same time. *)
Definition waits_on e w (tq' : list ptr) (p : ptr) (at_ : Instant.t) : Prop :=
  p ∈ tq' ∧ ∃ t, heap w !! p = Some t ∧ spawned t = true ∧ expires_at (raw t) = at_ ∧
    executor (raw t) = Some e.

(** The same, from the task's header. *)
Definition Waiting e w (p : ptr) (at_ : Instant.t) : Prop :=
  ∃ t, heap w !! p = Some t ∧ spawned t = true ∧ executor (raw t) = Some e ∧
    expires_at (raw t) = at_ ∧ timer_queued_flag t = true.

Lemma Waiting_tq e w rq tq p at_ : Inv w rq tq [] None →
  Waiting e w p at_ ↔ waits_on e w (tq e) p at_.
Proof.
  intros I. split.
  - intros (t & Hp & Hs & Hx & He & Hf). split; [|by exists t].
    destruct (ti_timer _ _ _ _ _ _ (inv_task _ _ _ _ _ I p t Hp) Hf) as (e' & ? & ?). congruence.
  - intros (Hin & t & Hp & Hs & He & Hx). exists t.
    destruct (inv_tq _ _ _ _ _ I e p Hin) as (t' & Hp' & ? & _). by simplify_eq.
Qed.

Lemma waits_on_expire e ex w rq tq p at_ w0 w1 rq1 tq1 :
  Inv w rq tq [] None → alarm ex = true → waits_on e w (tq e) p at_ → p ∉ batch e ex w rq tq →
  heap w0 = heap w → Quiet w0 w1 → Inv w1 rq1 tq1 [] None →
  tq1 e = List.filter (λ p, negb (expired w (Instant.mk (clock (reads w))) p)) (tq e) →
  waits_on e w1 (tq1 e) p at_ ∧ Instant.leb at_ (Instant.mk (clock (reads w))) = false.
Proof.
  intros I Hal (Hin & t & Hp & Hs & He & Hx) Hn Hh Q I1 Htq.
  unfold batch in Hn. rewrite Hal in Hn. apply not_elem_of_app in Hn as [Hn Hrq].
  assert (Hexp : expired w (Instant.mk (clock (reads w))) p = false).
  { destruct (expired w _ p) eqn:Hex; [|done]. destruct Hn.
    apply list_elem_of_In, List.in_rev. rewrite List.rev_involutive. apply List.filter_In.
    split; [by apply list_elem_of_In|]. rewrite Hex. unfold can_wake, wakeable. rewrite Hp, Hs. simpl.
    destruct (run_queued_flag t) eqn:Hf; [|done]. destruct Hrq.
    destruct (ti_run _ _ _ _ _ _ (inv_task _ _ _ _ _ I p t Hp) Hf) as [Hnil|(e' & Hx' & ?)].
    - by apply not_elem_of_nil in Hnil.
    - congruence. }
  split.
  - split.
    + rewrite Htq. apply list_elem_of_In, List.filter_In. by rewrite Hexp; split; [apply list_elem_of_In|].
    + rewrite <-Hh in Hp. destruct (qu_task _ _ Q p t Hp) as (t1 & Hp1 & Hs1 & Hx1 & He1 & _).
      exists t1. split_and!; congruence.
  - unfold expired in Hexp. by rewrite Hp, He in Hexp.
Qed.

Lemma waits_on_pass e w1 w2 rq1 tq1 rq2 tq2 p at_ :
  Inv w1 rq1 tq1 [] None → Inv w2 rq2 tq2 [] None → Keeps p w1 w2 →
  waits_on e w1 (tq1 e) p at_ → waits_on e w2 (tq2 e) p at_.
Proof.
  intros I1 I2 K (Hin & t & Hp & Hs & He & Hx).
  destruct (inv_tq _ _ _ _ _ I1 e p Hin) as (t0 & Hp0 & Hf & _). simplify_eq.
  destruct (K _ Hp Hs) as (t2 & Hp2 & Hw). destruct (Hw Hs) as (Hs2 & Hx2 & He2 & Hf2 & _).
  split; [|exists t2; split_and!; congruence]. rewrite Hf in Hf2.
  destruct (ti_timer _ _ _ _ _ _ (inv_task _ _ _ _ _ I2 p t2 Hp2) Hf2) as (e' & Hx' & ?).
  congruence.
Qed.

Lemma waits_on_next e w2 w3 (tq2 tq3 : eid → list ptr) p at_ :
  Quiet w2 w3 →
  (∀ p, p ∈ tq3 e ↔ p ∈ tq2 e ∧ expiry w2 p ≠ Instant.as_ticks Instant.MAX) →
  waits_on e w2 (tq2 e) p at_ → at_ ≠ Instant.MAX → waits_on e w3 (tq3 e) p at_.
Proof.
  intros Q Htq (Hin & t2 & Hp & Hs & He & Hx) Hmax. split.
  - apply Htq. split; [done|]. unfold expiry. rewrite Hp, He. intros Heq. apply Hmax.
    unfold Instant.as_ticks in Heq. destruct at_. simpl in Heq. by subst.
  - destruct (qu_task _ _ Q p t2 Hp) as (t3 & Hp3 & ? & ? & ? & _).
    exists t3. split_and!; congruence.
Qed.

(** What a pass does. *)
Definition passed e ex w rq tq w' : Prop := ∃ rq' tq',
  Inv w' rq' tq' [] None ∧ in_scope D E w' ∧ same_execs w w' ∧
  polls (trace w') = polls (trace w) ++ live w (batch e ex w rq tq) ∧
  (alarm ex = true → alarm_set e (signal_ctx ex) w' (tq' e)) ∧
  (alarm ex = true → ∀ p at_, waits_on e w (tq e) p at_ → p ∉ batch e ex w rq tq →
     at_ ≠ Instant.MAX →
     Instant.leb at_ (Instant.mk (clock (reads w))) = false ∧ waits_on e w' (tq' e) p at_).

(** [w2] is the world when the batch has been polled: what comes after disturbs no task
    that waits. *)
Definition wound_up e w2 w' : Prop :=
  Quiet w2 w' ∧ Calm w2 w' ∧
  ∀ p at_, Waiting e w2 p at_ → at_ ≠ Instant.MAX → Waiting e w' p at_.

Lemma wound_up_next e ctx w2 w3 r rq2 tq2 tq3 :
  Inv w2 rq2 tq2 [] None → Inv w3 rq2 tq3 [] None → Quiet w2 w3 → Calm w2 w3 →
  (∀ p, p ∈ tq3 e ↔ p ∈ tq2 e ∧ expiry w2 p ≠ Instant.as_ticks Instant.MAX) →
  wound_up e w2 (emitted (EvSetAlarm e (Instant.as_ticks r)) (emitted (EvSetCallback e ctx) w3)).
Proof.
  intros I2 I3 Q3 C3 Htq3. split; [|split; [exact C3|]].
  { destruct Q3. split; try done. simpl. by rewrite !polls_app, !app_nil_r. }
  intros p at_ W2 Hmax. apply (Waiting_tq e w2 rq2 tq2) in W2; [|done].
  change (Waiting e w3 p at_). apply (Waiting_tq e w3 rq2 tq3); [done|].
  exact (waits_on_next e w2 w3 tq2 tq3 p at_ Q3 Htq3 W2 Hmax).
Qed.

(** [R] follows the pass from when the expired tasks have been queued to when the batch
    has been polled. *)
Lemma wp_pass e ex w rq tq (R : list ptr → World F U → Prop) :
  Inv w rq tq [] None → in_scope D E w → execs w !! e = Some ex →
  (∀ w0 w1 x, heap w0 = heap w → Quiet w0 w1 → Calm w w1 → R [] (with_execs x w1)) →
  (∀ l q w1 w2, q ∈ batch e ex w rq tq → R l w1 →
     run_task fut_poll clock e q w1 = Some (tt, w2) → R (l ++ [q]) w2) →
  wp (run_queued fut_poll clock e) w (λ _ w', passed e ex w rq tq w' ∧
    (alarm ex = true → ∃ w2, R (batch e ex w rq tq) w2 ∧ wound_up e w2 w')).
Proof using Hvalid.
  intros I HS Hex HR0 HR. unfold run_queued.
  apply wp_bind. eapply wp_deref_exec; [done|].
  apply wp_bind. eapply wp_mono; [apply wp_conj; [by eapply wp_expire_pass|exact (calm_expire_pass clock e _ w)]|].
  intros _ w1 [(rq1 & tq1 & w0 & Hh & He & Ht & I1 & Q1 & Hb & Htq1) C1].
  assert (HS1 : in_scope D E w1).
  { eapply in_scope_quiet; [|done]. unfold in_scope. by rewrite Hh, He. }
  assert (X1 : same_execs w w1).
  { intros e' ex'. rewrite <-He. apply Q1. }
  assert (Hl1 : live w1 (rq1 e) = live w (batch e ex w rq tq)).
  { rewrite (live_quiet w0 w1) by done. unfold live. by rewrite Hh, Hb. }
  apply wp_bind. eapply wp_mono.
  { eapply (wp_dequeue_all _ _ _ _ Hvalid e w1 rq1 tq1
      (λ l w', (∀ p, p ∉ rq1 e → Keeps p w1 w') ∧ R l w')); try done.
    - by destruct (X1 e ex Hex) as (? & ? & _); eexists.
    - intros x. split; [|by eapply HR0]. intros p _. by apply Keeps_heap.
    - intros vl q w' w'' Hq [Hk HRl] Hr. split; [|rewrite Hb in Hq; by eapply HR].
      intros p Hn. eapply Keeps_trans; [by apply Hk|].
      eapply keeps_run_task; [|done]. by intros ->. }
  intros _ w2 (rq2 & tq2 & I2 & HS2 & X2 & Hp2 & K2 & HR2).
  pose proof (same_execs_trans _ _ _ X1 X2) as X3.
  rewrite Hl1, (qu_polls _ _ Q1), Ht in Hp2.
  destruct (alarm ex) eqn:Hal.
  2:{ apply wp_ret. split; [|done]. exists rq2, tq2. split_and!; try done; congruence. }
  apply wp_bind. eapply wp_mono; [apply wp_conj; [|exact (calm_next_expiration e w2)]|].
  { eapply wp_next_expiration; [done|]. by destruct (X3 e ex Hex) as (? & ? & _); eexists. }
  intros r w3 [(tq3 & I3 & Q3 & Ht3 & Hearl & Htq3) C3].
  apply wp_bind, wp_emit, wp_emit. rewrite Hb in K2, HR2. split.
  - exists rq2, tq3. split_and!.
    + by apply (Inv_same w3).
    + change (in_scope D E w3). by eapply in_scope_quiet.
    + change (same_execs w w3). eapply same_execs_trans; [done|apply Q3].
    + simpl. rewrite !polls_app, Ht3, Hp2. simpl. by rewrite !app_nil_r.
    + intros _. exists (trace w3), r. split; [|done]. simpl. by rewrite <-app_assoc.
    + intros _ p at_ Hw Hn Hmax.
      destruct (waits_on_expire e ex w rq tq p at_ w0 w1 rq1 tq1) as [W1 Hle]; try done; [auto|].
      split; [done|].
      pose proof (waits_on_pass e w1 w2 rq1 tq1 rq2 tq2 p at_ I1 I2 (K2 p Hn) W1) as W2.
      exact (waits_on_next e w2 w3 tq2 tq3 p at_ Q3 Htq3 W2 Hmax).
  - intros _. exists w2. split; [done|]. exact (wound_up_next e _ w2 w3 r rq2 tq2 tq3 I2 I3 Q3 C3 Htq3).
Qed.

Lemma wp_run_queued e ex w rq tq :
  Inv w rq tq [] None → in_scope D E w → execs w !! e = Some ex →
  wp (run_queued fut_poll clock e) w (λ _ w', passed e ex w rq tq w').
Proof using Hvalid.
  intros I HS Hex. eapply wp_mono; [by apply (wp_pass e ex w rq tq (λ _ _, True))|].
  by intros _ w' [H _].
Qed.

(** ** Calls *)

Lemma Inv_exec_update w w' rq tq held cur e ex ex' :
  Inv w rq tq held cur → execs w !! e = Some ex →
  run_queue ex' = run_queue ex → timer_queue ex' = timer_queue ex →
  heap w' = heap w → execs w' = <[e := ex']> (execs w) →
  Inv w' rq tq held cur.
Proof.
  intros I Hex Hr Ht Hh He.
  assert (Hrn : run_next_of w' = run_next_of w) by (unfold run_next_of; by rewrite Hh).
  assert (Htn : timer_next_of w' = timer_next_of w) by (unfold timer_next_of; by rewrite Hh).
  pose proof (inv_exec _ _ _ _ _ I e ex Hex) as [H1 H2].
  split; rewrite ?Hh, ?Hrn, ?Htn; try apply I.
  - intros p t e' Hp Hx. rewrite He, lookup_insert_is_Some.
    destruct (decide (e = e')); [by left|right; split; [done|]].
    by eapply inv_exec_valid.
  - intros e' x. rewrite He, lookup_insert. case_decide; [subst|apply I].
    intros [= <-]. by rewrite Hr, Ht.
Qed.

Definition good w : Prop := in_scope D E w ∧ ∃ rq tq, Inv w rq tq [] None.

Lemma in_scope_insert w w' e ex ex' :
  in_scope D E w → execs w !! e = Some ex →
  heap w' = heap w → execs w' = <[e := ex']> (execs w) → in_scope D E w'.
Proof.
  intros [HD HE] Hex Hh He. split; [by rewrite Hh|].
  intros e' He'. rewrite He, lookup_insert_is_Some.
  destruct (decide (e = e')); [by left|right; auto].
Qed.

Lemma wp_call c w :
  good w → call_valid D E c → wp (run_call c) w (λ _ w', good w').
Proof using Hvalid.
  intros [HS (rq & tq & I)] Hc. pose proof HS as [HD HE].
  destruct c as [p|e pool fut|e|e ctx|e]; simpl in Hc |- *.
  - rewrite HD in Hc. apply elem_of_dom in Hc as [t Hp].
    eapply wp_mono; [by eapply wp_wake|]. intros _ w' (rq' & I' & Fr & _).
    split; [by eapply in_scope_frame|eauto].
  - destruct Hc as [He Hpool].
    assert (Hall : Forall (λ q, is_Some (heap w !! q)) pool).
    { eapply Forall_impl; [done|]. intros q. rewrite HD. apply elem_of_dom. }
    pose proof (wp_spawn e pool fut w rq tq [] None I Hall (HE e He)) as Hsp.
    apply wp_bind_inv in Hsp. apply wp_bind. eapply wp_mono; [exact Hsp|].
    intros token w1 Hsp1. apply wp_bind. eapply wp_mono; [exact Hsp1|].
    intros r w2 H. apply wp_ret. destruct (first_free w pool).
    + destruct H as (t & ex & _ & _ & _ & _ & I2 & Fr & _).
      split; [by eapply in_scope_frame|eauto].
    + destruct H as [_ ->]. split; [done|eauto].
  - destruct (HE e Hc) as [ex Hex]. eapply wp_deref_exec_mut; [done|].
    split; [by eapply in_scope_insert|]. exists rq, tq.
    by eapply (Inv_exec_update w _ _ _ _ _ e ex (set_alarm ex)).
  - destruct (HE e Hc) as [ex Hex]. eapply wp_deref_exec_mut; [done|].
    split; [by eapply in_scope_insert|]. exists rq, tq.
    by eapply (Inv_exec_update w _ _ _ _ _ e ex (set_signal_ctx ctx ex)).
  - destruct (HE e Hc) as [ex Hex]. eapply wp_mono; [by eapply wp_run_queued|].
    intros _ w' (rq' & tq' & I' & HS' & _). split; [done|eauto].
Qed.

Lemma wp_calls cs w :
  good w → Forall (call_valid D E) cs → wp (run_calls cs) w (λ _ w', good w').
Proof using Hvalid.
  revert w. induction cs as [|c cs IH]; intros w Hw Hcs; simpl; [by apply wp_ret|].
  apply Forall_cons in Hcs as [Hc Hcs]. apply wp_bind.
  eapply wp_mono; [by apply wp_call|]. intros [] w' Hw'. by apply IH.
Qed.

Lemma boot_good u : good (boot D E u).
Proof.
  split.
  - split; simpl; [by rewrite dom_gset_to_gmap|].
    intros e He. eexists. by apply lookup_gset_to_gmap_Some.
  - exists (λ _, []), (λ _, []).
    split; simpl; try (by intros; constructor);
      try (by intros; exfalso; eapply not_elem_of_nil).
    + intros p t [_ <-]%lookup_gset_to_gmap_Some. split; try done. apply flags_only_0.
    + intros p t e [_ <-]%lookup_gset_to_gmap_Some. done.
    + intros e ex [_ <-]%lookup_gset_to_gmap_Some. done.
Qed.

(** ** Batches *)

Lemma elem_of_woken w now l p :
  p ∈ woken w now l ↔ p ∈ l ∧ expired w now p = true ∧ can_wake w p = true.
Proof.
  unfold woken. rewrite !list_elem_of_In, List.filter_In, andb_true_iff. done.
Qed.

Lemma elem_of_batch e ex w rq tq p : p ∈ rq e → p ∈ batch e ex w rq tq.
Proof. intros Hp. unfold batch. destruct (alarm ex); [|done]. apply elem_of_app. auto. Qed.

Lemma NoDup_bfilter {A} (f : A → bool) l : NoDup l → NoDup (List.filter f l).
Proof. intros H%NoDup_ListNoDup. by apply NoDup_ListNoDup, List.NoDup_filter. Qed.

Lemma batch_NoDup e ex w rq tq : Inv w rq tq [] None → NoDup (batch e ex w rq tq).
Proof.
  intros I. unfold batch. destruct (alarm ex); [|apply I].
  apply NoDup_app. split_and!; [|intros p Hp Hq|apply I].
  - apply NoDup_ListNoDup, List.NoDup_rev, NoDup_ListNoDup, NoDup_bfilter, I.
  - apply list_elem_of_In, in_rev, list_elem_of_In, elem_of_woken in Hp.
    destruct Hp as (_ & _ & Hc).
    destruct (inv_rq _ _ _ _ _ I e p Hq) as (t & Hp & Hr & _).
    unfold can_wake, wakeable in Hc. rewrite Hp, Hr in Hc.
    by rewrite andb_false_r in Hc.
Qed.

Lemma elem_of_live w l p t :
  heap w !! p = Some t → p ∈ live w l ↔ p ∈ l ∧ spawned t = true.
Proof. intros Hp. unfold live. rewrite !list_elem_of_In, List.filter_In, Hp. done. Qed.

(** A task marked as queued is in the run queue of its executor. *)
Lemma queued_in_rq w rq tq p t e :
  Inv w rq tq [] None → heap w !! p = Some t → run_queued_flag t = true →
  executor (raw t) = Some e → p ∈ rq e.
Proof.
  intros I Hp Hf Hx.
  destruct (ti_run _ _ _ _ _ _ (inv_task _ _ _ _ _ I p t Hp) Hf) as [Hn|(e' & Hx' & ?)].
  - by apply not_elem_of_nil in Hn.
  - congruence.
Qed.

(** A task whose timer is due and which is not queued is in the timer queue. *)
Lemma timer_in_tq w rq tq p t e :
  Inv w rq tq [] None → heap w !! p = Some t → spawned t = true →
  run_queued_flag t = false → expires_at (raw t) ≠ Instant.MAX →
  executor (raw t) = Some e → p ∈ tq e.
Proof.
  intros I Hp Hs Hf Hm Hx.
  pose proof (inv_task _ _ _ _ _ I p t Hp) as Hti.
  destruct (ti_timer _ _ _ _ _ _ Hti) as (e' & Hx' & ?); [|congruence].
  apply (ti_pending _ _ _ _ _ _ Hti); try done. by apply spawned_nonzero.
Qed.

End thms.

(** ** The properties *)
Section properties.
Context {F U : Type}.
Implicit Types w : World F U.
Implicit Types rq tq : eid → list ptr.
Context (fut_poll : F → U → Prog F (F * U * Poll unit)) (clock : nat → Z).
Context (D : gset ptr) (E : gset eid).

(** Everything that runs after boot leaves a good world. *)
Lemma run_calls_good (u : U) (cs : list (Call F)) :
  (∀ fut u, prog_valid D E (fut_poll fut u)) → Forall (call_valid D E) cs →
  ∃ w, run_calls fut_poll clock cs (boot D E u) = Some (tt, w) ∧ good D E w.
Proof.
  intros Hv Hcs.
  pose proof (wp_calls fut_poll clock D E Hv cs _ (boot_good D E u) Hcs) as H.
  apply wp_run in H as ([] & w & Hr & Hg). eauto.
Qed.

(** C1: from the moment the statics exist, whatever sequence of wakes, spawns,
    settings and passes is run, with whatever futures that only refer to existing
    tasks and executors: no null, dangling or uninitialised pointer is followed,
    every loop terminates, and the run and timer queues stay well formed (each a
    duplicate-free chain of exactly the tasks whose state word says so). *)
Theorem executor_memory_safe (u : U) (cs : list (Call F)) :
  (∀ fut u, prog_valid D E (fut_poll fut u)) → Forall (call_valid D E) cs →
  ∃ w, run_calls fut_poll clock cs (boot D E u) = Some (tt, w) ∧
    ∃ rq tq, Inv w rq tq [] None.
Proof.
  intros Hv Hcs. destruct (run_calls_good u cs Hv Hcs) as (w & Hr & _ & Hi). eauto.
Qed.

(** C2: a pass polls each task at most once; it polls exactly the live tasks of
    its batch, in queue order, and the batch has every queued task of the
    executor, so no task can starve another. *)
Theorem run_queued_polls e ex w rq tq :
  (∀ fut u, prog_valid D E (fut_poll fut u)) →
  Inv w rq tq [] None → in_scope D E w → execs w !! e = Some ex →
  ∃ w', run_queued fut_poll clock e w = Some (tt, w') ∧
    polls (trace w') = polls (trace w) ++ live w (batch clock e ex w rq tq) ∧
    NoDup (live w (batch clock e ex w rq tq)) ∧
    ∀ p t, heap w !! p = Some t → spawned t = true → run_queued_flag t = true →
      executor (raw t) = Some e → p ∈ live w (batch clock e ex w rq tq).
Proof.
  intros Hv I HS Hex.
  pose proof (wp_run_queued fut_poll clock D E Hv e ex w rq tq I HS Hex) as H.
  apply wp_run in H as ([] & w' & Hr & rq' & tq' & _ & _ & _ & Hp & _).
  exists w'. split_and!; [done|done|by apply NoDup_bfilter, batch_NoDup|].
  intros p t Ht Hs Hf Hx. apply (elem_of_live w _ p t Ht). split; [|done].
  apply elem_of_batch. by eapply queued_in_rq.
Qed.

(** C3: with an alarm, a pass ends by setting it, and no timer is lost: the alarm
    is set no later than the expiration of any live task of this executor that is
    waiting for a timer, and it is that of some such task's queue entry or MAX. *)
Theorem run_queued_alarm e ex w rq tq :
  (∀ fut u, prog_valid D E (fut_poll fut u)) →
  Inv w rq tq [] None → in_scope D E w → execs w !! e = Some ex → alarm ex = true →
  ∃ w' tr at_, run_queued fut_poll clock e w = Some (tt, w') ∧
    trace w' = tr ++ [EvSetCallback e (signal_ctx ex); EvSetAlarm e at_] ∧
    (∀ p t, heap w' !! p = Some t → spawned t = true → run_queued_flag t = false →
       executor (raw t) = Some e → expires_at (raw t) ≠ Instant.MAX →
       at_ ≤ Instant.as_ticks (expires_at (raw t))) ∧
    (at_ = Instant.as_ticks Instant.MAX ∨
     ∃ p t, heap w' !! p = Some t ∧ executor (raw t) = Some e ∧
       timer_queued_flag t = true ∧ at_ = Instant.as_ticks (expires_at (raw t))).
Proof.
  intros Hv I HS Hex Hal.
  pose proof (wp_run_queued fut_poll clock D E Hv e ex w rq tq I HS Hex) as H.
  apply wp_run in H as ([] & w' & Hr & rq' & tq' & I' & _ & _ & _ & Ha & _).
  destruct (Ha Hal) as (tr & r & Htr & Hle & Hat).
  exists w', tr, (Instant.as_ticks r). split_and!; [done|done| |].
  - intros p t Hp Hs Hf Hx Hm. specialize (Hle p). unfold expiry in Hle.
    rewrite Hp in Hle. by eapply Hle, timer_in_tq.
  - destruct Hat as [->|(p & Hin & Hp)]; [by left|right].
    destruct (inv_tq _ _ _ _ _ I' e p Hin) as (t & Ht & ? & ?).
    unfold expiry in Hp. rewrite Ht in Hp. eauto 6.
Qed.

(** waking a live task queues it on its own executor, signals that executor
    exactly when its queue was empty, and waking it again before it runs changes
    nothing; waking a task without a future does nothing. *)
Theorem wake_task_spec w rq tq held cur p t :
  Inv w rq tq held cur → heap w !! p = Some t →
  ∃ w', wake_task p w = Some (tt, w') ∧ wake_task p w' = Some (tt, w') ∧
    (spawned t = false → w' = w) ∧
    (spawned t = true → ∃ t', heap w' !! p = Some t' ∧ run_queued_flag t' = true) ∧
    (spawned t = true → run_queued_flag t = false →
     ∃ e ex, executor (raw t) = Some e ∧ execs w !! e = Some ex ∧
       execs w' = <[e := set_run_head (Some p) ex]> (execs w) ∧
       trace w' = trace w ++
         if bool_decide (run_queue ex = None) then [EvSignal (signal_ctx ex)] else []).
Proof.
  intros I Hp. pose proof (wp_wake p t w rq tq held cur I Hp) as H.
  apply wp_run in H as ([] & w' & Hr & rq' & _ & _ & _ & Hc).
  exists w'. unfold wake_task. destruct (wakeable t) eqn:Hw.
  - destruct Hc as (e & ex & Hx & Hex & -> & ->).
    pose proof Hw as [Hs Hq%negb_true_iff]%andb_true_iff.
    assert (Hself : heap (enqueued e ex p (mark_queued t) w) !! p =
      Some (upd_raw (set_run_next (run_queue ex)) (mark_queued t)))
      by apply lookup_insert_eq.
    split_and!; [done| |congruence| |].
    + eapply TaskHeader_enqueue_idle; [done|].
      change (wakeable (mark_queued t) = false). unfold wakeable.
      destruct (mark_queued_flags t) as (_ & -> & _). apply andb_false_r.
    + intros _. eexists. split; [done|]. apply (mark_queued_flags t).
    + intros _ _. by exists e, ex.
  - destruct Hc as [-> ->]. split_and!; try done.
    + intros Hs. exists t. split; [done|]. unfold wakeable in Hw.
      rewrite Hs in Hw. by apply negb_false_iff in Hw.
    + intros Hs Hf. unfold wakeable in Hw. by rewrite Hs, Hf in Hw.
Qed.

(** C4: [spawn_pool] takes the first free task of the pool and [Spawner::spawn]
    queues it with the given future; without a free task the caller gets
    [SpawnError::Busy] and nothing changes. *)
Theorem spawn_pool_spec w rq tq held cur e pool fut :
  Inv w rq tq held cur → Forall (λ p, is_Some (heap w !! p)) pool →
  is_Some (execs w !! e) →
  ∃ r w', (token ← Task_spawn_pool pool fut; Spawner_spawn e token) w = Some (r, w') ∧
    match first_free w pool with
    | Some p => r = Ok tt ∧ p ∈ pool ∧ ∃ t t', heap w !! p = Some t ∧
        state (raw t) = 0 ∧ heap w' = <[p := t']> (heap w) ∧ future t' = Some fut ∧
        spawned t' = true ∧ run_queued_flag t' = true ∧ executor (raw t') = Some e ∧
        ∃ ex, execs w' !! e = Some ex ∧ run_queue ex = Some p
    | None => r = Err Busy ∧ w' = w ∧
        ∀ p t, p ∈ pool → heap w !! p = Some t → state (raw t) ≠ 0
    end.
Proof.
  intros I Hpool He.
  pose proof (wp_spawn e pool fut w rq tq held cur I Hpool He) as H.
  apply wp_run in H as (r & w' & Hr & Hc). exists r, w'. split; [done|].
  destruct (first_free w pool) as [p|] eqn:Hff.
  - destruct Hc as (t & ex & Hp & Hex & -> & -> & _).
    destruct (first_free_Some w pool p Hff) as (Hin & t0 & Ht0 & Hs).
    rewrite Hp in Ht0. injection Ht0 as <-.
    destruct (fresh_flags e fut t Hs) as (F1 & F2 & _).
    split_and!; [done|done|]. exists t, (upd_raw (set_run_next (run_queue ex)) (fresh e fut t)).
    split_and!; try done. exists (set_run_head (Some p) ex).
    split; [apply lookup_insert_eq|done].
  - destruct Hc as [-> ->]. split_and!; [done..|]. intros p t Hin Hp Hs.
    unfold first_free in Hff. apply list_elem_of_In in Hin.
    pose proof (find_none _ _ Hff p Hin) as Hn. simpl in Hn. rewrite Hp in Hn.
    by apply Z.eqb_neq in Hn.
Qed.

(** C5: no wake-up is lost: a live task that is woken is polled by the next pass of
    its executor. *)
Theorem wake_is_polled e ex w rq tq p t :
  (∀ fut u, prog_valid D E (fut_poll fut u)) →
  Inv w rq tq [] None → in_scope D E w → execs w !! e = Some ex →
  heap w !! p = Some t → spawned t = true → executor (raw t) = Some e →
  ∃ w1 w2 visited, wake_task p w = Some (tt, w1) ∧
    run_queued fut_poll clock e w1 = Some (tt, w2) ∧
    polls (trace w2) = polls (trace w) ++ visited ∧ p ∈ visited.
Proof.
  intros Hv I HS Hex Hp Hs Hx.
  pose proof (wp_wake p t w rq tq [] None I Hp) as H.
  apply wp_run in H as ([] & w1 & Hr1 & rq1 & I1 & Fr & _ & Hc).
  destruct (fr_exec _ _ _ Fr e ex Hex) as (ex1 & Hex1 & _ & _).
  pose proof (in_scope_frame D E [] w w1 HS Fr) as HS1.
  pose proof (wp_run_queued fut_poll clock D E Hv e ex1 w1 rq1 tq I1 HS1 Hex1) as H.
  apply wp_run in H as ([] & w2 & Hr2 & rq2 & tq2 & _ & _ & _ & Hpolls & _).
  exists w1, w2, (live w1 (batch clock e ex1 w1 rq1 tq)).
  split_and!; [done|done|by rewrite Hpolls, (fr_polls _ _ _ Fr)|].
  assert (∃ t', heap w1 !! p = Some t' ∧ spawned t' = true ∧ p ∈ rq1 e)
    as (t' & Hp' & Hs' & Hin).
  { destruct (wakeable t) eqn:Hw.
    - destruct Hc as (e' & ex' & Hx' & _ & -> & ->).
      rewrite Hx in Hx'. injection Hx' as <-.
      eexists. split; [apply lookup_insert_eq|]. split.
      + change (spawned (mark_queued t) = true). by rewrite (proj1 (mark_queued_flags t)).
      + apply elem_of_push. by left.
    - destruct Hc as [-> ->]. exists t. split_and!; [done|done|].
      eapply queued_in_rq; try done. unfold wakeable in Hw. rewrite Hs in Hw.
      by apply negb_false_iff in Hw. }
  apply (elem_of_live w1 _ p t' Hp'). split; [|done]. by apply elem_of_batch.
Qed.

End properties.

(** ** A concrete run

    Two tasks and one executor.  The future [n] sets a timer ten ticks ahead each
    of the first [n] times it is polled, and wakes the other task. *)
Definition demo_poll (f : nat) (u : unit) : Prog nat (nat * unit * Poll unit) :=
  match f with
  | O => PRet (O, tt, Ready tt)
  | S n => PNow (λ i, PRegisterTimer (Instant.mk (Instant.ticks i + 10))
             (PWake 2%positive (PRet (n, tt, Pending))))
  end.
Definition demo_clock (n : nat) : Z := 5 * Z.of_nat n.
Definition demo_D : gset ptr := {[1%positive; 2%positive]}.
Definition demo_E : gset eid := {[1%positive]}.
Definition demo_calls : list (Call nat) :=
  [CSetAlarm 1; CSpawn 1 [1; 2] 2%nat; CSpawn 1 [1; 2] 0%nat; CRunQueued 1; CWake 1]%positive.
Definition demo_w : World nat unit :=
  match run_calls demo_poll demo_clock demo_calls (boot demo_D demo_E tt) with
  | Some (_, w) => w
  | None => boot demo_D demo_E tt
  end.

Example demo_trace :
  trace demo_w =
  [EvSignal 0; EvPoll 2; EvPoll 1; EvSetCallback 1 0; EvSetAlarm 1 15; EvSignal 0]%positive.
Proof. vm_compute. reflexivity. Qed.

Lemma demo_valid f u : prog_valid demo_D demo_E (demo_poll f u).
Proof.
  destruct f; simpl; [constructor|]. constructor. intros i. constructor.
  constructor; [|constructor]. apply (bool_decide_unpack _). by vm_compute.
Qed.

#[local] Instance call_valid_dec (c : Call nat) :
  Decision (call_valid demo_D demo_E c).
Proof. destruct c; unfold call_valid; apply _. Defined.

Lemma demo_calls_valid : Forall (call_valid demo_D demo_E) demo_calls.
Proof. apply (bool_decide_unpack _). by vm_compute. Qed.

Lemma demo_good : good demo_D demo_E demo_w.
Proof.
  destruct (run_calls_good demo_poll demo_clock demo_D demo_E tt demo_calls
    demo_valid demo_calls_valid) as (w & Hr & Hg).
  unfold demo_w. rewrite Hr. exact Hg.
Qed.

Definition demo_ex : Executor := default (Executor_new 0) (execs demo_w !! 1%positive).
Definition demo_task (p : ptr) : Task nat := default Task_new (heap demo_w !! p).

Lemma demo_ex_eq : execs demo_w !! 1%positive = Some demo_ex.
Proof. by vm_compute. Qed.

Lemma executor_memory_safe_witness :
  ∃ w, run_calls demo_poll demo_clock demo_calls (boot demo_D demo_E tt) = Some (tt, w) ∧
    ∃ rq tq, Inv w rq tq [] None.
Proof.
  apply (executor_memory_safe demo_poll demo_clock demo_D demo_E tt demo_calls).
  - apply demo_valid.
  - apply demo_calls_valid.
Defined.

Lemma run_queued_polls_witness :
  ∃ w', run_queued demo_poll demo_clock 1 demo_w = Some (tt, w') ∧
    ∃ l, polls (trace w') = polls (trace demo_w) ++ l ∧ NoDup l ∧ 1%positive ∈ l.
Proof.
  destruct demo_good as [HS (rq & tq & I)].
  destruct (run_queued_polls demo_poll demo_clock demo_D demo_E 1 demo_ex demo_w rq tq
    demo_valid I HS demo_ex_eq) as (w' & Hr & Hp & Hn & Hin).
  exists w'. split; [done|]. eexists. split_and!; [done|done|].
  apply (Hin 1%positive (demo_task 1)); by vm_compute.
Defined.

Lemma run_queued_alarm_witness :
  alarm demo_ex = true ∧
  ∃ w' tr at_, run_queued demo_poll demo_clock 1 demo_w = Some (tt, w') ∧
    trace w' = tr ++ [EvSetCallback 1 (signal_ctx demo_ex); EvSetAlarm 1 at_].
Proof.
  split; [by vm_compute|].
  destruct demo_good as [HS (rq & tq & I)].
  destruct (run_queued_alarm demo_poll demo_clock demo_D demo_E 1 demo_ex demo_w rq tq
    demo_valid I HS demo_ex_eq) as (w' & tr & at_ & Hr & Hp & _); [by vm_compute|].
  exists w', tr, at_. split; assumption.
Defined.

Lemma wake_task_spec_witness :
  ∃ w', wake_task 1 demo_w = Some (tt, w') ∧ wake_task 1 w' = Some (tt, w').
Proof.
  destruct demo_good as [HS (rq & tq & I)].
  destruct (wake_task_spec demo_w rq tq [] None 1 (demo_task 1) I) as (w' & H1 & H2 & _);
    [by vm_compute|]. exists w'. split; assumption.
Defined.

Lemma spawn_pool_spec_witness :
  first_free demo_w [1; 2]%positive = Some 2%positive ∧
  ∃ w', (token ← Task_spawn_pool [1; 2]%positive 7%nat; Spawner_spawn 1 token) demo_w =
    Some (Ok tt, w').
Proof.
  split; [by vm_compute|].
  destruct demo_good as [HS (rq & tq & I)].
  destruct (spawn_pool_spec demo_w rq tq [] None 1 [1; 2]%positive 7%nat I)
    as (r & w' & Hr & Hc).
  - repeat constructor; eexists; by vm_compute.
  - eexists. apply demo_ex_eq.
  - exists w'. change (first_free demo_w [1; 2]%positive) with (Some 2%positive) in Hc.
    by destruct Hc as [-> _].
Defined.

Lemma wake_is_polled_witness :
  ∃ w1 w2 visited, wake_task 1 demo_w = Some (tt, w1) ∧
    run_queued demo_poll demo_clock 1 w1 = Some (tt, w2) ∧
    polls (trace w2) = polls (trace demo_w) ++ visited ∧ 1%positive ∈ visited.
Proof.
  destruct demo_good as [HS (rq & tq & I)].
  apply (wake_is_polled demo_poll demo_clock demo_D demo_E 1 demo_ex demo_w rq tq 1
    (demo_task 1) demo_valid I HS demo_ex_eq); by vm_compute.
Defined.
