(* ===== verification/RunQueueConc.v ===== *)
(** * RunQueueConc: waking and spawning against the running executor

    [TaskHeader::enqueue], [Task::spawn_allocate]/[spawn_initialize],
    [RunQueue::enqueue] and [RunQueue::dequeue_all] as the sequences of atomic
    accesses they are, interleaved in any order: any number of contexts (threads
    or interrupt handlers) wake and spawn while one executor takes batches.
    Memory is sequentially consistent; a weak compare-exchange may fail
    spuriously.  An access the executor makes to an uninitialised future sets
    [ub]. *)
From stdpp Require Import functions.
From S2P Require Import Prelude Time Task.
Local Open Scope Z_scope.

(** ** State *)

(** Where a context is: at rest; at the head of [TaskHeader::enqueue]'s loop with
    its snapshot of the state; about to initialise a task it allocated; in
    [RunQueue::enqueue] about to load the head, to store [next], or to
    compare-exchange the head; about to call the signal function. *)
Inductive Ctx : Type :=
| Rest
| Marking (p : ptr) (current : Z)
| Initializing (p : ptr)
| LoadHead (p : ptr)
| StoreNext (p : ptr) (prev : option ptr)
| SwapHead (p : ptr) (prev : option ptr)
| Signalling.

(** Where the executor is: waiting for its signal; about to swap the head; at the
    head of the batch loop; about to clear RUN_QUEUED; polling; about to clear
    SPAWNED after the future was dropped. *)
Inductive Exec : Type :=
| Waiting
| SwapNull
| Visit (task : option ptr)
| Clear (p : ptr) (next : option ptr)
| Polling (p : ptr) (next : option ptr)
| Finishing (p : ptr) (next : option ptr).

(** [marks] counts the times RUN_QUEUED was set on a task, [takes] the times the
    executor took it off the queue. *)
Record CState : Type := mkCState {
  head_ : option ptr;
  next_ : ptr → option ptr;
  state_ : ptr → Z;
  init_ : ptr → bool;
  signaled : bool;
  ctxs : list Ctx;
  exec_ : Exec;
  ub : bool;
  marks : ptr → nat;
  takes : ptr → nat
}.

Definition set_head h s := mkCState h (next_ s) (state_ s) (init_ s) (signaled s)
  (ctxs s) (exec_ s) (ub s) (marks s) (takes s).
Definition set_next p v s := mkCState (head_ s) (<[p := v]> (next_ s)) (state_ s) (init_ s)
  (signaled s) (ctxs s) (exec_ s) (ub s) (marks s) (takes s).
Definition set_word p v s := mkCState (head_ s) (next_ s) (<[p := v]> (state_ s)) (init_ s)
  (signaled s) (ctxs s) (exec_ s) (ub s) (marks s) (takes s).
Definition set_init p v s := mkCState (head_ s) (next_ s) (state_ s) (<[p := v]> (init_ s))
  (signaled s) (ctxs s) (exec_ s) (ub s) (marks s) (takes s).
Definition set_signal v s := mkCState (head_ s) (next_ s) (state_ s) (init_ s) v
  (ctxs s) (exec_ s) (ub s) (marks s) (takes s).
Definition set_ctx i c s := mkCState (head_ s) (next_ s) (state_ s) (init_ s) (signaled s)
  (<[i := c]> (ctxs s)) (exec_ s) (ub s) (marks s) (takes s).
Definition set_exec x s := mkCState (head_ s) (next_ s) (state_ s) (init_ s) (signaled s)
  (ctxs s) x (ub s) (marks s) (takes s).
Definition set_ub b s := mkCState (head_ s) (next_ s) (state_ s) (init_ s) (signaled s)
  (ctxs s) (exec_ s) b (marks s) (takes s).
Definition count_mark p s := mkCState (head_ s) (next_ s) (state_ s) (init_ s) (signaled s)
  (ctxs s) (exec_ s) (ub s) (<[p := S (marks s p)]> (marks s)) (takes s).
Definition count_take p s := mkCState (head_ s) (next_ s) (state_ s) (init_ s) (signaled s)
  (ctxs s) (exec_ s) (ub s) (marks s) (<[p := S (takes s p)]> (takes s)).

(** ** Steps *)

(** A scheduler's choice.  [weak] makes a compare-exchange fail although the value
    was the expected one. *)
Inductive Action : Type :=
| AWake (i : nat) (p : ptr)
| ASpawn (i : nat) (p : ptr)
| ACtx (i : nat) (weak : bool)
| AExec (done : bool)
| ATimer (p : ptr) (queued : bool).

(** [TaskHeader::enqueue]: the initial load. *)
Definition begin_wake i p s : option CState :=
  match ctxs s !! i with
  | Some Rest => Some (set_ctx i (Marking p (state_ s p)) s)
  | _ => None
  end.

(** [Task::spawn_allocate]: a strong compare-exchange from 0. *)
Definition begin_spawn i p s : option CState :=
  match ctxs s !! i with
  | Some Rest =>
      if state_ s p =? 0 then
        Some (set_ctx i (Initializing p)
               (count_mark p (set_word p (Z.lor STATE_SPAWNED STATE_RUN_QUEUED) s)))
      else Some s
  | _ => None
  end.

Definition ctx_step i (weak : bool) s : option CState :=
  match ctxs s !! i with
  | Some (Marking p current) =>
      if has STATE_RUN_QUEUED current || negb (has STATE_SPAWNED current) then
        Some (set_ctx i Rest s)
      else if negb weak && (state_ s p =? current) then
        Some (set_ctx i (LoadHead p)
               (count_mark p (set_word p (fetch_or STATE_RUN_QUEUED current) s)))
      else Some (set_ctx i (Marking p (state_ s p)) s)
  | Some (Initializing p) => Some (set_ctx i (LoadHead p) (set_init p true s))
  | Some (LoadHead p) => Some (set_ctx i (StoreNext p (head_ s)) s)
  | Some (StoreNext p prev) => Some (set_ctx i (SwapHead p prev) (set_next p prev s))
  | Some (SwapHead p prev) =>
      if negb weak && bool_decide (head_ s = prev) then
        Some (set_ctx i (if bool_decide (prev = None) then Signalling else Rest)
               (set_head (Some p) s))
      else Some (set_ctx i (StoreNext p (head_ s)) s)
  | Some Signalling => Some (set_ctx i Rest (set_signal true s))
  | Some Rest | None => None
  end.

(** [done] is the future's answer when it is polled. *)
Definition exec_step (done : bool) s : option CState :=
  match exec_ s with
  | Waiting => if signaled s then Some (set_exec SwapNull (set_signal false s)) else None
  | SwapNull => Some (set_exec (Visit (head_ s)) (set_head None s))
  | Visit None => Some (set_exec Waiting s)
  | Visit (Some p) => Some (set_exec (Clear p (next_ s p)) s)
  | Clear p next =>
      let st := state_ s p in
      let s' := count_take p (set_word p (fetch_and_not STATE_RUN_QUEUED st) s) in
      Some (if negb (has STATE_SPAWNED st) then set_exec (Visit next) s'
            else set_exec (Polling p next) s')
  | Polling p next =>
      Some (if negb (init_ s p) then set_exec (Visit next) (set_ub true s)
            else if done then set_exec (Finishing p next) (set_init p false s)
            else set_exec (Visit next) s)
  | Finishing p next =>
      Some (set_exec (Visit next)
             (set_word p (fetch_and_not STATE_SPAWNED (state_ s p)) s))
  end.

(** The timer queue's updates of its own flag. *)
Definition timer_step p (queued : bool) s : option CState :=
  Some (set_word p ((if queued then fetch_or else fetch_and_not)
                      STATE_TIMER_QUEUED (state_ s p)) s).

Definition step (a : Action) s : option CState :=
  match a with
  | AWake i p => begin_wake i p s
  | ASpawn i p => begin_spawn i p s
  | ACtx i weak => ctx_step i weak s
  | AExec done => exec_step done s
  | ATimer p queued => timer_step p queued s
  end.

Fixpoint run (acts : list Action) s : option CState :=
  match acts with [] => Some s | a :: acts' => s' ← step a s; run acts' s' end.

(** Nothing spawned, [n] contexts, the executor about to run its first pass. *)
Definition start (n : nat) : CState :=
  mkCState None (λ _, None) (λ _, 0) (λ _, false) false (replicate n Rest) SwapNull false
    (λ _, O) (λ _, O).

Lemma fn_lookup_insert_if {A} (f : ptr → A) p q v :
  (<[p := v]> f : ptr → A) q = if decide (p = q) then v else f q.
Proof.
  case_decide; [subst; apply fn_lookup_insert|by apply fn_lookup_insert_ne].
Qed.

(** ** Contexts that hold a task *)

(** The task a context has marked and not yet linked in. *)
Definition hand (c : Ctx) : option ptr :=
  match c with
  | Initializing p | LoadHead p | StoreNext p _ | SwapHead p _ => Some p
  | Rest | Marking _ _ | Signalling => None
  end.
Definition hands (l : list Ctx) : list ptr := omap hand l.
Definition opt_list {A} (o : option A) : list A := match o with Some a => [a] | None => [] end.

Lemma hands_split l i c :
  l !! i = Some c → ∃ rest, hands l ≡ₚ opt_list (hand c) ++ rest ∧
    ∀ c', hands (<[i := c']> l) ≡ₚ opt_list (hand c') ++ rest.
Proof.
  intros Hi. exists (hands (take i l) ++ hands (drop (S i) l)).
  assert (Hlen : length (take i l) = i).
  { apply length_take_le, Nat.lt_le_incl. by apply lookup_lt_Some with c. }
  assert (Hh : ∀ c', hands (take i l ++ c' :: drop (S i) l) ≡ₚ
    opt_list (hand c') ++ hands (take i l) ++ hands (drop (S i) l)).
  { intros c'. unfold hands. rewrite omap_app. simpl.
    destruct (hand c'); simpl; [|done]. by rewrite <-Permutation_middle. }
  split.
  - rewrite <-(take_drop_middle l i c Hi) at 1. apply Hh.
  - intros c'. rewrite <-(take_drop_middle l i c Hi) at 1.
    rewrite insert_app_r_alt, Hlen, Nat.sub_diag by lia. simpl.
    apply Hh.
Qed.

Lemma hands_elem l i c p : l !! i = Some c → hand c = Some p → p ∈ hands l.
Proof.
  intros Hi Hc. apply list_elem_of_omap. exists c. split; [|done].
  by apply list_elem_of_lookup_2 with i.
Qed.

(** Two contexts never hold the same task when no task is held twice. *)
Lemma hands_ne l i j c c' p q :
  NoDup (hands l) → l !! i = Some c → l !! j = Some c' → i ≠ j →
  hand c = Some p → hand c' = Some q → p ≠ q.
Proof.
  intros Hnd Hi Hj Hij Hc Hc' <-.
  destruct (hands_split l i c Hi) as (rest & Hp & Hup).
  assert (Hin : p ∈ hands (<[i := Rest]> l)).
  { eapply hands_elem; [|exact Hc']. by rewrite list_lookup_insert_ne. }
  rewrite Hup in Hin. rewrite Hp, Hc in Hnd. simpl in *.
  by apply NoDup_cons in Hnd as [].
Qed.

(** ** The invariant *)

Definition nx s (p : ptr) : option (option ptr) := Some (next_ s p).

(** The part [b] of a batch the executor still has to visit. *)
Definition exec_batch s (x : Exec) (b : list ptr) : Prop :=
  match x with
  | Waiting | SwapNull => b = []
  | Visit t => t = head b ∧ links (nx s) b
  | Clear p n => ∃ b', b = p :: b' ∧ n = head b' ∧ links (nx s) b'
  | Polling p n | Finishing p n => n = head b ∧ links (nx s) b
  end.

Definition spawned_word z := has STATE_SPAWNED z.
Definition queued_word z := has STATE_RUN_QUEUED z.

(** [q] is the queue, [b] what is left of the batch: every task with RUN_QUEUED
    set is in exactly one of [q], [b] or the hands of one context. *)
Record CInv s (q b : list ptr) : Prop := {
  ci_nodup : NoDup (q ++ b ++ hands (ctxs s));
  ci_queued : ∀ p, queued_word (state_ s p) = true ↔ p ∈ q ++ b ++ hands (ctxs s);
  ci_head : head_ s = head q;
  ci_links : links (nx s) q;
  ci_exec : exec_batch s (exec_ s) b;
  ci_stored : ∀ i p prev, ctxs s !! i = Some (SwapHead p prev) → next_ s p = prev;
  ci_init : ∀ p, spawned_word (state_ s p) = true →
    init_ s p = true ∨ (∃ i, ctxs s !! i = Some (Initializing p)) ∨
    ∃ n, exec_ s = Finishing p n;
  ci_poll : ∀ p n, exec_ s = Polling p n → init_ s p = true;
  ci_running : ∀ p n, exec_ s = Polling p n ∨ exec_ s = Finishing p n →
    spawned_word (state_ s p) = true;
  ci_signal : head_ s ≠ None → signaled s = true ∨
    (∃ i, ctxs s !! i = Some Signalling) ∨ exec_ s = SwapNull;
  ci_count : ∀ p, marks s p = (takes s p + Nat.b2n (queued_word (state_ s p)))%nat;
  ci_ub : ub s = false
}.

Lemma start_inv n : CInv (start n) [] [].
Proof.
  assert (Hn : ∀ i c, replicate n Rest !! i = Some c → c = Rest).
  { intros i c Hi. by apply lookup_replicate in Hi as [-> _]. }
  assert (Hh : hands (replicate n Rest) = []) by (clear Hn; induction n as [|n IH]; [done|exact IH]).
  split; simpl; rewrite ?Hh; try done; try by (intros; simplify_eq).
  - constructor.
  - intros p. split; [done|]. by intros ?%not_elem_of_nil.
  - intros i p prev Hi. by apply Hn in Hi.
  - by intros p n0 [?|?].
Qed.

(** A context moves on without taking or dropping a task. *)
Lemma CInv_ctx s q b i c c' :
  CInv s q b → ctxs s !! i = Some c → hand c' = hand c →
  (∀ p prev, c' = SwapHead p prev → next_ s p = prev) →
  (∀ p, c = Initializing p → init_ s p = true) →
  (c = Signalling → signaled s = true) →
  CInv (set_ctx i c' s) q b.
Proof.
  intros I Hi Hh Hsw Hin Hsg.
  destruct (hands_split (ctxs s) i c Hi) as (rest & Hp & Hup).
  assert (Heq : hands (<[i := c']> (ctxs s)) ≡ₚ hands (ctxs s)) by by rewrite Hup, Hh, Hp.
  assert (Hlt : (i < length (ctxs s))%nat) by by eapply lookup_lt_Some.
  destruct I as [I1 I2 I3 I4 I5 I6 I7 I8 I9 I10 I11 I12].
  split; simpl; try done.
  - by rewrite Heq.
  - intros p. by rewrite Heq.
  - intros j p prev. destruct (decide (i = j)) as [<-|].
    + rewrite list_lookup_insert_eq by done. intros [= ->]. by apply Hsw.
    + rewrite list_lookup_insert_ne by done. apply I6.
  - intros p Hs. destruct (I7 p Hs) as [?|[[j Hj]|?]]; [by left| |by right; right].
    destruct (decide (i = j)) as [<-|].
    + left. apply Hin. congruence.
    + right. left. exists j. by rewrite list_lookup_insert_ne.
  - intros Hne. destruct (I10 Hne) as [?|[[j Hj]|?]]; [by left| |by right; right].
    destruct (decide (i = j)) as [<-|].
    + left. apply Hsg. congruence.
    + right. left. exists j. by rewrite list_lookup_insert_ne.
Qed.

(** A context takes hold of a task by setting RUN_QUEUED. *)
Lemma CInv_mark s q b i c c' p v :
  CInv s q b → ctxs s !! i = Some c → hand c = None → c ≠ Signalling →
  c' = Initializing p ∨ c' = LoadHead p ∧ spawned_word (state_ s p) = true →
  queued_word (state_ s p) = false → queued_word v = true → spawned_word v = true →
  CInv (set_ctx i c' (count_mark p (set_word p v s))) q b.
Proof.
  intros I Hi Hh Hsg Hc' Hq Hqv Hsv.
  destruct (hands_split (ctxs s) i c Hi) as (rest & Hp & Hup).
  assert (Hh' : hand c' = Some p) by by destruct Hc' as [->|[-> _]].
  assert (Heq : hands (<[i := c']> (ctxs s)) ≡ₚ p :: hands (ctxs s)).
  { rewrite Hup, Hh', Hp, Hh. done. }
  assert (Hlt : (i < length (ctxs s))%nat) by by eapply lookup_lt_Some.
  destruct I as [I1 I2 I3 I4 I5 I6 I7 I8 I9 I10 I11 I12].
  assert (Hn : p ∉ q ++ b ++ hands (ctxs s)) by (rewrite <-I2; congruence).
  assert (Hall : q ++ b ++ hands (<[i := c']> (ctxs s)) ≡ₚ
    p :: q ++ b ++ hands (ctxs s)) by (rewrite Heq; solve_Permutation).
  split; simpl; try done.
  - rewrite Hall. by apply NoDup_cons.
  - intros r. rewrite Hall, elem_of_cons, <-I2, fn_lookup_insert_if.
    case_decide; [subst|]; naive_solver.
  - intros j r prev. destruct (decide (i = j)) as [<-|].
    + rewrite list_lookup_insert_eq by done. intros [= ->]. naive_solver.
    + rewrite list_lookup_insert_ne by done. apply I6.
  - intros r. rewrite fn_lookup_insert_if. case_decide as Hr.
    + subst r. intros _. destruct Hc' as [->|[-> Hs]].
      * right. left. exists i. by rewrite list_lookup_insert_eq.
      * destruct (I7 p Hs) as [?|[[j Hj]|?]]; [by left| |by right; right].
        right. left. exists j. rewrite list_lookup_insert_ne; [done|]. intros ->; by simplify_eq/=.
    + intros Hs. destruct (I7 r Hs) as [?|[[j Hj]|?]]; [by left| |by right; right].
      right. left. exists j. rewrite list_lookup_insert_ne; [done|]. intros ->; by simplify_eq/=.
  - intros r n Hr. rewrite fn_lookup_insert_if. case_decide; [done|by eapply I9].
  - intros Hne. destruct (I10 Hne) as [?|[[j Hj]|?]]; [by left| |by right; right].
    right. left. exists j. rewrite list_lookup_insert_ne; [done|]. intros ->; by simplify_eq/=.
  - intros r. rewrite !fn_lookup_insert_if. case_decide; [subst|apply I11].
    rewrite I11, Hq, Hqv. simpl. lia.
Qed.

Lemma CInv_init s q b p : CInv s q b → CInv (set_init p true s) q b.
Proof.
  intros []. split; simpl; try done.
  - intros r. rewrite fn_lookup_insert_if. case_decide; auto.
  - intros r n Hr. rewrite fn_lookup_insert_if. case_decide; eauto.
Qed.

Lemma CInv_raise s q b : CInv s q b → CInv (set_signal true s) q b.
Proof. intros []. split; simpl; try done. by left. Qed.

(** Only the context that holds [p] writes its [next]. *)
Lemma CInv_store s q b i p prev :
  CInv s q b → ctxs s !! i = Some (StoreNext p prev) → CInv (set_next p prev s) q b.
Proof.
  intros I Hi. pose proof (hands_elem _ _ _ p Hi eq_refl) as Hin.
  destruct I as [I1 I2 I3 I4 I5 I6 I7 I8 I9 I10 I11 I12].
  apply NoDup_app in I1 as (N1 & N2 & N3). apply NoDup_app in N3 as (N3 & N4 & N5).
  assert (Hq : ∀ r, r ∈ q ∨ r ∈ b → <[p := prev]> (next_ s) r = next_ s r).
  { intros r Hr. apply fn_lookup_insert_ne. intros <-. destruct Hr as [Hr|Hr].
    - apply (N2 p Hr). apply elem_of_app. by right.
    - by apply (N4 p Hr). }
  assert (Hl : ∀ l, (∀ r, r ∈ l → r ∈ q ∨ r ∈ b) → links (nx s) l →
    links (nx (set_next p prev s)) l).
  { intros l Hl Hlk. eapply links_ext; [done|]. intros r Hr. unfold nx. simpl.
    by rewrite Hq by auto. }
  split; simpl; try done.
  - apply NoDup_app. split_and!; [done|done|]. by apply NoDup_app.
  - apply Hl; auto.
  - destruct (exec_ s); simpl in *; try done.
    + destruct I5 as [? Hb]. split; [done|]. apply Hl; auto.
    + destruct I5 as (b' & -> & -> & Hb). exists b'. split_and!; [done..|].
      apply Hl; [|done]. intros r Hr. right. by apply list_elem_of_further.
    + destruct I5 as [? Hb]. split; [done|]. apply Hl; auto.
    + destruct I5 as [? Hb]. split; [done|]. apply Hl; auto.
  - intros j r pr Hj. rewrite fn_lookup_insert_ne; [by eapply I6|].
    eapply (hands_ne (ctxs s) i j); try done. intros <-. by simplify_eq.
Qed.

(** The compare-exchange of the head.  It is enough that the head is the value
    stored in [next], whatever happened in between. *)
Lemma CInv_link s q b i p prev :
  CInv s q b → ctxs s !! i = Some (SwapHead p prev) → head_ s = prev →
  CInv (set_ctx i (if bool_decide (prev = None) then Signalling else Rest)
         (set_head (Some p) s)) (p :: q) b.
Proof.
  intros I Hi Hhd.
  set (c' := if bool_decide (prev = None) then Signalling else Rest).
  destruct (hands_split (ctxs s) i _ Hi) as (rest & Hp & Hup). simpl in Hp.
  assert (Hh' : hand c' = None) by (unfold c'; by case_bool_decide).
  specialize (Hup c'). rewrite Hh' in Hup. simpl in Hup.
  assert (Hlt : (i < length (ctxs s))%nat) by by eapply lookup_lt_Some.
  assert (Hall : q ++ b ++ hands (ctxs s) ≡ₚ (p :: q) ++ b ++ hands (<[i := c']> (ctxs s))).
  { rewrite Hp, Hup. solve_Permutation. }
  destruct I as [I1 I2 I3 I4 I5 I6 I7 I8 I9 I10 I11 I12].
  split; try done.
  - simpl. rewrite <-Hall. done.
  - intros r. simpl. rewrite (I2 r), Hall. done.
  - simpl. split; [|done]. unfold nx. simpl. f_equal. rewrite <-I3, Hhd. by eapply I6.
  - intros j r pr. simpl. destruct (decide (i = j)) as [<-|].
    + rewrite list_lookup_insert_eq by done. unfold c'. by case_bool_decide.
    + rewrite list_lookup_insert_ne by done. apply I6.
  - intros r Hr. simpl. destruct (I7 r Hr) as [?|[[j Hj]|?]]; [by left| |by right; right].
    right. left. exists j. rewrite list_lookup_insert_ne; [done|]. intros ->; by simplify_eq/=.
  - intros _. simpl. unfold c'. case_bool_decide as Hpr.
    + right. left. exists i. by rewrite list_lookup_insert_eq.
    + rewrite <-Hhd in Hpr. destruct (I10 Hpr) as [?|[[j Hj]|?]]; [by left| |by right; right].
      right. left. exists j. rewrite list_lookup_insert_ne; [done|]. intros ->; by simplify_eq/=.
Qed.

(** ** The executor's steps *)

Lemma CInv_timer s q b p v :
  CInv s q b → queued_word v = queued_word (state_ s p) →
  spawned_word v = spawned_word (state_ s p) → CInv (set_word p v s) q b.
Proof.
  intros I Hq Hs.
  assert (Hw : ∀ r, queued_word (<[p := v]> (state_ s) r) = queued_word (state_ s r) ∧
    spawned_word (<[p := v]> (state_ s) r) = spawned_word (state_ s r)).
  { intros r. rewrite fn_lookup_insert_if. by case_decide; subst. }
  destruct I as [I1 I2 I3 I4 I5 I6 I7 I8 I9 I10 I11 I12]. split; simpl; try done.
  - intros r. by rewrite (proj1 (Hw r)).
  - intros r. rewrite (proj2 (Hw r)). apply I7.
  - intros r n Hr. rewrite (proj2 (Hw r)). by eapply I9.
  - intros r. by rewrite (proj1 (Hw r)).
Qed.

(** Moving on within the pass, to a place that accounts for the same batch. *)
Lemma CInv_exec s q b x :
  CInv s q b → exec_batch s x b →
  (∀ p n, exec_ s ≠ Finishing p n) → exec_ s ≠ SwapNull →
  (∀ p n, x ≠ Polling p n ∧ x ≠ Finishing p n) →
  CInv (set_exec x s) q b.
Proof.
  intros [] Hx Hf Hsw Hn. split; simpl; try done.
  - intros p Hp. destruct (ci_init0 p Hp) as [?|[?|[n Hex]]]; [by left|by right; left|].
    by destruct (Hf p n).
  - intros p n ->. by destruct (Hn p n).
  - intros p n Hex. by destruct (Hn p n), Hex.
  - intros Hne. destruct (ci_signal0 Hne) as [?|[?|?]]; auto.
Qed.

Lemma has_spawned_after z :
  has STATE_SPAWNED (fetch_and_not STATE_RUN_QUEUED z) = has STATE_SPAWNED z ∧
  has STATE_RUN_QUEUED (fetch_and_not STATE_RUN_QUEUED z) = false ∧
  has STATE_SPAWNED (fetch_and_not STATE_SPAWNED z) = false ∧
  has STATE_RUN_QUEUED (fetch_and_not STATE_SPAWNED z) = has STATE_RUN_QUEUED z.
Proof.
  unfold STATE_SPAWNED, STATE_RUN_QUEUED. rewrite !has_and_not by lia.
  by rewrite !andb_true_r, !andb_false_r.
Qed.

Lemma has_queued_after z :
  has STATE_SPAWNED (fetch_or STATE_RUN_QUEUED z) = has STATE_SPAWNED z ∧
  has STATE_RUN_QUEUED (fetch_or STATE_RUN_QUEUED z) = true.
Proof.
  unfold STATE_SPAWNED, STATE_RUN_QUEUED. rewrite !has_or by lia.
  by rewrite orb_false_r, orb_true_r.
Qed.

Lemma CInv_swap s q b :
  CInv s q b → exec_ s = SwapNull → CInv (set_exec (Visit (head_ s)) (set_head None s)) [] q.
Proof.
  intros [I1 I2 I3 I4 I5 I6 I7 I8 I9 I10 I11 I12] Hx. rewrite Hx in I5. simpl in I5.
  subst b. split; simpl; try done.
  - intros p Hp. destruct (I7 p Hp) as [?|[?|[n Hn]]]; [by left|by right; left|congruence].
  - by intros p n [?|?].
Qed.

(** The executor clears RUN_QUEUED of the first task of the batch; if the task is
    spawned its future is there to be polled. *)
Lemma CInv_clear s q b p n :
  CInv s q b → exec_ s = Clear p n →
  let st := state_ s p in
  let s' := count_take p (set_word p (fetch_and_not STATE_RUN_QUEUED st) s) in
  CInv (if negb (has STATE_SPAWNED st) then set_exec (Visit n) s'
        else set_exec (Polling p n) s') q (tail b).
Proof.
  intros I Hx st s'. destruct (has_spawned_after st) as (Hs & Hq & _).
  destruct I as [I1 I2 I3 I4 I5 I6 I7 I8 I9 I10 I11 I12].
  rewrite Hx in I5. simpl in I5. destruct I5 as (b' & -> & -> & Hb). simpl.
  assert (Hall : q ++ (p :: b') ++ hands (ctxs s) ≡ₚ p :: q ++ b' ++ hands (ctxs s)).
  { simpl. solve_Permutation. }
  rewrite Hall in I1. apply NoDup_cons in I1 as [Hn I1].
  assert (Hword : ∀ r, spawned_word (state_ s' r) = spawned_word (state_ s r) ∧
    queued_word (state_ s' r) = if decide (p = r) then false else queued_word (state_ s r)).
  { intros r. simpl. rewrite fn_lookup_insert_if. case_decide; [subst|done]. done. }
  assert (Hqd : ∀ r, queued_word (state_ s' r) = true ↔ r ∈ q ++ b' ++ hands (ctxs s)).
  { intros r. rewrite (proj2 (Hword r)). case_decide; [subst; split; done|].
    rewrite I2, Hall, elem_of_cons. naive_solver. }
  assert (Hini : ∀ r, spawned_word (state_ s' r) = true →
    init_ s r = true ∨ ∃ i, ctxs s !! i = Some (Initializing r)).
  { intros r. rewrite (proj1 (Hword r)). intros Hr.
    destruct (I7 r Hr) as [?|[?|[n Hn']]]; [by left|by right|congruence]. }
  assert (Hcnt : ∀ r, marks s' r =
    (takes s' r + Nat.b2n (queued_word (state_ s' r)))%nat).
  { intros r. rewrite (proj2 (Hword r)). simpl. rewrite fn_lookup_insert_if, I11.
    case_decide; [subst|done].
    rewrite (proj2 (I2 r)) by (rewrite Hall; apply list_elem_of_here). simpl. lia. }
  assert (Hin : has STATE_SPAWNED st = true → init_ s p = true).
  { intros Hsp. destruct (Hini p) as [?|[i Hi]]; [by rewrite (proj1 (Hword p))|done|].
    destruct Hn. rewrite !elem_of_app. right. right. by eapply hands_elem. }
  destruct (has STATE_SPAWNED st) eqn:Hsp; simpl.
  - split; simpl; try done.
    + intros r Hr. destruct (Hini r Hr); auto.
    + intros r n0 [= <- _]. auto.
    + intros r n0 [[= <- _]|?]; [|done]. exact (eq_trans (proj1 (Hword p)) Hsp).
    + intros Hne. destruct (I10 Hne) as [?|[?|?]]; auto. congruence.
  - split; simpl; try done.
    + intros r Hr. destruct (Hini r Hr); auto.
    + by intros r n0 [?|?].
    + intros Hne. destruct (I10 Hne) as [?|[?|?]]; auto. congruence.
Qed.

Lemma CInv_drop s q b p n :
  CInv s q b → exec_ s = Polling p n →
  CInv (set_exec (Finishing p n) (set_init p false s)) q b.
Proof.
  intros [I1 I2 I3 I4 I5 I6 I7 I8 I9 I10 I11 I12] Hx. rewrite Hx in I5.
  split; simpl; try done.
  - intros r Hr. rewrite fn_lookup_insert_if. case_decide; [subst; eauto|].
    destruct (I7 r Hr) as [?|[?|[n0 Hn]]]; [by left|by right; left|congruence].
  - intros r n0 [?|[= <- _]]; [done|]. eapply I9. by left.
  - intros Hne. destruct (I10 Hne) as [?|[?|?]]; auto. congruence.
Qed.

Lemma CInv_finish s q b p n :
  CInv s q b → exec_ s = Finishing p n →
  CInv (set_exec (Visit n) (set_word p (fetch_and_not STATE_SPAWNED (state_ s p)) s)) q b.
Proof.
  intros [I1 I2 I3 I4 I5 I6 I7 I8 I9 I10 I11 I12] Hx. rewrite Hx in I5.
  destruct (has_spawned_after (state_ s p)) as (_ & _ & Hs & Hq).
  assert (Hw : ∀ r, queued_word (<[p := fetch_and_not STATE_SPAWNED (state_ s p)]>
    (state_ s) r) = queued_word (state_ s r)).
  { intros r. rewrite fn_lookup_insert_if. by case_decide; subst. }
  split; simpl; try done.
  - intros r. by rewrite Hw.
  - intros r. rewrite fn_lookup_insert_if. case_decide as Hr.
    + unfold spawned_word. by rewrite Hs.
    + intros Hsp. destruct (I7 r Hsp) as [?|[?|[n0 Hn]]]; [by left|by right; left|congruence].
  - by intros r n0 [?|?].
  - intros Hne. destruct (I10 Hne) as [?|[?|?]]; auto. congruence.
  - intros r. by rewrite Hw.
Qed.

Lemma CInv_wakeup s q b :
  CInv s q b → exec_ s = Waiting → CInv (set_exec SwapNull (set_signal false s)) q b.
Proof.
  intros [I1 I2 I3 I4 I5 I6 I7 I8 I9 I10 I11 I12] Hx. rewrite Hx in I5.
  split; simpl; try done.
  - intros r Hr. destruct (I7 r Hr) as [?|[?|[n0 Hn]]]; [by left|by right; left|congruence].
  - by intros r n0 [?|?].
  - auto.
Qed.

(** ** Every step keeps the invariant *)

Definition cinv s : Prop := ∃ q b, CInv s q b.

Lemma begin_wake_inv i p s s' : cinv s → begin_wake i p s = Some s' → cinv s'.
Proof.
  intros (q & b & I) H. unfold begin_wake in H.
  destruct (ctxs s !! i) as [[]|] eqn:Hi; simplify_eq.
  exists q, b. by eapply CInv_ctx.
Qed.

Lemma begin_spawn_inv i p s s' : cinv s → begin_spawn i p s = Some s' → cinv s'.
Proof.
  intros (q & b & I) H. unfold begin_spawn in H.
  destruct (ctxs s !! i) as [[]|] eqn:Hi; simplify_eq.
  destruct (Z.eqb_spec (state_ s p) 0) as [Hz|]; simplify_eq; [|by exists q, b].
  exists q, b. eapply CInv_mark; try done; [by left|]. by rewrite Hz.
Qed.

Lemma ctx_step_inv i weak s s' : cinv s → ctx_step i weak s = Some s' → cinv s'.
Proof.
  intros (q & b & I) H. unfold ctx_step in H.
  destruct (ctxs s !! i) as [c|] eqn:Hi; [|done].
  destruct c as [|p cur|p|p|p prev|p prev|]; simplify_eq.
  - destruct (has STATE_RUN_QUEUED cur || negb (has STATE_SPAWNED cur)) eqn:Hc; simplify_eq;
      [exists q, b; by eapply CInv_ctx|].
    apply orb_false_iff in Hc as [Hq Hs%negb_false_iff].
    destruct (negb weak && (state_ s p =? cur)) eqn:Hcas; simplify_eq;
      [|exists q, b; by eapply CInv_ctx].
    apply andb_true_iff in Hcas as [_ <-%Z.eqb_eq].
    destruct (has_queued_after (state_ s p)) as [H1 H2].
    exists q, b. eapply CInv_mark; try done; [by right|]. unfold spawned_word. by rewrite H1.
  - exists q, b. eapply CInv_ctx; [by apply CInv_init|done|done|done| |done].
    intros ? [= <-]. simpl. apply fn_lookup_insert.
  - exists q, b. by eapply CInv_ctx.
  - exists q, b. eapply CInv_ctx; [by eapply CInv_store|done|done| |done|done].
    intros ? ? [= <- <-]. simpl. apply fn_lookup_insert.
  - destruct (negb weak && bool_decide (head_ s = prev)) eqn:Hcas; simplify_eq.
    + apply andb_true_iff in Hcas as [_ Hhd%bool_decide_eq_true].
      exists (p :: q), b. by apply CInv_link.
    + exists q, b. by eapply CInv_ctx.
  - exists q, b. eapply CInv_ctx; [by apply CInv_raise|done..].
Qed.

Lemma exec_step_inv done s s' : cinv s → exec_step done s = Some s' → cinv s'.
Proof.
  intros (q & b & I) H. unfold exec_step in H.
  pose proof (ci_exec _ _ _ I) as Hb.
  destruct (exec_ s) as [| |[p|]|p n|p n|p n] eqn:Hx; simpl in Hb.
  - destruct (signaled s); [|done]. injection H as <-. exists q, b. by apply CInv_wakeup.
  - injection H as <-. exists [], q. by eapply CInv_swap.
  - injection H as <-. exists q, b. destruct Hb as [Hh Hl]. destruct b as [|p' b']; [done|].
    injection Hh as ->. destruct Hl as [Hn Hl].
    apply CInv_exec; [done| |congruence|congruence|by split].
    exists b'. split_and!; [done| |done]. by injection Hn.
  - injection H as <-. exists q, b. destruct Hb as [Hh Hl]. destruct b; [|done].
    apply (CInv_exec s q []); [done|done|congruence|congruence|by split].
  - injection H as <-. exists q, (tail b). by apply CInv_clear.
  - rewrite (ci_poll _ _ _ I p n Hx) in H. simpl in H. exists q, b.
    destruct done; injection H as <-; [by apply CInv_drop|].
    apply CInv_exec; [done|done|congruence|congruence|by split].
  - injection H as <-. exists q, b. by apply CInv_finish.
Qed.

Lemma timer_step_inv p queued s s' : cinv s → timer_step p queued s = Some s' → cinv s'.
Proof.
  intros (q & b & I) [= <-]. exists q, b.
  unfold STATE_SPAWNED, STATE_RUN_QUEUED, STATE_TIMER_QUEUED.
  apply CInv_timer; [done|..]; unfold queued_word, spawned_word,
    STATE_SPAWNED, STATE_RUN_QUEUED; destruct queued;
    rewrite ?has_or, ?has_and_not by lia; simpl; by rewrite ?orb_false_r, ?andb_true_r.
Qed.

Lemma step_inv a s s' : cinv s → step a s = Some s' → cinv s'.
Proof.
  destruct a; simpl; eauto using begin_wake_inv, begin_spawn_inv, ctx_step_inv,
    exec_step_inv, timer_step_inv.
Qed.

Lemma run_inv acts s s' : cinv s → run acts s = Some s' → cinv s'.
Proof.
  revert s. induction acts as [|a acts IH]; intros s Hs Hr; simplify_eq/=; [done|].
  destruct (step a s) as [s1|] eqn:Ha; [|done]. simpl in Hr.
  eapply IH; [|done]. by eapply step_inv.
Qed.

(** ** The executor alone *)

(** [n] steps of the executor; [ans] are the answers of the futures it polls. *)
Fixpoint run_exec (ans : nat → bool) (n : nat) s : option CState :=
  match n with
  | O => Some s
  | S m => s' ← exec_step (ans O) s; run_exec (λ k, ans (S k)) m s'
  end.

(** [s'] is some way further on in the executor's run from [s]. *)
Definition drains s (P : CState → Prop) : Prop :=
  ∀ ans, ∃ m s', run_exec ans m s = Some s' ∧ P s'.

Lemma drains_here s (P : CState → Prop) : P s → drains s P.
Proof. intros H ans. by exists O, s. Qed.

Lemma drains_step s (P : CState → Prop) :
  (∀ d, ∃ s', exec_step d s = Some s' ∧ drains s' P) → drains s P.
Proof.
  intros H ans. destruct (H (ans O)) as (s1 & H1 & Hd).
  destruct (Hd (λ k, ans (S k))) as (m & s' & Hr & HP).
  exists (S m), s'. simpl. by rewrite H1.
Qed.

(** What the executor's own steps keep: the contexts, and a lowered signal. *)
Definition alone s s' : Prop :=
  cinv s' ∧ ctxs s' = ctxs s ∧ (signaled s = false → signaled s' = false).

Lemma alone_trans s1 s2 s3 : alone s1 s2 → alone s2 s3 → alone s1 s3.
Proof. intros (_ & E1 & F1) (? & E2 & F2). split_and!; [done|congruence|auto]. Qed.

Lemma exec_step_alone d s s' : cinv s → exec_step d s = Some s' → alone s s'.
Proof.
  intros I H. split; [by eapply exec_step_inv|].
  unfold exec_step in H. repeat case_match; by simplify_eq/=.
Qed.

Definition batch_length (x : Exec) (b : list ptr) : nat :=
  match x with
  | Waiting | SwapNull => 0
  | Visit _ => 4 * length b
  | Clear _ _ => 4 * length b - 1
  | Polling _ _ => 4 * length b + 2
  | Finishing _ _ => 4 * length b + 1
  end.

Lemma finish_pass k s q b :
  CInv s q b → exec_ s ≠ SwapNull → (batch_length (exec_ s) b ≤ k)%nat →
  drains s (λ s', alone s s' ∧ exec_ s' = Waiting).
Proof.
  revert s q b. induction k as [k IH] using lt_wf_ind. intros s q b I Hsw Hk.
  assert (exec_ s = Waiting ∨ exec_ s ≠ Waiting) as [|Hw]
    by (destruct (exec_ s); by (left + right)).
  { apply drains_here. split; [|done]. split_and!; [by exists q, b|done|done]. }
  apply drains_step. intros d.
  assert (∃ s' q' b', exec_step d s = Some s' ∧ CInv s' q' b' ∧ exec_ s' ≠ SwapNull ∧
    (exec_ s' = Waiting ∨ batch_length (exec_ s') b' < batch_length (exec_ s) b)%nat)
    as (s' & q' & b' & Hstep & I' & Hsw' & Hlt).
  { pose proof (ci_exec _ _ _ I) as Hb. unfold exec_step.
    destruct (exec_ s) as [| |[p|]|p n|p n|p n] eqn:Hx; simpl in Hb; try done.
    - destruct Hb as [Hh Hl]. destruct b as [|p' b']; [done|]. injection Hh as ->.
      destruct Hl as [Hn Hl]. injection Hn as Hn. eexists _, q, (p' :: b').
      split_and!; [done| |done|simpl; lia].
      apply CInv_exec; [done| |congruence|congruence|by split]. by exists b'.
    - eexists _, q, b. split_and!; [done| |done|by left].
      destruct Hb as [Hh Hl]. destruct b; [|done].
      by apply CInv_exec; [| |congruence|congruence|].
    - eexists _, q, (tail b). split_and!; [done|by apply CInv_clear| |].
      + by destruct (has STATE_SPAWNED _).
      + destruct Hb as (b' & -> & _). simpl.
        destruct (has STATE_SPAWNED _); simpl; lia.
    - rewrite (ci_poll _ _ _ I p n Hx). simpl. destruct d.
      + eexists _, q, b. split_and!; [done|by apply CInv_drop|done|simpl; lia].
      + eexists _, q, b. split_and!; [done| |done|simpl; lia].
        by apply CInv_exec; [| |congruence|congruence|].
    - eexists _, q, b. split_and!; [done|by apply CInv_finish|done|simpl; lia]. }
  exists s'. split; [done|].
  assert (Ha : alone s s') by (eapply exec_step_alone; [by exists q, b|done]).
  destruct Hlt as [Hwait|Hlt].
  - by apply drains_here.
  - intros ans. destruct (IH (batch_length (exec_ s') b') ltac:(lia) s' q' b' I' Hsw'
      (le_n _) ans) as (m & s2 & Hr & Ha2 & Hw2).
    exists m, s2. split_and!; [done|by eapply alone_trans|done].
Qed.

Lemma run_exec_app m m2 ans s s1 :
  run_exec ans m s = Some s1 →
  run_exec ans (m + m2) s = run_exec (λ k, ans (m + k)%nat) m2 s1.
Proof.
  revert ans s. induction m as [|m IH]; intros ans s H; [by injection H as ->|].
  simpl in *. destruct (exec_step (ans O) s) as [s2|]; [|done]. simpl in *.
  by rewrite (IH _ _ H).
Qed.

Lemma drains_bind s (P Q : CState → Prop) :
  drains s P → (∀ s', P s' → drains s' Q) → drains s Q.
Proof.
  intros HP HQ ans. destruct (HP ans) as (m & s1 & Hr & H1).
  destruct (HQ s1 H1 (λ k, ans (m + k)%nat)) as (m2 & s2 & Hr2 & H2).
  exists (m + m2)%nat, s2. by rewrite (run_exec_app _ _ _ _ _ Hr).
Qed.

(** All contexts at rest, the executor asleep, and nothing to wake it. *)
Definition quiescent s : Prop :=
  Forall (λ c, c = Rest) (ctxs s) ∧ exec_ s = Waiting ∧ signaled s = false.

Lemma rest_hands l : Forall (λ c, c = Rest) l → hands l = [].
Proof. induction 1 as [|c l -> _ IH]; [done|exact IH]. Qed.

Lemma rest_lookup l i c : Forall (λ c, c = Rest) l → l !! i = Some c → c = Rest.
Proof. intros Hl Hi. rewrite Forall_lookup in Hl. eauto. Qed.

(** Nothing is left behind when everybody rests. *)
Lemma quiescent_empty s : cinv s → quiescent s →
  head_ s = None ∧ ∀ p, queued_word (state_ s p) = false ∧ marks s p = takes s p.
Proof.
  intros (q & b & I) (Hr & Hw & Hs).
  assert (Hh : head_ s = None).
  { destruct (head_ s) eqn:Hh; [|done].
    destruct (ci_signal _ _ _ I) as [?|[[i Hi]|?]]; try congruence.
    by apply (rest_lookup _ _ _ Hr) in Hi. }
  split; [done|]. intros p.
  assert (Hq : queued_word (state_ s p) = false).
  { destruct (queued_word (state_ s p)) eqn:Hq; [|done]. exfalso.
    apply (ci_queued _ _ _ I) in Hq. rewrite (rest_hands _ Hr) in Hq.
    pose proof (ci_exec _ _ _ I) as Hb. rewrite Hw in Hb. simpl in Hb. subst b.
    pose proof (ci_head _ _ _ I) as Hhd. rewrite Hh in Hhd. destruct q; [|done].
    by apply not_elem_of_nil in Hq. }
  split; [done|]. rewrite (ci_count _ _ _ I), Hq. simpl. lia.
Qed.

(** From a state in which the contexts rest, the executor runs dry. *)
Lemma drains_quiescent s : cinv s → Forall (λ c, c = Rest) (ctxs s) → drains s quiescent.
Proof.
  intros I Hr.
  assert (Hpass : ∀ s, cinv s → drains s (λ s', alone s s' ∧ exec_ s' = Waiting)).
  { clear. intros s I. destruct I as (q & b & I).
    assert (exec_ s = SwapNull ∨ exec_ s ≠ SwapNull) as [Hx|Hx]
      by (destruct (exec_ s); by (left + right)).
    2:{ by eapply (finish_pass _ s q b). }
    apply drains_step. intros d. unfold exec_step. rewrite Hx. eexists. split; [done|].
    pose proof (CInv_swap s q b I Hx) as I'. intros ans.
    destruct (finish_pass _ _ _ _ I' ltac:(done) (le_n _) ans) as (m & s' & ? & (? & ? & ?) & ?).
    exists m, s'. done. }
  eapply drains_bind; [by apply Hpass|]. intros s1 [(I1 & C1 & _) W1].
  destruct (signaled s1) eqn:Hsig; [|apply drains_here; by rewrite <-C1 in Hr].
  apply drains_step. intros d. unfold exec_step. rewrite W1, Hsig. eexists. split; [done|].
  assert (I2 : cinv (set_exec SwapNull (set_signal false s1))).
  { destruct I1 as (q & b & I1). exists q, b. by apply CInv_wakeup. }
  eapply drains_bind; [by apply Hpass|]. intros s3 [(I3 & C3 & F3) W3].
  apply drains_here. split_and!; [by rewrite C3; simpl; rewrite C1|done|by apply F3].
Qed.

(** ** Properties *)

(** C6: under every interleaving of wakes, spawns, timer updates and executor steps,
    with spuriously failing compare-exchanges, a task whose RUN_QUEUED bit is set
    is in exactly one place (the queue, the batch, or the hands of one context that
    is about to link it in), the queue is a well-formed chain, and the executor
    never touches an uninitialised future. *)
Theorem interleaving_safe n acts s :
  run acts (start n) = Some s →
  ub s = false ∧ ∃ q b, NoDup (q ++ b ++ hands (ctxs s)) ∧
    (∀ p, has STATE_RUN_QUEUED (state_ s p) = true ↔ p ∈ q ++ b ++ hands (ctxs s)) ∧
    head_ s = head q ∧ links (λ p, Some (next_ s p)) q ∧ exec_batch s (exec_ s) b.
Proof.
  intros Hr. destruct (run_inv acts (start n) s) as (q & b & I); [|done|].
  - exists [], []. apply start_inv.
  - split; [apply I|]. exists q, b. by destruct I.
Qed.

(** C7: no wake-up is lost under any interleaving: when every context is at rest
    and the executor sleeps with no signal pending, the queue is empty, no task is
    marked as queued, and every marking has been answered by one visit. *)
Theorem no_lost_wakeup n acts s :
  run acts (start n) = Some s → quiescent s →
  head_ s = None ∧
  ∀ p, has STATE_RUN_QUEUED (state_ s p) = false ∧ marks s p = takes s p.
Proof.
  intros Hr Hq. apply quiescent_empty; [|done].
  apply (run_inv acts (start n)); [exists [], []; apply start_inv|done].
Qed.

(** once the contexts stop, the executor visits everything that is queued and
    goes to sleep in finitely many steps, whatever its futures answer. *)
Theorem executor_runs_dry n acts s ans :
  run acts (start n) = Some s → Forall (λ c, c = Rest) (ctxs s) →
  ∃ m s', run_exec ans m s = Some s' ∧ quiescent s' ∧
    ∀ p, has STATE_RUN_QUEUED (state_ s' p) = false ∧ marks s' p = takes s' p.
Proof.
  intros Hr Hrest.
  assert (I : cinv s).
  { apply (run_inv acts (start n)); [exists [], []; apply start_inv|done]. }
  assert (H : drains s (λ s', cinv s' ∧ quiescent s')).
  { intros ans'. destruct (drains_quiescent s I Hrest ans') as (m & s' & Hm & Hq).
    exists m, s'. split_and!; try done. clear Hq Hrest Hr ans. revert s ans' I Hm. clear.
    induction m as [|m IH]; intros s ans I Hm; simplify_eq/=; [done|].
    destruct (exec_step (ans O) s) as [s1|] eqn:H1; [|done].
    apply (IH s1 (λ k, ans (S k))); [by eapply exec_step_inv|done]. }
  destruct (H ans) as (m & s' & Hm & I' & Hq).
  exists m, s'. split_and!; [done|done|]. by apply quiescent_empty.
Qed.

(** ** A concrete schedule

    Two contexts spawn the tasks 1 and 2 and race to link them in: the second
    loses the compare-exchange of the head and retries.  Task 1 is then woken
    while it is being polled. *)
Definition demo_schedule : list Action :=
  [ASpawn 0 1; ASpawn 1 2; ACtx 0 false; ACtx 1 false; ACtx 0 false; ACtx 1 false;
   ACtx 0 false; ACtx 1 false; ACtx 0 false; ACtx 1 false; ACtx 1 false; ACtx 1 false;
   ACtx 0 false; AExec false; AExec false; AExec false; AExec false;
   AExec false; AExec false; AWake 0 1; ACtx 0 true; ACtx 0 false; ACtx 0 false;
   ACtx 0 false; ACtx 0 false; ACtx 0 false]%positive.

Definition demo_state : CState := default (start 0) (run demo_schedule (start 2)).

Lemma demo_run : run demo_schedule (start 2) = Some demo_state.
Proof. vm_compute. reflexivity. Qed.

Lemma interleaving_safe_witness :
  run demo_schedule (start 2) = Some demo_state ∧ ub demo_state = false ∧
  has STATE_RUN_QUEUED (state_ demo_state 1%positive) = true.
Proof.
  split; [exact demo_run|]. split; [|vm_compute; reflexivity].
  exact (proj1 (interleaving_safe 2 demo_schedule demo_state demo_run)).
Defined.

Definition demo_final : CState :=
  default (start 0) (run (demo_schedule ++ replicate 8 (AExec true)) (start 2)).

Lemma no_lost_wakeup_witness :
  quiescent demo_final ∧ head_ demo_final = None ∧ marks demo_final 1%positive = 2%nat.
Proof.
  assert (Hq : quiescent demo_final).
  { split; [|split]; [|vm_compute; reflexivity..]. vm_compute. repeat constructor. }
  split; [exact Hq|]. split; [|vm_compute; reflexivity].
  apply (no_lost_wakeup 2 (demo_schedule ++ replicate 8 (AExec true)) demo_final);
    [vm_compute; reflexivity|exact Hq].
Defined.

Lemma executor_runs_dry_witness :
  ∃ m s', run_exec (λ _, true) m demo_state = Some s' ∧ quiescent s'.
Proof.
  destruct (executor_runs_dry 2 demo_schedule demo_state (λ _, true) demo_run)
    as (m & s' & Hr & Hq & _).
  - vm_compute. repeat constructor.
  - exists m, s'. split; [exact Hr|exact Hq].
Defined.
