(* ===== verification/Timer.v ===== *)
(** * Timer: timers, tickers, delays and timeouts

    [embassy/src/executor/timer.rs]: futures written over the executor's
    interface, as programs of [Executor]. *)
From S2P Require Import Prelude Time Task RunQueue TimerQueue Executor ExecutorInv.
From S2P Require Import ExecutorProofs.
Local Open Scope Z_scope.

(** ** Timer *)
Module Timer.

Record t : Type := mk { expires_at : Instant.t; yielded_once : bool }.

Definition at_ (expires_at : Instant.t) : t := mk expires_at false.

(** [Timer::after], [now] being the reading of the clock. *)
Definition after (now : Instant.t) (duration : Duration.t) : outcome t :=
  e ← Instant.add now duration; Done (mk e false).

(** [Timer::poll].  The clock is read only once the timer has yielded. *)
Definition poll {F} (self : t) : Prog F (t * Poll unit) :=
  let pend := PRegisterTimer (expires_at self)
                (PRet (mk (expires_at self) true, Pending)) in
  if yielded_once self then
    PNow (λ now, if Instant.leb (expires_at self) now
                 then PRet (self, Ready tt) else pend)
  else pend.

End Timer.

(** ** Ticker *)
Module Ticker.

Record t : Type := mk { expires_at : Instant.t; duration : Duration.t }.

Definition every (now : Instant.t) (duration : Duration.t) : outcome t :=
  e ← Instant.add now duration; Done (mk e duration).

(** [Ticker::poll_next]; advancing the deadline panics when it leaves [u64]. *)
Definition poll_next {F} (self : t) : Prog F (outcome (t * Poll (option unit))) :=
  PNow (λ now,
    if Instant.leb (expires_at self) now then
      let dur := duration self in
      PRet (e ← Instant.add_assign (expires_at self) dur;
            Done (mk e dur, Ready (Some tt)))
    else PRegisterTimer (expires_at self) (PRet (Done (self, Pending)))).

(** What [poll_next] answers when the clock reads [now]. *)
Definition tick (now : Instant.t) (self : t) : outcome (t * bool) :=
  if Instant.leb (expires_at self) now then
    e ← Instant.add_assign (expires_at self) (duration self);
    Done (mk e (duration self), true)
  else Done (self, false).

(** Polling at each of the given readings; the number of ticks yielded. *)
Fixpoint ticks (nows : list Instant.t) (self : t) : outcome (t * nat) :=
  match nows with
  | [] => Done (self, O)
  | now :: nows' =>
      '(self', b) ← tick now self;
      '(self'', n) ← ticks nows' self';
      Done (self'', if b : bool then S n else n)
  end.

End Ticker.

(** ** Delay *)
Section delay.
Context {P : Profile}.
Definition Delay_delay_ms (now : Instant.t) (millis : Z) : outcome Timer.t :=
  d ← Duration.from_millis millis; Timer.after now d.
Definition Delay_delay_us (now : Instant.t) (micros : Z) : outcome Timer.t :=
  d ← Duration.from_micros micros; Timer.after now d.
End delay.

(** ** Timeouts

    [select] is [futures::future::select]: its poll is a parameter, given the
    polls of the two futures; the state of both is kept. *)
Inductive Either (A B : Type) : Type :=
| Left (a : A)
| Right (b : B).
Arguments Left {A B} a.
Arguments Right {A B} b.

Inductive TimeoutError : Type := mkTimeoutError.

Section timeout.
Context {F Fut A : Type}.
Context (fut_poll : Fut → Prog F (Fut * Poll A)).
Context (select : (Fut → Prog F (Fut * Poll A)) → (Timer.t → Prog F (Timer.t * Poll unit)) →
  Fut * Timer.t → Prog F (Fut * Timer.t * Poll (Either A unit))).

(** The state of [with_timeout] once started: the future and its timer. *)
Definition with_timeout (now : Instant.t) (timeout : Duration.t) (fut : Fut)
    : outcome (Fut * Timer.t) :=
  timeout_fut ← Timer.after now timeout; Done (fut, timeout_fut).

Definition with_timeout_poll (self : Fut * Timer.t)
    : Prog F (Fut * Timer.t * Poll (Result A TimeoutError)) :=
  PBind (select fut_poll Timer.poll self) (λ '(self', r),
    PRet (self', match r with
                 | Ready (Left r) => Ready (Ok r)
                 | Ready (Right _) => Ready (Err mkTimeoutError)
                 | Pending => Pending
                 end)).
End timeout.

(** The documented behaviour of [select]: poll the first future, and the second
    only if the first is pending. *)
Definition select_spec {F Fut T A B} (pa : Fut → Prog F (Fut * Poll A))
    (pb : T → Prog F (T * Poll B)) (s : Fut * T) : Prog F (Fut * T * Poll (Either A B)) :=
  PBind (pa s.1) (λ '(a, ra),
    match ra with
    | Ready r => PRet (a, s.2, Ready (Left r))
    | Pending =>
        PBind (pb s.2) (λ '(b, rb),
          PRet (a, b, match rb with Ready r => Ready (Right r) | Pending => Pending end))
    end).

(** ** Running them on a task *)
Section props.
Context {F U : Type} (clock : nat → Z).
Implicit Types w : World F U.

Lemma interp_bind {A B} p (m : Prog F A) (f : A → Prog F B) w :
  interp clock p (PBind m f) w =
  (interp clock p m w ≫= λ '(a, w'), interp clock p (f a) w').
Proof.
  revert w. induction m as [a|t k IH|k IH|i k IH|e pool fut k IH]; intros w; simpl;
    unfold mbind, M_bind.
  - done.
  - destruct (wake_task t w) as [[[] w1]|]; [|done]. apply IH.
  - apply IH.
  - destruct (register_timer i p w) as [[[] w1]|]; [|done]. apply IH.
  - destruct (Task_spawn_pool pool fut w) as [[tok w1]|]; [|done].
    destruct (Spawner_spawn e tok w1) as [[r w2]|]; [|done]. apply IH.
Qed.

Definition registered (at_ : Instant.t) (tk : Task F) : Task F :=
  upd_raw (set_expires (Instant.min (expires_at (raw tk)) at_)) tk.

Lemma register_timer_run at_ p tk w :
  heap w !! p = Some tk →
  register_timer at_ p w = Some (tt, with_heap (<[p := registered at_ tk]> (heap w)) w).
Proof.
  intros Hp. unfold register_timer, mbind, M_bind, deref, deref_mut. rewrite Hp.
  simpl. by rewrite Hp.
Qed.

Lemma registered_le at_ (tk : Task F) :
  Instant.ticks (expires_at (raw (registered at_ tk))) ≤ Instant.ticks at_ ∧
  Instant.ticks (expires_at (raw (registered at_ tk))) ≤ Instant.ticks (expires_at (raw tk)).
Proof. simpl. unfold Instant.min, Instant.leb. case_bool; lia. Qed.

(** a [Timer] never completes on its first poll and never before its
    expiration; polled at or after the expiration (and having yielded) it
    completes; when it does not complete, the task is left with an expiration no
    later than the timer's, so that the executor's alarm covers it. *)
Theorem timer_poll_spec (tm : Timer.t) p tk w :
  heap w !! p = Some tk →
  ∃ tm' r w', interp clock p (Timer.poll tm) w = Some ((tm', r), w') ∧
    (r = Ready tt ↔ Timer.yielded_once tm = true ∧
       Instant.ticks (Timer.expires_at tm) ≤ clock (reads w)) ∧
    (r = Ready tt → heap w' = heap w) ∧
    (r = Pending →
       tm' = Timer.mk (Timer.expires_at tm) true ∧
       ∃ tk', heap w' = <[p := tk']> (heap w) ∧
         Instant.ticks (expires_at (raw tk')) ≤ Instant.ticks (Timer.expires_at tm) ∧
         Instant.ticks (expires_at (raw tk')) ≤ Instant.ticks (expires_at (raw tk))).
Proof.
  intros Hp. destruct tm as [e y]. unfold Timer.poll. simpl.
  destruct y; simpl.
  - unfold mbind at 1, M_bind, Instant_now_M. unfold Instant.leb at 1. simpl.
    destruct (Z.leb_spec (Instant.ticks e) (clock (reads w))) as [Hle|Hgt]; simpl.
    + eexists _, _, _. split_and!; done.
    + unfold mbind, M_bind. rewrite (register_timer_run e p tk) by done.
      eexists _, _, _. split; [done|]. split_and!; [|done|].
      * split; [done|]. intros [_ ?]. lia.
      * intros _. split; [done|]. eexists. split; [done|]. apply registered_le.
  - unfold mbind, M_bind. rewrite (register_timer_run e p tk) by done.
    eexists _, _, _. split; [done|]. split_and!; [|done|].
    + split; [done|]. by intros [? _].
    + intros _. split; [done|]. eexists. split; [done|]. apply registered_le.
Qed.

(** [tick] is [poll_next] seen from the ticker. *)
Lemma poll_next_run (tk : Ticker.t) p t w :
  heap w !! p = Some t →
  ∃ r w', interp clock p (Ticker.poll_next tk) w = Some (r, w') ∧
    r = ('(tk', b) ← Ticker.tick (Instant.mk (clock (reads w))) tk;
         Done (tk', if b : bool then Ready (Some tt) else Pending)).
Proof.
  intros Hp. unfold Ticker.poll_next, Ticker.tick. simpl.
  unfold mbind at 1, M_bind, Instant_now_M. simpl.
  destruct (Instant.leb _ _); simpl.
  - eexists _, _. split; [done|]. unfold Instant.add_assign.
    by destruct (Instant.add _ _).
  - unfold mbind, M_bind. rewrite (register_timer_run _ p t) by done.
    eexists _, _. split; [done|]. done.
Qed.

(** the poll of [with_timeout], for any [select] with the documented
    behaviour: a ready future wins, whatever the timer says; a pending one gives
    [TimeoutError] exactly when the timer has yielded and its deadline has passed. *)
Theorem with_timeout_spec {Fut A} (fut_poll : Fut → Prog F (Fut * Poll A))
    select (fut fut' : Fut) (tm : Timer.t) ra p tk w w1 :
  (∀ s w, interp clock p (select fut_poll Timer.poll s) w =
          interp clock p (select_spec fut_poll Timer.poll s) w) →
  interp clock p (fut_poll fut) w = Some ((fut', ra), w1) → heap w1 !! p = Some tk →
  ∃ s' r w', interp clock p (with_timeout_poll fut_poll select (fut, tm)) w =
      Some ((s', r), w') ∧
    (∀ a, ra = Ready a → r = Ready (Ok a)) ∧
    (ra = Pending →
       if Timer.yielded_once tm && (Instant.ticks (Timer.expires_at tm) <=? clock (reads w1))
       then r = Ready (Err mkTimeoutError)
       else r = Pending ∧ s' = (fut', Timer.mk (Timer.expires_at tm) true)).
Proof.
  intros Hsel Hf Hp. unfold with_timeout_poll. rewrite interp_bind, Hsel.
  unfold select_spec. rewrite interp_bind. simpl. rewrite Hf. unfold mbind, option_bind.
  destruct ra as [a|]; simpl.
  - eexists _, _, _. split; [done|]. split; [|done]. by intros ? [= ->].
  - rewrite interp_bind. destruct tm as [e y]. unfold Timer.poll. destruct y; simpl.
    + unfold mbind at 2, M_bind, Instant_now_M, Instant.leb. simpl.
      destruct (Z.leb_spec (Instant.ticks e) (clock (reads w1))); simpl.
      * eexists _, _, _. split; [done|]. done.
      * unfold mbind, M_bind. rewrite (register_timer_run e p tk) by done. simpl.
        eexists _, _, _. split; [done|]. done.
    + unfold mbind, M_bind. rewrite (register_timer_run e p tk) by done. simpl.
      eexists _, _, _. split; [done|]. done.
Qed.

End props.

(** ** Tickers do not drift *)

Lemma tick_Done now tk tk' b :
  Ticker.tick now tk = Done (tk', b) →
  Ticker.duration tk' = Ticker.duration tk ∧
  (b = true ↔ Instant.ticks (Ticker.expires_at tk) ≤ Instant.ticks now) ∧
  Instant.ticks (Ticker.expires_at tk') =
    Instant.ticks (Ticker.expires_at tk) +
    if b then Duration.ticks (Ticker.duration tk) else 0.
Proof.
  unfold Ticker.tick, Instant.leb. destruct tk as [[e] [d]]. simpl.
  destruct (Z.leb_spec e (Instant.ticks now)) as [Hle|Hgt].
  - unfold Instant.add_assign, Instant.add, Instant.checked_add. simpl.
    destruct (checked 64 (e + d)) as [z|] eqn:Hc; simpl; [|done].
    apply checked_Some in Hc as [-> _]. intros [= <- <-]. simpl. done.
  - intros [= <- <-]. simpl. split_and!; [done| |lia]. split; [done|lia].
Qed.

Lemma tick_late now e d :
  e ≤ Instant.ticks now → 0 ≤ e + d < 2 ^ 64 →
  Ticker.tick now (Ticker.mk (Instant.mk e) (Duration.mk d)) =
  Done (Ticker.mk (Instant.mk (e + d)) (Duration.mk d), true).
Proof.
  intros He Hd. unfold Ticker.tick, Instant.leb. simpl.
  destruct (Z.leb_spec e (Instant.ticks now)); [|lia].
  unfold Instant.add_assign, Instant.add, Instant.checked_add. simpl.
  by rewrite checked_in.
Qed.

Lemma tick_early now e d :
  Instant.ticks now < e →
  Ticker.tick now (Ticker.mk (Instant.mk e) (Duration.mk d)) =
  Done (Ticker.mk (Instant.mk e) (Duration.mk d), false).
Proof.
  intros He. unfold Ticker.tick, Instant.leb. simpl.
  by destruct (Z.leb_spec e (Instant.ticks now)); [lia|].
Qed.

Lemma ticks_early now e d k :
  Instant.ticks now < e →
  Ticker.ticks (replicate k now) (Ticker.mk (Instant.mk e) (Duration.mk d)) =
  Done (Ticker.mk (Instant.mk e) (Duration.mk d), O).
Proof.
  intros He. induction k as [|k IH]; [done|]. simpl. rewrite tick_early by done.
  simpl. by rewrite IH.
Qed.

(** a [Ticker] ticks at uniform intervals however late it is polled.  At
    whatever readings of the clock it is polled, after [n] ticks its deadline is
    exactly [n] durations after the first one, and the [n]-th tick did not come
    before its own deadline; and a ticker that is [m] whole durations late yields
    exactly the [m + 1] missed ticks when it is polled until it is pending. *)
Theorem ticker_uniform (tk : Ticker.t) :
  let e := Instant.ticks (Ticker.expires_at tk) in
  let d := Duration.ticks (Ticker.duration tk) in
  (∀ nows tk' n, Ticker.ticks nows tk = Done (tk', n) →
     Ticker.duration tk' = Ticker.duration tk ∧
     Instant.ticks (Ticker.expires_at tk') = e + Z.of_nat n * d ∧
     (n = O ∨ ∃ now, now ∈ nows ∧ e + (Z.of_nat n - 1) * d ≤ Instant.ticks now)) ∧
  (∀ now (m k : nat), 0 ≤ e → 0 < d →
     e + Z.of_nat m * d ≤ Instant.ticks now < e + (Z.of_nat m + 1) * d →
     e + (Z.of_nat m + 1) * d < 2 ^ 64 → (m < k)%nat →
     Ticker.ticks (replicate k now) tk =
     Done (Ticker.mk (Instant.mk (e + (Z.of_nat m + 1) * d)) (Ticker.duration tk), S m)).
Proof.
  cbv zeta. split.
  - intros nows. revert tk. induction nows as [|now nows IH]; intros tk tk' n H.
    { injection H as <- <-. split_and!; [done|lia|by left]. }
    simpl in H. apply bind_Done in H as ([tk1 b] & H1 & H).
    apply bind_Done in H as ([tk2 n2] & H2 & H). injection H as <- <-.
    destruct (tick_Done _ _ _ _ H1) as (D1 & B1 & E1).
    destruct (IH _ _ _ H2) as (D2 & E2 & L2). rewrite D1 in *. rewrite E1 in *.
    split_and!; [done|rewrite E2; destruct b; lia|].
    destruct L2 as [->|(now' & Hin & Hle)].
    + destruct b; [|by left]. right. exists now. split; [apply list_elem_of_here|].
      simpl. destruct B1 as [B1 _]. specialize (B1 eq_refl). lia.
    + right. exists now'. split; [by apply list_elem_of_further|]. destruct b; lia.
  - destruct tk as [[e] [d]]. simpl. intros now m. revert e.
    induction m as [|m IH]; intros e k He Hd [Hl Hu] Hb Hk;
      (destruct k as [|k]; [lia|]); simpl; rewrite tick_late by nia; simpl.
    + rewrite ticks_early by lia. simpl. do 4 f_equal. lia.
    + rewrite (IH (e + d) k) by nia. simpl. do 4 f_equal. lia.
Qed.

(** ** Witnesses *)

Definition one_task : World unit unit :=
  mkWorld {[1%positive := Task_new]} ∅ O tt [].

Lemma timer_poll_spec_witness :
  ∃ r w', interp (λ _, 7) 1 (Timer.poll (Timer.mk (Instant.mk 9) true)) one_task =
    Some (r, w') ∧ r.2 = Pending.
Proof.
  destruct (timer_poll_spec (λ _, 7) (Timer.mk (Instant.mk 9) true) 1 Task_new one_task)
    as (tm' & r & w' & Hr & Hrdy & _); [reflexivity|].
  exists (tm', r), w'. split; [exact Hr|]. simpl. destruct r as [[]|]; [|reflexivity].
  exfalso. destruct (proj1 Hrdy eq_refl) as [_ H]. simpl in H. lia.
Defined.

Lemma with_timeout_spec_witness :
  ∃ s' w', interp (λ _, 7) 1 (with_timeout_poll (λ f : unit, PRet (f, @Pending nat))
      select_spec (tt, Timer.mk (Instant.mk 5) true)) one_task =
    Some ((s', Ready (Err mkTimeoutError)), w').
Proof.
  destruct (with_timeout_spec (λ _, 7) (λ f : unit, PRet (f, @Pending nat)) select_spec
    tt tt (Timer.mk (Instant.mk 5) true) Pending 1 Task_new one_task one_task)
    as (s' & r & w' & Hr & _ & Hp); [reflexivity..|].
  specialize (Hp eq_refl). simpl in Hp. subst r. exists s', w'. exact Hr.
Defined.

Lemma ticker_uniform_witness :
  Ticker.ticks (replicate 5 (Instant.mk 35)) (Ticker.mk (Instant.mk 10) (Duration.mk 10)) =
  Done (Ticker.mk (Instant.mk 40) (Duration.mk 10), 3%nat).
Proof.
  apply (proj2 (ticker_uniform (Ticker.mk (Instant.mk 10) (Duration.mk 10)))
    (Instant.mk 35) 2%nat 5%nat); simpl; lia.
Defined.
