(* ===== verification/Io.v ===== *)
(** * Io: asynchronous buffered readers and writers

    [embassy/src/io]: the traits of [traits.rs] as classes of operations with
    their documented laws, the error type of [error.rs], and every future of
    [util/].  Bytes are [Z]s.  A future's [poll] that loops takes fuel; [None] is
    fuel exhausted, and the theorems give the fuel that is enough. *)
From S2P Require Import Prelude.
Local Open Scope nat_scope.

(** ** Errors *)
Inductive Error : Set :=
| NotFound | PermissionDenied | ConnectionRefused | ConnectionReset | ConnectionAborted
| NotConnected | AddrInUse | AddrNotAvailable | BrokenPipe | AlreadyExists | WouldBlock
| InvalidInput | InvalidData | TimedOut | WriteZero | Interrupted | UnexpectedEof
| Truncated | Other.

#[export] Instance Error_eq_dec : EqDecision Error.
Proof. solve_decision. Defined.

(** The kinds of [std::io::ErrorKind] the code names; [KUnlisted] is any other. *)
Inductive ErrorKind : Set :=
| KNotFound | KPermissionDenied | KConnectionRefused | KConnectionReset
| KConnectionAborted | KNotConnected | KAddrInUse | KAddrNotAvailable | KBrokenPipe
| KAlreadyExists | KWouldBlock | KInvalidInput | KInvalidData | KTimedOut | KWriteZero
| KInterrupted | KUnexpectedEof | KOther | KUnlisted.

(** [From<std::io::Error> for Error], on the error's kind. *)
Definition Error_from_std (kind : ErrorKind) : Error :=
  match kind with
  | KNotFound => NotFound
  | KPermissionDenied => PermissionDenied
  | KConnectionRefused => ConnectionRefused
  | KConnectionReset => ConnectionReset
  | KConnectionAborted => ConnectionAborted
  | KNotConnected => NotConnected
  | KAddrInUse => AddrInUse
  | KAddrNotAvailable => AddrNotAvailable
  | KBrokenPipe => BrokenPipe
  | KAlreadyExists => AlreadyExists
  | KWouldBlock => WouldBlock
  | KInvalidInput => InvalidInput
  | KInvalidData => InvalidData
  | KTimedOut => TimedOut
  | KWriteZero => WriteZero
  | KInterrupted => Interrupted
  | KUnexpectedEof => UnexpectedEof
  | _ => Other
  end.

(** [From<Error> for std::io::Error]: the kind of the new error. *)
Definition std_from_Error (e : Error) : ErrorKind :=
  match e with
  | NotFound => KNotFound
  | PermissionDenied => KPermissionDenied
  | ConnectionRefused => KConnectionRefused
  | ConnectionReset => KConnectionReset
  | ConnectionAborted => KConnectionAborted
  | NotConnected => KNotConnected
  | AddrInUse => KAddrInUse
  | AddrNotAvailable => KAddrNotAvailable
  | BrokenPipe => KBrokenPipe
  | AlreadyExists => KAlreadyExists
  | WouldBlock => KWouldBlock
  | InvalidInput => KInvalidInput
  | InvalidData => KInvalidData
  | TimedOut => KTimedOut
  | WriteZero => KWriteZero
  | Interrupted => KInterrupted
  | UnexpectedEof => KUnexpectedEof
  | Truncated => KOther
  | Other => KOther
  end.

Abbreviation bytes := (list Z).
Abbreviation IoPoll A := (Poll (Result A Error)).

(** ** The traits *)
Class AsyncBufRead (R : Type) : Type := {
  poll_fill_buf : R → IoPoll bytes * R;
  consume : nat → R → R
}.

Class AsyncWrite (W : Type) : Type := {
  poll_write : bytes → W → IoPoll nat * W
}.

(** What the documentation asks of a reader: [rem r] are the bytes it will still
    yield; filling shows a prefix of them, empty only at the end, and reads
    nothing; consuming no more than was shown drops that much. *)
Class Reader (R : Type) `{!AsyncBufRead R} : Type := {
  rem : R → bytes;
  fill_ok : ∀ r b r', poll_fill_buf r = (Ready (Ok b), r') →
    rem r' = rem r ∧ b `prefix_of` rem r ∧ (b = [] → rem r = []) ∧
    ∀ n, n ≤ length b → rem (consume n r') = drop n (rem r);
  fill_not : ∀ r x r', poll_fill_buf r = (x, r') →
    (∀ b, x ≠ Ready (Ok b)) → rem r' = rem r
}.

(** ... and of a writer: [sink w] is what it has taken. *)
Class Writer (W : Type) `{!AsyncWrite W} : Type := {
  sink : W → bytes;
  write_ok : ∀ b w n w', poll_write b w = (Ready (Ok n), w') →
    n ≤ length b ∧ sink w' = sink w ++ take n b;
  write_not : ∀ b w x w', poll_write b w = (x, w') →
    (∀ n, x ≠ Ready (Ok n)) → sink w' = sink w
}.

(** [buf[n..n + len].copy_from_slice(src)] with [len] the length of [src]; slicing
    out of bounds panics. *)
Definition copy_from_slice (buf : bytes) (n : nat) (src : bytes) : outcome bytes :=
  if n + length src <=? length buf
  then Done (take n buf ++ src ++ drop (n + length src) buf) else Panic.

(** [rbuf.iter().position(|b| !f(b))], or the length without one. *)
Fixpoint position (f : Z → bool) (l : bytes) : option nat :=
  match l with
  | [] => None
  | b :: l' => if negb (f b) then Some 0 else S <$> position f l'
  end.

(** ** The futures over a reader *)
Section read.
Context {R : Type} `{!AsyncBufRead R}.

(** [Read::poll] and [AsyncBufReadExt::poll_read], which have the same body. *)
Definition Read_poll (reader : R) (buf : bytes) : outcome (IoPoll nat * R * bytes) :=
  match poll_fill_buf reader with
  | (Pending, r) => Done (Pending, r, buf)
  | (Ready (Err e), r) => Done (Ready (Err e), r, buf)
  | (Ready (Ok rbuf), r) =>
      let n := min (length buf) (length rbuf) in
      buf' ← copy_from_slice buf 0 (take n rbuf);
      Done (Ready (Ok n), consume n r, buf')
  end.
Definition poll_read (self : R) (buf : bytes) : outcome (IoPoll nat * R * bytes) :=
  match poll_fill_buf self with
  | (Pending, r) => Done (Pending, r, buf)
  | (Ready (Err e), r) => Done (Ready (Err e), r, buf)
  | (Ready (Ok rbuf), r) =>
      let n := min (length buf) (length rbuf) in
      buf' ← copy_from_slice buf 0 (take n rbuf);
      Done (Ready (Ok n), consume n r, buf')
  end.

(** [ReadBuf::poll]: the reader is given away with the slice; polling again
    panics in [unwrap]. *)
Definition ReadBuf_poll (reader : option R) : outcome (IoPoll bytes * option R * option R) :=
  r ← expect reader;
  match poll_fill_buf r with
  | (Pending, r') => Done (Pending, Some r', None)
  | (Ready (Err e), r') => Done (Ready (Err e), Some r', None)
  | (Ready (Ok buf), r') => Done (Ready (Ok buf), None, Some r')
  end.

Definition ReadByte_poll (reader : R) : IoPoll Z * R :=
  match poll_fill_buf reader with
  | (Pending, r) => (Pending, r)
  | (Ready (Err e), r) => (Ready (Err e), r)
  | (Ready (Ok []), r) => (Ready (Err UnexpectedEof), r)
  | (Ready (Ok (b :: _)), r) => (Ready (Ok b), consume 1 r)
  end.

(** [ReadExact]: the caller's buffer is [filled ++ buf], of which the future still
    holds [buf]. *)
Record ReadExact : Type := mkReadExact { re_reader : R; re_filled : bytes; re_buf : bytes }.

Fixpoint ReadExact_poll (fuel : nat) (this : ReadExact)
    : option (outcome (IoPoll unit * ReadExact)) :=
  match fuel with
  | O => None
  | S k =>
      let '(mkReadExact reader filled buf) := this in
      if bool_decide (buf = []) then Some (Done (Ready (Ok tt), this))
      else
        match poll_fill_buf reader with
        | (Pending, r) => Some (Done (Pending, mkReadExact r filled buf))
        | (Ready (Err e), r) => Some (Done (Ready (Err e), mkReadExact r filled buf))
        | (Ready (Ok rbuf), r) =>
            if bool_decide (rbuf = []) then
              Some (Done (Ready (Err UnexpectedEof), mkReadExact r filled buf))
            else
              let n := min (length buf) (length rbuf) in
              match copy_from_slice buf 0 (take n rbuf) with
              | Panic => Some Panic
              | Done buf' =>
                  ReadExact_poll k
                    (mkReadExact (consume n r) (filled ++ take n buf') (drop n buf'))
              end
        end
  end.

(** [ReadToEnd]. *)
Record ReadToEnd : Type := mkReadToEnd { rt_reader : R; rt_buf : bytes; rt_n : nat }.

Fixpoint ReadToEnd_poll (fuel : nat) (this : ReadToEnd)
    : option (outcome (IoPoll nat * ReadToEnd)) :=
  match fuel with
  | O => None
  | S k =>
      let '(mkReadToEnd reader buf n) := this in
      match poll_fill_buf reader with
      | (Pending, r) => Some (Done (Pending, mkReadToEnd r buf n))
      | (Ready (Err e), r) => Some (Done (Ready (Err e), mkReadToEnd r buf n))
      | (Ready (Ok rbuf), r) =>
          if bool_decide (rbuf = []) then Some (Done (Ready (Ok n), mkReadToEnd r buf n))
          else if n =? length buf then
            Some (Done (Ready (Err Truncated), mkReadToEnd r buf n))
          else
            let p := min (length rbuf) (length buf - n) in
            match copy_from_slice buf n (take p rbuf) with
            | Panic => Some Panic
            | Done buf' => ReadToEnd_poll k (mkReadToEnd (consume p r) buf' (n + p))
            end
      end
  end.

(** [ReadWhile]. *)
Record ReadWhile : Type := mkReadWhile { rw_reader : R; rw_buf : bytes; rw_n : nat }.

Fixpoint ReadWhile_poll (f : Z → bool) (fuel : nat) (this : ReadWhile)
    : option (outcome (IoPoll nat * ReadWhile)) :=
  match fuel with
  | O => None
  | S k =>
      let '(mkReadWhile reader buf n) := this in
      match poll_fill_buf reader with
      | (Pending, r) => Some (Done (Pending, mkReadWhile r buf n))
      | (Ready (Err e), r) => Some (Done (Ready (Err e), mkReadWhile r buf n))
      | (Ready (Ok rbuf), r) =>
          if bool_decide (rbuf = []) then
            Some (Done (Ready (Err UnexpectedEof), mkReadWhile r buf n))
          else
            let '(p, done) := match position f rbuf with
                              | Some p => (p, true)
                              | None => (length rbuf, false)
                              end in
            let p2 := min p (length buf - n) in
            match copy_from_slice buf n (take p2 rbuf) with
            | Panic => Some Panic
            | Done buf' =>
                let this' := mkReadWhile (consume p r) buf' (n + p2) in
                if done : bool then Some (Done (Ready (Ok (n + p2)), this'))
                else ReadWhile_poll f k this'
            end
      end
  end.

(** [SkipWhile]. *)
Fixpoint SkipWhile_poll (f : Z → bool) (fuel : nat) (reader : R)
    : option (IoPoll unit * R) :=
  match fuel with
  | O => None
  | S k =>
      match poll_fill_buf reader with
      | (Pending, r) => Some (Pending, r)
      | (Ready (Err e), r) => Some (Ready (Err e), r)
      | (Ready (Ok buf), r) =>
          if bool_decide (buf = []) then Some (Ready (Err UnexpectedEof), r)
          else
            let '(p, done) := match position f buf with
                              | Some p => (p, true)
                              | None => (length buf, false)
                              end in
            if done : bool then Some (Ready (Ok tt), consume p r)
            else SkipWhile_poll f k (consume p r)
      end
  end.

(** [Drain]: a pending reader ends it, the end of the stream does not. *)
Fixpoint Drain_loop (fuel : nat) (reader : R) (n : nat) : option (IoPoll nat * R) :=
  match fuel with
  | O => None
  | S k =>
      match poll_fill_buf reader with
      | (Pending, r) => Some (Ready (Ok n), r)
      | (Ready (Err e), r) => Some (Ready (Err e), r)
      | (Ready (Ok buf), r) =>
          let len := length buf in
          Drain_loop k (consume len r) (n + len)
      end
  end.
Definition Drain_poll (fuel : nat) (reader : R) : option (IoPoll nat * R) :=
  Drain_loop fuel reader 0.

(** [read_line], an [async fn]: its four awaits in order. *)
Inductive ReadLine : Type :=
| SkipEol (r : R) (buf : bytes)
| InLine (w : ReadWhile)
| SkipCr (r : R) (buf : bytes) (n : nat)
| LastByte (r : R) (buf : bytes) (n : nat).

Definition CR : Z := 13.
Definition LF : Z := 10.

Definition ReadLine_last (r : R) (buf : bytes) (n : nat) : IoPoll nat * ReadLine :=
  match ReadByte_poll r with
  | (Pending, r') => (Pending, LastByte r' buf n)
  | (Ready (Err e), r') => (Ready (Err e), LastByte r' buf n)
  | (Ready (Ok _), r') => (Ready (Ok n), LastByte r' buf n)
  end.
Definition ReadLine_cr (fuel : nat) (r : R) (buf : bytes) (n : nat)
    : option (outcome (IoPoll nat * ReadLine)) :=
  match SkipWhile_poll (λ b, (b =? CR)%Z) fuel r with
  | None => None
  | Some (Pending, r') => Some (Done (Pending, SkipCr r' buf n))
  | Some (Ready (Err e), r') => Some (Done (Ready (Err e), SkipCr r' buf n))
  | Some (Ready (Ok _), r') => Some (Done (ReadLine_last r' buf n))
  end.
Definition ReadLine_in (fuel : nat) (w : ReadWhile)
    : option (outcome (IoPoll nat * ReadLine)) :=
  match ReadWhile_poll (λ b, negb (b =? CR)%Z && negb (b =? LF)%Z) fuel w with
  | None => None
  | Some Panic => Some Panic
  | Some (Done (Pending, w')) => Some (Done (Pending, InLine w'))
  | Some (Done (Ready (Err e), w')) => Some (Done (Ready (Err e), InLine w'))
  | Some (Done (Ready (Ok n), w')) => ReadLine_cr fuel (rw_reader w') (rw_buf w') n
  end.
Definition ReadLine_eol (fuel : nat) (r : R) (buf : bytes)
    : option (outcome (IoPoll nat * ReadLine)) :=
  match SkipWhile_poll (λ b, (b =? CR)%Z || (b =? LF)%Z) fuel r with
  | None => None
  | Some (Pending, r') => Some (Done (Pending, SkipEol r' buf))
  | Some (Ready (Err e), r') => Some (Done (Ready (Err e), SkipEol r' buf))
  | Some (Ready (Ok _), r') => ReadLine_in fuel (mkReadWhile r' buf 0)
  end.

Definition read_line_poll (fuel : nat) (this : ReadLine)
    : option (outcome (IoPoll nat * ReadLine)) :=
  match this with
  | SkipEol r buf => ReadLine_eol fuel r buf
  | InLine w => ReadLine_in fuel w
  | SkipCr r buf n => ReadLine_cr fuel r buf n
  | LastByte r buf n => Some (Done (ReadLine_last r buf n))
  end.

End read.
Arguments ReadExact R : clear implicits.
Arguments ReadToEnd R : clear implicits.
Arguments ReadWhile R : clear implicits.
Arguments ReadLine R : clear implicits.

(** ** The futures over a writer *)
Section write.
Context {W : Type} `{!AsyncWrite W}.

Definition Write_poll (writer : W) (buf : bytes) : IoPoll nat * W :=
  match poll_write buf writer with
  | (Pending, w) => (Pending, w)
  | (Ready (Err e), w) => (Ready (Err e), w)
  | (Ready (Ok n), w) => (Ready (Ok n), w)
  end.

(** [split_at(n)] panics past the end; then a writer that took nothing panics. *)
Fixpoint WriteAll_poll (fuel : nat) (writer : W) (buf : bytes)
    : option (outcome (IoPoll unit * W * bytes)) :=
  match fuel with
  | O => None
  | S k =>
      if bool_decide (buf = []) then Some (Done (Ready (Ok tt), writer, buf))
      else
        match poll_write buf writer with
        | (Pending, w) => Some (Done (Pending, w, buf))
        | (Ready (Err e), w) => Some (Done (Ready (Err e), w, buf))
        | (Ready (Ok n), w) =>
            if length buf <? n then Some Panic
            else if n =? 0 then Some Panic
            else WriteAll_poll k w (drop n buf)
        end
  end.

Definition WriteByte_poll (writer : W) (byte : Z) : outcome (IoPoll unit * W) :=
  match poll_write [byte] writer with
  | (Pending, w) => Done (Pending, w)
  | (Ready (Err e), w) => Done (Ready (Err e), w)
  | (Ready (Ok n), w) =>
      if n =? 0 then Panic
      else _ ← assert (n =? 1); Done (Ready (Ok tt), w)
  end.
End write.

(** ** [copy_buf] *)
Record CopyBuf (R W : Type) : Type := mkCopyBuf { cb_reader : R; cb_writer : W; cb_amt : nat }.
Arguments mkCopyBuf {R W} _ _ _.
Arguments cb_reader {R W} _.
Arguments cb_writer {R W} _.
Arguments cb_amt {R W} _.

Definition copy_buf {R W} (reader : R) (writer : W) : CopyBuf R W :=
  mkCopyBuf reader writer 0.

Fixpoint CopyBuf_poll {R W} `{!AsyncBufRead R} `{!AsyncWrite W} (fuel : nat)
    (this : CopyBuf R W) : option (IoPoll nat * CopyBuf R W) :=
  match fuel with
  | O => None
  | S k =>
      let '(mkCopyBuf reader writer amt) := this in
      match poll_fill_buf reader with
      | (Pending, r) => Some (Pending, mkCopyBuf r writer amt)
      | (Ready (Err e), r) => Some (Ready (Err e), mkCopyBuf r writer amt)
      | (Ready (Ok buffer), r) =>
          if bool_decide (buffer = []) then Some (Ready (Ok amt), mkCopyBuf r writer amt)
          else
            match poll_write buffer writer with
            | (Pending, w) => Some (Pending, mkCopyBuf r w amt)
            | (Ready (Err e), w) => Some (Ready (Err e), mkCopyBuf r w amt)
            | (Ready (Ok i), w) =>
                if i =? 0 then Some (Ready (Err WriteZero), mkCopyBuf r w amt)
                else CopyBuf_poll k (mkCopyBuf (consume i r) w (amt + i))
            end
      end
  end.

(** ** [FromStdIo]

    Adapts a reader or writer of [futures::io], whose errors are [std]'s. *)
Section std.
Context {T : Type}.
Context (std_fill_buf : T → Poll (Result bytes ErrorKind) * T) (std_consume : nat → T → T).
Context (std_write : bytes → T → Poll (Result nat ErrorKind) * T).

Definition map_err {A} (x : Poll (Result A ErrorKind)) : IoPoll A :=
  match x with
  | Pending => Pending
  | Ready (Ok a) => Ready (Ok a)
  | Ready (Err e) => Ready (Err (Error_from_std e))
  end.

Definition FromStdIo_read : AsyncBufRead T := {|
  poll_fill_buf inner := let '(x, inner') := std_fill_buf inner in (map_err x, inner');
  consume amt inner := std_consume amt inner
|}.
Definition FromStdIo_write : AsyncWrite T := {|
  poll_write buf inner := let '(x, inner') := std_write buf inner in (map_err x, inner')
|}.
End std.
