(* ===== verification/IoProofs.v ===== *)
(** * IoProofs: no byte is lost, duplicated or invented

    Properties of the futures of [Io] against any reader and writer that keep the
    laws of the traits, with a chunked reader and a limited writer as instances. *)
From S2P Require Import Prelude Io.
Local Open Scope nat_scope.

(** ** Instances of the laws *)

(** A reader that shows the given chunks one after the other, [None] being a
    moment at which it has nothing yet. *)
Abbreviation Chunks := (list (option bytes)).

Fixpoint chunks_fill (l : Chunks) : IoPoll bytes * Chunks :=
  match l with
  | [] => (Ready (Ok []), [])
  | None :: l' => (Pending, l')
  | Some [] :: l' => chunks_fill l'
  | Some (x :: b) :: _ => (Ready (Ok (x :: b)), l)
  end.

#[export] Instance chunks_read : AsyncBufRead Chunks := {|
  poll_fill_buf := chunks_fill;
  consume n l := match l with Some b :: l' => Some (drop n b) :: l' | _ => l end
|}.

Fixpoint chunks_rem (l : Chunks) : bytes :=
  match l with [] => [] | None :: l' => chunks_rem l' | Some b :: l' => b ++ chunks_rem l' end.

Lemma chunks_fill_rem l x l' : chunks_fill l = (x, l') → chunks_rem l' = chunks_rem l.
Proof.
  induction l as [|[[|y b]|] l IH]; simpl; try by intros [= <- <-]. exact IH.
Qed.

Lemma chunks_fill_show l b l' :
  chunks_fill l = (Ready (Ok b), l') →
  (b = [] ∧ l' = []) ∨ ∃ l'', l' = Some b :: l''.
Proof.
  induction l as [|[[|y c]|] l IH]; simpl; try by intros [= <- <-]; eauto. exact IH.
Qed.

#[export] Instance chunks_Reader : Reader Chunks.
Proof.
  refine {| rem := chunks_rem |}.
  - intros r b r' H. pose proof (chunks_fill_rem _ _ _ H) as Hrem. rewrite <-Hrem.
    destruct (chunks_fill_show _ _ _ H) as [[-> ->]|[l'' ->]]; simpl.
    + split_and!; [done|done|done|]. intros n. simpl. by rewrite drop_nil.
    + split_and!; [done|by eexists| |].
      * intros ->. revert H. clear. induction r as [|[[|y c]|] r IH]; done.
      * intros n Hn. by rewrite drop_app_le.
  - intros r x r' H _. by eapply chunks_fill_rem.
Defined.

(** A writer that takes at most [limit] bytes at a time. *)
Record Limited : Type := mkLimited { limit : nat; taken : bytes }.

#[export] Instance limited_write : AsyncWrite Limited := {|
  poll_write b w :=
    let n := min (limit w) (length b) in
    (Ready (Ok n), mkLimited (limit w) (taken w ++ take n b))
|}.

#[export] Instance limited_Writer : Writer Limited.
Proof.
  refine {| sink := taken |}.
  - intros b w n w' [= <- <-]. simpl. split; [lia|done].
  - intros b w x w' [= <- <-] H. by destruct (H (min (limit w) (length b))).
Defined.

(** ** Slices *)

Lemma copy_fits buf n src :
  n + length src ≤ length buf →
  copy_from_slice buf n src = Done (take n buf ++ src ++ drop (n + length src) buf).
Proof. intros H. unfold copy_from_slice. by rewrite (proj2 (Nat.leb_le _ _) H). Qed.

Lemma copied_length (buf : bytes) n src :
  n + length src ≤ length buf →
  length (take n buf ++ src ++ drop (n + length src) buf) = length buf.
Proof. intros H. rewrite !length_app, length_take, length_drop. lia. Qed.

Lemma copied_take (buf : bytes) n src :
  n + length src ≤ length buf →
  take (n + length src) (take n buf ++ src ++ drop (n + length src) buf) =
  take n buf ++ src.
Proof.
  intros H. rewrite app_assoc. apply take_app_length'.
  rewrite length_app, length_take. lia.
Qed.

Lemma take_prefix (b s : bytes) n : b `prefix_of` s → n ≤ length b → take n s = take n b.
Proof. intros [k ->] H. by rewrite take_app_le. Qed.

Lemma position_Some f l p :
  position f l = Some p →
  p < length l ∧ Forall (λ b, f b = true) (take p l) ∧
  ∃ b rest, drop p l = b :: rest ∧ f b = false.
Proof.
  revert p. induction l as [|b l IH]; intros p; simpl; [done|].
  destruct (f b) eqn:Hf; simpl.
  - destruct (position f l) as [p'|]; [|done]. intros [= <-].
    destruct (IH p' eq_refl) as (H1 & H2 & H3). split_and!; [lia| |done].
    by constructor.
  - intros [= <-]. split_and!; [lia|constructor|eauto].
Qed.

Lemma position_None f l : position f l = None → Forall (λ b, f b = true) l.
Proof.
  induction l as [|b l IH]; simpl; [constructor|].
  destruct (f b) eqn:Hf; simpl; [|done].
  destruct (position f l); [done|]. intros _. constructor; auto.
Qed.

(** How far the reader gets in one chunk that is not empty. *)
Lemma position_cases f l p done :
  match position f l with Some p => (p, true) | None => (length l, false) end = (p, done) →
  p ≤ length l ∧ Forall (λ b, f b = true) (take p l) ∧
  (done = true → ∃ b rest, drop p l = b :: rest ∧ f b = false) ∧
  (done = false → p = length l).
Proof.
  destruct (position f l) as [p'|] eqn:Hp; intros [= <- <-].
  - destruct (position_Some _ _ _ Hp) as (? & ? & ?). split_and!; [lia|done|done|done].
  - split_and!; [done| |done|done]. rewrite take_ge by done. by apply position_None.
Qed.

Section proofs.
Context {R : Type} `{!AsyncBufRead R} `{!Reader R}.

(** A chunk shown by the reader, cut at [n]. *)
Lemma fill_cut (r r' : R) b n :
  poll_fill_buf r = (Ready (Ok b), r') → n ≤ length b →
  rem r = take n b ++ rem (consume n r') ∧
  (b ≠ [] → n ≠ 0 → length (rem (consume n r')) < length (rem r)).
Proof.
  intros Hf Hn. destruct (fill_ok r b r' Hf) as (_ & Hp & _ & Hc).
  rewrite (Hc n Hn). rewrite <-(take_prefix b (rem r) n) by done.
  rewrite take_drop. split; [done|]. intros Hb Hn0.
  destruct Hp as [k Hk]. rewrite Hk, length_drop, length_app. lia.
Qed.

Lemma fill_same (r r' : R) x :
  poll_fill_buf r = (x, r') → rem r' = rem r.
Proof.
  intros H. destruct x as [[b|e]|].
  - by apply fill_ok in H as (? & _).
  - by eapply fill_not.
  - by eapply fill_not.
Qed.

(** C16: one poll of [ReadExact] terminates without panic and moves bytes from the
    front of the reader to the front of the caller's buffer, none lost and none
    twice; it answers [Ok] exactly when the buffer is full, so that a poll that is
    pending or fails can be told apart, and a pending one resumed. *)
Theorem read_exact_spec (this : ReadExact R) fuel :
  length (rem (re_reader this)) < fuel →
  ∃ res this' got, ReadExact_poll fuel this = Some (Done (res, this')) ∧
    rem (re_reader this) = got ++ rem (re_reader this') ∧
    re_filled this' = re_filled this ++ got ∧
    length got + length (re_buf this') = length (re_buf this) ∧
    (res = Ready (Ok tt) ↔ re_buf this' = []).
Proof.
  revert this. induction fuel as [|k IH]; [lia|].
  intros [r filled buf] Hk. simpl in Hk |- *.
  case_bool_decide as Hb.
  { subst. eexists _, _, []. split; [done|]. simpl. by rewrite app_nil_r. }
  destruct (poll_fill_buf r) as [x r'] eqn:Hf.
  pose proof (fill_same _ _ _ Hf) as Hsame.
  assert (Hstop : ∀ res : IoPoll unit, res ≠ Ready (Ok tt) → ∃ res' this' got,
    Some (Done (res, mkReadExact r' filled buf)) = Some (Done (res', this')) ∧
    rem r = got ++ rem (re_reader this') ∧ re_filled this' = filled ++ got ∧
    length got + length (re_buf this') = length buf ∧
    (res' = Ready (Ok tt) ↔ re_buf this' = [])).
  { intros res Hne. eexists _, _, []. split; [done|]. simpl.
    by rewrite app_nil_r. }
  destruct x as [[rbuf|e]|]; [|by apply Hstop..].
  case_bool_decide as Hrb; [by apply Hstop|].
  set (n := min (length buf) (length rbuf)).
  assert (Hn : n ≠ 0) by (destruct buf, rbuf; simpl in *; done || lia).
  assert (Hlen : length (take n rbuf) = n) by (rewrite length_take; lia).
  rewrite copy_fits by lia.
  destruct (fill_cut r r' rbuf n Hf ltac:(lia)) as [Hcut Hless].
  specialize (Hless Hrb Hn). simpl.
  rewrite Hlen, take_app_length', drop_app_length' by done.
  edestruct (IH (mkReadExact (consume n r') (filled ++ take n rbuf) (drop n buf)))
    as (res & this' & got & Hr & H1 & H2 & H3 & H4); [simpl; lia|]. simpl in *.
  exists res, this', (take n rbuf ++ got). split_and!; [done| | | |done].
  - by rewrite Hcut, H1, app_assoc.
  - by rewrite H2, app_assoc.
  - rewrite length_app, Hlen. rewrite length_drop in H3. lia.
Qed.

(** One poll of [SkipWhile]. *)
Lemma skip_while_run f fuel (r : R) :
  length (rem r) < fuel →
  ∃ res r' got, SkipWhile_poll f fuel r = Some (res, r') ∧
    rem r = got ++ rem r' ∧ Forall (λ b, f b = true) got ∧
    (res = Ready (Ok tt) → ∃ b rest, rem r' = b :: rest ∧ f b = false) ∧
    (res = Ready (Err UnexpectedEof) → rem r' = [] ∨
      ∃ r1 r2, poll_fill_buf r1 = (Ready (Err UnexpectedEof), r2)).
Proof.
  revert r. induction fuel as [|k IH]; intros r Hk; [lia|]. simpl.
  destruct (poll_fill_buf r) as [x r'] eqn:Hf.
  pose proof (fill_same _ _ _ Hf) as Hsame.
  destruct x as [[buf|e]|].
  - case_bool_decide as Hb.
    + subst. destruct (fill_ok _ _ _ Hf) as (_ & _ & Heof & _).
      eexists _, _, []. split; [done|]. rewrite Hsame. split_and!; try done. auto.
    + destruct (match position f buf with Some p => (p, true) | None => _ end)
        as [p done] eqn:Hp.
      destruct (position_cases _ _ _ _ Hp) as (Hle & Hall & Hd & Hnd).
      destruct (fill_cut r r' buf p Hf Hle) as [Hcut Hless].
      destruct done.
      * eexists _, _, (take p buf). split; [done|]. split_and!; try done.
        intros _. destruct (Hd eq_refl) as (b & rest & Hdrop & Hfb).
        destruct (fill_ok _ _ _ Hf) as (_ & [k' Hk'] & _ & Hc).
        rewrite (Hc p Hle), Hk', drop_app_le, Hdrop by done. simpl. eauto.
      * specialize (Hnd eq_refl). subst p.
        destruct (IH (consume (length buf) r')) as (res & r2 & got & Hr & H1 & H2 & H3).
        { assert (length buf ≠ 0) by (by destruct buf). specialize (Hless Hb H). lia. }
        exists res, r2, (take (length buf) buf ++ got). split_and!; try done; try apply H3.
        -- by rewrite Hcut, H1, app_assoc.
        -- by apply Forall_app.
  - eexists _, _, []. split; [done|]. rewrite Hsame. split_and!; try done.
    intros [= ->]. right. eauto.
  - eexists _, _, []. split; [done|]. rewrite Hsame. split_and!; done.
Qed.

(** One poll of [ReadWhile]. *)
Lemma read_while_run f fuel (this : ReadWhile R) :
  rw_n this ≤ length (rw_buf this) → length (rem (rw_reader this)) < fuel →
  ∃ res this' got, ReadWhile_poll f fuel this = Some (Done (res, this')) ∧
    rem (rw_reader this) = got ++ rem (rw_reader this') ∧
    Forall (λ b, f b = true) got ∧
    length (rw_buf this') = length (rw_buf this) ∧
    rw_n this' = min (length (rw_buf this)) (rw_n this + length got) ∧
    take (rw_n this') (rw_buf this') =
      take (length (rw_buf this)) (take (rw_n this) (rw_buf this) ++ got) ∧
    (∀ m, res = Ready (Ok m) →
      m = rw_n this' ∧ ∃ b rest, rem (rw_reader this') = b :: rest ∧ f b = false).
Proof.
  revert this. induction fuel as [|k IH]; [lia|].
  intros [r buf n] Hn Hk. simpl in Hn, Hk |- *.
  destruct (poll_fill_buf r) as [x r'] eqn:Hf.
  pose proof (fill_same _ _ _ Hf) as Hsame.
  assert (Hstop : ∀ res : IoPoll nat, (∀ m, res ≠ Ready (Ok m)) → ∃ res' this' got,
    Some (Done (res, mkReadWhile r' buf n)) = Some (Done (res', this')) ∧
    rem r = got ++ rem (rw_reader this') ∧ Forall (λ b, f b = true) got ∧
    length (rw_buf this') = length buf ∧ rw_n this' = min (length buf) (n + length got) ∧
    take (rw_n this') (rw_buf this') = take (length buf) (take n buf ++ got) ∧
    (∀ m, res' = Ready (Ok m) →
      m = rw_n this' ∧ ∃ b rest, rem (rw_reader this') = b :: rest ∧ f b = false)).
  { intros res Hne. eexists _, _, []. split; [done|]. simpl.
    rewrite app_nil_r, Nat.add_0_r. split_and!; try done.
    - lia.
    - by rewrite take_take, Nat.min_r.
    - intros m E. by destruct (Hne m). }
  destruct x as [[rbuf|e]|]; [|by apply Hstop..].
  case_bool_decide as Hb; [by apply Hstop|].
  destruct (match position f rbuf with Some p => (p, true) | None => _ end)
    as [p done] eqn:Hp.
  destruct (position_cases _ _ _ _ Hp) as (Hle & Hall & Hd & Hnd).
  destruct (fill_cut r r' rbuf p Hf Hle) as [Hcut Hless].
  set (p2 := min p (length buf - n)).
  assert (Hlen : length (take p2 rbuf) = p2) by (rewrite length_take; lia).
  rewrite copy_fits by lia.
  set (buf' := take n buf ++ _).
  assert (Hbuf' : length buf' = length buf) by (apply copied_length; lia).
  assert (Htake : take (n + p2) buf' = take (length buf) (take n buf ++ take p rbuf)).
  { unfold buf'. rewrite <-Hlen at 1. rewrite copied_take by lia.
    rewrite take_app, length_take, take_take, (Nat.min_r (length buf) n) by lia.
    rewrite (Nat.min_l n (length buf)), take_take by lia. f_equal. f_equal. lia. }
  assert (Hmin : n + p2 = min (length buf) (n + length (take p rbuf))).
  { rewrite length_take. lia. }
  destruct done.
  - eexists _, _, (take p rbuf). split; [done|]. simpl. split_and!; try done.
    intros m [= <-]. split; [done|].
    destruct (Hd eq_refl) as (b & rest & Hdrop & Hfb).
    destruct (fill_ok _ _ _ Hf) as (_ & [k' Hk'] & _ & Hc).
    rewrite (Hc p Hle), Hk', drop_app_le, Hdrop by done. simpl. eauto.
  - specialize (Hnd eq_refl). subst p.
    edestruct (IH (mkReadWhile (consume (length rbuf) r') buf' (n + p2)))
      as (res & this' & got & Hr & H1 & H2 & H3 & H4 & H5 & H6); simpl in *.
    { lia. }
    { assert (length rbuf ≠ 0) by (by destruct rbuf). specialize (Hless Hb H). lia. }
    exists res, this', (take (length rbuf) rbuf ++ got). split_and!; try done.
    + by rewrite Hcut, H1, app_assoc.
    + by apply Forall_app.
    + congruence.
    + rewrite H4, Hbuf', Hmin, length_app. lia.
    + rewrite H5, Htake, Hbuf', (app_assoc (take n buf)).
      rewrite (take_app (take (length buf) _)), (take_app (_ ++ _) got).
      rewrite take_take, Nat.min_id. f_equal. rewrite !length_take. f_equal. lia.
Qed.

(** ** Lines *)

(** The reader always has bytes, or its end, at hand. *)
Definition prompt : Prop := ∀ r : R, ∃ b r', poll_fill_buf r = (Ready (Ok b), r').

Lemma app_inv_span (f : Z → bool) (a a' : bytes) b b' :
  Forall (λ x, f x = true) a → Forall (λ x, f x = true) a' →
  (∀ x, head b = Some x → f x = false) → (∀ x, head b' = Some x → f x = false) →
  a ++ b = a' ++ b' → a = a' ∧ b = b'.
Proof.
  intros Ha. revert a'. induction Ha as [|x a Hx Ha IH]; intros [|y a'] Ha' Hb Hb' E;
    simpl in *.
  - done.
  - subst b. apply Forall_cons in Ha' as [Hy _]. by rewrite Hb in Hy.
  - subst b'. by rewrite Hb' in Hx.
  - injection E as -> E. apply Forall_cons in Ha' as [_ Ha'].
    destruct (IH a' Ha' Hb Hb' E) as [-> ->]. done.
Qed.

(** A prompt reader with an [f]-run followed by something else: [SkipWhile] stops
    there. *)
Lemma skip_while_prompt f fuel (r : R) run x rest :
  prompt → length (rem r) < fuel → rem r = run ++ x :: rest →
  Forall (λ b, f b = true) run → f x = false →
  ∃ r', SkipWhile_poll f fuel r = Some (Ready (Ok tt), r') ∧ rem r' = x :: rest.
Proof.
  intros Hp. revert r run. induction fuel as [|k IH]; intros r run Hk Hr Hrun Hx; [lia|].
  simpl. destruct (Hp r) as (buf & r' & Hf). rewrite Hf.
  destruct (fill_ok _ _ _ Hf) as (Hsame & Hpre & Heof & Hc).
  case_bool_decide as Hb.
  { specialize (Heof Hb). rewrite Hr in Heof. by destruct run. }
  destruct (match position f buf with Some p => (p, true) | None => _ end)
    as [p done] eqn:Hpos.
  destruct (position_cases _ _ _ _ Hpos) as (Hle & Hall & Hd & Hnd).
  destruct (fill_cut r r' buf p Hf Hle) as [Hcut Hless].
  destruct done.
  - eexists. split; [done|]. destruct (Hd eq_refl) as (b & brest & Hdrop & Hfb).
    assert (Hrem : rem (consume p r') = drop p buf ++ drop (length buf) (rem r)).
    { rewrite (Hc p Hle). destruct Hpre as [k' ->]. rewrite drop_app_le by done.
      by rewrite drop_app_length. }
    rewrite Hr in Hcut. rewrite Hrem, Hdrop in Hcut. symmetry in Hcut.
    apply app_inv_span with (f := f) in Hcut; [|done|done| |]; try (intros ? [= <-]; done).
    destruct Hcut as [_ Hcut]. rewrite Hrem, Hdrop. done.
  - specialize (Hnd eq_refl). subst p. rewrite take_ge in Hcut, Hall by done.
    assert (∃ run', run = buf ++ run' ∧ rem (consume (length buf) r') = run' ++ x :: rest)
      as (run' & -> & Hr').
    { rewrite Hr in Hcut. set (left_ := rem (consume (length buf) r')) in *. clearbody left_.
      clear -Hcut Hall Hrun Hx. revert run Hrun Hcut.
      induction Hall as [|b buf Hb Hall IH]; intros run Hrun Hcut; [by exists run|].
      destruct run as [|y run]; simpl in Hcut; [injection Hcut as -> _; congruence|].
      injection Hcut as -> Hcut. apply Forall_cons in Hrun as [_ Hrun].
      destruct (IH run Hrun Hcut) as (run' & -> & ?). by exists run'. }
    apply Forall_app in Hrun as [_ Hrun].
    apply (IH _ run'); [|done..].
    assert (length buf ≠ 0) by (by destruct buf). specialize (Hless Hb H). lia.
Qed.

Lemma read_while_prompt f fuel (this : ReadWhile R) :
  prompt → length (rem (rw_reader this)) < fuel →
  ∀ res this', ReadWhile_poll f fuel this = Some (Done (res, this')) →
  (∃ m, res = Ready (Ok m)) ∨ res = Ready (Err UnexpectedEof) ∧ rem (rw_reader this') = [].
Proof.
  intros Hp. revert this. induction fuel as [|k IH]; [lia|].
  intros [r buf n] Hk res this' H. simpl in H, Hk.
  destruct (Hp r) as (rbuf & r' & Hf). rewrite Hf in H.
  destruct (fill_ok _ _ _ Hf) as (Hsame & Hpre & Heof & Hc).
  case_bool_decide as Hb.
  { injection H as <- <-. right. split; [done|]. simpl. rewrite Hsame. auto. }
  destruct (match position f rbuf with Some p => (p, true) | None => _ end)
    as [p done] eqn:Hpos.
  destruct (position_cases _ _ _ _ Hpos) as (Hle & _ & _ & Hnd).
  destruct (copy_from_slice _ _ _); [|done].
  destruct done; [injection H as <- <-; eauto|].
  specialize (Hnd eq_refl). subst p. apply (IH _) in H; [done|]. simpl.
  destruct (fill_cut r r' rbuf (length rbuf) Hf ltac:(done)) as [_ Hless].
  assert (length rbuf ≠ 0) by (by destruct rbuf). specialize (Hless Hb H0). lia.
Qed.

(** [ReadWhile] on a prompt reader with an [f]-run followed by something else. *)
Lemma read_while_line f fuel (r : R) buf line z t :
  prompt → length (rem r) < fuel → rem r = line ++ z :: t →
  Forall (λ b, f b = true) line → f z = false →
  ∃ n buf' r', ReadWhile_poll f fuel (mkReadWhile r buf 0) =
      Some (Done (Ready (Ok n), mkReadWhile r' buf' n)) ∧
    rem r' = z :: t ∧ n = min (length buf) (length line) ∧
    length buf' = length buf ∧ take n buf' = take (length buf) line.
Proof.
  intros Hp Hk Hr Hline Hz.
  destruct (read_while_run f fuel (mkReadWhile r buf 0)) as
    (res & [r2 buf2 n2] & got & Hrw & E1 & E2 & E3 & E4 & E5 & E6); simpl in *; [lia|lia|].
  pose proof (read_while_prompt f fuel (mkReadWhile r buf 0) Hp Hk _ _ Hrw) as Hres. simpl in Hres.
  rewrite Hr in E1. destruct Hres as [[m ->]|[-> Hnil]].
  - destruct (E6 m eq_refl) as (-> & b & br & Hb & Hfb). rewrite Hb in E1.
    apply (app_inv_span f) in E1 as [-> E1]; [|done|done|by intros ? [= <-]..].
    exists n2, buf2, r2. split_and!; try done. by rewrite Hb, E1.
  - exfalso. rewrite Hnil, app_nil_r in E1. rewrite <-E1 in E2.
    apply Forall_app in E2 as [_ [E2 _]%Forall_cons]. congruence.
Qed.

Definition is_eol (b : Z) : bool := (b =? CR)%Z || (b =? LF)%Z.

(** [read_line] on a reader that always has its bytes at hand, cut into chunks
    in any way: it skips the line ends in front, copies the line (as much of it as
    the buffer takes) and consumes it with its terminator, however long the line
    is.  The byte after the carriage returns is consumed without being looked at:
    a line ended by a lone CR takes the first byte of the next one with it. *)
Theorem read_line_spec fuel (r : R) buf pre line crs x rest :
  prompt → length (rem r) < fuel →
  rem r = pre ++ line ++ crs ++ x :: rest →
  Forall (λ b, is_eol b = true) pre → line ≠ [] → Forall (λ b, is_eol b = false) line →
  Forall (λ b, b = CR) crs → x ≠ CR → (crs ≠ [] ∨ x = LF) →
  ∃ n buf' r', read_line_poll fuel (SkipEol r buf) =
      Some (Done (Ready (Ok n), LastByte r' buf' n)) ∧
    n = min (length buf) (length line) ∧ length buf' = length buf ∧
    take n buf' = take (length buf) line ∧ rem r' = rest.
Proof.
  intros Hp Hk Hr Hpre Hl Hline Hcrs Hx Hend. simpl. unfold ReadLine_eol.
  assert (Hlens : length (rem r) =
    length pre + (length line + (length crs + S (length rest)))).
  { rewrite Hr, !length_app. done. }
  destruct line as [|y line]; [done|]. clear Hl.
  destruct (skip_while_prompt (λ b, (b =? CR)%Z || (b =? LF)%Z) fuel r pre y
    (line ++ crs ++ x :: rest)) as (r1 & -> & Hr1); try done.
  { by apply Forall_cons in Hline as [? _]. }
  unfold ReadLine_in.
  assert (∃ z t, crs ++ x :: rest = z :: t ∧ is_eol z = true) as (z & t & Hz & Hzf).
  { destruct crs as [|c crs]; simpl.
    - destruct Hend as [?| ->]; [done|]. by exists LF, rest.
    - apply Forall_cons in Hcrs as [-> _]. by exists CR, (crs ++ x :: rest). }
  rewrite Hz in Hr1.
  destruct (read_while_line (λ b, negb (b =? CR)%Z && negb (b =? LF)%Z) fuel r1 buf
    (y :: line) z t) as (n & buf2 & r2 & -> & Hr2 & Hn & Hb2 & Ht2); try done.
  { rewrite Hr1, <-Hz. simpl. rewrite !length_app. simpl in *. lia. }
  { eapply Forall_impl; [exact Hline|]. intros c. unfold is_eol.
    by destruct (c =? CR)%Z, (c =? LF)%Z. }
  { revert Hzf. unfold is_eol. by destruct (z =? CR)%Z, (z =? LF)%Z. }
  simpl. unfold ReadLine_cr. rewrite <-Hz in Hr2.
  destruct (skip_while_prompt (λ b, (b =? CR)%Z) fuel r2 crs x rest) as (r3 & -> & Hr3);
    try done.
  { rewrite Hr2, length_app. simpl in *. lia. }
  { eapply Forall_impl; [exact Hcrs|]. by intros c ->. }
  { by apply Z.eqb_neq. }
  unfold ReadLine_last, ReadByte_poll. destruct (Hp r3) as (b3 & r4 & Hf3). rewrite Hf3.
  destruct (fill_ok _ _ _ Hf3) as (_ & _ & Heof & Hc).
  destruct b3 as [|c b3]; [by rewrite Hr3 in Heof; specialize (Heof eq_refl)|].
  eexists n, buf2, _. split; [done|]. split_and!; [done|done|done|].
  rewrite (Hc 1) by (simpl; lia). by rewrite Hr3.
Qed.

End proofs.

(** ** Writing *)
Section write_proofs.
Context {W : Type} `{!AsyncWrite W} `{!Writer W}.

(** one poll of [WriteAll] terminates; what it took from the front of the
    buffer is what the writer got, in order; it answers [Ok] exactly when nothing
    is left; and it panics only on a writer that takes no byte of a buffer that is
    not empty. *)
Theorem write_all_spec fuel (w : W) buf :
  length buf < fuel →
  ∃ out, WriteAll_poll fuel w buf = Some out ∧
    match out with
    | Done (res, w', buf') => ∃ put, buf = put ++ buf' ∧ sink w' = sink w ++ put ∧
        (res = Ready (Ok tt) ↔ buf' = [])
    | Panic => ∃ b w1 w2, b ≠ [] ∧ poll_write b w1 = (Ready (Ok 0), w2)
    end.
Proof.
  revert w buf. induction fuel as [|k IH]; intros w buf Hk; [lia|]. simpl.
  case_bool_decide as Hb.
  { subst. eexists. split; [done|]. exists []. by rewrite !app_nil_r. }
  destruct (poll_write buf w) as [x w'] eqn:Hw.
  assert (Hstop : (∀ n, x ≠ Ready (Ok n)) → ∀ res : IoPoll unit, res ≠ Ready (Ok tt) →
    ∃ put, buf = put ++ buf ∧ sink w' = sink w ++ put ∧ (res = Ready (Ok tt) ↔ buf = [])).
  { intros Hx res Hres. exists []. rewrite app_nil_r. split_and!; [done| |done].
    by eapply write_not. }
  destruct x as [[n|e]|]; [|eexists; split; [done|]; by apply Hstop..].
  destruct (write_ok _ _ _ _ Hw) as [Hn Hs].
  destruct (Nat.ltb_spec (length buf) n); [lia|].
  destruct (Nat.eqb_spec n 0) as [->|Hn0].
  { eexists. split; [done|]. simpl. eauto. }
  destruct (IH w' (drop n buf)) as (out & Hr & Hout); [rewrite length_drop; lia|].
  exists out. split; [done|]. destruct out as [[[res w''] buf']|]; [|done].
  destruct Hout as (put & Hp & Hs' & Hres). exists (take n buf ++ put). split_and!.
  - by rewrite <-app_assoc, <-Hp, take_drop.
  - by rewrite Hs', Hs, app_assoc.
  - done.
Qed.
End write_proofs.

(** ** Copying *)
Section copy_proofs.
Context {R W : Type} `{!AsyncBufRead R} `{!Reader R} `{!AsyncWrite W} `{!Writer W}.

(** at every moment a byte is either still in the reader or already in the
    writer, and in order, whether the copy is done, pending or failed; [amt] counts
    the bytes moved; and it completes only at the end of the reader. *)
Theorem copy_buf_spec fuel (this : CopyBuf R W) :
  length (rem (cb_reader this)) < fuel →
  ∃ res this', CopyBuf_poll fuel this = Some (res, this') ∧
    sink (cb_writer this') ++ rem (cb_reader this') =
      sink (cb_writer this) ++ rem (cb_reader this) ∧
    cb_amt this' + length (sink (cb_writer this)) =
      cb_amt this + length (sink (cb_writer this')) ∧
    (∀ n, res = Ready (Ok n) → n = cb_amt this' ∧ rem (cb_reader this') = []).
Proof.
  revert this. induction fuel as [|k IH]; [lia|]. intros [r w amt] Hk. simpl in *.
  destruct (poll_fill_buf r) as [x r'] eqn:Hf.
  pose proof (fill_same _ _ _ Hf) as Hsame.
  destruct x as [[b|e]|]; [|by (eexists _, _; split; [done|]; simpl; rewrite Hsame)..].
  case_bool_decide as Hb.
  { subst. eexists _, _. split; [done|]. simpl. rewrite Hsame. split_and!; try done.
    intros n [= <-]. split; [done|]. by eapply fill_ok. }
  destruct (poll_write b w) as [y w'] eqn:Hw.
  assert (Hstop : (∀ n, y ≠ Ready (Ok n)) → sink w' = sink w) by (by eapply write_not).
  destruct y as [[i|e]|];
    [|by (eexists _, _; split; [done|]; simpl; rewrite Hsame, Hstop)..].
  destruct (write_ok _ _ _ _ Hw) as [Hi Hs].
  destruct (Nat.eqb_spec i 0) as [->|Hi0].
  { eexists _, _. split; [done|]. simpl. rewrite Hsame, Hs. simpl.
    rewrite app_nil_r. done. }
  destruct (fill_cut r r' b i Hf Hi) as [Hcut Hless]. specialize (Hless Hb Hi0).
  edestruct (IH (mkCopyBuf (consume i r') w' (amt + i))) as (res & this' & Hr & H1 & H2 & H3);
    [simpl; lia|]. simpl in *. exists res, this'. split_and!; [done| | |done].
  - by rewrite H1, Hs, <-app_assoc, <-Hcut.
  - rewrite Hs, length_app, length_take in H2. lia.
Qed.
End copy_proofs.

(** ** Draining *)

(** [Drain] ends only when the reader is pending or fails: on a reader that is
    never pending, such as one that has reached its end, its poll does not
    return, whatever the fuel. *)
Theorem drain_never_ends {R} `{!AsyncBufRead R} `{!Reader R} (r : R) fuel :
  prompt (R := R) → Drain_poll fuel r = None.
Proof.
  intros Hp. unfold Drain_poll. generalize 0. revert r.
  induction fuel as [|k IH]; intros r n; simpl; [done|].
  destruct (Hp r) as (b & r' & ->). apply IH.
Qed.

(** ** Errors *)

(** a [std] error of a named kind survives the conversion to [Error] and
    back, and so does every [Error] but [Truncated], which becomes [Other]. *)
Theorem error_conversions k e :
  (std_from_Error (Error_from_std k) = k ↔ k ≠ KUnlisted) ∧
  (Error_from_std (std_from_Error e) = e ↔ e ≠ Truncated) ∧
  (e = Truncated → Error_from_std (std_from_Error e) = Other).
Proof. split; [|split]; [by destruct k|by destruct e|by intros ->]. Qed.

(** The adapter for [std] readers keeps the laws. *)
Section std_laws.
Context {T : Type}.
Context (std_fill_buf : T → Poll (Result bytes ErrorKind) * T) (std_consume : nat → T → T).
Context (std_rem : T → bytes).
Hypothesis std_ok : ∀ r b r', std_fill_buf r = (Ready (Ok b), r') →
  std_rem r' = std_rem r ∧ b `prefix_of` std_rem r ∧ (b = [] → std_rem r = []) ∧
  ∀ n, n ≤ length b → std_rem (std_consume n r') = drop n (std_rem r).
Hypothesis std_not : ∀ r x r', std_fill_buf r = (x, r') →
  (∀ b, x ≠ Ready (Ok b)) → std_rem r' = std_rem r.

Definition FromStdIo_Reader : @Reader T (FromStdIo_read std_fill_buf std_consume).
Proof using std_ok std_not.
  refine {| rem := std_rem |}; simpl; intros r.
  - intros b r' H. destruct (std_fill_buf r) as [[[c|e]|] r1] eqn:Hf; try done.
    injection H as -> ->. by apply std_ok.
  - intros x r' H Hx. destruct (std_fill_buf r) as [y r1] eqn:Hf.
    injection H as <- <-. eapply std_not; [done|]. intros b ->. by apply (Hx b).
Defined.
End std_laws.

(** ** Witnesses *)
Definition demo_chunks : Chunks :=
  [Some [1; 2]%Z; None; Some [3; 4; 5]%Z].

Lemma read_exact_spec_witness :
  ∃ this', ReadExact_poll 9 (mkReadExact demo_chunks [] [0; 0; 0; 0]%Z) =
    Some (Done (Pending, this')) ∧ re_filled this' = [1; 2]%Z ∧ re_buf this' <> [].
Proof.
  destruct (read_exact_spec (mkReadExact demo_chunks [] [0; 0; 0; 0]%Z) 9)
    as (res & this' & got & Hr & H1 & H2 & H3 & H4); [simpl; lia|].
  vm_compute in Hr. injection Hr as <- <-. eexists. split; [reflexivity|].
  split; [reflexivity|]. intros H. apply H4 in H. discriminate.
Defined.

(** A reader whose chunks are all there: [prompt]. *)
Inductive Prompt : Type := mkPrompt (l : list bytes).
Fixpoint prompt_fill (l : list bytes) : bytes * list bytes :=
  match l with [] => ([], []) | [] :: l' => prompt_fill l' | (x :: b) :: _ => (x :: b, l) end.

#[export] Instance prompt_read : AsyncBufRead Prompt := {|
  poll_fill_buf '(mkPrompt l) := let '(b, l') := prompt_fill l in (Ready (Ok b), mkPrompt l');
  consume n '(mkPrompt l) := mkPrompt match l with b :: l' => drop n b :: l' | _ => l end
|}.

#[export] Instance prompt_Reader : Reader Prompt.
Proof.
  refine {| rem '(mkPrompt l) := concat l |}.
  - intros [l] b r' H. simpl in H. destruct (prompt_fill l) as [c l'] eqn:Hf.
    injection H as -> <-. revert Hf. induction l as [|[|x c] l IH]; simpl.
    + intros [= <- <-]. split_and!; try done. intros n _. by rewrite drop_nil.
    + exact IH.
    + intros [= <- <-]. split_and!; [done|by eexists|done|].
      intros n Hn. simpl. by rewrite <-drop_app_le.
  - intros [l] x r' H Hx. simpl in H. destruct (prompt_fill l) as [c l'].
    injection H as <- <-. by destruct (Hx c).
Defined.

Lemma prompt_prompt : prompt (R := Prompt).
Proof. intros [l]. simpl. destruct (prompt_fill l). eauto. Qed.

(** "\nAB\r\r\nC" in three chunks, and "AB\rC". *)
Lemma read_line_spec_witness :
  (∃ buf' r', read_line_poll 20 (SkipEol (mkPrompt [[10]; [65; 66; 13]; [13; 10; 67]]%Z)
      [0; 0; 0]%Z) = Some (Done (Ready (Ok 2), LastByte r' buf' 2)) ∧ rem r' = [67]%Z) ∧
  (∃ buf' r', read_line_poll 20 (SkipEol (mkPrompt [[65; 66; 13; 67]]%Z) [0; 0; 0]%Z) =
      Some (Done (Ready (Ok 2), LastByte r' buf' 2)) ∧ rem r' = []).
Proof.
  split.
  - destruct (read_line_spec 20 (mkPrompt [[10]; [65; 66; 13]; [13; 10; 67]]%Z) [0; 0; 0]%Z
      [10]%Z [65; 66]%Z [13; 13]%Z 10%Z [67]%Z) as (n & buf' & r' & Hr & -> & _ & _ & Hrem);
      [apply prompt_prompt|simpl; lia|reflexivity|by repeat constructor|done|
       by repeat constructor|by repeat constructor|done|by right|].
    exists buf', r'. split; [exact Hr|exact Hrem].
  - destruct (read_line_spec 20 (mkPrompt [[65; 66; 13; 67]]%Z) [0; 0; 0]%Z
      [] [65; 66]%Z [13]%Z 67%Z []) as (n & buf' & r' & Hr & -> & _ & _ & Hrem);
      [apply prompt_prompt|simpl; lia|reflexivity|by repeat constructor|done|
       by repeat constructor|by repeat constructor|done|by left|].
    exists buf', r'. split; [exact Hr|exact Hrem].
Defined.

Lemma write_all_spec_witness :
  ∃ w', WriteAll_poll 9 (mkLimited 2 [7]%Z) [1; 2; 3]%Z =
    Some (Done (Ready (Ok tt), w', [])) ∧ taken w' = [7; 1; 2; 3]%Z.
Proof.
  destruct (write_all_spec 9 (mkLimited 2 [7]%Z) [1; 2; 3]%Z) as (out & Hr & Hout);
    [simpl; lia|].
  vm_compute in Hr. injection Hr as <-. destruct Hout as (put & Hp & Hs & _).
  eexists. split; reflexivity.
Defined.

Lemma copy_buf_spec_witness :
  ∃ this', CopyBuf_poll 9 (copy_buf (mkPrompt [[1; 2]; [3]]%Z) (mkLimited 1 [])) =
    Some (Ready (Ok 3), this') ∧ taken (cb_writer this') = [1; 2; 3]%Z.
Proof.
  destruct (copy_buf_spec 9 (copy_buf (mkPrompt [[1; 2]; [3]]%Z) (mkLimited 1 [])))
    as (res & this' & Hr & H1 & H2 & H3); [simpl; lia|].
  vm_compute in Hr. injection Hr as <- <-. eexists. split; reflexivity.
Defined.

Lemma drain_never_ends_witness : Drain_poll 100 (mkPrompt [[1; 2]]%Z) = None.
Proof. apply drain_never_ends. exact prompt_prompt. Defined.
