(* ===== verification/RingBuffer.v ===== *)
(** * RingBuffer: the byte queue of the serial drivers

    [embassy-extras/src/ring_buffer.rs].  Indices are [usize] (32 bits on the
    supported targets); the slices handed out are modelled by the offset and the
    bytes they cover, and what the caller writes through one by [fill]. *)
From S2P Require Import Prelude.
Local Open Scope Z_scope.

Record RingBuffer : Type := mkRing { buf : list Z; start : Z; end_ : Z; empty : bool }.

Definition len (self : RingBuffer) : Z := Z.of_nat (length (buf self)).

Definition new (buf : list Z) : RingBuffer := mkRing buf 0 0 true.

(** [buf[off..off + n]]. *)
Definition slice (l : list Z) (off n : Z) : list Z :=
  take (Z.to_nat n) (drop (Z.to_nat off) l).

(** [wrap]. *)
Definition wrap_index (self : RingBuffer) (n : Z) : outcome Z :=
  _ ← assert (n <=? len self);
  Done (if n =? len self then 0 else n).

Section ops.
Context {P : Profile}.

(** [push_buf]: the offset and length of the slice. *)
Definition push_buf (self : RingBuffer) : outcome (Z * Z) :=
  if (start self =? end_ self) && negb (empty self) then Done (0, 0)
  else
    n ← (if start self <=? end_ self then arith 32 (len self - end_ self)
         else arith 32 (start self - end_ self));
    hi ← arith 32 (end_ self + n);
    _ ← assert (hi <=? len self);
    Done (end_ self, n).

Definition push (self : RingBuffer) (n : Z) : outcome RingBuffer :=
  if n =? 0 then Done self
  else
    e ← arith 32 (end_ self + n);
    e' ← wrap_index self e;
    Done (mkRing (buf self) (start self) e' false).

Definition pop_buf (self : RingBuffer) : outcome (Z * Z) :=
  if empty self then Done (0, 0)
  else
    n ← (if end_ self <=? start self then arith 32 (len self - start self)
         else arith 32 (end_ self - start self));
    hi ← arith 32 (start self + n);
    _ ← assert (hi <=? len self);
    Done (start self, n).

Definition pop (self : RingBuffer) (n : Z) : outcome RingBuffer :=
  if n =? 0 then Done self
  else
    s ← arith 32 (start self + n);
    s' ← wrap_index self s;
    Done (mkRing (buf self) s' (end_ self) (s' =? end_ self)).

Definition clear (self : RingBuffer) : RingBuffer := mkRing (buf self) 0 0 true.

(** Writing [data] at the front of the slice that starts at [off]. *)
Definition fill (self : RingBuffer) (off : Z) (data : list Z) : RingBuffer :=
  mkRing (take (Z.to_nat off) (buf self) ++ data ++
          drop (Z.to_nat off + length data) (buf self))
    (start self) (end_ self) (empty self).

(** How the drivers use it: write as much as fits in one slice, and read one slice
    of at most [max] bytes. *)
Definition write (self : RingBuffer) (data : list Z) : outcome (RingBuffer * nat) :=
  '(off, n) ← push_buf self;
  let k := Nat.min (Z.to_nat n) (length data) in
  self' ← push (fill self off (take k data)) (Z.of_nat k);
  Done (self', k).

Definition read (self : RingBuffer) (max : nat) : outcome (RingBuffer * list Z) :=
  '(off, n) ← pop_buf self;
  let out := take max (slice (buf self) off n) in
  self' ← pop self (Z.of_nat (length out));
  Done (self', out).

Inductive Op : Type :=
| Write (data : list Z)
| Read (max : nat).

(** The bytes accepted and the bytes returned by a sequence of operations. *)
Fixpoint run_ops (ops : list Op) (self : RingBuffer)
    : outcome (RingBuffer * list Z * list Z) :=
  match ops with
  | [] => Done (self, [], [])
  | Write data :: ops' =>
      '(self', k) ← write self data;
      '(self'', i, o) ← run_ops ops' self';
      Done (self'', take k data ++ i, o)
  | Read max :: ops' =>
      '(self', out) ← read self max;
      '(self'', i, o) ← run_ops ops' self';
      Done (self'', i, out ++ o)
  end.

End ops.

(** ** The queue it stands for *)

(** The bytes between [start] and [end], in order. *)
Definition contents (rb : RingBuffer) : list Z :=
  if empty rb then []
  else if start rb <? end_ rb then slice (buf rb) (start rb) (end_ rb - start rb)
  else slice (buf rb) (start rb) (len rb - start rb) ++ slice (buf rb) 0 (end_ rb).

(** Slices are at most [isize::MAX] long. *)
Record wf (rb : RingBuffer) : Prop := {
  wf_len : len rb < 2 ^ 31;
  wf_start : 0 ≤ start rb < len rb ∨ start rb = 0 ∧ len rb = 0;
  wf_end : 0 ≤ end_ rb < len rb ∨ end_ rb = 0 ∧ len rb = 0;
  wf_empty : empty rb = true → start rb = end_ rb;
  wf_some : empty rb = false → 0 < len rb
}.

Lemma slice_length l off n :
  0 ≤ off → 0 ≤ n → off + n ≤ Z.of_nat (length l) →
  Z.of_nat (length (slice l off n)) = n.
Proof. intros. unfold slice. rewrite length_take, length_drop. lia. Qed.

Lemma slice_app l off n m :
  0 ≤ off → 0 ≤ n → 0 ≤ m →
  slice l off (n + m) = slice l off n ++ slice l (off + n) m.
Proof.
  intros. unfold slice. rewrite !Z2Nat.inj_add by lia.
  by rewrite <-drop_drop, take_take_drop.
Qed.

Lemma slice_nil l off : slice l off 0 = [].
Proof. done. Qed.

Section fill.
Context (rb : RingBuffer) (off : Z) (data : list Z).
Hypothesis Hoff : 0 ≤ off.
Hypothesis Hfit : off + Z.of_nat (length data) ≤ len rb.

Lemma fill_len : len (fill rb off data) = len rb.
Proof using Hoff Hfit.
  unfold len in *. simpl. rewrite !length_app, length_take, length_drop. lia.
Qed.

Lemma fill_here : slice (buf (fill rb off data)) off (Z.of_nat (length data)) = data.
Proof using Hoff Hfit.
  unfold len in *. unfold slice. simpl. rewrite drop_app_length' by (rewrite length_take; lia).
  apply take_app_length'. lia.
Qed.

Lemma fill_before o n : 0 ≤ o → 0 ≤ n → o + n ≤ off →
  slice (buf (fill rb off data)) o n = slice (buf rb) o n.
Proof using Hoff Hfit.
  unfold len in *. intros Ho Hn Hle. unfold slice. simpl.
  rewrite drop_app_le by (rewrite length_take; lia).
  rewrite take_app_le by (rewrite length_drop, length_take; lia).
  rewrite skipn_firstn_comm.
  rewrite take_take. f_equal. lia.
Qed.

Lemma fill_after o n : 0 ≤ n → off + Z.of_nat (length data) ≤ o →
  slice (buf (fill rb off data)) o n = slice (buf rb) o n.
Proof using Hoff Hfit.
  unfold len in *. intros Hn Hle. unfold slice. simpl. f_equal.
  rewrite drop_app_ge by (rewrite length_take; lia). rewrite length_take.
  rewrite drop_app_ge by lia. rewrite drop_drop. f_equal. lia.
Qed.
End fill.

Lemma arith32 {P : Profile} z : 0 ≤ z < 2 ^ 32 → arith 32 z = Done z.
Proof. apply arith_fits. Qed.

(** ** Pushing and popping *)

(** Room for [k] bytes after [end]: up to the end of the buffer, or up to the
    bytes that wrapped around. *)
Definition room (rb : RingBuffer) (k : Z) : Prop :=
  if start rb <=? end_ rb then (start rb = end_ rb → empty rb = true) ∧ end_ rb + k ≤ len rb
  else end_ rb + k ≤ start rb.

Lemma push_fill {P : Profile} rb data :
  wf rb → 0 < Z.of_nat (length data) → room rb (Z.of_nat (length data)) →
  ∃ rb', push (fill rb (end_ rb) data) (Z.of_nat (length data)) = Done rb' ∧
    wf rb' ∧ len rb' = len rb ∧ contents rb' = contents rb ++ data.
Proof.
  intros [W1 W2 W3 W4 W5] Hk Hroom. set (k := Z.of_nat (length data)) in *.
  assert (Hfit : end_ rb + k ≤ len rb) by (revert Hroom; unfold room; case_bool; lia).
  assert (He : 0 ≤ end_ rb) by lia.
  pose proof (fill_len rb (end_ rb) data He Hfit) as Hlen.
  pose proof (fill_here rb (end_ rb) data He Hfit) as Hhere. fold k in Hhere.
  pose proof (fill_before rb (end_ rb) data He Hfit) as Hbefore.
  pose proof (fill_after rb (end_ rb) data He Hfit) as Hafter. fold k in Hafter.
  set (rb1 := fill rb (end_ rb) data) in *.
  assert (E1 : end_ rb1 = end_ rb ∧ start rb1 = start rb) by done.
  destruct E1 as [E1 E2]. clearbody rb1. unfold push, wrap_index.
  rewrite (proj2 (Z.eqb_neq _ _)) by lia. rewrite E1, arith32 by lia. simpl.
  rewrite Hlen, (proj2 (Z.leb_le _ _) Hfit), E2. simpl.
  set (e' := if end_ rb + k =? len rb then 0 else end_ rb + k).
  assert (He' : e' = 0 ∧ end_ rb + k = len rb ∨ e' = end_ rb + k ∧ end_ rb + k < len rb)
    by (unfold e'; case_bool; lia).
  clearbody e'. eexists. split; [done|].
  assert (Hl' : len (mkRing (buf rb1) (start rb) e' false) = len rb) by exact Hlen.
  split; [split; rewrite ?Hl'; simpl; try done; lia|]. split; [done|].
  unfold contents. rewrite Hl'. simpl. unfold room in Hroom.
  destruct (empty rb) eqn:Hem.
  - specialize (W4 eq_refl). simpl. rewrite W4.
    destruct He' as [[-> Hend]|[-> Hlt]].
    + destruct (Z.ltb_spec (end_ rb) 0); [lia|]. rewrite slice_nil, app_nil_r.
      replace (len rb - end_ rb) with k by lia. done.
    + destruct (Z.ltb_spec (end_ rb) (end_ rb + k)); [|lia].
      replace (end_ rb + k - end_ rb) with k by lia. done.
  - destruct (Z.leb_spec (start rb) (end_ rb)).
    + assert (start rb < end_ rb) by (destruct Hroom; lia).
      destruct (Z.ltb_spec (start rb) (end_ rb)); [|lia].
      rewrite <-(Hbefore (start rb) (end_ rb - start rb)) by lia.
      assert (Hsp : slice (buf rb1) (start rb) (end_ rb + k - start rb) =
        slice (buf rb1) (start rb) (end_ rb - start rb) ++ data).
      { replace (end_ rb + k - start rb) with (end_ rb - start rb + k) by lia.
        rewrite slice_app by lia.
        replace (start rb + (end_ rb - start rb)) with (end_ rb) by lia. by rewrite Hhere. }
      destruct He' as [[-> Hend]|[-> Hlt]].
      * destruct (Z.ltb_spec (start rb) 0); [lia|]. by rewrite slice_nil, app_nil_r, <-Hend.
      * destruct (Z.ltb_spec (start rb) (end_ rb + k)); [done|lia].
    + destruct He' as [[-> Hend]|[-> Hlt]]; [lia|].
      destruct (Z.ltb_spec (start rb) (end_ rb + k)); [lia|].
      destruct (Z.ltb_spec (start rb) (end_ rb)); [lia|].
      rewrite Hafter by lia. rewrite (slice_app _ 0 (end_ rb) k) by lia. simpl.
      rewrite (Hbefore 0 (end_ rb)) by lia. rewrite Z.add_0_l, Hhere. by rewrite app_assoc.
Qed.

(** The slice [pop_buf] shows, when there is something to show. *)
Definition shown (rb : RingBuffer) : Z :=
  if end_ rb <=? start rb then len rb - start rb else end_ rb - start rb.

Lemma shown_prefix rb : wf rb → empty rb = false →
  0 < shown rb ∧ start rb + shown rb ≤ len rb ∧
  ∃ rest, contents rb = slice (buf rb) (start rb) (shown rb) ++ rest.
Proof.
  intros [W1 W2 W3 W4 W5] He. specialize (W5 He). unfold shown, contents. rewrite He.
  destruct (Z.leb_spec (end_ rb) (start rb)).
  - destruct (Z.ltb_spec (start rb) (end_ rb)); [lia|]. split_and!; [lia|lia|].
    eexists. done.
  - destruct (Z.ltb_spec (start rb) (end_ rb)); [|lia]. split_and!; [lia|lia|].
    exists []. by rewrite app_nil_r.
Qed.

Lemma pop_prefix {P : Profile} rb (k : nat) :
  wf rb → empty rb = false → (k > 0)%nat → Z.of_nat k ≤ shown rb →
  ∃ rb', pop rb (Z.of_nat k) = Done rb' ∧ wf rb' ∧ len rb' = len rb ∧
    contents rb' = drop k (contents rb).
Proof.
  intros W He Hk Hle. destruct (shown_prefix rb W He) as (Hs & Hfit & _).
  destruct W as [W1 W2 W3 W4 W5]. specialize (W5 He). clear W4. unfold pop, wrap_index.
  rewrite (proj2 (Z.eqb_neq _ _)) by lia. rewrite arith32 by lia. simpl.
  rewrite (proj2 (Z.leb_le _ _)) by lia. simpl.
  set (s' := if start rb + Z.of_nat k =? len rb then 0 else start rb + Z.of_nat k).
  assert (Hs' : s' = 0 ∧ start rb + Z.of_nat k = len rb ∨
    s' = start rb + Z.of_nat k ∧ start rb + Z.of_nat k < len rb)
    by (unfold s'; case_bool; lia).
  clearbody s'. eexists. split; [done|].
  assert (Hl' : len (mkRing (buf rb) s' (end_ rb) (s' =? end_ rb)) = len rb) by done.
  split; [split; rewrite ?Hl'; simpl; try done; try lia; intros; case_bool; lia|].
  split; [done|]. unfold contents. rewrite Hl', He. simpl. unfold shown in *.
  assert (Hdrop : ∀ off n, 0 ≤ off → Z.of_nat k ≤ n → off + n ≤ len rb →
    drop k (slice (buf rb) off n) = slice (buf rb) (off + Z.of_nat k) (n - Z.of_nat k)).
  { intros off n Hoff Hn Hb. replace n with (Z.of_nat k + (n - Z.of_nat k)) at 1 by lia.
    rewrite slice_app by lia. apply drop_app_length'.
    pose proof (slice_length (buf rb) off (Z.of_nat k)). unfold len in *. lia. }
  destruct (Z.leb_spec (end_ rb) (start rb)).
  - destruct (Z.ltb_spec (start rb) (end_ rb)); [lia|].
    rewrite drop_app_le by (apply Nat2Z.inj_le; rewrite slice_length; unfold len in *; lia).
    rewrite Hdrop by lia. destruct Hs' as [[-> E]|[-> E]].
    + replace (len rb - start rb - Z.of_nat k) with 0 by lia. rewrite slice_nil, app_nil_l.
      destruct (Z.eqb_spec 0 (end_ rb)) as [<-|]; [done|].
      destruct (Z.ltb_spec 0 (end_ rb)); [|lia]. by rewrite Z.sub_0_r.
    + destruct (Z.eqb_spec (start rb + Z.of_nat k) (end_ rb)); [lia|].
      destruct (Z.ltb_spec (start rb + Z.of_nat k) (end_ rb)); [lia|].
      do 2 f_equal. lia.
  - destruct (Z.ltb_spec (start rb) (end_ rb)); [|lia]. rewrite Hdrop by lia.
    destruct Hs' as [[-> E]|[-> E]]; [lia|].
    destruct (Z.eqb_spec (start rb + Z.of_nat k) (end_ rb)) as [<-|].
    + by replace (start rb + Z.of_nat k - start rb - Z.of_nat k) with 0 by lia.
    + destruct (Z.ltb_spec (start rb + Z.of_nat k) (end_ rb)); [|lia]. f_equal. lia.
Qed.

Lemma contents_nil rb : wf rb → contents rb = [] ↔ empty rb = true.
Proof.
  intros W. split; [|intros E; unfold contents; by rewrite E].
  destruct (empty rb) eqn:He; [done|]. intros Hc.
  destruct (shown_prefix rb W He) as (Hs & Hfit & rest & Hr). destruct W.
  rewrite Hc in Hr. symmetry in Hr. apply app_eq_nil in Hr as [Hr _].
  pose proof (slice_length (buf rb) (start rb) (shown rb)) as Hl. rewrite Hr in Hl.
  unfold len in *. simpl in Hl. lia.
Qed.

(** [push_buf] shows room, and shows none only when the queue is full. *)
Lemma push_buf_run {P : Profile} rb : wf rb →
  ∃ off n, push_buf rb = Done (off, n) ∧ 0 ≤ n ∧
    (n = 0 → Z.of_nat (length (contents rb)) = len rb) ∧
    (0 < n → off = end_ rb ∧ ∀ k, k ≤ n → room rb k).
Proof.
  intros W. pose proof W as [W1 W2 W3 W4 W5]. unfold push_buf, room.
  assert (Hc : 0 ≤ len rb) by (unfold len; lia).
  destruct (Z.eqb_spec (start rb) (end_ rb)) as [E|E]; simpl.
  - destruct (empty rb) eqn:He; simpl.
    + rewrite E, Z.leb_refl, !arith32 by lia. simpl. rewrite arith32 by lia. simpl.
      rewrite (proj2 (Z.leb_le _ _)) by lia. simpl. eexists _, _. split; [done|].
      unfold contents. rewrite He. simpl. split_and!; [lia|intros; lia|].
      intros _. split; [done|]. intros k Hk. lia.
    + eexists _, _. split; [done|]. split_and!; [done| |lia]. intros _.
      unfold contents. rewrite He, E, Z.ltb_irrefl. rewrite length_app.
      rewrite Nat2Z.inj_add. rewrite !slice_length; unfold len in *; lia.
  - destruct (Z.leb_spec (start rb) (end_ rb)).
    + rewrite !arith32 by lia. simpl. rewrite arith32 by lia. simpl.
      rewrite (proj2 (Z.leb_le _ _)) by lia. simpl. eexists _, _. split; [done|].
      split_and!; [lia|intros; lia|]. intros _. split; [done|]. intros k Hk. lia.
    + rewrite !arith32 by lia. simpl. rewrite arith32 by lia. simpl.
      rewrite (proj2 (Z.leb_le _ _)) by lia. simpl. eexists _, _. split; [done|].
      split_and!; [lia|intros; lia|]. intros _. split; [done|]. intros k Hk. lia.
Qed.

Lemma fill_nil rb off : fill rb off [] = rb.
Proof.
  destruct rb as [b s e em]. unfold fill. simpl.
  by rewrite Nat.add_0_r, take_drop.
Qed.

Lemma write_run {P : Profile} rb data : wf rb →
  ∃ rb' k, write rb data = Done (rb', k) ∧ (k ≤ length data)%nat ∧ wf rb' ∧
    len rb' = len rb ∧ contents rb' = contents rb ++ take k data ∧
    (k = O → data = [] ∨ Z.of_nat (length (contents rb)) = len rb).
Proof.
  intros W. destruct (push_buf_run rb W) as (off & n & Hp & Hn & Hfull & Hroom).
  unfold write. rewrite Hp. simpl. set (k := Nat.min (Z.to_nat n) (length data)).
  destruct (decide (k = O)) as [E|E].
  - rewrite E. simpl. rewrite fill_nil. unfold push. simpl.
    eexists _, _. split; [done|]. rewrite app_nil_r. split_and!; [lia|done|done|done|].
    intros _. destruct data as [|x data]; [by left|right]. apply Hfull.
    unfold k in E. simpl in E. lia.
  - destruct Hroom as [-> Hroom]; [lia|].
    assert (Hlen : length (take k data) = k) by (rewrite length_take; lia).
    destruct (push_fill rb (take k data) W) as (rb' & Hpush & W' & Hl & Hcon);
      [rewrite Hlen; lia|apply Hroom; lia|].
    rewrite Hlen in Hpush. rewrite Hpush. simpl. eexists _, _. split; [done|].
    split_and!; [lia|done|done|done|done].
Qed.

Lemma read_run {P : Profile} rb max : wf rb →
  ∃ rb' out, read rb max = Done (rb', out) ∧ wf rb' ∧ len rb' = len rb ∧
    contents rb = out ++ contents rb' ∧ (length out ≤ max)%nat ∧
    (out = [] → max = O ∨ contents rb = []).
Proof.
  intros W. unfold read, pop_buf. destruct (empty rb) eqn:He.
  - cbn -[take slice pop]. rewrite slice_nil, take_nil. unfold pop. simpl.
    eexists _, _. split; [done|]. split_and!; try done; [simpl; lia|].
    intros _. right. by apply contents_nil.
  - destruct (shown_prefix rb W He) as (Hs & Hfit & rest & Hr).
    pose proof W as [W1 W2 W3 W4 W5].
    assert (Hn : (if end_ rb <=? start rb then arith 32 (len rb - start rb)
                  else arith 32 (end_ rb - start rb)) = Done (shown rb)).
    { unfold shown. case_bool; apply arith32; lia. }
    rewrite Hn.
    simpl. rewrite arith32 by lia. simpl.
    rewrite (proj2 (Z.leb_le _ _)) by lia. simpl.
    set (s := slice (buf rb) (start rb) (shown rb)) in *.
    assert (Hls : Z.of_nat (length s) = shown rb) by (apply slice_length; unfold len in *; lia).
    set (out := take max s). destruct out as [|x out'] eqn:Hout.
    + simpl. unfold pop. simpl. eexists _, _. split; [done|].
      split_and!; try done; [simpl; lia|]. intros _. left.
      destruct max; [done|]. destruct s; [simpl in Hls; lia|done].
    + rewrite <-Hout. assert (Hlo : (length out ≤ length s)%nat)
        by (unfold out; rewrite length_take; lia).
      destruct (pop_prefix rb (length out) W He) as (rb' & -> & W' & Hl & Hc);
        [by rewrite Hout; simpl; lia|lia|].
      simpl. eexists _, _. split; [done|]. split_and!; [done|done| | |by rewrite Hout].
      * rewrite Hc, Hr, drop_app_le by done.
        rewrite app_assoc. f_equal. unfold out. rewrite length_take.
        destruct (decide (max ≤ length s)%nat).
        -- rewrite Nat.min_l by done. by rewrite take_drop.
        -- rewrite Nat.min_r, take_ge, drop_all, app_nil_r by lia. done.
      * unfold out. rewrite length_take. lia.
Qed.

(** [pop_buf] shows the bytes up to the end of the buffer or of the queue. *)
Definition peeked (rb : RingBuffer) : list Z :=
  if empty rb then [] else slice (buf rb) (start rb) (shown rb).

Lemma pop_buf_run {P : Profile} rb : wf rb →
  ∃ off n, pop_buf rb = Done (off, n) ∧ slice (buf rb) off n = peeked rb ∧
    Z.of_nat (length (peeked rb)) = n ∧
    (∃ rest, contents rb = peeked rb ++ rest) ∧ (peeked rb = [] ↔ contents rb = []).
Proof.
  intros W. unfold pop_buf, peeked. pose proof (contents_nil rb W) as Hnil. destruct (empty rb) eqn:He.
  - exists 0, 0. rewrite slice_nil. split_and!; try done; [by eexists|]. by rewrite Hnil.
  - destruct (shown_prefix rb W He) as (Hs & Hfit & rest & Hr). pose proof W as [W1 W2 W3 W4 W5].
    assert (Hn : (if end_ rb <=? start rb then arith 32 (len rb - start rb)
                  else arith 32 (end_ rb - start rb)) = Done (shown rb)).
    { unfold shown. case_bool; apply arith32; lia. }
    rewrite Hn. cbn [mbind outcome_bind]. rewrite arith32 by lia. cbn [mbind outcome_bind].
    rewrite (proj2 (Z.leb_le _ _)) by lia. cbn [assert mbind outcome_bind].
    assert (Hl : Z.of_nat (length (slice (buf rb) (start rb) (shown rb))) = shown rb)
      by (apply slice_length; unfold len in *; lia).
    eexists _, _. split; [done|]. split_and!; [done|done|by exists rest|].
    split; [intros E; rewrite E in Hl; simpl in Hl; lia|]. intros E. apply Hnil in E. done.
Qed.

(** Popping any part of what is shown drops it from the queue. *)
Lemma pop_run {P : Profile} rb (k : nat) : wf rb → (k ≤ length (peeked rb))%nat →
  ∃ rb', pop rb (Z.of_nat k) = Done rb' ∧ wf rb' ∧ len rb' = len rb ∧
    contents rb' = drop k (contents rb).
Proof.
  intros W Hk. destruct (decide (k = O)) as [->|Hne].
  - exists rb. unfold pop. simpl. done.
  - unfold peeked in Hk. destruct (empty rb) eqn:He; [simpl in Hk; lia|].
    destruct (shown_prefix rb W He) as (Hs & Hfit & _). pose proof W as [W1 W2 W3 W4 W5].
    apply pop_prefix; [done|done|lia|].
    rewrite <-(slice_length (buf rb) (start rb) (shown rb)); unfold len in *; lia.
Qed.

(** A push leaves the bytes in front as they are. *)
Lemma push_peeked {P : Profile} rb data rb' : wf rb → room rb (Z.of_nat (length data)) →
  push (fill rb (end_ rb) data) (Z.of_nat (length data)) = Done rb' → wf rb' →
  contents rb' = contents rb ++ data → peeked rb `prefix_of` peeked rb'.
Proof.
  intros W Hroom Hp W' Hc. destruct (decide (data = [])) as [->|Hd].
  { rewrite fill_nil in Hp. by injection Hp as <-. }
  destruct (empty rb) eqn:He; [unfold peeked at 1; rewrite He; apply prefix_nil|].
  assert (Hk : 0 < Z.of_nat (length data)) by (destruct data; [done|simpl; lia]).
  pose proof W as [W1 W2 W3 W4 W5]. specialize (W5 He).
  assert (Hfit : end_ rb + Z.of_nat (length data) ≤ len rb)
    by (revert Hroom; unfold room; case_bool; lia).
  assert (Hsh : empty rb' = false ∧ shown rb ≤ shown rb').
  { pose proof (fill_len rb (end_ rb) data ltac:(lia) Hfit) as Hl.
    assert (E : start (fill rb (end_ rb) data) = start rb ∧ end_ (fill rb (end_ rb) data) = end_ rb)
      by done. revert Hp Hl E. generalize (fill rb (end_ rb) data) as rb1.
    intros rb1 Hp Hl [E1 E2]. revert Hp. unfold push, wrap_index.
    rewrite (proj2 (Z.eqb_neq _ _)), E1, E2, Hl by lia. simpl. rewrite arith32 by lia. simpl.
    rewrite (proj2 (Z.leb_le _ _)) by lia. simpl. intros [= <-]. split; [done|].
    assert (Hl2 : ∀ e, len (mkRing (buf rb1) (start rb) e false) = len rb) by (intros e; exact Hl).
    unfold shown. rewrite Hl2. simpl.
    assert (Hr : if start rb <=? end_ rb then start rb < end_ rb
                 else end_ rb + Z.of_nat (length data) ≤ start rb).
    { revert Hroom. unfold room. case_bool; [|done]. intros [Hne _].
      destruct (decide (start rb = end_ rb)) as [E|]; [|lia]. specialize (Hne E). congruence. }
    revert Hr. repeat case_bool; lia. }
  destruct Hsh as [He' Hsh].
  destruct (shown_prefix rb W He) as (H1 & H2 & r1 & E1).
  destruct (shown_prefix rb' W' He') as (H3 & H4 & r2 & E2).
  pose proof (slice_length (buf rb) (start rb) (shown rb) ltac:(lia) ltac:(lia) H2) as L1.
  pose proof W' as [V1 V2 V3 V4 V5].
  pose proof (slice_length (buf rb') (start rb') (shown rb') ltac:(lia) ltac:(lia) H4) as L2.
  unfold peeked. rewrite He, He'.
  destruct (prefix_weak_total (slice (buf rb) (start rb) (shown rb))
    (slice (buf rb') (start rb') (shown rb')) (contents rb')) as [H|[l H]].
  - rewrite Hc, E1, <-app_assoc. by apply prefix_app_r.
  - rewrite E2. by apply prefix_app_r.
  - done.
  - assert (l = []) as ->; [|by rewrite H, app_nil_r]. apply length_zero_iff_nil.
    rewrite H, length_app in L1. lia.
Qed.

(** What is shown depends only on the queue and on where it lies. *)
Lemma peeked_take rb : wf rb → empty rb = false →
  peeked rb = take (Z.to_nat (shown rb)) (contents rb).
Proof.
  intros W He. destruct (shown_prefix rb W He) as (Hs & Hfit & rest & ->). destruct W.
  unfold peeked. rewrite He, take_app_length'; [done|].
  apply Nat2Z.inj. rewrite slice_length; unfold len in *; lia.
Qed.
Lemma peeked_same rb rb' : wf rb → wf rb' → contents rb' = contents rb →
  empty rb' = empty rb → start rb' = start rb → end_ rb' = end_ rb → len rb' = len rb →
  peeked rb' = peeked rb.
Proof.
  intros W W' Hc He Es Ee El. destruct (empty rb) eqn:E.
  - unfold peeked. by rewrite He, E.
  - rewrite !peeked_take, Hc by done. unfold shown. by rewrite Es, Ee, El.
Qed.

(** *** Memory that a DMA transfer works on *)

(** What [push] and [pop] change. *)
Lemma push_shape {P : Profile} rb k rb' :
  push rb k = Done rb' → 0 < k → 0 ≤ end_ rb → end_ rb + k < 2 ^ 32 →
  buf rb' = buf rb ∧ start rb' = start rb ∧ empty rb' = false ∧
  (end_ rb' = end_ rb + k ∧ end_ rb + k < len rb ∨ end_ rb' = 0 ∧ end_ rb + k = len rb).
Proof.
  intros H Hk He Hov. unfold push, wrap_index in H.
  rewrite (proj2 (Z.eqb_neq _ _)), arith32 in H by lia. cbn [mbind outcome_bind] in H.
  destruct (Z.leb_spec (end_ rb + k) (len rb)); [|done]. cbn [assert mbind outcome_bind] in H.
  injection H as <-. simpl. split_and!; try done. case_bool; lia.
Qed.

Lemma pop_shape {P : Profile} rb k rb' :
  pop rb k = Done rb' → 0 < k → 0 ≤ start rb → start rb + k < 2 ^ 32 →
  buf rb' = buf rb ∧ end_ rb' = end_ rb ∧ empty rb' = (start rb' =? end_ rb) ∧
  (start rb' = start rb + k ∧ start rb + k < len rb ∨ start rb' = 0 ∧ start rb + k = len rb).
Proof.
  intros H Hk He Hov. unfold pop, wrap_index in H.
  rewrite (proj2 (Z.eqb_neq _ _)), arith32 in H by lia. cbn [mbind outcome_bind] in H.
  destruct (Z.leb_spec (start rb + k) (len rb)); [|done]. cbn [assert mbind outcome_bind] in H.
  injection H as <-. simpl. split_and!; try done. case_bool; lia.
Qed.

Lemma pop_room {P : Profile} rb (j : nat) rb' k :
  wf rb → (j ≤ length (peeked rb))%nat → pop rb (Z.of_nat j) = Done rb' → 0 ≤ k →
  room rb k → room rb' k ∧ end_ rb' = end_ rb ∧ buf rb' = buf rb.
Proof.
  intros W Hj Hp Hk Hr. destruct (decide (j = O)) as [->|Hne].
  - unfold pop in Hp. simpl in Hp. by injection Hp as <-.
  - unfold peeked in Hj. destruct (empty rb) eqn:He; [simpl in Hj; lia|].
    destruct (shown_prefix rb W He) as (Hs & Hfit & _).
    rewrite <-(Nat2Z.id (length _)), slice_length in Hj by (destruct W; unfold len in *; lia).
    pose proof W as [W1 W2 W3 W4 W5]. specialize (W5 He).
    apply pop_shape in Hp as (Eb & Ee & Em & Hst); [|lia..].
    split; [|done]. assert (El : len rb' = len rb) by (unfold len; by rewrite Eb).
    unfold room, shown in *. rewrite Ee, El. revert Hr Hj.
    destruct (Z.leb_spec (start rb) (end_ rb)), (Z.leb_spec (end_ rb) (start rb)),
      (Z.leb_spec (start rb') (end_ rb)); intros Hr Hj; try lia;
      try (destruct Hr as [Hr0 Hr1]; try (rewrite Hr0 in He by lia; done));
      try (split; [intros E; rewrite Em; by apply Z.eqb_eq|lia]).
Qed.

(** Bytes stored beyond the end are not in the queue until they are pushed. *)
Lemma fill_room rb i b : wf rb → 0 ≤ i → room rb (i + 1) →
  let rb' := fill rb (end_ rb + i) [b] in
  wf rb' ∧ len rb' = len rb ∧ contents rb' = contents rb ∧
  (∀ k, room rb' k ↔ room rb k) ∧
  slice (buf rb') (end_ rb) (i + 1) = slice (buf rb) (end_ rb) i ++ [b].
Proof.
  intros W Hi Hroom rb'. pose proof W as [W1 W2 W3 W4 W5].
  assert (Hfit : end_ rb + i + Z.of_nat (length [b]) ≤ len rb)
    by (revert Hroom; unfold room; case_bool; simpl; lia).
  assert (Ho : 0 ≤ end_ rb + i) by lia.
  pose proof (fill_len rb _ [b] Ho Hfit) as Hl. pose proof (fill_here rb _ [b] Ho Hfit) as Hh.
  pose proof (fill_before rb _ [b] Ho Hfit) as Hb. pose proof (fill_after rb _ [b] Ho Hfit) as Ha.
  assert (Es : start rb' = start rb ∧ end_ rb' = end_ rb ∧ empty rb' = empty rb) by done.
  destruct Es as (E1 & E2 & E3). fold rb' in Hl, Hh, Hb, Ha. clearbody rb'.
  change (Z.of_nat (length [b])) with 1 in *. split_and!.
  - split; rewrite ?Hl, ?E1, ?E2, ?E3; done.
  - done.
  - unfold contents. rewrite E1, E2, E3, Hl. destruct (empty rb) eqn:He; [done|].
    specialize (W5 eq_refl). revert Hroom. unfold room.
    destruct (Z.leb_spec (start rb) (end_ rb)), (Z.ltb_spec (start rb) (end_ rb));
      intros Hroom; try lia.
    + apply Hb; lia.
    + destruct Hroom as [Hroom _]. rewrite Hroom in He by lia. done.
    + rewrite Ha, Hb by lia. done.
  - intros k. unfold room. by rewrite E1, E2, E3, Hl.
  - rewrite slice_app by lia. f_equal; [apply Hb; lia|]. exact Hh.
Qed.

Lemma fill_self rb k : wf rb → 0 ≤ k → end_ rb + k ≤ len rb →
  fill rb (end_ rb) (slice (buf rb) (end_ rb) k) = rb.
Proof.
  intros [W1 W2 W3 W4 W5] Hk Hle. destruct rb as [b st e em]; unfold fill, len in *; simpl in *.
  f_equal. unfold slice. rewrite length_take_le by (rewrite length_drop; lia).
  rewrite <-drop_drop, take_drop. apply take_drop.
Qed.

(** Pushing bytes that are in place. *)
Lemma push_room {P : Profile} rb k : wf rb → 0 ≤ k → room rb k →
  ∃ rb', push rb k = Done rb' ∧ wf rb' ∧ len rb' = len rb ∧
    contents rb' = contents rb ++ slice (buf rb) (end_ rb) k.
Proof.
  intros W Hk Hroom. destruct (decide (k = 0)) as [->|Hne].
  - exists rb. rewrite slice_nil, app_nil_r. done.
  - pose proof W as [W1 W2 W3 W4 W5].
    assert (Hfit : end_ rb + k ≤ len rb) by (revert Hroom; unfold room; case_bool; lia).
    assert (Hl : Z.of_nat (length (slice (buf rb) (end_ rb) k)) = k)
      by (apply slice_length; unfold len in *; lia).
    destruct (push_fill rb (slice (buf rb) (end_ rb) k) W) as (rb' & H1 & H2);
      [lia|by rewrite Hl|]. rewrite Hl, fill_self in H1 by (done || lia). by exists rb'.
Qed.

Lemma push_room_peeked {P : Profile} rb k rb' : wf rb → 0 ≤ k → room rb k →
  push rb k = Done rb' → wf rb' → contents rb' = contents rb ++ slice (buf rb) (end_ rb) k →
  peeked rb `prefix_of` peeked rb'.
Proof.
  intros W Hk Hroom Hp W' Hc. pose proof W as [W1 W2 W3 W4 W5].
  assert (Hfit : end_ rb + k ≤ len rb) by (revert Hroom; unfold room; case_bool; lia).
  assert (Hl : Z.of_nat (length (slice (buf rb) (end_ rb) k)) = k).
  { apply slice_length; unfold len in *; lia. }
  apply (push_peeked rb (slice (buf rb) (end_ rb) k) rb' W); [by rewrite Hl| |done|done].
  by rewrite Hl, fill_self.
Qed.

(** The bytes shown stay where they are, and shown, while others are written. *)
Lemma push_keeps_front {P : Profile} rb data rb' :
  wf rb → empty rb = false → room rb (Z.of_nat (length data)) →
  push (fill rb (end_ rb) data) (Z.of_nat (length data)) = Done rb' →
  start rb' = start rb ∧ (length (peeked rb) ≤ length (peeked rb'))%nat.
Proof.
  intros W He Hroom Hp. destruct (decide (length data = O)) as [E|Hne].
  - apply nil_length_inv in E as ->. rewrite fill_nil in Hp. unfold push in Hp. simpl in Hp.
    by injection Hp as <-.
  - pose proof W as [W1 W2 W3 W4 W5]. specialize (W5 He). set (k := Z.of_nat (length data)) in *.
    assert (Hk : 0 < k) by lia.
    destruct (push_fill rb data W Hk Hroom) as (rb2 & Hp2 & W' & El & _).
    fold k in Hp2. rewrite Hp in Hp2. injection Hp2 as <-.
    assert (Hfit : end_ rb + k ≤ len rb) by (revert Hroom; unfold room; case_bool; lia).
    assert (Hfl : len (fill rb (end_ rb) data) = len rb) by (apply fill_len; fold k; lia).
    apply push_shape in Hp as (Eb & Es & Em & Hend); [|simpl; lia..]. rewrite Hfl in Hend.
    simpl in Es, Hend. split; [done|]. destruct (shown_prefix rb W He) as (Hs & Hf & _).
    destruct (shown_prefix rb' W' Em) as (Hs' & Hf' & _). rewrite El in Hf'.
    unfold peeked. rewrite He, Em. apply Nat2Z.inj_le.
    rewrite !slice_length; [|unfold len in *; lia..].
    assert (start rb ≠ end_ rb).
    { intros E. revert Hroom. unfold room. rewrite E, Z.leb_refl.
      intros [H _]. by rewrite H in He. }
    unfold shown, room in *. rewrite El, Es. revert Hroom.
    destruct (Z.leb_spec (start rb) (end_ rb)), (Z.leb_spec (end_ rb) (start rb)),
      (Z.leb_spec (end_ rb') (start rb)); try lia.
Qed.

Lemma front_byte rb i : wf rb → 0 ≤ i < Z.of_nat (length (peeked rb)) →
  buf rb !! Z.to_nat (start rb + i) = contents rb !! Z.to_nat i.
Proof.
  intros W Hi. unfold peeked in Hi. destruct (empty rb) eqn:He; [simpl in Hi; lia|].
  destruct (shown_prefix rb W He) as (Hs & Hfit & rest & Hr). destruct W as [W1 W2 W3 W4 W5].
  rewrite slice_length in Hi by (unfold len in *; lia).
  assert (Hl : Z.of_nat (length (slice (buf rb) (start rb) (shown rb))) = shown rb)
    by (apply slice_length; unfold len in *; lia).
  rewrite Hr, lookup_app_l by lia. unfold slice. rewrite lookup_take, lookup_drop.
  rewrite decide_True by lia. f_equal. lia.
Qed.

Lemma new_wf b : Z.of_nat (length b) < 2 ^ 31 → wf (new b).
Proof. intros H. split; unfold len; simpl; try done; lia. Qed.

(** C17: a ring buffer is a first-in first-out queue of its capacity: whatever is
    written and read, in pieces of whatever size, nothing panics, what has been
    returned followed by what is still inside is exactly what was accepted, in
    order; a write is refused only when the buffer is full and a read returns
    nothing only when it is empty. *)
Theorem ring_buffer_fifo {P : Profile} ops rb :
  wf rb →
  (∃ rb' i o, run_ops ops rb = Done (rb', i, o) ∧ wf rb' ∧ len rb' = len rb ∧
     contents rb ++ i = o ++ contents rb') ∧
  (∀ data, ∃ rb' k, write rb data = Done (rb', k) ∧
     (k = O ↔ data = [] ∨ Z.of_nat (length (contents rb)) = len rb)) ∧
  (∀ max, ∃ rb' out, read rb max = Done (rb', out) ∧ (length out ≤ max)%nat ∧
     (out = [] ↔ max = O ∨ contents rb = [])).
Proof.
  intros W. split_and!.
  - revert rb W. induction ops as [|[data|max] ops IH]; intros rb W; simpl.
    + eexists _, _, _. split; [done|]. by rewrite app_nil_r.
    + destruct (write_run rb data W) as (rb1 & k & -> & _ & W1 & L1 & C1 & _). simpl.
      destruct (IH rb1 W1) as (rb2 & i & o & -> & W2 & L2 & C2). simpl.
      eexists _, _, _. split; [done|]. split_and!; [done|congruence|].
      by rewrite <-C2, C1, app_assoc.
    + destruct (read_run rb max W) as (rb1 & out & -> & W1 & L1 & C1 & _). simpl.
      destruct (IH rb1 W1) as (rb2 & i & o & -> & W2 & L2 & C2). simpl.
      eexists _, _, _. split; [done|]. split_and!; [done|congruence|].
      by rewrite C1, <-!app_assoc, C2.
  - intros data. destruct (write_run rb data W) as (rb1 & k & Hr & Hk & W1 & L1 & C1 & H0).
    exists rb1, k. split; [done|]. split; [done|]. intros [->|Hfull].
    + simpl in Hk. lia.
    + destruct (decide (k = O)) as [|Hne]; [done|]. exfalso.
      assert (Hb : Z.of_nat (length (contents rb1)) ≤ len rb1).
      { unfold contents. pose proof W1 as [X1 X2 X3 X4 X5].
        destruct (empty rb1); [unfold len; simpl; lia|]. specialize (X5 eq_refl).
        destruct (Z.ltb_spec (start rb1) (end_ rb1)).
        - rewrite slice_length; unfold len in *; lia.
        - rewrite length_app, Nat2Z.inj_add, !slice_length; unfold len in *; lia. }
      rewrite C1, length_app, length_take in Hb. lia.
  - intros max. destruct (read_run rb max W) as (rb1 & out & Hr & W1 & L1 & C1 & Hm & H0).
    exists rb1, out. split_and!; [done|done|]. split; [done|]. intros [->|Hn].
    + by destruct out; [|simpl in Hm; lia].
    + rewrite Hn in C1. symmetry in C1. by apply app_eq_nil in C1 as [-> _].
Qed.

Lemma ring_buffer_fifo_witness :
  let _ : Profile := true in
  wf (new [0; 0; 0]) ∧
  ∃ rb', run_ops [Write [1; 2]; Read 1; Write [3; 4]; Write [5]; Read 9; Read 9]
    (new [0; 0; 0]) = Done (rb', [1; 2; 3; 5], [1; 2; 3; 5]).
Proof.
  assert (W : wf (new [0; 0; 0])) by (apply new_wf; reflexivity).
  split; [exact W|].
  destruct (proj1 (ring_buffer_fifo (P := true)
    [Write [1; 2]; Read 1; Write [3; 4]; Write [5]; Read 9; Read 9] _ W))
    as (rb' & i & o & Hr & _).
  eexists. vm_compute. reflexivity.
Defined.

(** Popping or pushing past the end of the buffer panics in [wrap]. *)
Lemma push_past {P : Profile} rb n :
  0 < n → 0 ≤ end_ rb → len rb < end_ rb + n < 2 ^ 32 → push rb n = Panic.
Proof.
  intros Hn He Hl. unfold push, wrap_index. rewrite (proj2 (Z.eqb_neq _ _)) by lia.
  rewrite arith32 by lia. simpl. destruct (Z.leb_spec (end_ rb + n) (len rb)); [lia|done].
Qed.
