(* ===== verification/Lag.v ===== *)
(** * Lag: hardware that answers later, and the loops that wait for it

    Set-up code starts a clock, a PLL or a peripheral and spins on a status register.  A
    [Lag] is a status that follows what it was told after some looks; [wait_until] is
    [while !done {}], where the hardware goes on between two looks. *)
From S2P Require Import Prelude.

(** [told] is what the hardware was told last, [seen] what its status shows. *)
Record Lag (A : Type) : Type := mkLag { seen : A; told : A; left : nat }.
Arguments mkLag {A} _ _ _.
Arguments seen {A} _.
Arguments told {A} _.
Arguments left {A} _.

Section lag.
Context {A : Type}.
Implicit Types l : Lag A.

Definition settled (a : A) : Lag A := mkLag a a 0.
(** The hardware is told [a], and needs [n] looks before it shows. *)
Definition tell (n : nat) (a : A) l : Lag A := mkLag (seen l) a n.
Definition lag_tick l : Lag A :=
  match left l with
  | O => mkLag (told l) (told l) 0
  | S n => mkLag (seen l) (told l) n
  end.
End lag.

(** [while !done {}] with a look and a tick of the hardware per turn. *)
Fixpoint wait_until {S} (tick : S → S) (done_ : S → bool) (fuel : nat) (s : S) : option S :=
  match fuel with
  | O => None
  | S n => if done_ s then Some s else wait_until tick done_ n (tick s)
  end.

(** [n] ticks. *)
Fixpoint ticks {S} (tick : S → S) (n : nat) (s : S) : S :=
  match n with O => s | S n => ticks tick n (tick s) end.

Lemma ticks_S {S} (tick : S → S) n s : ticks tick (Datatypes.S n) s = tick (ticks tick n s).
Proof. revert s. induction n as [|n IH]; intros s; [done|exact (IH (tick s))]. Qed.

(** The wait ends, at the latest when the hardware has had the time it needs, in a state
    the hardware reaches by itself and in which [done] holds. *)
Lemma wait_until_ends {S} (tick : S → S) (done_ : S → bool) n : ∀ fuel s,
  done_ (ticks tick n s) = true → (n < fuel)%nat →
  ∃ k, (k ≤ n)%nat ∧ wait_until tick done_ fuel s = Some (ticks tick k s) ∧
    done_ (ticks tick k s) = true.
Proof.
  induction n as [|n IH]; intros [|fuel] s Hd Hf; try lia; simpl in *.
  - exists O. simpl. by rewrite Hd.
  - destruct (done_ s) eqn:Hs; [exists O; split_and!; [lia|done|done]|].
    destruct (IH fuel (tick s) Hd ltac:(lia)) as (k & Hk & -> & Hdk).
    exists (Datatypes.S k). split_and!; [lia|done|done].
Qed.

(** What the hardware does not change, the wait does not change. *)
Lemma ticks_keep {S} (tick : S → S) (P : S → Prop) n s :
  (∀ s, P s → P (tick s)) → P s → P (ticks tick n s).
Proof. intros HP. revert s. induction n as [|n IH]; intros s Hs; simpl; auto. Qed.

Section lags.
Context {A : Type}.
Implicit Types l : Lag A.

Lemma lag_ticks n l :
  ticks lag_tick n l = (if (n <=? left l)%nat then mkLag (seen l) (told l) (left l - n)
                        else mkLag (told l) (told l) 0).
Proof.
  revert l. induction n as [|n IH]; intros [a b [|k]]; try done.
  - cbn [ticks]. rewrite IH. unfold lag_tick. cbn [left seen told]. by destruct n.
  - cbn [ticks]. rewrite IH. unfold lag_tick. cbn [left seen told].
    change (S n <=? S k)%nat with (n <=? k)%nat. by case_match.
Qed.

Lemma lag_told n l : told (ticks lag_tick n l) = told l.
Proof. rewrite lag_ticks. by case_match. Qed.

(** The status is the old one or the new one, and after enough looks the new one. *)
Lemma lag_seen n l :
  seen (ticks lag_tick n l) = seen l ∨ seen (ticks lag_tick n l) = told l.
Proof. rewrite lag_ticks. case_match; auto. Qed.
Lemma lag_reached n l : (left l < n)%nat → ticks lag_tick n l = settled (told l).
Proof. intros H. rewrite lag_ticks. case_match eqn:E; [|done]. apply Nat.leb_le in E. lia. Qed.
End lags.
