(* ===== verification/Interrupt.v ===== *)
(** * Interrupt: handlers, masking, and state shared with handlers

    [embassy/src/interrupt.rs] (the operations of [InterruptExt] on one interrupt
    line), the trampoline [interrupt::take!] makes ([embassy-macros/src/lib.rs]),
    the [Priority] types of the HALs, [InterruptFuture] and [wake_on_interrupt]
    ([embassy/src/util/signal.rs]), [PeripheralMutex] and [Peripheral]
    ([embassy-extras]).  [None] is undefined behaviour. *)
From S2P Require Import Prelude.
Local Open Scope Z_scope.

(** ** One interrupt line *)

(** The line's [Handler] static (function and context pointers, 0 for null) and its
    bits in the interrupt controller; [H] are the functions there are. *)
Record Irq (H : Type) : Type := mkIrq {
  func : option H; ctx : Z; enabled : bool; pending : bool; prio : Z
}.
Arguments mkIrq {H} _ _ _ _ _.
Arguments func {H} _.
Arguments ctx {H} _.
Arguments enabled {H} _.
Arguments pending {H} _.
Arguments prio {H} _.

(** The line at reset: masked, [Handler::new()]. *)
Definition Irq_new {H} : Irq H := mkIrq None 0 false false 0.

Section irq.
Context {H : Type}.
Implicit Types i : Irq H.

Definition set_handler (f : H) i := mkIrq (Some f) (ctx i) (enabled i) (pending i) (prio i).
Definition remove_handler i : Irq H := mkIrq None (ctx i) (enabled i) (pending i) (prio i).
Definition set_handler_context (c : Z) i := mkIrq (func i) c (enabled i) (pending i) (prio i).
Definition enable i := mkIrq (func i) (ctx i) true (pending i) (prio i).
Definition disable i := mkIrq (func i) (ctx i) false (pending i) (prio i).
Definition is_enabled i : bool := enabled i.
Definition is_pending i : bool := pending i.
Definition pend i := mkIrq (func i) (ctx i) (enabled i) true (prio i).
Definition unpend i := mkIrq (func i) (ctx i) (enabled i) false (prio i).

(** The trampoline in the vector table: the function pointer is called as it is. *)
Definition trampoline {A} (call : H → Z → A) i : option A :=
  match func i with Some f => Some (call f (ctx i)) | None => None end.

(** [take!]: the line can be taken once. *)
Definition interrupt_take (taken : bool) : outcome bool := if taken then Panic else Done true.
End irq.

(** ** Priorities

    [levels] is the number of [Priority]'s variants (8, or 16 on STM32), [bits] the
    chip's NVIC_PRIO_BITS. *)
Definition Priority_from_u8 (levels bits priority : Z) : outcome Z :=
  let l := Z.shiftr priority (8 - bits) in
  if l <? levels then Done l else Panic.
Definition u8_from_Priority (bits p : Z) : Z := wrap 8 (Z.shiftl p (8 - bits)).

Definition get_priority {H} (levels bits : Z) (i : Irq H) : outcome Z :=
  Priority_from_u8 levels bits (prio i).
Definition set_priority {H} (bits p : Z) (i : Irq H) : Irq H :=
  mkIrq (func i) (ctx i) (enabled i) (pending i) (u8_from_Priority bits p).

(** ** Critical sections

    [interrupt::free]: PRIMASK is read, set for [f], and cleared again only if it was
    clear before. *)
Definition free {S R} (f : S → R * S) (primask : bool) (s : S) : R * S * bool :=
  let '(r, s') := f s in (r, s', if negb primask then false else true).

(** ** Waking a task from an interrupt *)

(** The handlers this file's code installs. *)
Inductive Fn : Type :=
| irq_wake_handler
| state_handler
| executor_handler.

(** [irq_wake_handler]: wakes the task the context points to, if any, and masks the
    active interrupt; the result is the task woken. *)
Definition run_irq_wake_handler (c : Z) (i : Irq Fn) : list Z * Irq Fn :=
  (if c =? 0 then [] else [c], disable i).

Definition wake_on_interrupt (task : Z) (i : Irq Fn) : Irq Fn :=
  let i1 := disable i in
  let i2 := set_handler irq_wake_handler i1 in
  let i3 := set_handler_context task i2 in
  enable i3.

Definition InterruptFuture_new (i : Irq Fn) : Irq Fn :=
  let i1 := disable i in
  let i2 := set_handler irq_wake_handler i1 in
  let i3 := set_handler_context 0 i2 in
  let i4 := unpend i3 in
  enable i4.

(** [poll] in its two steps. *)
Definition InterruptFuture_poll_ctx (task : Z) (i : Irq Fn) : Irq Fn :=
  set_handler_context task i.
Definition InterruptFuture_poll_check (i : Irq Fn) : Poll unit :=
  if is_enabled i then Pending else Ready tt.
Definition InterruptFuture_poll (task : Z) (i : Irq Fn) : Poll unit * Irq Fn :=
  let i1 := InterruptFuture_poll_ctx task i in (InterruptFuture_poll_check i1, i1).

Definition InterruptFuture_drop (i : Irq Fn) : Irq Fn := remove_handler (disable i).

(** The hardware raises the interrupt: it is taken if it is enabled. *)
Definition raise (i : Irq Fn) : list Z * Irq Fn :=
  let i1 := pend i in
  if enabled i1 then
    let i2 := unpend i1 in
    match trampoline (λ f c, match f with
                             | irq_wake_handler => run_irq_wake_handler c i2
                             | _ => ([], i2) end) i2 with
    | Some r => r
    | None => ([], i2)
    end
  else ([], i1).

Fixpoint raises (n : nat) (i : Irq Fn) : list Z * Irq Fn :=
  match n with
  | O => ([], i)
  | S m => let '(w1, i1) := raise i in let '(w2, i2) := raises m i1 in (w1 ++ w2, i2)
  end.

(** ** State shared with a handler *)
Section peripheral.
Context {S : Type}.
(** [PeripheralState::on_interrupt]. *)
Context (on_interrupt : S → S).

Record PeripheralMutex : Type := mkPM { state : S; irq_setup_done : bool; irq : Irq Fn }.

Definition PeripheralMutex_new (state : S) (irq : Irq Fn) : PeripheralMutex :=
  mkPM state false irq.

(** The context is the address of [state]; it is not null. *)
Definition register_interrupt (addr : Z) (this : PeripheralMutex) : PeripheralMutex :=
  if irq_setup_done this then this
  else
    let i1 := disable (irq this) in
    let i2 := set_handler state_handler i1 in
    let i3 := set_handler_context addr i2 in
    let i4 := enable i3 in
    mkPM (state this) true i4.

(** [with]: [f] gets the state and the interrupt. *)
Definition with_state {R} (f : S → Irq Fn → R * S * Irq Fn) (this : PeripheralMutex)
    : R * PeripheralMutex :=
  let i1 := disable (irq this) in
  let '(r, s', i2) := f (state this) i1 in
  let i3 := enable i2 in
  (r, mkPM s' (irq_setup_done this) i3).

Definition PeripheralMutex_drop (this : PeripheralMutex) : Irq Fn :=
  remove_handler (disable (irq this)).

(** [Peripheral] registers and drops in the same way and lends the state out without
    masking. *)
Definition Peripheral_register_interrupt (addr : Z) (this : PeripheralMutex)
    : PeripheralMutex :=
  if irq_setup_done this then this
  else
    mkPM (state this) true
      (enable (set_handler_context addr (set_handler state_handler (disable (irq this))))).
Definition Peripheral_state (this : PeripheralMutex) : S := state this.
Definition Peripheral_drop (this : PeripheralMutex) : Irq Fn :=
  remove_handler (disable (irq this)).

(** The address of the state, which does not move. *)
Context (addr : Z).

(** The hardware takes the interrupt if it is pending and enabled.  [None] is a call
    through a null pointer, or of the state's handler with another context. *)
Definition service (this : PeripheralMutex) : option PeripheralMutex :=
  if enabled (irq this) && pending (irq this) then
    let i1 := unpend (irq this) in
    match trampoline (λ f c, (f, c)) i1 with
    | Some (state_handler, c) =>
        if c =? addr then Some (mkPM (on_interrupt (state this)) (irq_setup_done this) i1) else None
    | Some (irq_wake_handler, c) =>
        Some (mkPM (state this) (irq_setup_done this) (snd (run_irq_wake_handler c i1)))
    | Some (executor_handler, _) => Some (mkPM (state this) (irq_setup_done this) i1)
    | None => None
    end
  else Some this.

(** What a closure does with the [&mut Interrupt] that [with] gives it. *)
Inductive LineOp : Type :=
| Enable | Disable | Pend | Unpend
| SetHandler (f : Fn) | RemoveHandler | SetContext (c : Z) | SetPriority (bits p : Z).
Definition line_op (op : LineOp) (i : Irq Fn) : Irq Fn :=
  match op with
  | Enable => enable i
  | Disable => disable i
  | Pend => pend i
  | Unpend => unpend i
  | SetHandler f => set_handler f i
  | RemoveHandler => remove_handler i
  | SetContext c => set_handler_context c i
  | SetPriority bits p => set_priority bits p i
  end.

(** A closure run by [with]: accesses to the state it has borrowed, calls on the
    interrupt, and moments at which the hardware raises the interrupt. *)
Inductive CStep : Type :=
| Access (g : S → S)
| Line (op : LineOp)
| Raised.

(** An interrupt that is pending and enabled is taken within the closure.  [None] if
    the handler then is the state's, which the closure has borrowed, or null. *)
Definition taken (i : Irq Fn) : option (Irq Fn) :=
  if enabled i && pending i then
    match trampoline (λ f c, (f, c)) i with
    | Some (state_handler, _) | None => None
    | Some (irq_wake_handler, c) => Some (snd (run_irq_wake_handler c (unpend i)))
    | Some (executor_handler, _) => Some (unpend i)
    end
  else Some i.

Fixpoint closure (steps : list CStep) (s : S) (i : Irq Fn) : option S * S * Irq Fn :=
  match steps with
  | [] => (Some s, s, i)
  | st :: steps' =>
      let s1 := match st with Access g => g s | _ => s end in
      let i1 := match st with Access _ => i | Line op => line_op op i | Raised => pend i end in
      match taken i1 with
      | Some i2 => closure steps' s1 i2
      | None => (None, s1, i1)
      end
  end.

(** What the closure does to the state when it has it for itself. *)
Definition accesses (steps : list CStep) (s : S) : S :=
  foldl (λ s st, match st with Access g => g s | _ => s end) s steps.
(** Whether it leaves the interrupt pending, and what it does to the line otherwise. *)
Definition line_after (steps : list CStep) (i : Irq Fn) : Irq Fn :=
  foldl (λ i st, match st with Access _ => i | Line op => line_op op i | Raised => pend i end) i steps.

(** A closure that leaves the handler alone and does not unmask the interrupt. *)
Definition tame (st : CStep) : bool :=
  match st with
  | Access _ | Raised | Line (Disable | Pend | Unpend | SetPriority _ _) => true
  | Line (Enable | SetHandler _ | RemoveHandler | SetContext _) => false
  end.

(** What happens to a mutex in its life: uses of [with], and the hardware raising the
    interrupt at any moment.  Two borrows of the state at a time are undefined. *)
Inductive PMOp : Type :=
| OpRegister
| OpWith (steps : list CStep)
| OpRaise.

Definition pm_step (op : PMOp) (this : PeripheralMutex) : option PeripheralMutex :=
  match op with
  | OpRegister => service (register_interrupt addr this)
  | OpWith steps =>
      let '(r, this') := with_state (closure steps) this in
      match r with Some _ => service this' | None => None end
  | OpRaise => service (mkPM (state this) (irq_setup_done this) (pend (irq this)))
  end.
Fixpoint pm_run (ops : list PMOp) (this : PeripheralMutex) : option PeripheralMutex :=
  match ops with [] => Some this | op :: ops' => this' ← pm_step op this; pm_run ops' this' end.
Definition tame_op (op : PMOp) : Prop :=
  match op with OpWith steps => forallb tame steps = true | _ => True end.

End peripheral.
Arguments PeripheralMutex S : clear implicits.
Arguments PMOp S : clear implicits.
Arguments CStep S : clear implicits.
Arguments Access {S} g.
Arguments Line {S} op.
Arguments OpRegister {S}.
Arguments OpRaise {S}.
Arguments Raised {S}.

(** ** Properties *)

(** writing a priority and reading it back gives the same level exactly when the
    level exists on a chip with [bits] priority bits; a level that does not exist
    is truncated to a more urgent one; and reading any priority byte succeeds when
    the type has a variant for every level of the chip. *)
Theorem priority_roundtrip levels bits p byte :
  0 ≤ bits ≤ 8 → 0 ≤ p < levels → levels ≤ 16 → 0 ≤ byte < 256 →
  (Priority_from_u8 levels bits (u8_from_Priority bits p) = Done p ↔ p < 2 ^ bits) ∧
  (2 ^ bits ≤ p → ∃ q, Priority_from_u8 levels bits (u8_from_Priority bits p) = Done q ∧ q < p) ∧
  (2 ^ bits ≤ levels → ∃ q, Priority_from_u8 levels bits byte = Done q ∧ 0 ≤ q < levels).
Proof.
  intros Hb Hp Hlev Hbyte.
  assert (H256 : 2 ^ 8 = 2 ^ bits * 2 ^ (8 - bits)) by (rewrite <-Z.pow_add_r by lia; f_equal; lia).
  assert (Hk : 0 < 2 ^ (8 - bits)) by (apply Z.pow_pos_nonneg; lia).
  assert (Hk2 : 0 < 2 ^ bits) by (apply Z.pow_pos_nonneg; lia).
  assert (Hshift : Z.shiftr (u8_from_Priority bits p) (8 - bits) = p mod 2 ^ bits).
  { unfold u8_from_Priority, wrap. rewrite Z.shiftr_div_pow2, Z.shiftl_mul_pow2 by lia.
    rewrite H256, Z.mul_mod_distr_r by lia. apply Z.div_mul. lia. }
  unfold Priority_from_u8. rewrite Hshift.
  pose proof (Z.mod_pos_bound p (2 ^ bits) Hk2) as Hm.
  pose proof (Z.mod_le p (2 ^ bits) ltac:(lia) ltac:(lia)) as Hle.
  rewrite (proj2 (Z.ltb_lt _ levels)) by lia. split_and!.
  - split; [intros [= E]; lia|]. intros Hlt. by rewrite Z.mod_small by lia.
  - intros Hge. eexists. split; [done|]. lia.
  - intros Hl. rewrite Z.shiftr_div_pow2 by lia.
    assert (0 ≤ byte / 2 ^ (8 - bits) < 2 ^ bits).
    { split; [apply Z.div_pos; lia|]. apply Z.div_lt_upper_bound; [lia|].
      rewrite Z.mul_comm, <-H256. lia. }
    rewrite (proj2 (Z.ltb_lt _ levels)) by lia. eexists. split; [done|]. lia.
Qed.

Lemma raise_masked i : enabled i = false → raise i = ([], pend i).
Proof. intros E. unfold raise. simpl. by rewrite E. Qed.

Lemma raises_masked n i : enabled i = false →
  ∃ i', raises n i = ([], i') ∧ enabled i' = false ∧ ctx i' = ctx i.
Proof.
  revert i. induction n as [|n IH]; intros i E; simpl; [eauto|].
  rewrite raise_masked by done. destruct (IH (pend i) E) as (i' & -> & E' & Ec).
  by exists i'.
Qed.

Lemma raises_armed n i : enabled i = true → func i = Some irq_wake_handler →
  raises n i = ([], i) ∧ n = O ∨
  (n > 0)%nat ∧ ∃ i', raises n i = (if ctx i =? 0 then [] else [ctx i], i') ∧
    enabled i' = false ∧ ctx i' = ctx i.
Proof.
  intros E F. destruct n as [|n]; [by left|right]. split; [lia|]. simpl.
  unfold raise. simpl. rewrite E. unfold trampoline. simpl. rewrite F. simpl.
  destruct (raises_masked n (disable (unpend (pend i))) eq_refl) as (i' & Hr & E' & Ec).
  rewrite Hr. exists i'. by rewrite app_nil_r.
Qed.

(** C21: an [InterruptFuture] loses no interrupt, whenever it is raised around a
    poll: raised before the poll looks at the mask, however often, it makes the poll
    ready; raised for the first time after that, it wakes the task that polled. *)
Theorem interrupt_future_no_lost_wake i0 task before between after :
  task ≠ 0 →
  let i := InterruptFuture_new i0 in
  let '(_, i1) := raises before i in
  let i2 := InterruptFuture_poll_ctx task i1 in
  let '(_, i3) := raises between i2 in
  let r := InterruptFuture_poll_check i3 in
  let '(woken, i4) := raises after i3 in
  if decide (before + between = 0)%nat
  then r = Pending ∧ woken = (if decide (after = 0)%nat then [] else [task]) ∧
       (after ≠ 0%nat → InterruptFuture_poll_check i4 = Ready tt)
  else r = Ready tt.
Proof.
  intros Ht. cbv zeta. set (i := InterruptFuture_new i0).
  assert (Hi : enabled i = true ∧ func i = Some irq_wake_handler) by done.
  destruct Hi as [Ei Fi]. unfold InterruptFuture_poll_ctx, InterruptFuture_poll_check, is_enabled.
  destruct (raises_armed before i Ei Fi) as [[-> ->]|(Hb & i1 & -> & E1 & C1)].
  - simpl. set (i2 := set_handler_context task i).
    destruct (raises_armed between i2) as [[-> ->]|(Hb & i3 & -> & E3 & C3)]; [done|done| |].
    + simpl. destruct (raises_armed after i2) as [[-> ->]|(Ha & i4 & -> & E4 & C4)];
        [done|done|by rewrite decide_True|].
      rewrite decide_False by lia. rewrite E4. simpl. rewrite (proj2 (Z.eqb_neq _ _) Ht).
      done.
    + destruct (raises_masked after i3 E3) as (i4 & -> & E4 & _).
      rewrite E3. rewrite decide_False by lia. done.
  - destruct (raises_masked between (set_handler_context task i1) E1) as (i3 & -> & E3 & _).
    destruct (raises_masked after i3 E3) as (i4 & -> & E4 & _).
    rewrite E3. rewrite decide_False by lia. done.
Qed.

Section mutex.
Context {S : Type} (on_interrupt : S → S) (addr : Z).

(** The handler is installed, with the state's address, whenever the line is
    enabled. *)
Definition pm_ok (this : PeripheralMutex S) : Prop :=
  enabled (irq this) = true ∧ func (irq this) = Some state_handler ∧
  ctx (irq this) = addr ∧ irq_setup_done this = true.

Lemma taken_masked i : enabled i = false → taken i = Some i.
Proof. intros E. unfold taken. by rewrite E. Qed.

Lemma closure_app steps1 steps2 : ∀ (s : S) i,
  forallb tame steps1 = true → enabled i = false →
  closure (steps1 ++ steps2) s i = closure steps2 (accesses steps1 s) (line_after steps1 i).
Proof.
  induction steps1 as [|st steps IH]; intros s i Ht E; [done|]. simpl in Ht.
  apply andb_true_iff in Ht as [Ht1 Ht]. cbn [app closure].
  rewrite taken_masked by (destruct st as [?|[]|]; done).
  rewrite IH; [done|done|by destruct st as [?|[]|]].
Qed.

Lemma line_after_tame (steps : list (CStep S)) : ∀ i, forallb tame steps = true → enabled i = false →
  enabled (line_after steps i) = false ∧ func (line_after steps i) = func i ∧
  ctx (line_after steps i) = ctx i.
Proof.
  induction steps as [|st steps IH]; intros i Ht E; [done|]. simpl in Ht.
  apply andb_true_iff in Ht as [Ht1 Ht]. cbn [line_after foldl].
  destruct (IH (match st with Access _ => i | Line op => line_op op i | Raised => pend i end) Ht)
    as (A & B & C); [by destruct st as [?|[]|]|]. unfold line_after in *. rewrite A, B, C.
  by destruct st as [?|[]|].
Qed.

Lemma with_closure steps (this : PeripheralMutex S) : forallb tame steps = true →
  with_state (closure steps) this =
    (Some (accesses steps (state this)),
     mkPM (accesses steps (state this)) (irq_setup_done this)
       (enable (line_after steps (disable (irq this))))).
Proof.
  intros Ht. unfold with_state. rewrite <-(app_nil_r steps) at 1.
  by rewrite closure_app.
Qed.

Lemma service_ok this : pm_ok this →
  ∃ this', service on_interrupt addr this = Some this' ∧ pm_ok this' ∧
    pending (irq this') = false ∧
    state this' = if pending (irq this) then on_interrupt (state this) else state this.
Proof.
  intros (E & F & C & D). unfold service. rewrite E. simpl.
  destruct (pending (irq this)) eqn:Hp.
  - unfold trampoline. simpl. rewrite F, C, Z.eqb_refl. eexists. split; [done|]. done.
  - by exists this.
Qed.

(** The interrupt is pending when the closure ends. *)
Definition left_pending (steps : list (CStep S)) (i : Irq Fn) : bool :=
  pending (line_after steps i).

Lemma pm_with_ok steps this : pm_ok this → forallb tame steps = true →
  ∃ this', pm_step on_interrupt addr (OpWith steps) this = Some this' ∧ pm_ok this' ∧
    pending (irq this') = false ∧
    state this' = (if left_pending steps (irq this) then on_interrupt else id)
                    (accesses steps (state this)).
Proof.
  intros (E & F & C & D) Ht. unfold pm_step. rewrite with_closure by done.
  destruct (line_after_tame steps (disable (irq this)) Ht eq_refl) as (A1 & A2 & A3).
  assert (Hp : pending (line_after steps (disable (irq this))) = left_pending steps (irq this)).
  { unfold left_pending. clear. generalize (irq this). intros i. unfold line_after.
    assert (H : ∀ j, pending j = pending i →
      pending (foldl (λ i (st : CStep S), match st with Access _ => i | Line op => line_op op i
        | Raised => pend i end) j steps) =
      pending (foldl (λ i (st : CStep S), match st with Access _ => i | Line op => line_op op i
        | Raised => pend i end) i steps)); [|by apply H].
    revert i. induction steps as [|st steps IH]; intros i j Hj; [done|]. cbn [foldl].
    apply IH. by destruct st as [?|[]|]. }
  destruct (service_ok (mkPM (accesses steps (state this)) (irq_setup_done this)
    (enable (line_after steps (disable (irq this)))))) as (this' & H1 & H2 & H3 & H4).
  { split_and!; simpl; [done|by rewrite A2|by rewrite A3|done]. }
  exists this'. split_and!; [exact H1|exact H2|exact H3|]. rewrite H4. simpl. rewrite Hp.
  by destruct (left_pending steps (irq this)).
Qed.

Lemma pm_step_ok op this : pm_ok this → tame_op op →
  ∃ this', pm_step on_interrupt addr op this = Some this' ∧ pm_ok this' ∧
    pending (irq this') = false.
Proof.
  intros Hok Ht. pose proof Hok as (E & F & C & D). destruct op as [|steps|].
  - unfold pm_step, register_interrupt. rewrite D.
    destruct (service_ok this Hok) as (this' & ? & ? & ? & _). eauto.
  - destruct (pm_with_ok steps this Hok Ht) as (this' & ? & ? & ? & _). eauto.
  - destruct (service_ok (mkPM (state this) (irq_setup_done this) (pend (irq this))))
      as (this' & ? & ? & ? & _); [by split_and!|]. eauto.
Qed.

Lemma pm_run_ok ops : Forall tame_op ops → ∀ this, pm_ok this → pending (irq this) = false →
  ∃ this', pm_run on_interrupt addr ops this = Some this' ∧ pm_ok this' ∧
    pending (irq this') = false.
Proof.
  induction 1 as [|op ops Ht _ IH]; intros this Hok Hp; simpl; [eauto|].
  destruct (pm_step_ok op this Hok Ht) as (this' & -> & Hok' & Hp'). by apply IH.
Qed.

(** What a closure must not do, on a mutex that is registered. *)
Lemma pm_enable_bad steps1 steps2 this : pm_ok this → forallb tame steps1 = true →
  pm_step on_interrupt addr (OpWith (steps1 ++ Line Enable :: Raised :: steps2)) this = None.
Proof.
  intros (E & F & C & D) Ht. unfold pm_step, with_state. rewrite closure_app by done.
  destruct (line_after_tame steps1 (disable (irq this)) Ht eq_refl) as (A1 & A2 & A3).
  cbn [closure]. unfold taken. simpl. unfold trampoline. simpl.
  destruct (pending _); simpl; rewrite A2; simpl; by rewrite ?F.
Qed.

Lemma pm_remove_bad steps1 steps2 this : pm_ok this →
  forallb tame steps1 = true → forallb tame steps2 = true →
  left_pending (steps1 ++ Line RemoveHandler :: steps2) (disable (irq this)) = true →
  pm_step on_interrupt addr (OpWith (steps1 ++ Line RemoveHandler :: steps2)) this = None.
Proof.
  intros (E & F & C & D) Ht1 Ht2 Hp. unfold pm_step, with_state. rewrite closure_app by done.
  destruct (line_after_tame steps1 (disable (irq this)) Ht1 eq_refl) as (A1 & A2 & A3).
  cbn [closure]. rewrite taken_masked by done.
  rewrite <-(app_nil_r steps2), closure_app by done. cbn [closure].
  unfold left_pending, line_after in Hp. rewrite foldl_app in Hp. cbn [foldl] in Hp.
  fold (line_after steps1 (disable (irq this))) in Hp.
  set (i := line_op RemoveHandler (line_after steps1 (disable (irq this)))) in *.
  destruct (line_after_tame steps2 i Ht2 A1) as (B1 & B2 & B3).
  unfold service, trampoline. cbn [irq enable enabled pending func unpend].
  fold (line_after steps2 i) in Hp. rewrite Hp. simpl. by rewrite B2.
Qed.

(** C22: once [register_interrupt] has run, a [PeripheralMutex] is safe for closures that
    do not unmask the interrupt they are given and do not change its handler: they may
    access the state, mask, pend and unpend the interrupt or set its priority, and
    whenever the hardware raises it, the handler never runs while a closure has the state;
    it is in place, with the state's address, whenever the line is enabled; and an
    interrupt left pending by the closure is serviced once, right after it. A dropped
    mutex leaves the line masked and without a handler. [with] does not protect from the
    other closures: in one that enables the interrupt, the next time it is raised the
    handler runs on the state that is borrowed, and one that removes the handler and
    leaves the interrupt pending makes it a call through a null pointer. So is an
    interrupt raised during a [with] before [register_interrupt], which enables a line
    that has no handler. *)
Theorem peripheral_mutex_safe (s : S) (i : Irq Fn) ops :
  Forall tame_op ops →
  (∃ this, pm_run on_interrupt addr (OpRegister :: ops) (PeripheralMutex_new s i) = Some this ∧
     enabled (irq this) = true ∧ func (irq this) = Some state_handler ∧
     ctx (irq this) = addr ∧
     (∀ steps, forallb tame steps = true →
        ∃ this', pm_step on_interrupt addr (OpWith steps) this = Some this' ∧
        state this' =
          (if left_pending steps (irq this) then on_interrupt else id) (accesses steps (state this))) ∧
     (∀ steps1 steps2, forallb tame steps1 = true →
        pm_step on_interrupt addr (OpWith (steps1 ++ Line Enable :: Raised :: steps2)) this = None) ∧
     (∀ steps1 steps2, forallb tame steps1 = true → forallb tame steps2 = true →
        left_pending (steps1 ++ Line RemoveHandler :: steps2) (disable (irq this)) = true →
        pm_step on_interrupt addr (OpWith (steps1 ++ Line RemoveHandler :: steps2)) this = None) ∧
     enabled (PeripheralMutex_drop this) = false ∧ func (PeripheralMutex_drop this) = None) ∧
  (func i = None → ∀ steps, forallb tame steps = true → left_pending steps (disable i) = true →
     pm_step on_interrupt addr (OpWith steps) (PeripheralMutex_new s i) = None).
Proof.
  intros Hops. split.
  - assert (Hreg : pm_ok (register_interrupt addr (PeripheralMutex_new s i))) by done.
    destruct (service_ok _ Hreg) as (this1 & H1 & Hok1 & Hp1 & _).
    destruct (pm_run_ok ops Hops this1 Hok1 Hp1) as (this & Hr & Hok & Hp). exists this.
    pose proof Hok as (E & F & C & D). split_and!; [|done|done|done| | | |done|done].
    + cbn [pm_run pm_step]. rewrite H1. exact Hr.
    + intros steps Ht. destruct (pm_with_ok steps this Hok Ht) as (this' & ? & _ & _ & ?).
      eauto.
    + intros. by apply pm_enable_bad.
    + intros. by apply pm_remove_bad.
  - intros Hf steps Ht Hs. unfold pm_step. rewrite with_closure by done.
    destruct (line_after_tame steps (disable i) Ht eq_refl) as (A1 & A2 & A3).
    unfold left_pending in Hs. unfold service, trampoline. simpl. rewrite Hs. simpl.
    rewrite A2. simpl. by rewrite Hf.
Qed.
End mutex.

(** ** Witnesses *)
Lemma priority_roundtrip_witness :
  Priority_from_u8 8 3 (u8_from_Priority 3 5) = Done 5 ∧
  Priority_from_u8 8 2 (u8_from_Priority 2 5) <> Done 5.
Proof.
  split.
  - apply (proj2 (proj1 (priority_roundtrip 8 3 5 0 ltac:(lia) ltac:(lia) ltac:(lia) ltac:(lia)))).
    lia.
  - intros H.
    apply (proj1 (proj1 (priority_roundtrip 8 2 5 0 ltac:(lia) ltac:(lia) ltac:(lia) ltac:(lia))))
      in H. lia.
Defined.

Lemma interrupt_future_no_lost_wake_witness :
  fst (raises 1 (snd (raises 0 (InterruptFuture_poll_ctx 64 (InterruptFuture_new Irq_new))))) =
  [64].
Proof.
  exact (proj1 (proj2 (interrupt_future_no_lost_wake Irq_new 64 0 0 1 ltac:(lia)))).
Defined.

Lemma peripheral_mutex_safe_witness :
  let ops := [OpRaise; OpWith [Access (Z.mul 2); Raised; Line Pend; Access (Z.add 5)]; OpRaise] in
  (∃ this, pm_run (λ s, s + 1) 64 (OpRegister :: ops) (PeripheralMutex_new 3 Irq_new) = Some this ∧
    ctx (irq this) = 64 ∧ state this = 15) ∧
  pm_step (λ s, s + 1) 64 (OpWith [Raised]) (PeripheralMutex_new 3 Irq_new) = None.
Proof.
  intros ops. destruct (peripheral_mutex_safe (λ s, s + 1) 64 3 Irq_new ops) as [H1 H2];
    [by repeat constructor|]. split; [|by apply H2].
  destruct H1 as (this & Hr & _ & _ & Hc & _). exists this. split_and!; [exact Hr|exact Hc|].
  vm_compute in Hr. by injection Hr as <-.
Defined.
