(* ===== verification/RtcClock.v ===== *)
(** * RtcClock: a clock from a small counter and a period count

    The arithmetic the RTC drivers of the nRF and STM32 families share: a counter
    of [k + 1] bits, and a count of half-overflows that may lag one behind. *)
From S2P Require Import Prelude.
Local Open Scope Z_scope.

(** [((period as u64) << k) + ((counter ^ ((period & 1) << k)) as u64)]. *)
Definition clock_value (k period counter : Z) : Z :=
  Z.shiftl period k + Z.lxor counter (Z.shiftl (Z.land period 1) k).

Lemma pow2_pos k : 0 ≤ k → 0 < 2 ^ k.
Proof. intros. by apply Z.pow_pos_nonneg. Qed.

Lemma add_pow2_lxor k r : 0 ≤ k → 0 ≤ r < 2 ^ k → 2 ^ k + r = Z.lxor (2 ^ k) r.
Proof.
  intros Hk Hr. apply Z.add_nocarry_lxor. apply Z.bits_inj'. intros n Hn.
  rewrite Z.land_spec, Z.bits_0, Z.pow2_bits_eqb by lia.
  destruct (Z.eqb_spec k n) as [<-|]; [simpl|done].
  destruct (decide (r = 0)) as [->|]; [apply Z.bits_0|].
  apply Z.bits_above_log2; [lia|]. by apply Z.log2_lt_pow2; lia.
Qed.

Lemma land_1 p : Z.land p 1 = p mod 2.
Proof. exact (Z.land_ones p 1 ltac:(lia)). Qed.

(** Toggling bit [k]. *)
Lemma lxor_bit k b d r :
  0 ≤ k → 0 ≤ r < 2 ^ k → (b = 0 ∨ b = 1) → (d = 0 ∨ d = 1) →
  Z.lxor (b * 2 ^ k + r) (d * 2 ^ k) = ((b + d) mod 2) * 2 ^ k + r.
Proof.
  intros Hk Hr [->| ->] [->| ->];
    [change ((0 + 0) mod 2) with 0|change ((0 + 1) mod 2) with 1|
     change ((1 + 0) mod 2) with 1|change ((1 + 1) mod 2) with 0];
    rewrite ?Z.mul_0_l, ?Z.mul_1_l, ?Z.add_0_l, ?Z.lxor_0_r; try done;
    rewrite add_pow2_lxor by done.
  - apply Z.lxor_comm.
  - rewrite (Z.lxor_comm (2 ^ k)), Z.lxor_assoc, Z.lxor_nilpotent. by rewrite Z.lxor_0_r.
Qed.

(** Whatever the time [T] is when the counter is read, the value is [T] as long as
    the period count is that of [T] or one behind. *)
Lemma clock_value_correct k period T :
  0 ≤ k → 0 ≤ T → 0 ≤ period → (period = T / 2 ^ k ∨ period + 1 = T / 2 ^ k) →
  clock_value k period (T mod 2 ^ (k + 1)) = T.
Proof.
  intros Hk HT Hp Hper. unfold clock_value. pose proof (pow2_pos k Hk) as Hpos.
  rewrite !Z.shiftl_mul_pow2 by done. rewrite land_1.
  set (q := T / 2 ^ k) in *. set (r := T mod 2 ^ k).
  assert (Hr : 0 ≤ r < 2 ^ k) by (apply Z.mod_pos_bound; lia).
  assert (HTq : T = q * 2 ^ k + r) by (unfold q, r; rewrite Z.mul_comm; apply Z.div_mod; lia).
  assert (Hc : T mod 2 ^ (k + 1) = (q mod 2) * 2 ^ k + r).
  { rewrite Z.pow_add_r by lia. change (2 ^ 1) with 2.
    rewrite Z.rem_mul_r by lia. fold q r. lia. }
  rewrite Hc, lxor_bit; [|done|done|zdiv|zdiv].
  destruct Hper as [E|E].
  - replace ((q mod 2 + period mod 2) mod 2) with 0 by (rewrite E; zdiv). lia.
  - replace ((q mod 2 + period mod 2) mod 2) with 1 by zdiv. lia.
Qed.

(** The next time after [t] at which a counter of [w] bits shows the low bits of
    [at_], for [at_] less than a full cycle ahead. *)
Lemma next_match w t at_ T :
  0 ≤ w → t < at_ → at_ - t < 2 ^ w → t < T → T mod 2 ^ w = at_ mod 2 ^ w → at_ ≤ T.
Proof.
  intros Hw H1 H2 H3 H4. pose proof (pow2_pos w Hw) as Hpos.
  destruct (Z.lt_ge_cases T at_) as [Hlt|]; [|done]. exfalso.
  assert (Hd : (at_ - T) mod 2 ^ w = 0).
  { rewrite Zminus_mod, H4, Z.sub_diag. apply Z.mod_0_l. lia. }
  rewrite Z.mod_small in Hd by lia. lia.
Qed.

(** A time [at_] that is three half-periods or more after [t], which is in period
    [p], is at least half a period into the next one. *)
Lemma far_next_period h p t at_ :
  p * (2 * h) ≤ t → t + 3 * h ≤ at_ → (p + 1) * (2 * h) + h ≤ at_.
Proof. lia. Qed.
