(* ===== verification/NrfRtc.v ===== *)
(** * NrfRtc: the real-time counter of the nRF family

    [embassy-nrf/src/rtc.rs]: the clock and the three alarms the executor's time
    is built on.  The registers are a record; what the hardware does to them
    between two accesses is the caller's business, except that the counter and
    the event registers do not change within one call.  A callback is run by the
    parameter [call]. *)
From S2P Require Import Prelude Time RtcClock Lag.
From S2P Require Interrupt.
Local Open Scope Z_scope.

Definition calc_now (period counter : Z) : Z := clock_value 23 period counter.

Definition compare_n (n : nat) : Z := Z.shiftl 1 (Z.of_nat n + 16).

Definition INT_OVRFLW : Z := Z.shiftl 1 1.
Definition INT_COMPARE3 : Z := Z.shiftl 1 19.

(** ** State

    [cc_written] is the hardware's: the compare registers that were written since the
    counter last changed, be it with the value they had. *)
Record Regs : Type := mkRegs {
  counter : Z;
  cc : list Z;
  events_compare : list bool;
  events_ovrflw : bool;
  inten : Z;
  cc_written : list nat
}.

Record AlarmState : Type := mkAlarm { timestamp : Z; callback : option (Z * Z) }.

Definition AlarmState_new : AlarmState := mkAlarm u64_MAX None.

Definition ALARM_COUNT : nat := 3.

Record RTC : Type := mkRTC { regs : Regs; period : Z; alarms : list AlarmState }.

Definition RTC_new (r : Regs) : RTC := mkRTC r 0 (replicate ALARM_COUNT AlarmState_new).

Definition write_cc (n : nat) (v : Z) (s : RTC) : RTC :=
  let r := regs s in
  mkRTC (mkRegs (counter r) (<[n := v]> (cc r)) (events_compare r) (events_ovrflw r)
           (inten r) (n :: cc_written r)) (period s) (alarms s).
Definition write_events_compare (n : nat) (v : bool) (s : RTC) : RTC :=
  let r := regs s in
  mkRTC (mkRegs (counter r) (cc r) (<[n := v]> (events_compare r)) (events_ovrflw r)
           (inten r) (cc_written r)) (period s) (alarms s).
Definition write_events_ovrflw (v : bool) (s : RTC) : RTC :=
  let r := regs s in
  mkRTC (mkRegs (counter r) (cc r) (events_compare r) v (inten r) (cc_written r)) (period s) (alarms s).
(** Writing ones to INTENSET and INTENCLR. *)
Definition intenset (bits : Z) (s : RTC) : RTC :=
  let r := regs s in
  mkRTC (mkRegs (counter r) (cc r) (events_compare r) (events_ovrflw r)
           (Z.lor (inten r) bits) (cc_written r)) (period s) (alarms s).
Definition intenclr (bits : Z) (s : RTC) : RTC :=
  let r := regs s in
  mkRTC (mkRegs (counter r) (cc r) (events_compare r) (events_ovrflw r)
           (Z.ldiff (inten r) bits) (cc_written r)) (period s) (alarms s).
Definition set_timestamp (n : nat) (ts : Z) (s : RTC) : RTC :=
  mkRTC (regs s) (period s) (alter (λ a, mkAlarm ts (callback a)) n (alarms s)).
Definition set_callback_cell (n : nat) (cb : Z * Z) (s : RTC) : RTC :=
  mkRTC (regs s) (period s) (alter (λ a, mkAlarm (timestamp a) (Some cb)) n (alarms s)).
Definition set_period (p : Z) (s : RTC) : RTC := mkRTC (regs s) p (alarms s).

(** ** Operations *)

(** [Clock::now]. *)
Definition now (s : RTC) : Z := calc_now (period s) (counter (regs s)).

(** ** Starting

    The registers, with what the tasks make of the counter: [running] follows TASKS_START
    and TASKS_STOP, [clearing] is a TASKS_CLEAR that has yet to take effect, both in edges
    of the low-frequency clock; [edge_in] is the number of looks until the next edge. *)
Record Starting : Type := mkStarting {
  rtc_of : RTC; running : Lag bool; clearing : option nat; edge_in : nat; irq : Interrupt.Irq unit
}.
Definition on_rtc (f : RTC → RTC) (h : Starting) : Starting :=
  mkStarting (f (rtc_of h)) (running h) (clearing h) (edge_in h) (irq h).
Definition on_irq (f : Interrupt.Irq unit → Interrupt.Irq unit) (h : Starting) : Starting :=
  mkStarting (rtc_of h) (running h) (clearing h) (edge_in h) (f (irq h)).

Section start.
(** The edges until TASKS_CLEAR and TASKS_START take effect, the looks of the processor
    between two edges, and the address of the [RTC]. *)
Context (clear_time start_time looks : nat) (addr : Z).

Definition tasks_clear (h : Starting) : Starting :=
  mkStarting (rtc_of h) (running h) (Some clear_time) (edge_in h) (irq h).
Definition tasks_start (h : Starting) : Starting :=
  mkStarting (rtc_of h) (tell start_time true (running h)) (clearing h) (edge_in h) (irq h).

(** The counter reaches [c]: the events of what it meets. *)
Definition reach (c : Z) (s : RTC) : RTC :=
  let r := regs s in
  mkRTC (mkRegs c (cc r) (zip_with (λ e v, e || (v =? c)) (events_compare r) (cc r))
           (events_ovrflw r || (c =? 0)) (inten r) []) (period s) (alarms s).
(** The counter is cleared, without an event. *)
Definition zero (s : RTC) : RTC :=
  let r := regs s in
  mkRTC (mkRegs 0 (cc r) (events_compare r) (events_ovrflw r) (inten r) []) (period s) (alarms s).
(** An edge of the clock, and a look, after which there may be one. *)
Definition edge (h : Starting) : Starting :=
  let s := rtc_of h in
  mkStarting
    (match clearing h with
     | Some O => zero s
     | _ => if seen (running h) then reach ((counter (regs s) + 1) mod 2 ^ 24) s else s
     end)
    (lag_tick (running h))
    (match clearing h with Some (S k) => Some k | _ => None end)
    (edge_in h) (irq h).
Definition look (h : Starting) : Starting :=
  match edge_in h with
  | O => let h' := edge h in
         mkStarting (rtc_of h') (running h') (clearing h') looks (irq h')
  | S k => mkStarting (rtc_of h) (running h) (clearing h) k (irq h)
  end.

(** [None]: the counter has not been seen to be 0 after [fuel] looks. *)
Definition start (fuel : nat) (h : Starting) : option Starting :=
  let h := on_rtc (write_cc 3 0x800000) h in
  let h := on_rtc (intenset (Z.lor INT_OVRFLW INT_COMPARE3)) h in
  let h := tasks_clear h in
  let h := tasks_start h in
  h ← wait_until look (λ h, counter (regs (rtc_of h)) =? 0) fuel h;
  let h := on_irq (Interrupt.set_handler tt) h in
  let h := on_irq (Interrupt.set_handler_context addr) h in
  let h := on_irq Interrupt.unpend h in
  Some (on_irq Interrupt.enable h).
End start.

Section ops.
Context {P : Profile}.
Context (call : Z * Z → RTC → outcome RTC).

Definition trigger_alarm (n : nat) (s : RTC) : outcome RTC :=
  let s1 := intenclr (compare_n n) s in
  alarm ← expect (alarms s1 !! n);
  let s2 := set_timestamp n u64_MAX s1 in
  match callback alarm with Some f => call f s2 | None => Done s2 end.

(** The body of [next_period]'s loop. *)
Definition next_period_alarm (t : Z) (n : nat) (s : RTC) : outcome RTC :=
  alarm ← expect (alarms s !! n);
  let at_ := timestamp alarm in
  diff ← arith 64 (at_ - t);
  if diff <? 0xc00000 then
    Done (intenset (compare_n n)
            (write_cc n (Z.land (at_ mod 2 ^ 32) 0xFFFFFF) s))
  else Done s.

Fixpoint for_alarms (f : nat → RTC → outcome RTC) (ns : list nat) (s : RTC) : outcome RTC :=
  match ns with [] => Done s | n :: ns' => s' ← f n s; for_alarms f ns' s' end.

Definition next_period (s : RTC) : outcome RTC :=
  let old := period s in
  let s1 := set_period ((old + 1) mod 2 ^ 32) s in
  period ← arith 32 (old + 1);
  let t := Z.shiftl period 23 in
  for_alarms (next_period_alarm t) (seq 0 ALARM_COUNT) s1.

(** One turn of [on_interrupt]'s loop over the alarms. *)
Definition on_compare (n : nat) (s : RTC) : outcome RTC :=
  e ← expect (events_compare (regs s) !! n);
  if e : bool then trigger_alarm n (write_events_compare n false s) else Done s.

Definition on_interrupt (s : RTC) : outcome RTC :=
  s1 ← (if events_ovrflw (regs s) then next_period (write_events_ovrflw false s)
        else Done s);
  e3 ← expect (events_compare (regs s1) !! 3%nat);
  s2 ← (if e3 : bool then next_period (write_events_compare 3 false s1) else Done s1);
  for_alarms on_compare (seq 0 ALARM_COUNT) s2.

Definition set_alarm_callback (n : nat) (cb : Z * Z) (s : RTC) : outcome RTC :=
  _ ← expect (alarms s !! n); Done (set_callback_cell n cb s).

Definition set_alarm (n : nat) (ts : Z) (s : RTC) : outcome RTC :=
  _ ← expect (alarms s !! n);
  let s1 := set_timestamp n ts s in
  let t := now s1 in
  if ts <=? t then trigger_alarm n s1
  else
    diff ← arith 64 (ts - t);
    if diff <? 0xc00000 then
      t3 ← arith 64 (t + 3);
      let safe_timestamp := Z.max ts t3 in
      Done (intenset (compare_n n)
              (write_cc n (Z.land (safe_timestamp mod 2 ^ 32) 0xFFFFFF) s1))
    else Done (intenclr (compare_n n) s1).

(** The [Alarm]s handed to executors. *)
Definition Alarm_set (n : nat) (ts : Z) (s : RTC) : outcome RTC := set_alarm n ts s.
Definition Alarm_clear (n : nat) (s : RTC) : outcome RTC := set_alarm n u64_MAX s.

End ops.

(** ** Arithmetic *)

(** The vectors of the source's test module. *)
Example calc_now_vectors :
  map (λ '(p, c), calc_now p c)
    [(0, 0x000000); (0, 0x000001); (0, 0x7FFFFF); (1, 0x7FFFFF); (0, 0x800000);
     (1, 0x800000); (1, 0x800001); (1, 0xFFFFFF); (2, 0xFFFFFF); (1, 0x000000);
     (2, 0x000000)] =
  [0x0000000; 0x0000001; 0x07FFFFF; 0x17FFFFF; 0x0800000; 0x0800000; 0x0800001;
   0x0FFFFFF; 0x1FFFFFF; 0x1000000; 0x1000000].
Proof. reflexivity. Qed.

Lemma low_24 z : Z.land (z mod 2 ^ 32) 0xFFFFFF = z mod 2 ^ 24.
Proof.
  change 0xFFFFFF with (Z.ones 24). rewrite Z.land_ones by lia.
  apply Z.mod_mod_divide. by exists 256.
Qed.

(** The state agrees with the true time [T]: the counter is its low 24 bits, and
    the period count is that of [T], or one behind because the interrupt of the
    new period has not been handled yet. *)
Record at_time (T : Z) (s : RTC) : Prop := {
  at_counter : counter (regs s) = T mod 2 ^ 24;
  at_period : period s = T / 2 ^ 23 ∨ period s + 1 = T / 2 ^ 23;
  at_period_nonneg : 0 ≤ period s;
  at_range : 0 ≤ T < 2 ^ 55
}.

Lemma nrf_now_at T s : at_time T s → now s = T.
Proof.
  intros [Hc Hp Hp0 HT]. unfold now, calc_now. rewrite Hc.
  apply (clock_value_correct 23); [lia|lia|done|done].
Qed.

(** C18: [now] is exact at every moment, also when the period interrupt is late by
    up to a whole period: if the period is read at time [T0] and the counter at
    [T1], and the count was right or one behind at [T0] and not more than one
    behind at [T1], the result is [T1]; so two calls never go backwards. *)
Theorem now_correct T0 T1 p :
  0 ≤ T0 → T0 ≤ T1 → 0 ≤ p → (p = T0 / 2 ^ 23 ∨ p + 1 = T0 / 2 ^ 23) →
  T1 / 2 ^ 23 ≤ p + 1 →
  calc_now p (T1 mod 2 ^ 24) = T1 ∧
  ∀ T2 T3 p', T1 ≤ T2 → T2 ≤ T3 → 0 ≤ p' → (p' = T2 / 2 ^ 23 ∨ p' + 1 = T2 / 2 ^ 23) →
    T3 / 2 ^ 23 ≤ p' + 1 → calc_now p (T1 mod 2 ^ 24) ≤ calc_now p' (T3 mod 2 ^ 24).
Proof.
  assert (Hgen : ∀ A B q, 0 ≤ A → A ≤ B → 0 ≤ q → (q = A / 2 ^ 23 ∨ q + 1 = A / 2 ^ 23) →
    B / 2 ^ 23 ≤ q + 1 → calc_now q (B mod 2 ^ 24) = B).
  { intros A B q HA HAB Hq Hqa Hqb. apply (clock_value_correct 23); [lia|lia|done|].
    assert (A / 2 ^ 23 ≤ B / 2 ^ 23) by (apply Z.div_le_mono; lia). lia. }
  intros H0 H01 Hp Hpa Hpb. rewrite (Hgen T0 T1 p) by done. split; [done|].
  intros T2 T3 p' H12 H23 Hp' Hpa' Hpb'. rewrite (Hgen T2 T3 p') by lia. lia.
Qed.

(** ** Setting an alarm *)

(** Whether the compare interrupt of alarm [n] is enabled. *)
Definition enabled (n : nat) (s : RTC) : bool := Z.testbit (inten (regs s)) (Z.of_nat n + 16).

Definition shape (s : RTC) : Prop :=
  length (alarms s) = 3%nat ∧ length (cc (regs s)) = 4%nat ∧
  length (events_compare (regs s)) = 4%nat.

Lemma compare_n_bit n m : Z.testbit (compare_n n) (Z.of_nat m + 16) = bool_decide (n = m).
Proof.
  unfold compare_n. rewrite Z.shiftl_1_l, Z.pow2_bits_eqb by lia.
  case_bool_decide; case_bool; done || lia.
Qed.

Lemma enabled_set n m s : enabled m (intenset (compare_n n) s) = enabled m s || bool_decide (n = m).
Proof. unfold enabled. simpl. by rewrite Z.lor_spec, compare_n_bit. Qed.

Lemma enabled_clr n m s :
  enabled m (intenclr (compare_n n) s) = enabled m s && negb (bool_decide (n = m)).
Proof. unfold enabled. simpl. by rewrite Z.ldiff_spec, compare_n_bit. Qed.

Lemma alarm_some s n : shape s → (n < 3)%nat → ∃ a, alarms s !! n = Some a.
Proof. intros (Ha & _) Hn. apply lookup_lt_is_Some. lia. Qed.

Section props.
Context {P : Profile}.
Context (call : Z * Z → RTC → outcome RTC).

(** The state in which a triggered alarm's callback runs. *)
Definition triggered (n : nat) (s : RTC) : RTC :=
  set_timestamp n u64_MAX (intenclr (compare_n n) s).

Lemma trigger_alarm_run n a s : alarms s !! n = Some a →
  trigger_alarm call n s =
  match callback a with Some f => call f (triggered n s) | None => Done (triggered n s) end.
Proof. intros Ha. unfold trigger_alarm. simpl. by rewrite Ha. Qed.

Lemma triggered_alarm n a s : alarms s !! n = Some a →
  alarms (triggered n s) !! n = Some (mkAlarm u64_MAX (callback a)) ∧
  enabled n (triggered n s) = false.
Proof.
  intros Ha. split.
  - simpl. rewrite list_lookup_alter_eq. simpl. by rewrite Ha.
  - change (enabled n (intenclr (compare_n n) s) = false). rewrite enabled_clr.
    rewrite bool_decide_true by done. apply andb_false_r.
Qed.

(** setting an alarm at time [t]: a past timestamp runs the callback at once,
    with the alarm already cleared so that it can set another; one less than
    0xc00000 ticks ahead is put in the compare register with its interrupt enabled,
    and the first time the counter matches is never before the timestamp and at
    most two ticks after it; one further ahead is left to [next_period], its
    interrupt disabled, and lies at least half a period into a later period. *)
Theorem set_alarm_spec n ts t s a :
  shape s → (n < 3)%nat → alarms s !! n = Some a → at_time t s → 0 ≤ ts < 2 ^ 64 →
  (ts ≤ t → ∃ s', set_alarm call n ts s =
     match callback a with Some f => call f s' | None => Done s' end ∧
     alarms s' !! n = Some (mkAlarm u64_MAX (callback a)) ∧ enabled n s' = false) ∧
  (t < ts → ∃ s', set_alarm call n ts s = Done s' ∧
     alarms s' !! n = Some (mkAlarm ts (callback a)) ∧
     (if ts - t <? 0xc00000 then
        enabled n s' = true ∧ ∃ c, cc (regs s') !! n = Some c ∧
        ∀ T, t < T → T mod 2 ^ 24 = c → ts ≤ T ∧ (T < t + 2 ^ 24 → T ≤ ts + 2)
      else enabled n s' = false ∧ (t / 2 ^ 23 + 1) * 2 ^ 23 + 2 ^ 22 ≤ ts)).
Proof.
  intros (Hal & Hcc & Hev) Hn Ha Hat Hts.
  assert (Hnow : now (set_timestamp n ts s) = t) by (apply nrf_now_at; by destruct Hat).
  assert (Hset : alarms (set_timestamp n ts s) !! n = Some (mkAlarm ts (callback a))).
  { simpl. rewrite list_lookup_alter_eq. simpl. by rewrite Ha. }
  pose proof (at_range _ _ Hat) as HT.
  unfold set_alarm. rewrite Ha. cbn [expect mbind outcome_bind]. rewrite Hnow. split.
  - intros Hle. rewrite (proj2 (Z.leb_le _ _) Hle). rewrite (trigger_alarm_run n _ _ Hset).
    exists (triggered n (set_timestamp n ts s)). split; [done|].
    by apply (triggered_alarm n (mkAlarm ts (callback a))).
  - intros Hlt. rewrite (proj2 (Z.leb_gt _ _) Hlt). rewrite (arith_fits 64 (ts - t)) by lia. simpl.
    destruct (Z.ltb_spec (ts - t) 0xc00000) as [Hd|Hd].
    + rewrite (arith_fits 64 (t + 3)) by lia. simpl. eexists. split; [done|].
      split; [by simpl; rewrite <-Hset|]. rewrite enabled_set, bool_decide_true by done.
      rewrite orb_true_r. split; [done|]. simpl. rewrite low_24.
      eexists. split; [apply list_lookup_insert_eq; lia|]. intros T HtT Hm.
      assert (Z.max ts (t + 3) ≤ T).
      { apply (next_match 24 t); [lia|lia|lia|done|done]. }
      split; [lia|]. intros HT2.
      assert (Hdvd : (T - Z.max ts (t + 3)) mod 2 ^ 24 = 0).
      { by rewrite Zminus_mod, Hm, Z.sub_diag. }
      rewrite Z.mod_small in Hdvd by lia. lia.
    + eexists. split; [done|]. split; [by simpl; rewrite <-Hset|].
      rewrite enabled_clr, bool_decide_true by done. rewrite andb_false_r.
      split; [done|]. pose proof (Z.mul_div_le t (2 ^ 23) ltac:(lia)). lia.
Qed.

(** ** Starting *)
Section starting.
Context (clear_time start_time looks : nat) (addr : Z).

(** The counter of a device that does not run, [e] edges after the tasks were triggered. *)
Definition counter_after (c0 : Z) (e : nat) : Z :=
  if (e <=? clear_time)%nat then c0 else Z.of_nat (e - S start_time) mod 2 ^ 24.

(** The state at that time, but for the events, which are those of the counter. *)
Record After (h0 : Starting) (e : nat) (h : Starting) : Prop := {
  af_running : running h = ticks lag_tick e (mkLag false true start_time);
  af_clearing : clearing h = if (e <=? clear_time)%nat then Some (clear_time - e)%nat else None;
  af_counter : counter (regs (rtc_of h)) = counter_after (counter (regs (rtc_of h0))) e;
  af_cc : cc (regs (rtc_of h)) = cc (regs (rtc_of h0));
  af_inten : inten (regs (rtc_of h)) = inten (regs (rtc_of h0));
  af_period : period (rtc_of h) = period (rtc_of h0);
  af_alarms : alarms (rtc_of h) = alarms (rtc_of h0);
  af_length : length (events_compare (regs (rtc_of h))) = length (events_compare (regs (rtc_of h0)));
  af_irq : irq h = irq h0;
  af_quiet : (e ≤ S start_time)%nat →
    events_compare (regs (rtc_of h)) = events_compare (regs (rtc_of h0)) ∧
    events_ovrflw (regs (rtc_of h)) = events_ovrflw (regs (rtc_of h0))
}.

Lemma seen_running e :
  seen (ticks lag_tick e (mkLag false true start_time)) = (start_time <? e)%nat.
Proof.
  rewrite lag_ticks. cbn [left seen told]. destruct (Nat.leb_spec e start_time), (Nat.ltb_spec start_time e);
    try done; lia.
Qed.

Lemma edge_counting h : clearing h = None → seen (running h) = true →
  rtc_of (edge h) = reach ((counter (regs (rtc_of h)) + 1) mod 2 ^ 24) (rtc_of h).
Proof. intros Hc Hr. unfold edge. by rewrite Hc, Hr. Qed.

Hypothesis Htimes : (clear_time ≤ start_time)%nat.

Lemma after_edge h0 e h : After h0 e h → length (cc (regs (rtc_of h0))) = length (events_compare (regs (rtc_of h0))) →
  After h0 (S e) (edge h).
Proof using Htimes.
  intros [A1 A2 A3 A4 A5 A6 A7 A8 A9 A10] Hl. pose proof (seen_running e) as Hs. rewrite <-A1 in Hs.
  unfold edge. split; cbn [running clearing rtc_of irq].
  - by rewrite A1, ticks_S.
  - rewrite A2. destruct (Nat.leb_spec e clear_time), (Nat.leb_spec (S e) clear_time); try lia.
    + destruct (clear_time - e)%nat eqn:E; [lia|]. f_equal. lia.
    + by replace (clear_time - e)%nat with O by lia.
    + done.
  - rewrite A2. unfold counter_after in *. rewrite Hs.
    destruct (Nat.leb_spec e clear_time), (Nat.leb_spec (S e) clear_time); try lia.
    + destruct (clear_time - e)%nat eqn:E; [lia|]. by destruct (Nat.ltb_spec start_time e); [lia|].
    + replace (clear_time - e)%nat with O by lia. cbn [zero regs counter].
      by replace (S e - S start_time)%nat with O by lia.
    + destruct (Nat.ltb_spec start_time e); cbn [reach regs counter]; rewrite A3.
      * rewrite Z.add_mod_idemp_l by lia. f_equal. lia.
      * by replace (e - S start_time)%nat with (S e - S start_time)%nat by lia.
  - by destruct (clearing h) as [[]|], (seen (running h)).
  - by destruct (clearing h) as [[]|], (seen (running h)).
  - by destruct (clearing h) as [[]|], (seen (running h)).
  - by destruct (clearing h) as [[]|], (seen (running h)).
  - destruct (clearing h) as [[]|], (seen (running h)); try done; cbn [reach regs events_compare];
      rewrite length_zip_with, A4, A8, Hl; lia.
  - done.
  - intros He. rewrite Hs. destruct (Nat.ltb_spec start_time e); [lia|].
    destruct (clearing h) as [[]|]; apply A10; lia.
Qed.

Lemma after_edges h0 n e h : After h0 e h → length (cc (regs (rtc_of h0))) = length (events_compare (regs (rtc_of h0))) →
  After h0 (e + n) (ticks edge n h).
Proof using Htimes.
  intros A Hl. induction n as [|n IH]; [by rewrite Nat.add_0_r|].
  rewrite ticks_S, Nat.add_succ_r. by apply after_edge.
Qed.

(** The looks of the wait: [e] edges have been, and the next one is soon. *)
Lemma after_look h0 e h : After h0 e h → length (cc (regs (rtc_of h0))) = length (events_compare (regs (rtc_of h0))) →
  (edge_in h ≤ looks)%nat →
  ∃ e', After h0 e' (look looks h) ∧ (edge_in (look looks h) ≤ looks)%nat ∧
    (e' * S looks + (looks - edge_in (look looks h)) = S (e * S looks + (looks - edge_in h)))%nat.
Proof using Htimes.
  intros A Hl He. unfold look. destruct (edge_in h) as [|k] eqn:Ek.
  - exists (S e). destruct (after_edge h0 e h A Hl). split; [by split|]. cbn [edge_in]. split; lia.
  - exists e. destruct A. split; [by split|]. cbn [edge_in]. split; lia.
Qed.

Lemma after_looks h0 n : After h0 0 h0 → length (cc (regs (rtc_of h0))) = length (events_compare (regs (rtc_of h0))) →
  (edge_in h0 ≤ looks)%nat →
  ∃ e, After h0 e (ticks (look looks) n h0) ∧
    (edge_in (ticks (look looks) n h0) ≤ looks)%nat ∧
    (e * S looks + (looks - edge_in (ticks (look looks) n h0)) = n + (looks - edge_in h0))%nat.
Proof using Htimes.
  intros A Hl He. induction n as [|n (e & IA & Ie & IH)]; [by exists O|].
  rewrite ticks_S. destruct (after_look h0 e _ IA Hl Ie) as (e' & A' & He' & E').
  exists e'. split; [exact A'|]. split; [exact He'|]. lia.
Qed.

(** What counts: from 0, once the tasks have taken effect, with the period as it was; the
    middle of the range and its end are announced. *)
Definition Counts (s0 : RTC) (d : nat) (h : Starting) : Prop := ∀ n,
  let s := rtc_of (ticks edge n h) in
  counter (regs s) = Z.of_nat (n - d) mod 2 ^ 24 ∧ period s = period s0 ∧
  (Z.of_nat (n - d) = 0x800000 → events_compare (regs s) !! 3%nat = Some true) ∧
  (Z.of_nat (n - d) = 2 ^ 24 → events_ovrflw (regs s) = true).

(** [start]'s wait ends when the counter has been cleared, at the latest. *)
Lemma clear_seen fuel h1 :
  After h1 0 h1 → length (cc (regs (rtc_of h1))) = length (events_compare (regs (rtc_of h1))) →
  (edge_in h1 ≤ looks)%nat → (S clear_time * S looks < fuel)%nat →
  ∃ e h, wait_until (look looks) (λ h, counter (regs (rtc_of h)) =? 0) fuel h1 = Some h ∧
    After h1 e h ∧ (e ≤ S clear_time)%nat ∧ counter (regs (rtc_of h)) = 0.
Proof using Htimes.
  intros A0 Hl Hlook Hf. set (n := (edge_in h1 + clear_time * S looks + 1)%nat).
  destruct (wait_until_ends (look looks) (λ h, counter (regs (rtc_of h)) =? 0) n fuel h1)
    as (k & Hk & Hw & Hdone).
  - destruct (after_looks h1 n A0 Hl Hlook) as (e & A & He & Ee).
    apply Z.eqb_eq. rewrite (af_counter _ _ _ A). unfold counter_after.
    assert (e = S clear_time) as ->. { unfold n in Ee. nia. }
    rewrite (proj2 (Nat.leb_gt _ _)) by lia. by replace (S clear_time - S start_time)%nat with O by lia.
  - unfold n. nia.
  - destruct (after_looks h1 k A0 Hl Hlook) as (e & A & _ & Ee). apply Z.eqb_eq in Hdone.
    exists e, (ticks (look looks) k h1). split_and!; [done|done| |done]. unfold n in Hk. nia.
Qed.

Lemma counts_on h1 e g :
  After h1 e g → length (cc (regs (rtc_of h1))) = 4%nat →
  length (events_compare (regs (rtc_of h1))) = 4%nat →
  cc (regs (rtc_of h1)) !! 3%nat = Some 0x800000 →
  (e ≤ S clear_time)%nat → counter (regs (rtc_of g)) = 0 → Counts (rtc_of h1) (S start_time - e) g.
Proof using Htimes.
  intros A Hcc Hev H3 He H0 m. set (d := (S start_time - e)%nat). cbv zeta.
  assert (Hl : length (cc (regs (rtc_of h1))) = length (events_compare (regs (rtc_of h1)))) by congruence.
  assert (Hc : ∀ j, counter_after (counter (regs (rtc_of h1))) (e + j) = Z.of_nat (j - d) mod 2 ^ 24).
  { intros j. rewrite (af_counter _ _ _ A) in H0. unfold counter_after in *.
    destruct (Nat.leb_spec (e + j) clear_time).
    - rewrite (proj2 (Nat.leb_le e _)) in H0 by lia. rewrite H0. by replace (j - d)%nat with O by lia.
    - by replace (e + j - S start_time)%nat with (j - d)%nat by lia. }
  pose proof (after_edges h1 m e _ A Hl) as Am.
  split; [by rewrite (af_counter _ _ _ Am)|]. split; [apply (af_period _ _ _ Am)|].
  assert (Hreach : (0 < m - d)%nat → ∃ s, rtc_of (ticks edge m g) =
    reach (Z.of_nat (m - d) mod 2 ^ 24) s ∧ cc (regs s) = cc (regs (rtc_of h1)) ∧
    length (events_compare (regs s)) = 4%nat).
  { intros Hpos. destruct m as [|m']; [lia|]. rewrite ticks_S.
    pose proof (after_edges h1 m' e _ A Hl) as Am'. exists (rtc_of (ticks edge m' g)).
    split; [|split; [apply (af_cc _ _ _ Am')|by rewrite (af_length _ _ _ Am')]].
    rewrite edge_counting.
    2:{ rewrite (af_clearing _ _ _ Am'). by rewrite (proj2 (Nat.leb_gt _ _)) by lia. }
    2:{ rewrite (af_running _ _ _ Am'), seen_running. by apply Nat.ltb_lt; lia. }
    rewrite (af_counter _ _ _ Am'), Hc, Z.add_mod_idemp_l by lia. f_equal. f_equal. lia. }
  split; intros Hm; destruct Hreach as (s & -> & Ec & El); try lia; rewrite Hm;
    cbn [reach regs events_compare events_ovrflw]; [|by rewrite orb_true_r].
  rewrite lookup_zip_with, Ec, H3.
  destruct (lookup_lt_is_Some_2 (events_compare (regs s)) 3) as [b ->]; [lia|]. cbn. by rewrite orb_true_r.
Qed.

(** The interrupt's line does not matter to the counter. *)
Lemma ticks_on_irq f m h : rtc_of (ticks edge m (on_irq f h)) = rtc_of (ticks edge m h).
Proof.
  unfold on_irq. generalize (f (irq h)). intros i. revert h i.
  induction m as [|m IH]; intros h i; [done|]. exact (IH (edge h) i).
Qed.

(** What [start] leaves of a device that did not run: the counter is 0 and stays there for
    [d] edges; then it counts; the interrupts of the period are enabled, and the line. *)
Record Started (h0 h : Starting) : Prop := {
  sd_counter : counter (regs (rtc_of h)) = 0;
  sd_counts : ∃ d, (d ≤ S start_time)%nat ∧ Counts (rtc_of h0) d h;
  sd_cc : cc (regs (rtc_of h)) = <[3%nat := 0x800000]> (cc (regs (rtc_of h0)));
  sd_inten : inten (regs (rtc_of h)) = Z.lor (inten (regs (rtc_of h0))) (Z.lor INT_OVRFLW INT_COMPARE3);
  sd_events : events_compare (regs (rtc_of h)) = events_compare (regs (rtc_of h0)) ∧
    events_ovrflw (regs (rtc_of h)) = events_ovrflw (regs (rtc_of h0));
  sd_period : period (rtc_of h) = period (rtc_of h0);
  sd_alarms : alarms (rtc_of h) = alarms (rtc_of h0);
  sd_irq : irq h = Interrupt.mkIrq (Some tt) addr true false (Interrupt.prio (irq h0))
}.

Lemma start_run fuel h0 :
  running h0 = settled false → length (cc (regs (rtc_of h0))) = 4%nat →
  length (events_compare (regs (rtc_of h0))) = 4%nat → (edge_in h0 ≤ looks)%nat →
  (S clear_time * S looks < fuel)%nat →
  ∃ h, start clear_time start_time looks addr fuel h0 = Some h ∧ Started h0 h.
Proof using Htimes.
  intros Hr Hcc Hev Hein Hf. unfold start. set (h1 := tasks_start start_time _).
  assert (A0 : After h1 0 h1).
  { split; try done. unfold h1. cbn. by rewrite Hr. cbn. by rewrite Nat.sub_0_r. }
  assert (Hl1 : length (cc (regs (rtc_of h1))) = 4%nat) by (unfold h1; cbn; by rewrite length_insert).
  destruct (clear_seen fuel h1 A0) as (e & h & -> & A & He & H0); [by rewrite Hl1|done|done|].
  cbn [mbind option_bind]. eexists. split; [reflexivity|].
  pose proof (counts_on h1 e h A Hl1 Hev ltac:(by apply list_lookup_insert_eq; lia) He H0) as HC.
  destruct (af_quiet _ _ _ A ltac:(lia)) as [Q1 Q2]. split.
  - exact H0.
  - exists (S start_time - e)%nat. split; [lia|]. intros m. rewrite !ticks_on_irq. exact (HC m).
  - apply A.
  - apply A.
  - by split.
  - apply A.
  - apply A.
  - unfold on_irq. cbn [irq rtc_of]. by rewrite (af_irq _ _ _ A).
Qed.

(** [now] follows the counter through the first period. *)
Lemma started_now h0 h : Started h0 h → period (rtc_of h0) = 0 →
  ∃ d, (d ≤ S start_time)%nat ∧ ∀ n, Z.of_nat (n - d) < 2 ^ 24 →
    now (rtc_of (ticks edge n h)) = Z.of_nat (n - d).
Proof using Type.
  clear Htimes. intros S Hp. destruct (sd_counts _ _ S) as (d & Hd & HC). exists d. split; [done|]. intros n Hn.
  destruct (HC n) as (Hc & Hq & _). apply nrf_now_at. split; [done| |lia|lia].
  rewrite Hq, Hp. destruct (Z.ltb_spec (Z.of_nat (n - d)) (2 ^ 23)).
  - left. by rewrite Z.div_small by lia.
  - right. apply (Z.div_unique _ _ _ (Z.of_nat (n - d) - 2 ^ 23)); lia.
Qed.
End starting.

(** ** A new period *)

Definition arm (base : Z) (n : nat) (a : AlarmState) (s : RTC) : RTC :=
  if (0 <=? timestamp a - base) && (timestamp a - base <? 0xc00000) then
    intenset (compare_n n) (write_cc n (timestamp a mod 2 ^ 24) s)
  else s.

Lemma next_period_alarm_run base n a s :
  alarms s !! n = Some a → 0 ≤ timestamp a < 2 ^ 64 → 0 ≤ base < 2 ^ 55 →
  next_period_alarm base n s =
  if overflow_checks && (timestamp a <? base) then Panic else Done (arm base n a s).
Proof.
  intros Ha Hts Hb. unfold next_period_alarm, arm. rewrite Ha. simpl.
  destruct (Z.ltb_spec (timestamp a) base) as [Hlt|Hge].
  - rewrite arith_overflow by lia. rewrite (proj2 (Z.leb_gt 0 _)) by lia. simpl.
    rewrite andb_true_r. destruct overflow_checks; [done|]. simpl. unfold wrap.
    replace (timestamp a - base) with (timestamp a - base + 2 ^ 64 + (-1) * 2 ^ 64) by lia.
    rewrite Z.mod_add, Z.mod_small by lia.
    destruct (Z.ltb_spec (timestamp a - base + 2 ^ 64) 0xc00000); [lia|done].
  - rewrite arith_fits by lia. rewrite andb_false_r. simpl.
    rewrite (proj2 (Z.leb_le 0 _)) by lia. simpl.
    destruct (Z.ltb_spec (timestamp a - base) 0xc00000); [|done]. by rewrite low_24.
Qed.

Lemma arm_alarms base n a s : alarms (arm base n a s) = alarms s.
Proof. unfold arm. by destruct (_ && _). Qed.

(** All three alarms after [next_period] has armed what is near. *)
Definition armed (base : Z) (a0 a1 a2 : AlarmState) (s : RTC) : RTC :=
  arm base 2 a2 (arm base 1 a1 (arm base 0 a0 s)).

Lemma next_period_run s a0 a1 a2 :
  alarms s = [a0; a1; a2] → Forall (λ a, 0 ≤ timestamp a < 2 ^ 64) (alarms s) →
  0 ≤ period s < 2 ^ 32 - 1 →
  let base := (period s + 1) * 2 ^ 23 in
  next_period s =
  if overflow_checks && existsb (λ a, timestamp a <? base) (alarms s) then Panic
  else Done (armed base a0 a1 a2 (set_period (period s + 1) s)).
Proof.
  intros Hal Hts Hp base. rewrite Hal in *.
  rewrite !Forall_cons in Hts. destruct Hts as (T0 & T1 & T2 & _).
  unfold next_period. rewrite arith_fits by lia. simpl.
  rewrite Z.mod_small, Z.shiftl_mul_pow2 by lia. fold base.
  assert (Hb : 0 ≤ base < 2 ^ 55) by (unfold base; lia). clearbody base.
  rewrite (next_period_alarm_run base 0 a0); [|simpl; by rewrite Hal|done|done].
  destruct (overflow_checks && (timestamp a0 <? base)) eqn:E0.
  { apply andb_true_iff in E0 as [-> ->]. done. }
  simpl. rewrite (next_period_alarm_run base 1 a1);
    [|rewrite arm_alarms; simpl; by rewrite Hal|done|done].
  destruct (overflow_checks && (timestamp a1 <? base)) eqn:E1.
  { apply andb_true_iff in E1 as [-> ->]. simpl. by rewrite orb_true_r. }
  simpl. rewrite (next_period_alarm_run base 2 a2);
    [|rewrite !arm_alarms; simpl; by rewrite Hal|done|done].
  destruct (overflow_checks && (timestamp a2 <? base)) eqn:E2.
  { apply andb_true_iff in E2 as [-> ->]. simpl. by rewrite !orb_true_r. }
  simpl. destruct overflow_checks; simpl in *; [|done]. by rewrite E0, E1, E2.
Qed.

(** Whether the register has been written since the counter changed. *)
Definition wrote (n : nat) (s : RTC) : bool := bool_decide (n ∈ cc_written (regs s)).

Lemma arm_spec base n m a s : (n < length (cc (regs s)))%nat →
  let near := (0 <=? timestamp a - base) && (timestamp a - base <? 0xc00000) in
  let s' := arm base n a s in
  period s' = period s ∧ length (cc (regs s')) = length (cc (regs s)) ∧
  enabled m s' = (if bool_decide (n = m) && near then true else enabled m s) ∧
  cc (regs s') !! m =
    (if bool_decide (n = m) && near then Some (timestamp a mod 2 ^ 24) else cc (regs s) !! m) ∧
  wrote m s' = bool_decide (n = m) && near || wrote m s.
Proof.
  intros Hn near s'. unfold s', arm, wrote. fold near. destruct near.
  - rewrite enabled_set. simpl. rewrite length_insert.
    assert (Hw : bool_decide (m ∈ n :: cc_written (regs s)) =
      bool_decide (n = m) || bool_decide (m ∈ cc_written (regs s))).
    { rewrite <-bool_decide_or. apply bool_decide_ext. rewrite elem_of_cons. split; intros [?|?]; auto. }
    rewrite Hw, !andb_true_r. clear Hw.
    destruct (decide (n = m)) as [->|Hne].
    + rewrite !bool_decide_true by done. rewrite orb_true_r. split_and!; try done.
      by apply list_lookup_insert_eq.
    + rewrite !(bool_decide_false (n = m)) by done. rewrite orb_false_r. split_and!; try done.
      by apply list_lookup_insert_ne.
  - by rewrite andb_false_r.
Qed.

Lemma armed_spec base a0 a1 a2 s n a : length (cc (regs s)) = 4%nat →
  [a0; a1; a2] !! n = Some a →
  let near := (0 <=? timestamp a - base) && (timestamp a - base <? 0xc00000) in
  let s' := armed base a0 a1 a2 s in
  period s' = period s ∧ alarms s' = alarms s ∧ length (cc (regs s')) = 4%nat ∧
  enabled n s' = (if near then true else enabled n s) ∧
  cc (regs s') !! n = (if near then Some (timestamp a mod 2 ^ 24) else cc (regs s) !! n) ∧
  wrote n s' = near || wrote n s.
Proof.
  intros Hl Ha. cbv zeta. unfold armed. rewrite !arm_alarms.
  destruct (arm_spec base 0 n a0 s ltac:(lia)) as (P0 & L0 & E0 & C0 & W0).
  set (s0 := arm base 0 a0 s) in *. clearbody s0.
  destruct (arm_spec base 1 n a1 s0 ltac:(lia)) as (P1 & L1 & E1 & C1 & W1).
  set (s1 := arm base 1 a1 s0) in *. clearbody s1.
  destruct (arm_spec base 2 n a2 s1 ltac:(lia)) as (P2 & L2 & E2 & C2 & W2).
  split_and!; [congruence|done|congruence|rewrite E2, E1, E0|rewrite C2, C1, C0|rewrite W2, W1, W0];
    destruct n as [|[|[|n]]]; simpl in *; simplify_eq; try done;
    by destruct (_ && _).
Qed.

(** at the start of a period, which begins at [base], every alarm due between
    [base] and 0xc00000 ticks later is armed with exactly its timestamp and every
    other is left as it was; one that is further ahead lies at least half a period
    into a later period, so the next call is in time for it.  An alarm that fell
    due just before the period and has not been handled yet makes the subtraction
    underflow: with overflow checks the interrupt handler panics. *)
Theorem next_period_spec s a0 a1 a2 :
  alarms s = [a0; a1; a2] → length (cc (regs s)) = 4%nat →
  Forall (λ a, 0 ≤ timestamp a < 2 ^ 64) (alarms s) → 0 ≤ period s < 2 ^ 32 - 1 →
  let base := (period s + 1) * 2 ^ 23 in
  if overflow_checks && existsb (λ a, timestamp a <? base) (alarms s) then
    next_period s = Panic
  else ∃ s', next_period s = Done s' ∧ period s' = period s + 1 ∧ alarms s' = alarms s ∧
    ∀ n a, alarms s !! n = Some a →
      (base ≤ timestamp a < base + 0xc00000 →
         enabled n s' = true ∧ cc (regs s') !! n = Some (timestamp a mod 2 ^ 24) ∧
         ∀ now T, base ≤ now < timestamp a → now < T → T mod 2 ^ 24 = timestamp a mod 2 ^ 24 →
           timestamp a ≤ T) ∧
      (base + 0xc00000 ≤ timestamp a →
         enabled n s' = enabled n s ∧ cc (regs s') !! n = cc (regs s) !! n ∧
         base + 2 ^ 23 + 2 ^ 22 ≤ timestamp a).
Proof.
  intros Hal Hcc Hts Hp base. rewrite (next_period_run s a0 a1 a2) by done. fold base.
  destruct (overflow_checks && _); [done|]. eexists. split; [done|].
  destruct (armed_spec base a0 a1 a2 (set_period (period s + 1) s) 0 a0 Hcc eq_refl)
    as (E1 & E2 & _).
  split; [by rewrite E1|]. split; [by rewrite E2|]. intros n a Hn. rewrite Hal in Hn.
  destruct (armed_spec base a0 a1 a2 (set_period (period s + 1) s) n a Hcc Hn)
    as (_ & _ & _ & E4 & E5 & _).
  rewrite E4, E5. split; intros Hr.
  - rewrite (proj2 (Z.leb_le 0 _)), (proj2 (Z.ltb_lt _ _)) by lia. simpl.
    split_and!; [done|done|]. intros now T Hnow HT Hm.
    apply (next_match 24 now); [lia|lia|lia|done|done].
  - rewrite (proj2 (Z.ltb_ge _ _)) by lia. rewrite andb_false_r.
    split_and!; [done|done|lia].
Qed.

(** [k] periods go by. *)
Fixpoint periods (k : nat) (s : RTC) : outcome RTC :=
  match k with O => Done s | S k' => s' ← periods k' s; next_period s' end.

Lemma periods_run k s a0 a1 a2 :
  overflow_checks = false → alarms s = [a0; a1; a2] → length (cc (regs s)) = 4%nat →
  Forall (λ a, 0 ≤ timestamp a < 2 ^ 64) (alarms s) →
  0 ≤ period s → period s + Z.of_nat k < 2 ^ 32 →
  ∃ s', periods k s = Done s' ∧ period s' = period s + Z.of_nat k ∧ alarms s' = alarms s ∧
    length (cc (regs s')) = 4%nat.
Proof.
  intros Hoc Hal Hcc Hts Hp. induction k as [|k IH]; intros Hk.
  { exists s. split_and!; [done|lia|done|done]. }
  destruct IH as (s1 & Hr & P1 & A1 & C1); [lia|]. simpl. rewrite Hr. simpl.
  rewrite (next_period_run s1 a0 a1 a2) by (rewrite ?A1; done || lia).
  rewrite Hoc. simpl.
  destruct (armed_spec ((period s1 + 1) * 2 ^ 23) a0 a1 a2 (set_period (period s1 + 1) s1)
    0 a0 C1 eq_refl) as (E1 & E2 & E3 & _).
  eexists. split; [done|]. split_and!; [rewrite E1; simpl; lia|by rewrite E2, <-A1|done].
Qed.

(** no alarm is missed: an alarm that was too far ahead to be armed is armed,
    with exactly its timestamp, at the start of a period that begins at least half
    a period (128 seconds) before it, whatever the other alarms do. *)
Theorem far_alarm_armed_in_time s a0 a1 a2 n a :
  overflow_checks = false → alarms s = [a0; a1; a2] → length (cc (regs s)) = 4%nat →
  Forall (λ a, 0 ≤ timestamp a < 2 ^ 64) (alarms s) → 0 ≤ period s →
  alarms s !! n = Some a → (period s + 1) * 2 ^ 23 + 2 ^ 22 ≤ timestamp a →
  timestamp a < (2 ^ 32 - 1) * 2 ^ 23 →
  ∃ k s', periods k s = Done s' ∧ enabled n s' = true ∧
    cc (regs s') !! n = Some (timestamp a mod 2 ^ 24) ∧
    period s' * 2 ^ 23 + 2 ^ 22 ≤ timestamp a < period s' * 2 ^ 23 + 0xc00000.
Proof.
  intros Hoc Hal Hcc Hts Hp Hn Hlo Hhi.
  set (m := (timestamp a - 2 ^ 22) / 2 ^ 23).
  assert (Hm : m * 2 ^ 23 + 2 ^ 22 ≤ timestamp a < m * 2 ^ 23 + 0xc00000).
  { unfold m. pose proof (Z.mul_div_le (timestamp a - 2 ^ 22) (2 ^ 23) ltac:(lia)).
    pose proof (Z.mul_succ_div_gt (timestamp a - 2 ^ 22) (2 ^ 23) ltac:(lia)). lia. }
  clearbody m. set (k := Z.to_nat (m - 1 - period s)).
  destruct (periods_run k s a0 a1 a2) as (s1 & Hr & P1 & A1 & C1); try done; [lia|].
  assert (Hp1 : period s1 = m - 1) by (rewrite P1; lia).
  destruct (armed_spec ((period s1 + 1) * 2 ^ 23) a0 a1 a2 (set_period (period s1 + 1) s1)
    n a C1) as (E1 & _ & _ & E4 & E5 & _); [by rewrite <-Hal|].
  replace ((period s1 + 1) * 2 ^ 23) with (m * 2 ^ 23) in * by lia.
  exists (S k). simpl. rewrite Hr. simpl.
  rewrite (next_period_run s1 a0 a1 a2) by (rewrite ?A1; done || lia).
  rewrite Hoc. simpl. replace ((period s1 + 1) * 2 ^ 23) with (m * 2 ^ 23) by lia.
  eexists. split; [done|].
  rewrite E4, E5, E1. rewrite (proj2 (Z.leb_le 0 _)), (proj2 (Z.ltb_lt _ _)) by lia.
  simpl. split_and!; [done|done|lia|lia].
Qed.

(** ** Stale compare events *)

(** Setting an alarm does not clear the compare event: one raised for the alarm that is
    replaced, and not handled yet, makes the next interrupt run the callback of the new
    alarm before its time. *)
Theorem stale_compare_event t ts s f a1 a2 ccs rest :
  shape s → alarms s = [mkAlarm ccs (Some f); a1; a2] → at_time t s →
  t < ts < 2 ^ 64 → events_ovrflw (regs s) = false →
  events_compare (regs s) = true :: rest → rest !! 2%nat = Some false →
  ∃ s1 s2, set_alarm call 0 ts s = Done s1 ∧
    on_interrupt call s1 = (s3 ← call f s2; for_alarms (on_compare call) [1%nat; 2%nat] s3) ∧
    alarms s2 !! 0%nat = Some (mkAlarm u64_MAX (Some f)) ∧ now s2 = t.
Proof.
  intros Hsh Hal Hat Hts Hov Hev He3.
  assert (Hnow : now (set_timestamp 0 ts s) = t) by (apply nrf_now_at; by destruct Hat).
  pose proof (at_range _ _ Hat) as HT.
  assert (H1 : ∃ s1, set_alarm call 0 ts s = Done s1 ∧
    alarms s1 = [mkAlarm ts (Some f); a1; a2] ∧ events_compare (regs s1) = true :: rest ∧
    events_ovrflw (regs s1) = false ∧ at_time t s1).
  { unfold set_alarm. rewrite Hal. cbn [expect mbind outcome_bind lookup list_lookup].
    rewrite Hnow. rewrite (proj2 (Z.leb_gt _ _)) by lia.
    rewrite (arith_fits 64 (ts - t)) by lia. simpl.
    destruct (ts - t <? 0xc00000).
    - rewrite (arith_fits 64 (t + 3)) by lia. simpl. eexists. split; [done|].
      simpl. rewrite Hal. split_and!; try done. by destruct Hat.
    - eexists. split; [done|]. simpl. rewrite Hal. split_and!; try done. by destruct Hat. }
  destruct H1 as (s1 & Hset & Hal1 & Hev1 & Hov1 & Hat1).
  eexists s1, (triggered 0 (write_events_compare 0 false s1)).
  split; [done|]. split_and!.
  - unfold on_interrupt. rewrite Hov1. simpl. rewrite Hev1. simpl.
    rewrite He3.
    assert (Hc : on_compare call 0 s1 = call f (triggered 0 (write_events_compare 0 false s1))).
    { unfold on_compare. rewrite Hev1. simpl.
      rewrite (trigger_alarm_run 0 (mkAlarm ts (Some f))); [done|simpl; by rewrite Hal1]. }
    cbn [expect mbind outcome_bind for_alarms seq ALARM_COUNT]. by rewrite Hc.
  - simpl. by rewrite Hal1.
  - apply nrf_now_at. by destruct Hat1.
Qed.
End props.

(** ** Witnesses *)

Definition demo_regs (c : Z) : Regs := mkRegs c [5; 0; 0; 0x800000] [true; false; false; false] false 0 [].
Definition demo_rtc (ts : Z) (p c : Z) : RTC :=
  mkRTC (demo_regs c) p [mkAlarm ts (Some (1, 2)); AlarmState_new; AlarmState_new].

Lemma demo_at : at_time 0x2000005 (demo_rtc 9 4 5).
Proof. split; simpl; [reflexivity|left; reflexivity|lia|lia]. Qed.

Lemma now_correct_witness :
  calc_now 3 (0x2000005 mod 2 ^ 24) = 0x2000005.
Proof.
  apply (now_correct 0x1fffff0 0x2000005 3); [lia|lia|lia|left; reflexivity|].
  vm_compute. congruence.
Defined.

Lemma set_alarm_spec_witness :
  let _ : Profile := true in
  ∃ s', set_alarm (λ _ s, Done s) 0 0x2000006 (demo_rtc 9 4 5) = Done s' ∧
    enabled 0 s' = true.
Proof.
  destruct (proj2 (set_alarm_spec (P := true) (λ _ s, Done s) 0 0x2000006 0x2000005
    (demo_rtc 9 4 5) (mkAlarm 9 (Some (1, 2))) ltac:(by split_and!) ltac:(lia) eq_refl
    demo_at ltac:(lia)) ltac:(lia)) as (s' & Hr & _ & Hif).
  exists s'. split; [exact Hr|]. exact (proj1 Hif).
Defined.

Lemma next_period_spec_witness :
  (let _ : Profile := true in next_period (demo_rtc 9 4 5) = Panic) ∧
  (let _ : Profile := false in ∃ s', next_period (demo_rtc 9 4 5) = Done s' ∧ period s' = 5).
Proof.
  split.
  - exact (next_period_spec (P := true) (demo_rtc 9 4 5) _ _ _ eq_refl eq_refl
      ltac:(repeat constructor; vm_compute; congruence) ltac:(simpl; lia)).
  - destruct (next_period_spec (P := false) (demo_rtc 9 4 5) _ _ _ eq_refl eq_refl
      ltac:(repeat constructor; vm_compute; congruence) ltac:(simpl; lia))
      as (s' & Hr & Hp & _). exists s'. split; [exact Hr|exact Hp].
Defined.

Lemma far_alarm_armed_in_time_witness :
  let _ : Profile := false in
  ∃ k s', periods k (demo_rtc 0x8000000 4 5) = Done s' ∧ enabled 0 s' = true.
Proof.
  destruct (far_alarm_armed_in_time (P := false) (demo_rtc 0x8000000 4 5) _ _ _ 0
    (mkAlarm 0x8000000 (Some (1, 2))) eq_refl eq_refl eq_refl
    ltac:(repeat constructor; vm_compute; congruence) ltac:(simpl; lia) eq_refl
    ltac:(simpl; lia) ltac:(simpl; lia)) as (k & s' & Hr & He & _).
  exists k, s'. split; [exact Hr|exact He].
Defined.

Lemma stale_compare_event_witness :
  let _ : Profile := true in
  ∃ s1 s2, set_alarm (λ _ _, Panic) 0 0x3000000 (demo_rtc 9 4 5) = Done s1 ∧
    on_interrupt (λ _ _, Panic) s1 = Panic ∧ now s2 < 0x3000000.
Proof.
  destruct (stale_compare_event (P := true) (λ _ _, Panic) 0x2000005 0x3000000
    (demo_rtc 9 4 5) (1, 2) _ _ _ _ ltac:(by split_and!) eq_refl demo_at ltac:(lia)
    eq_refl eq_refl eq_refl) as (s1 & s2 & Hr & Hi & _ & Hn).
  exists s1, s2. split; [exact Hr|]. split; [exact Hi|]. rewrite Hn. lia.
Defined.
