(* ===== verification/RtcRun.v ===== *)
(** * RtcRun: the nRF's real-time counter as time goes by

    The driver of [NrfRtc] with what the hardware does between its calls: the counter
    counts, a compare register that matches raises its event, the events raise the
    interrupt, and the handler runs some time later.  What an alarm is to those who set
    it follows: its callback is run in time -- but not if it is set for the first ticks
    of a period just before that period begins. *)
From S2P Require Import Prelude Time RtcClock NrfRtc.
Local Open Scope Z_scope.

(** ** The hardware and the time *)

(** [time] counts since [start]; [written] is, for each alarm, the last tick in which its
    compare register may have been written; [due] the time by which the interrupt that is
    pending is handled. *)
Record Timed : Type := mkTimed { time : Z; rtc : RTC; written : list Z; due : option Z }.

Section timed.
(** A release build, where the driver's arithmetic wraps ([next_period_spec] has the
    panics of the other one); the ticks until an interrupt is handled. *)
Context {P : Profile} (Hrelease : overflow_checks = false).
Context (latency : Z) (Hlatency : 0 ≤ latency ≤ 2 ^ 22 - 3).

(** The callbacks signal executors and leave the driver alone. *)
Definition call (_ : Z * Z) (s : RTC) : outcome RTC := Done s.

Definition event (n : nat) (r : Regs) : bool := default false (events_compare r !! n).
Definition irq_pending (r : Regs) : bool :=
  (events_ovrflw r && Z.testbit (inten r) 1) ||
  existsb (λ n, event n r && Z.testbit (inten r) (Z.of_nat n + 16)) (seq 0 4).

(** A write to a compare register takes effect within the tick after it, also if it has the
    value that the register had. *)
Definition stamp (t : Z) (s : RTC) (w : list Z) : list Z :=
  (λ n, if wrote n s then t + 1 else default 0 (w !! n)) <$> seq 0 ALARM_COUNT.
Definition settle (t : Z) (s : RTC) (w : list Z) (d : option Z) : Timed :=
  mkTimed t s w (if irq_pending (regs s) then Some (default (t + latency) d) else None).
(** The driver has acted. *)
Definition acted (s : RTC) (m : Timed) : Timed :=
  settle (time m) s (stamp (time m) s (written m)) (due m).

(** One tick.  A match raises the event if the interrupt is enabled and the register has
    had its value for long enough; otherwise, [hits] decides. *)
Definition matched (t c : Z) (hit : bool) (w : Z) (n : nat) (r : Regs) : bool :=
  bool_decide (cc r !! n = Some c) &&
  ((Z.testbit (inten r) (Z.of_nat n + 16) && (w + 2 <=? t)) || hit).
Definition count (t : Z) (hits : list bool) (w : list Z) (r : Regs) : Regs :=
  let c := t mod 2 ^ 24 in
  mkRegs c (cc r)
    ((λ n, event n r || matched t c (default true (hits !! n)) (default 0 (w !! n)) n r) <$> seq 0 4)
    (events_ovrflw r || (c =? 0)) (inten r) [].
(** [hits] is for the three alarms; the fourth register is never changed. *)
Definition rtc_tick (hits : list bool) (m : Timed) : option Timed :=
  if match due m with Some d => d <=? time m | None => false end || (2 ^ 54 - 1 <=? time m)
  then None
  else
    let t := time m + 1 in
    let s := rtc m in
    Some (settle t (mkRTC (count t (take 3 hits) (written m) (regs s)) (period s) (alarms s))
            (written m) (due m)).

(** The handler runs, and the callbacks of the alarms that fired. *)
Definition fired (s : RTC) : list nat :=
  List.filter (λ n, event n (regs s)) (seq 0 ALARM_COUNT).
Definition rtc_irq (m : Timed) : option (list nat * Timed) :=
  if irq_pending (regs (rtc m)) then
    match on_interrupt call (rtc m) with
    | Done s => Some (fired (rtc m), acted s m)
    | Panic => None
    end
  else None.

(** An alarm is set; [true] if its callback is run at once. *)
Definition rtc_set (n : nat) (ts : Z) (m : Timed) : option (bool * Timed) :=
  match set_alarm call n ts (rtc m) with
  | Done s => Some (ts <=? now (rtc m), acted s m)
  | Panic => None
  end.

(** ** The invariant of the driver *)
Record TOk (m : Timed) : Prop := {
  ok_range : 0 ≤ time m < 2 ^ 54;
  ok_counter : counter (regs (rtc m)) = time m mod 2 ^ 24;
  ok_shape : shape (rtc m);
  ok_cc3 : cc (regs (rtc m)) !! 3%nat = Some 0x800000;
  ok_inten : Z.testbit (inten (regs (rtc m))) 1 = true ∧ Z.testbit (inten (regs (rtc m))) 19 = true;
  ok_written : length (written m) = 3%nat ∧ Forall (λ w, w ≤ time m + 1) (written m);
  ok_wrote n : (n < 3)%nat → wrote n (rtc m) = true → written m !! n = Some (time m + 1);
  ok_timestamps : Forall (λ a, 0 ≤ timestamp a < 2 ^ 64) (alarms (rtc m));
  ok_once : events_ovrflw (regs (rtc m)) && event 3 (regs (rtc m)) = false;
  ok_period : 0 ≤ period (rtc m) ∧ time m / 2 ^ 23 =
    period (rtc m) + Z.b2z (events_ovrflw (regs (rtc m)) || event 3 (regs (rtc m)));
  ok_due : match due m with
           | Some d => time m ≤ d ≤ time m + latency ∧ irq_pending (regs (rtc m)) = true
           | None => irq_pending (regs (rtc m)) = false
           end;
  ok_late : events_ovrflw (regs (rtc m)) || event 3 (regs (rtc m)) = true →
    ∃ d, due m = Some d ∧ d ≤ time m / 2 ^ 23 * 2 ^ 23 + latency
}.

Definition late (s : RTC) : bool := events_ovrflw (regs s) || event 3 (regs s).

Lemma TOk_at m : TOk m → at_time (time m) (rtc m).
Proof.
  intros O. destruct (ok_period m O) as [Hp HT]. pose proof (ok_range m O).
  split; [apply O| |done|lia]. rewrite HT. destruct (_ || _); simpl; [by right|left; lia].
Qed.

Lemma shape_lists s : shape s → ∃ a0 a1 a2 c0 c1 c2 c3 e0 e1 e2 e3,
  alarms s = [a0; a1; a2] ∧ cc (regs s) = [c0; c1; c2; c3] ∧
  events_compare (regs s) = [e0; e1; e2; e3].
Proof.
  intros (Ha & Hc & He).
  destruct (alarms s) as [|a0 [|a1 [|a2 [|]]]]; try done.
  destruct (cc (regs s)) as [|c0 [|c1 [|c2 [|c3 [|]]]]]; try done.
  destruct (events_compare (regs s)) as [|e0 [|e1 [|e2 [|e3 [|]]]]]; try done.
  by exists a0, a1, a2, c0, c1, c2, c3, e0, e1, e2, e3.
Qed.

(** ** The handler *)

Definition near (base : Z) (a : AlarmState) : bool :=
  (0 <=? timestamp a - base) && (timestamp a - base <? 0xc00000).
Definition base_of (s : RTC) : Z := (period s + 1) * 2 ^ 23.
(** Whether the handler, having counted a period, arms the alarm. *)
Definition rearmed (s : RTC) (a : AlarmState) : bool := late s && near (base_of s) a.

(** What a run of the handler leaves. *)
Record Handled (s s' : RTC) : Prop := {
  h_counter : counter (regs s') = counter (regs s);
  h_period : period s' = period s + Z.b2z (late s);
  h_shape : shape s';
  h_cc3 : cc (regs s') !! 3%nat = cc (regs s) !! 3%nat;
  h_inten k : k < 16 ∨ 18 < k → Z.testbit (inten (regs s')) k = Z.testbit (inten (regs s)) k;
  h_events n : event n (regs s') = false;
  h_ovrflw : events_ovrflw (regs s') = false;
  h_alarm n a : alarms s !! n = Some a → alarms s' !! n =
    Some (if event n (regs s) then mkAlarm u64_MAX (callback a) else a);
  h_enabled n a : alarms s !! n = Some a → enabled n s' =
    if event n (regs s) then false else rearmed s a || enabled n s;
  h_cc n a : alarms s !! n = Some a → cc (regs s') !! n =
    if rearmed s a then Some (timestamp a mod 2 ^ 24) else cc (regs s) !! n;
  h_wrote n a : alarms s !! n = Some a → wrote n s' = rearmed s a || wrote n s
}.

(** [next_period], field by field. *)
Lemma next_period_all s : shape s → Forall (λ a, 0 ≤ timestamp a < 2 ^ 64) (alarms s) →
  0 ≤ period s < 2 ^ 32 - 1 →
  ∃ s', next_period s = Done s' ∧ counter (regs s') = counter (regs s) ∧
    period s' = period s + 1 ∧ alarms s' = alarms s ∧ length (cc (regs s')) = 4%nat ∧
    events_compare (regs s') = events_compare (regs s) ∧
    events_ovrflw (regs s') = events_ovrflw (regs s) ∧ cc (regs s') !! 3%nat = cc (regs s) !! 3%nat ∧
    (∀ k, k < 16 ∨ 18 < k → Z.testbit (inten (regs s')) k = Z.testbit (inten (regs s)) k) ∧
    ∀ n a, alarms s !! n = Some a →
      enabled n s' = near (base_of s) a || enabled n s ∧
      cc (regs s') !! n = (if near (base_of s) a then Some (timestamp a mod 2 ^ 24)
                          else cc (regs s) !! n) ∧
      wrote n s' = near (base_of s) a || wrote n s.
Proof using Hrelease.
  intros Hs Hts Hp. destruct (shape_lists s Hs) as (a0 & a1 & a2 & c0 & c1 & c2 & c3 & ? & ? & ? & ? & Ha & Hc & _).
  rewrite (next_period_run s a0 a1 a2 Ha Hts Hp), Hrelease. fold (base_of s).
  set (s0 := set_period (period s + 1) s).
  assert (L0 : length (cc (regs s0)) = 4%nat) by apply Hs.
  destruct (armed_spec (base_of s) a0 a1 a2 s0 0 a0 L0 eq_refl) as (E1 & E2 & E3 & _).
  eexists. split; [reflexivity|]. rewrite E1, E2.
  assert (Hframe : ∀ b n (a : AlarmState) r, (n < 3)%nat →
    counter (regs (arm b n a r)) = counter (regs r) ∧
    events_compare (regs (arm b n a r)) = events_compare (regs r) ∧
    events_ovrflw (regs (arm b n a r)) = events_ovrflw (regs r) ∧
    cc (regs (arm b n a r)) !! 3%nat = cc (regs r) !! 3%nat ∧
    ∀ k, k < 16 ∨ 18 < k →
      Z.testbit (inten (regs (arm b n a r))) k = Z.testbit (inten (regs r)) k).
  { intros b n a r Hn. unfold arm. destruct (_ && _); [|done]. simpl.
    rewrite list_lookup_insert_ne by lia. split_and!; try done. intros k Hk.
    rewrite Z.lor_spec. unfold compare_n.
    destruct (Z.testbit (Z.shiftl 1 (Z.of_nat n + 16)) k) eqn:E; [|by rewrite orb_false_r].
    rewrite Z.shiftl_1_l, Z.pow2_bits_eqb in E by lia. apply Z.eqb_eq in E. lia. }
  unfold armed in *.
  destruct (Hframe (base_of s) 0%nat a0 s0) as (A1 & A2 & A3 & A4 & A5); [lia|].
  destruct (Hframe (base_of s) 1%nat a1 (arm (base_of s) 0 a0 s0)) as (B1 & B2 & B3 & B4 & B5); [lia|].
  destruct (Hframe (base_of s) 2%nat a2 (arm (base_of s) 1 a1 (arm (base_of s) 0 a0 s0)))
    as (C1 & C2 & C3 & C4 & C5); [lia|].
  split_and!; try (rewrite ?C1, ?C2, ?C3, ?C4, ?B1, ?B2, ?B3, ?B4, ?A1, ?A2, ?A3, ?A4; done).
  - intros k Hk. by rewrite C5, B5, A5.
  - intros n a Hn. rewrite Ha in Hn.
    destruct (armed_spec (base_of s) a0 a1 a2 s0 n a L0 Hn) as (_ & _ & _ & E4 & E5 & E6).
    unfold armed in E4, E5, E6. rewrite E4, E5, E6. fold (near (base_of s) a).
    by destruct (near (base_of s) a).
Qed.

(** The turns over the alarms. *)
Lemma on_compare_all s : shape s →
  ∃ s', for_alarms (on_compare call) (seq 0 ALARM_COUNT) s = Done s' ∧
    counter (regs s') = counter (regs s) ∧ period s' = period s ∧ shape s' ∧
    cc (regs s') = cc (regs s) ∧ event 3 (regs s') = event 3 (regs s) ∧
    events_ovrflw (regs s') = events_ovrflw (regs s) ∧
    (∀ k, k < 16 ∨ 18 < k → Z.testbit (inten (regs s')) k = Z.testbit (inten (regs s)) k) ∧
    (∀ n, wrote n s' = wrote n s) ∧
    ∀ n a, alarms s !! n = Some a → event n (regs s') = false ∧
      alarms s' !! n = Some (if event n (regs s) then mkAlarm u64_MAX (callback a) else a) ∧
      enabled n s' = if event n (regs s) then false else enabled n s.
Proof.
  intros Hs.
  destruct (shape_lists s Hs) as (a0 & a1 & a2 & c0 & c1 & c2 & c3 & e0 & e1 & e2 & e3 & Ha & Hc & He).
  destruct s as [[cnt ccs ev ov it wr] p al]. simpl in *. subst.
  set (clr (b : bool) (n : nat) (i : Z) := if b then Z.ldiff i (compare_n n) else i).
  set (trg (b : bool) (a : AlarmState) := if b then mkAlarm u64_MAX (callback a) else a).
  exists (mkRTC (mkRegs cnt [c0; c1; c2; c3] [false; false; false; e3] ov
           (clr e2 2%nat (clr e1 1%nat (clr e0 0%nat it))) wr) p [trg e0 a0; trg e1 a1; trg e2 a2]).
  split.
  { destruct a0 as [? []], a1 as [? []], a2 as [? []], e0, e1, e2; reflexivity. }
  split_and!; try done.
  - intros k Hk. cbn [regs inten].
    assert (Hb : ∀ b n i, (n < 3)%nat → Z.testbit (clr b n i) k = Z.testbit i k).
    { intros [] n i Hn; [|done]. unfold clr, compare_n. rewrite Z.ldiff_spec.
      destruct (Z.testbit (Z.shiftl 1 (Z.of_nat n + 16)) k) eqn:E; [|by rewrite andb_true_r].
      rewrite Z.shiftl_1_l, Z.pow2_bits_eqb in E by lia. apply Z.eqb_eq in E. lia. }
    by rewrite !Hb by lia.
  - intros n a Hn.
    assert (Hb : ∀ b m i, Z.testbit (clr b m i) (Z.of_nat n + 16) =
      Z.testbit i (Z.of_nat n + 16) && negb (b && bool_decide (m = n))).
    { intros [] m i; [|by rewrite andb_true_r]. unfold clr. by rewrite Z.ldiff_spec, compare_n_bit. }
    unfold enabled. cbn [regs inten]. rewrite !Hb.
    destruct n as [|[|[|n]]]; simpl in Hn; simplify_eq; split_and!; try done; cbn;
      rewrite ?andb_false_r, ?andb_true_r; cbn; rewrite ?andb_true_r; try done;
      match goal with |- context [negb ?e] => destruct e end;
      rewrite ?andb_true_r, ?andb_false_r; done.
Qed.

(** The part of the handler that counts a period. *)
Definition counted (s : RTC) : outcome RTC :=
  s1 ← (if events_ovrflw (regs s) then next_period (write_events_ovrflw false s) else Done s);
  e3 ← expect (events_compare (regs s1) !! 3%nat);
  if e3 : bool then next_period (write_events_compare 3 false s1) else Done s1.

Lemma on_interrupt_counted s :
  on_interrupt call s = (s2 ← counted s; for_alarms (on_compare call) (seq 0 ALARM_COUNT) s2).
Proof.
  unfold on_interrupt, counted. destruct (events_ovrflw (regs s)); simpl;
    [destruct (next_period _); simpl; [|done]|]; by destruct (expect _).
Qed.

Lemma counted_all s : shape s → Forall (λ a, 0 ≤ timestamp a < 2 ^ 64) (alarms s) →
  0 ≤ period s < 2 ^ 32 - 1 → events_ovrflw (regs s) && event 3 (regs s) = false →
  ∃ s', counted s = Done s' ∧ counter (regs s') = counter (regs s) ∧
    period s' = period s + Z.b2z (late s) ∧ alarms s' = alarms s ∧ shape s' ∧
    (∀ n, (n < 3)%nat → event n (regs s') = event n (regs s)) ∧ event 3 (regs s') = false ∧
    events_ovrflw (regs s') = false ∧ cc (regs s') !! 3%nat = cc (regs s) !! 3%nat ∧
    (∀ k, k < 16 ∨ 18 < k → Z.testbit (inten (regs s')) k = Z.testbit (inten (regs s)) k) ∧
    ∀ n a, alarms s !! n = Some a → enabled n s' = rearmed s a || enabled n s ∧
      cc (regs s') !! n = (if rearmed s a then Some (timestamp a mod 2 ^ 24) else cc (regs s) !! n) ∧
      wrote n s' = rearmed s a || wrote n s.
Proof using Hrelease.
  intros Hs Hts Hp Ho.
  destruct (shape_lists s Hs) as (a0 & a1 & a2 & c0 & c1 & c2 & c3 & e0 & e1 & e2 & e3 & Ha & Hc & He).
  assert (He3 : event 3 (regs s) = e3) by (unfold event; by rewrite He).
  unfold counted, rearmed, late. rewrite He3 in *.
  assert (Hnp : ∀ s0, shape s0 → alarms s0 = alarms s → period s0 = period s →
    ∃ s', next_period s0 = Done s' ∧ _) by (intros s0 H1 H2 H3; apply next_period_all;
      [done|by rewrite H2|by rewrite H3]).
  destruct (events_ovrflw (regs s)) eqn:Hov; simpl in Ho.
  - subst e3. edestruct (Hnp (write_events_ovrflw false s)) as
      (s' & Hn & E1 & E2 & E3 & E4 & E5 & E6 & E7 & E8 & E9); [done..|].
    rewrite Hn. simpl. rewrite E5. simpl. rewrite He. simpl. exists s'.
    assert (Hev : ∀ n, event n (regs s') = event n (regs s)) by (intros n; unfold event; by rewrite E5).
    assert (shape s') by (destruct Hs as (? & ? & ?); simpl in *; split_and!; congruence).
    split_and!; try done; try apply E9. by rewrite Hev.
  - simpl. rewrite He. simpl. destruct e3; simpl.
    + edestruct (Hnp (write_events_compare 3 false s)) as
        (s' & Hn & E1 & E2 & E3 & E4 & E5 & E6 & E7 & E8 & E9); [|done|done|].
      { destruct Hs as (? & ? & ?). split_and!; try done. simpl. by rewrite length_insert. }
      rewrite Hn. exists s'. simpl in E5.
      assert (shape s').
      { destruct Hs as (? & ? & ?); simpl in *; split_and!; try congruence.
        by rewrite E5, length_insert. }
      split_and!; try done; try apply E9.
      * intros n Hn3. unfold event. by rewrite E5, list_lookup_insert_ne by lia.
      * unfold event. by rewrite E5, He.
      * by rewrite E6.
    + exists s. split_and!; try done. lia.
Qed.

Lemma on_interrupt_run s : shape s → Forall (λ a, 0 ≤ timestamp a < 2 ^ 64) (alarms s) →
  0 ≤ period s < 2 ^ 32 - 1 → events_ovrflw (regs s) && event 3 (regs s) = false →
  ∃ s', on_interrupt call s = Done s' ∧ Handled s s'.
Proof using Hrelease.
  intros Hs Hts Hp Ho. rewrite on_interrupt_counted.
  destruct (counted_all s Hs Hts Hp Ho) as
    (s1 & -> & A1 & A2 & A3 & A4 & A5 & A6 & A7 & A8 & A9 & A10). simpl.
  destruct (on_compare_all s1 A4) as (s2 & H2 & B1 & B2 & B3 & B4 & B5 & B6 & B7 & B9 & B8).
  exists s2. split; [exact H2|].
  assert (Hlt : ∀ n a, alarms s !! n = Some a → (n < 3)%nat).
  { intros n a Hn%lookup_lt_Some. by rewrite (proj1 Hs) in Hn. }
  split; try congruence.
  - intros k Hk. by rewrite B7, A9.
  - intros n. destruct (decide (n < 3)%nat) as [Hn|Hn].
    + destruct (alarm_some s1 n A4 Hn) as [a Ha]. by apply (B8 n a Ha).
    + destruct (decide (n = 3)%nat) as [->|]; [congruence|].
      unfold event. rewrite lookup_ge_None_2; [done|]. destruct B3 as (_ & _ & ->). lia.
  - intros n a Hn. rewrite <-(A5 n) by by eapply Hlt. apply B8. by rewrite A3.
  - intros n a Hn. rewrite <-(A5 n) by by eapply Hlt.
    destruct (B8 n a) as (_ & _ & ->); [by rewrite A3|].
    by destruct (A10 n a Hn) as [-> _].
  - intros n a Hn. rewrite B4. by destruct (A10 n a Hn) as (_ & -> & _).
  - intros n a Hn. rewrite B9. by destruct (A10 n a Hn) as (_ & _ & ->).
Qed.

(** [fired] are the alarms whose callbacks the handler runs: with a callback that fails
    for some of the functions it may be given, the handler fails if one of those is the
    callback of such an alarm, and does the same as with [call] if none is. *)
Definition allowed (ok : Z * Z → bool) (f : Z * Z) (s : RTC) : outcome RTC :=
  if ok f then Done s else Panic.
Definition callback_ok (ok : Z * Z → bool) (s : RTC) (n : nat) : bool :=
  match alarms s !! n with
  | Some a => match callback a with Some f => ok f | None => true end
  | None => true
  end.

Lemma on_compare_calls ok n s : on_compare (allowed ok) n s =
  if event n (regs s) && negb (callback_ok ok s n) then Panic else on_compare call n s.
Proof.
  unfold on_compare, event, callback_ok. destruct (events_compare (regs s) !! n) as [[]|]; simpl; try done.
  unfold trigger_alarm, allowed. simpl. destruct (alarms s !! n) as [a|]; simpl; [|done].
  destruct (callback a); [by case_match|done].
Qed.

Lemma on_compare_others ok n m s s' : m ≠ n → on_compare call n s = Done s' →
  event m (regs s') = event m (regs s) ∧ callback_ok ok s' m = callback_ok ok s m.
Proof.
  intros Hne. unfold on_compare. destruct (events_compare (regs s) !! n) as [[]|]; simpl;
    [|by intros [= <-]|done].
  unfold trigger_alarm. simpl. destruct (alarms s !! n) as [a|]; simpl; [|done].
  assert (Hd : match callback a with Some f => call f (triggered n (write_events_compare n false s))
    | None => Done (triggered n (write_events_compare n false s)) end =
    Done (triggered n (write_events_compare n false s))) by by destruct (callback a).
  unfold triggered in Hd. rewrite Hd. intros [= <-]. unfold event, callback_ok. simpl.
  by rewrite list_lookup_insert_ne, list_lookup_alter_ne by done.
Qed.

Lemma for_alarms_calls ok ns : ∀ s, NoDup ns →
  for_alarms (on_compare (allowed ok)) ns s =
  if forallb (λ n, negb (event n (regs s)) || callback_ok ok s n) ns
  then for_alarms (on_compare call) ns s else Panic.
Proof.
  induction ns as [|n ns IH]; intros s Hnd; [done|]. apply NoDup_cons in Hnd as [Hn Hnd].
  cbn [for_alarms forallb]. rewrite on_compare_calls.
  destruct (event n (regs s)) eqn:He, (callback_ok ok s n) eqn:Hc; simpl; try done;
    destruct (on_compare call n s) as [s1|] eqn:H1; simpl; try (by case_match);
    rewrite IH by done;
    (replace (forallb _ ns) with (forallb (λ m, negb (event m (regs s)) || callback_ok ok s m) ns);
     [done|]); clear -Hn H1; induction ns as [|m ns IHn]; try done; simpl;
    apply not_elem_of_cons in Hn as [Hnm Hn]; rewrite IHn by done;
    by destruct (on_compare_others ok n m s s1 (not_eq_sym Hnm) H1) as [-> ->].
Qed.

Lemma forallb_filter {A} (f g : A → bool) l :
  forallb f (List.filter g l) = forallb (λ x, negb (g x) || f x) l.
Proof. induction l as [|x l IH]; [done|]. simpl. destruct (g x); simpl; by rewrite IH. Qed.

Lemma handler_calls ok s : shape s → Forall (λ a, 0 ≤ timestamp a < 2 ^ 64) (alarms s) →
  0 ≤ period s < 2 ^ 32 - 1 → events_ovrflw (regs s) && event 3 (regs s) = false →
  on_interrupt (allowed ok) s =
  if forallb (callback_ok ok s) (fired s) then on_interrupt call s else Panic.
Proof using Hrelease.
  intros Hs Hts Hp Ho. rewrite on_interrupt_counted.
  assert (Hc : on_interrupt (allowed ok) s =
    (s2 ← counted s; for_alarms (on_compare (allowed ok)) (seq 0 ALARM_COUNT) s2)).
  { unfold on_interrupt, counted. destruct (events_ovrflw (regs s)); simpl;
      [destruct (next_period _); simpl; [|done]|]; by destruct (expect _). }
  rewrite Hc. destruct (counted_all s Hs Hts Hp Ho) as (s1 & -> & _ & _ & A3 & A4 & A5 & _).
  cbn [mbind outcome_bind]. rewrite for_alarms_calls by (apply NoDup_ListNoDup, List.seq_NoDup).
  unfold fired. rewrite forallb_filter. unfold callback_ok. rewrite A3. simpl.
  by rewrite !A5 by lia.
Qed.

(** ** Setting an alarm *)

(** What setting alarm [n] at time [t] leaves. *)
Record SetTo (n : nat) (ts t : Z) (s s' : RTC) : Prop := {
  st_counter : counter (regs s') = counter (regs s);
  st_period : period s' = period s;
  st_shape : shape s';
  st_events : events_compare (regs s') = events_compare (regs s);
  st_ovrflw : events_ovrflw (regs s') = events_ovrflw (regs s);
  st_inten k : k < 16 ∨ 18 < k → Z.testbit (inten (regs s')) k = Z.testbit (inten (regs s)) k;
  st_others m : m ≠ n → alarms s' !! m = alarms s !! m ∧ enabled m s' = enabled m s ∧
    cc (regs s') !! m = cc (regs s) !! m ∧ wrote m s' = wrote m s;
  st_alarm a : alarms s !! n = Some a → alarms s' !! n =
    Some (mkAlarm (if ts <=? t then u64_MAX else ts) (callback a));
  st_near : t < ts < t + 0xc00000 → enabled n s' = true ∧
    cc (regs s') !! n = Some (Z.max ts (t + 3) mod 2 ^ 24);
  st_far : t + 0xc00000 ≤ ts → enabled n s' = false
}.

Lemma compare_n_high n k : (n < 3)%nat → k < 16 ∨ 18 < k → Z.testbit (compare_n n) k = false.
Proof.
  intros Hn Hk. unfold compare_n. rewrite Z.shiftl_1_l, Z.pow2_bits_eqb by lia.
  apply Z.eqb_neq. lia.
Qed.

Lemma set_alarm_run n ts s t : shape s → (n < 3)%nat → at_time t s → 0 ≤ ts < 2 ^ 64 →
  ∃ s', set_alarm call n ts s = Done s' ∧ SetTo n ts t s s'.
Proof.
  intros Hs Hn Hat Hts. destruct (alarm_some s n Hs Hn) as [a Ha].
  assert (Hnow : now (set_timestamp n ts s) = t) by (apply nrf_now_at; by destruct Hat).
  pose proof (at_range _ _ Hat) as HT. pose proof Hs as (Hl1 & Hl2 & Hl3).
  unfold set_alarm. rewrite Ha. cbn [expect mbind outcome_bind]. rewrite Hnow.
  assert (Hal : alarms (set_timestamp n ts s) !! n = Some (mkAlarm ts (callback a))).
  { simpl. by rewrite list_lookup_alter_eq, Ha. }
  assert (Hoth : ∀ m f, m ≠ n → alter f n (alarms s) !! m = alarms s !! m).
  { intros m f Hm. by rewrite list_lookup_alter_ne. }
  destruct (Z.leb_spec ts t) as [Hle|Hlt].
  - exists (triggered n (set_timestamp n ts s)). split.
    { rewrite (trigger_alarm_run call n _ _ Hal). by destruct (callback a). }
    split; try done.
    + by split_and!; simpl; rewrite ?length_alter.
    + intros k Hk. simpl. by rewrite Z.ldiff_spec, compare_n_high, andb_true_r.
    + intros m Hm. split; [by simpl; rewrite !list_lookup_alter_ne|]. split; [|done].
      etrans; [exact (enabled_clr n m (set_timestamp n ts s))|].
      rewrite bool_decide_false by done. apply andb_true_r.
    + intros a' Ha'. rewrite Ha in Ha'. injection Ha' as <-. rewrite (proj2 (Z.leb_le _ _)) by lia.
      by apply (triggered_alarm n (mkAlarm ts (callback a))).
    + lia.
    + lia.
  - rewrite (arith_fits 64 (ts - t)) by lia. simpl. destruct (Z.ltb_spec (ts - t) 0xc00000) as [Hd|Hd].
    + rewrite (arith_fits 64 (t + 3)) by lia. simpl. rewrite low_24. eexists. split; [done|].
      split; try done; simpl.
      * by split_and!; simpl; rewrite ?length_alter, ?length_insert.
      * intros k Hk. by rewrite Z.lor_spec, compare_n_high, orb_false_r.
      * intros m Hm. rewrite list_lookup_insert_ne by done. split_and!; [by apply Hoth| |done|].
        2:{ unfold wrote. simpl. apply bool_decide_ext. rewrite elem_of_cons. clear -Hm; naive_solver. }
        unfold enabled. simpl. rewrite Z.lor_spec, compare_n_bit, bool_decide_false by done.
        apply orb_false_r.
      * intros a' Ha'. rewrite Ha in Ha'. injection Ha' as <-. by rewrite (proj2 (Z.leb_gt _ _)) by lia.
      * intros _. unfold enabled. simpl. rewrite Z.lor_spec, compare_n_bit, bool_decide_true by done.
        split; [apply orb_true_r|]. apply list_lookup_insert_eq. lia.
      * lia.
    + eexists. split; [done|]. split; try done; simpl.
      * by split_and!; simpl; rewrite ?length_alter.
      * intros k Hk. by rewrite Z.ldiff_spec, compare_n_high, andb_true_r.
      * intros m Hm. split_and!; [by apply Hoth| |done|done].
        unfold enabled. simpl. rewrite Z.ldiff_spec, compare_n_bit, bool_decide_false by done.
        apply andb_true_r.
      * intros a' Ha'. rewrite Ha in Ha'. injection Ha' as <-. by rewrite (proj2 (Z.leb_gt _ _)) by lia.
      * lia.
      * intros _. unfold enabled. simpl. rewrite Z.ldiff_spec, compare_n_bit, bool_decide_true by done.
        apply andb_false_r.
Qed.

(** ** The invariant is kept *)

Lemma event_count t hits w r n : (n < 4)%nat → event n (count t hits w r) =
  event n r || matched t (t mod 2 ^ 24) (default true (hits !! n)) (default 0 (w !! n)) n r.
Proof.
  intros Hn. unfold event at 1. simpl.
  by destruct n as [|[|[|[|n]]]]; [..|lia].
Qed.

(** The fourth register marks the middle of the counter's range. *)
Lemma event3_count t hits w r : cc r !! 3%nat = Some 0x800000 →
  event 3 (count t (take 3 hits) w r) = event 3 r || (t mod 2 ^ 24 =? 0x800000).
Proof.
  intros Hc. rewrite event_count by lia. f_equal. unfold matched.
  rewrite lookup_take_ge by lia. simpl. rewrite orb_true_r, andb_true_r, Hc.
  rewrite Z.eqb_sym. case_bool_decide; case_bool; congruence.
Qed.

Lemma event_pending s n : (n < 4)%nat → event n (regs s) = true →
  Z.testbit (inten (regs s)) (Z.of_nat n + 16) = true → irq_pending (regs s) = true.
Proof.
  intros Hn He Hi. unfold irq_pending. apply orb_true_iff. right. apply existsb_exists.
  exists n. rewrite He, Hi. split; [|done]. apply in_seq. lia.
Qed.

Lemma late_pending s : Z.testbit (inten (regs s)) 1 = true → Z.testbit (inten (regs s)) 19 = true →
  late s = true → irq_pending (regs s) = true.
Proof.
  intros H1 H19 [Ho|He]%orb_true_iff; [|by apply (event_pending s 3); [lia|done|]].
  unfold irq_pending. by rewrite Ho, H1.
Qed.

Lemma quiet_not_pending s : (∀ n, event n (regs s) = false) → events_ovrflw (regs s) = false →
  irq_pending (regs s) = false.
Proof. intros He Ho. unfold irq_pending. by rewrite Ho; simpl; rewrite !He. Qed.

Lemma length_stamp t s w : length (stamp t s w) = 3%nat.
Proof. unfold stamp. by rewrite length_fmap. Qed.

Lemma stamp_lookup t s w n : (n < 3)%nat → stamp t s w !! n =
  Some (if wrote n s then t + 1 else default 0 (w !! n)).
Proof. intros Hn. unfold stamp. rewrite list_lookup_fmap, lookup_seq_lt by done. done. Qed.

(** A register that was not written keeps its stamp, which is right if it was right. *)
Lemma stamp_same t s s' w n : (n < 3)%nat → length w = 3%nat →
  (wrote n s = true → w !! n = Some (t + 1)) → wrote n s' = wrote n s → stamp t s' w !! n = w !! n.
Proof.
  intros Hn Hl Hs Hw. rewrite stamp_lookup, Hw by done. destruct (wrote n s); [by rewrite Hs|].
  destruct (lookup_lt_is_Some_2 w n) as [y Hy]; [lia|]. by rewrite Hy.
Qed.

Lemma stamp_ok t s w : length w = 3%nat → Forall (λ x, x ≤ t + 1) w →
  length (stamp t s w) = 3%nat ∧ Forall (λ x, x ≤ t + 1) (stamp t s w).
Proof.
  intros Hl Hw. split; [apply length_stamp|]. apply Forall_lookup. intros n x Hx.
  assert (Hn : (n < 3)%nat) by (apply lookup_lt_Some in Hx; by rewrite length_stamp in Hx).
  rewrite stamp_lookup in Hx by done. injection Hx as <-. destruct (wrote n s); [lia|].
  destruct (lookup_lt_is_Some_2 w n) as [y Hy]; [lia|]. rewrite Hy. simpl.
  by eapply Forall_lookup in Hw.
Qed.

(** The times a period may begin. *)
Lemma next_tick t : 0 ≤ t →
  (t + 1) / 2 ^ 23 = t / 2 ^ 23 + Z.b2z (((t + 1) mod 2 ^ 24 =? 0) || ((t + 1) mod 2 ^ 24 =? 0x800000)) ∧
  ((t + 1) mod 2 ^ 24 =? 0) && ((t + 1) mod 2 ^ 24 =? 0x800000) = false ∧
  ((t + 1) / 2 ^ 23 ≠ t / 2 ^ 23 → t + 1 = (t + 1) / 2 ^ 23 * 2 ^ 23).
Proof. intros Ht. do 2 case_bool; cbn; split_and!; try done; zdiv. Qed.

Lemma tick_ok hits m m' : TOk m → rtc_tick hits m = Some m' → TOk m' ∧ time m' = time m + 1.
Proof.
  intros O Hm. unfold rtc_tick in Hm. destruct (_ || _) eqn:Hg; [done|]. injection Hm as <-.
  split; [|done]. apply orb_false_iff in Hg as [Hd HT%Z.leb_gt].
  set (t := time m) in *. set (s := rtc m) in *. pose proof (ok_range m O) as Hr. fold t in Hr.
  destruct (ok_period m O) as [Hp HTp]. destruct (ok_inten m O) as [Hi1 Hi19].
  pose proof (ok_once m O) as Ho. fold t s in HTp, Hp, Hi1, Hi19, Ho.
  set (s' := mkRTC (count (t + 1) (take 3 hits) (written m) (regs s)) (period s) (alarms s)).
  destruct (next_tick t) as (N1 & N2 & N3); [lia|].
  assert (He3 : event 3 (regs s') = event 3 (regs s) || ((t + 1) mod 2 ^ 24 =? 0x800000)).
  { apply event3_count. apply O. }
  assert (Hlate : late s = true → ∃ d, due m = Some d ∧ d ≤ t / 2 ^ 23 * 2 ^ 23 + latency ∧
    t < d ∧ (t + 1) / 2 ^ 23 = t / 2 ^ 23).
  { intros Hl. destruct (ok_late m O Hl) as (d & Hdue & Hdb). fold t in Hdb. exists d.
    rewrite Hdue in Hd. apply Z.leb_gt in Hd. split_and!; [done|lia|lia|]. zdiv. }
  split; cbn [settle time rtc written due]; fold s'.
  - lia.
  - done.
  - destruct (ok_shape m O) as (? & ? & ?). by split_and!; simpl; rewrite ?length_fmap.
  - apply O.
  - by split.
  - destruct (ok_written m O) as [? Hw]. split; [done|]. eapply Forall_impl; [exact Hw|].
    cbn. lia.
  - done.
  - apply O.
  - rewrite He3. cbn [regs s' count events_ovrflw].
    destruct (late s) eqn:Hl.
    + destruct (Hlate eq_refl) as (_ & _ & _ & _ & Heq). rewrite Heq in N1.
      destruct (_ =? 0), (_ =? 0x800000); simpl in N1; try lia. by rewrite !orb_false_r.
    + apply orb_false_iff in Hl as [-> ->]. done.
  - split; [done|]. rewrite He3. cbn [regs s' count events_ovrflw period].
    destruct (late s) eqn:Hl.
    + destruct (Hlate eq_refl) as (_ & _ & _ & _ & Heq). rewrite Heq, HTp. unfold late in Hl.
      rewrite Hl. rewrite orb_assoc, <-(orb_assoc (events_ovrflw _)), (orb_comm _ (event 3 _)),
        orb_assoc, Hl. done.
    + pose proof Hl as [Hl1 Hl2]%orb_false_iff. rewrite N1, HTp, Hl1, Hl2. simpl. lia.
  - pose proof (ok_due m O) as Hdue. fold t s in Hdue.
    destruct (irq_pending (regs s')) eqn:Hpd; [|done]. split; [|done].
    destruct (due m) as [d|]; simpl; [|lia]. apply Z.leb_gt in Hd. lia.
  - intros Hl'. assert (Hpd : irq_pending (regs s') = true) by by apply late_pending.
    rewrite Hpd. destruct (late s) eqn:Hl.
    + destruct (Hlate eq_refl) as (d & -> & Hdb & _ & Heq). exists d. split; [done|]. rewrite Heq. lia.
    + eexists. split; [done|]. pose proof Hl as [Hl1 Hl2]%orb_false_iff.
      rewrite He3, Hl2 in Hl'. cbn [regs s' count events_ovrflw] in Hl'. rewrite Hl1 in Hl'.
      cbn [orb] in Hl'. rewrite Hl' in N1. cbn in N1.
      rewrite <-N3 by lia. pose proof (ok_due m O) as Hdue. fold t in Hdue.
      destruct (due m) as [d|]; simpl; lia.
Qed.

Lemma period_bound m : TOk m → 0 ≤ period (rtc m) < 2 ^ 32 - 1.
Proof.
  intros O. destruct (ok_period m O) as [Hp HT]. pose proof (ok_range m O).
  destruct (_ || _); cbn in HT; zdiv.
Qed.

Lemma irq_handled m l m' : TOk m → rtc_irq m = Some (l, m') →
  irq_pending (regs (rtc m)) = true ∧ l = fired (rtc m) ∧ Handled (rtc m) (rtc m') ∧
  time m' = time m ∧ due m' = None ∧
  written m' = stamp (time m) (rtc m') (written m).
Proof using Hrelease.
  intros O. unfold rtc_irq. destruct (irq_pending _) eqn:Hp; [|done].
  destruct (on_interrupt_run (rtc m)) as (s' & -> & H); try apply O; [by apply period_bound|].
  intros [= <- <-]. unfold acted, settle. cbn [time rtc due written]. split_and!; try done.
  rewrite quiet_not_pending; [done|apply H|apply H].
Qed.

Lemma irq_ok m l m' : TOk m → rtc_irq m = Some (l, m') → TOk m'.
Proof using Hrelease.
  intros O Hm. destruct (irq_handled m l m' O Hm) as (_ & _ & H & Ht & Hd & Hw).
  pose proof (ok_period m O) as [Hp HT]. fold (late (rtc m)) in HT.
  assert (He : events_ovrflw (regs (rtc m')) || event 3 (regs (rtc m')) = false).
  { by rewrite (h_ovrflw _ _ H), (h_events _ _ H). }
  split; rewrite ?Ht, ?He.
  - apply O.
  - rewrite (h_counter _ _ H). apply O.
  - apply H.
  - rewrite (h_cc3 _ _ H). apply O.
  - rewrite !(h_inten _ _ H) by lia. apply O.
  - rewrite Hw. apply stamp_ok; apply O.
  - intros n Hn Hwr. rewrite Hw, stamp_lookup by done. by rewrite Hwr.
  - apply Forall_lookup. intros n a Hn. destruct (alarms (rtc m) !! n) as [b|] eqn:Hb.
    + rewrite (h_alarm _ _ H n b Hb) in Hn. injection Hn as <-. pose proof (ok_timestamps m O) as Hts.
      rewrite Forall_lookup in Hts. specialize (Hts n b Hb).
      destruct (event n (regs (rtc m))); [cbn; unfold u64_MAX; lia|done].
    + apply lookup_lt_Some in Hn. apply lookup_ge_None in Hb.
      rewrite (proj1 (h_shape _ _ H)) in Hn. rewrite (proj1 (ok_shape m O)) in Hb. lia.
  - apply orb_false_iff in He as [-> _]. done.
  - rewrite (h_period _ _ H). split; [destruct (late _); cbn; lia|]. rewrite HT. cbn. lia.
  - rewrite Hd. apply quiet_not_pending; apply H.
  - done.
Qed.

Lemma set_run n ts m b m' : TOk m → (n < 3)%nat → 0 ≤ ts < 2 ^ 64 → rtc_set n ts m = Some (b, m') →
  b = (ts <=? time m) ∧ SetTo n ts (time m) (rtc m) (rtc m') ∧ time m' = time m ∧
  due m' = (if irq_pending (regs (rtc m')) then Some (default (time m + latency) (due m)) else None) ∧
  written m' = stamp (time m) (rtc m') (written m).
Proof.
  intros O Hn Hts. unfold rtc_set.
  destruct (set_alarm_run n ts (rtc m) (time m)) as (s' & -> & H); [apply O|done|by apply TOk_at|done|].
  rewrite (nrf_now_at (time m)) by by apply TOk_at. by intros [= <- <-].
Qed.

Lemma set_defined n ts m : TOk m → (n < 3)%nat → 0 ≤ ts < 2 ^ 64 → is_Some (rtc_set n ts m).
Proof.
  intros O Hn Hts. unfold rtc_set.
  destruct (set_alarm_run n ts (rtc m) (time m)) as (s' & -> & H); [apply O|done|by apply TOk_at|done|].
  done.
Qed.

Lemma set_event n ts t s s' k : SetTo n ts t s s' → event k (regs s') = event k (regs s).
Proof. intros H. unfold event. by rewrite (st_events _ _ _ _ _ H). Qed.

Lemma set_ok n ts m b m' : TOk m → (n < 3)%nat → 0 ≤ ts < 2 ^ 64 →
  rtc_set n ts m = Some (b, m') → TOk m'.
Proof using Hlatency.
  intros O Hn Hts Hm. destruct (set_run n ts m b m' O Hn Hts Hm) as (_ & H & Ht & Hd & Hw).
  pose proof (set_event _ _ _ _ _ 3 H) as He3. pose proof (ok_due m O) as Hdue.
  destruct (ok_inten m O) as [Hi1 Hi19].
  rewrite <-(st_inten _ _ _ _ _ H) in Hi1, Hi19 by lia.
  split; rewrite ?Ht, ?He3, ?(st_ovrflw _ _ _ _ _ H), ?(st_period _ _ _ _ _ H).
  - apply O.
  - rewrite (st_counter _ _ _ _ _ H). apply O.
  - apply H.
  - destruct (st_others _ _ _ _ _ H 3%nat) as (_ & _ & -> & _); [lia|]. apply O.
  - done.
  - rewrite Hw. apply stamp_ok; apply O.
  - intros k Hk Hwr. rewrite Hw, stamp_lookup by done. by rewrite Hwr.
  - apply Forall_lookup. intros k a Hk. pose proof (ok_timestamps m O) as Hall.
    rewrite Forall_lookup in Hall. destruct (decide (k = n)) as [->|Hne].
    + destruct (alarm_some _ n (ok_shape m O) Hn) as [a0 Ha0].
      rewrite (st_alarm _ _ _ _ _ H a0 Ha0) in Hk. injection Hk as <-.
      simpl. case_bool; [unfold u64_MAX; lia|done].
    + destruct (st_others _ _ _ _ _ H k Hne) as (E & _). rewrite E in Hk. by eapply Hall.
  - apply O.
  - apply O.
  - rewrite Hd. destruct (irq_pending (regs (rtc m'))); [|done]. split; [|done].
    destruct (due m); simpl; lia.
  - intros Hl. destruct (ok_late m O Hl) as (d & E & Hb). exists d. split; [|done].
    rewrite Hd, late_pending, E; try done.
    unfold late. by rewrite He3, (st_ovrflw _ _ _ _ _ H).
Qed.

(** ** An alarm that is waited for

    It is far ahead and left to a later period; or its register has the value [c], which
    the counter reaches at [ts] or, if [ts] is in the current period, up to two ticks
    later; or its event has been raised.  If [ts] is in a later period, it is not in its
    first ticks, when the interrupt of the period may write the register again. *)
Definition calm (ts : Z) : bool := latency + 2 <? ts mod 2 ^ 23.
Definition far (ts : Z) (m : Timed) : Prop := base_of (rtc m) + 2 ^ 22 ≤ ts ∧ calm ts = true.
Definition armed_for (n : nat) (ts c : Z) (m : Timed) : Prop :=
  ts ≤ c ≤ ts + 2 ∧ (c = ts ∧ calm ts = true ∨ ts < base_of (rtc m)) ∧ time m < c < time m + 2 ^ 24 ∧
  cc (regs (rtc m)) !! n = Some (c mod 2 ^ 24) ∧ enabled n (rtc m) = true ∧
  ∃ w, written m !! n = Some w ∧ w + 2 ≤ c.
Definition raised (n : nat) (ts : Z) (m : Timed) : Prop :=
  event n (regs (rtc m)) = true ∧ enabled n (rtc m) = true ∧
  ∃ d, due m = Some d ∧ d ≤ ts + 2 + latency.
Definition Waits (n : nat) (ts : Z) (m : Timed) : Prop :=
  (∃ cb, alarms (rtc m) !! n = Some (mkAlarm ts cb)) ∧
  (far ts m ∨ (∃ c, armed_for n ts c m) ∨ raised n ts m).

(** Setting it like this is safe. *)
Definition set_safe (ts : Z) (m : Timed) : bool :=
  (ts <=? time m) || (ts <? base_of (rtc m)) || calm ts.

Lemma calm_after ts b : calm ts = true → (b * 2 ^ 23) ≤ ts → b * 2 ^ 23 + latency + 3 ≤ ts.
Proof.
  unfold calm. intros Hc%Z.ltb_lt Hb. pose proof (Z.div_mod ts (2 ^ 23) ltac:(lia)).
  assert (b ≤ ts / 2 ^ 23) by (apply Z.div_le_lower_bound; lia). lia.
Qed.

Lemma time_of_period m : TOk m →
  (late (rtc m) = false → time m < base_of (rtc m) ≤ time m + 2 ^ 23) ∧
  (late (rtc m) = true → base_of (rtc m) ≤ time m ≤ base_of (rtc m) + latency).
Proof.
  intros O. destruct (ok_period m O) as [Hp HT]. fold (late (rtc m)) in HT. unfold base_of.
  split; intros Hl; rewrite Hl in HT; cbn in HT; [zdiv|].
  destruct (ok_late m O Hl) as (d & Hd & Hb). pose proof (ok_due m O) as Hdue. rewrite Hd in Hdue.
  split; [zdiv|]. rewrite HT in Hb. lia.
Qed.

Lemma waits_bound n ts m : TOk m → Waits n ts m → time m ≤ ts + 2 + latency.
Proof using Hlatency.
  intros O [_ [[H _]|[(c & H & _ & Hc & _)|(_ & _ & d & Hd & Hb)]]]; [|lia|].
  - destruct (time_of_period m O) as [H1 H2]. unfold far in H.
    destruct (late (rtc m)); [specialize (H2 eq_refl)|specialize (H1 eq_refl)]; lia.
  - pose proof (ok_due m O) as Hdue. rewrite Hd in Hdue. lia.
Qed.

(** The register keeps its value while nobody sets the alarm. *)
Lemma armed_tick n ts c hits m m' : armed_for n ts c m → rtc_tick hits m = Some m' →
  time m' = time m + 1 ∧ (time m' < c → armed_for n ts c m').
Proof.
  intros (Hr & Hc0 & Hc & Hcc & Hen & w & Hw & Hw2) Hm. unfold rtc_tick in Hm.
  destruct (_ || _); [done|]. injection Hm as <-. split; [done|]. cbn [settle time]. intros Hlt.
  split_and!; cbn [settle time]; try done; try lia. by exists w.
Qed.

Lemma armed_irq n ts c cb l m m' : TOk m → (n < 3)%nat → armed_for n ts c m →
  alarms (rtc m) !! n = Some (mkAlarm ts cb) → event n (regs (rtc m)) = false →
  rtc_irq m = Some (l, m') → armed_for n ts c m'.
Proof using Hrelease.
  intros O Hn (Hr & Hc0 & Hc & Hcc & Hen & w & Hw & Hw2) Hcb He Hm.
  destruct (irq_handled m l m' O Hm) as (_ & _ & H & Ht & _ & Hw').
  pose proof (h_enabled _ _ H n _ Hcb) as Hen'. rewrite He, Hen, orb_true_r in Hen'.
  pose proof (h_cc _ _ H n _ Hcb) as Hcc'.
  assert (Hsame : cc (regs (rtc m')) !! n = cc (regs (rtc m)) !! n).
  { rewrite Hcc'. unfold rearmed. destruct (late (rtc m)); [|done]. cbn [andb timestamp].
    unfold near. cbn [timestamp]. destruct (Z.leb_spec 0 (ts - base_of (rtc m))); [|done].
    destruct Hc0 as [[-> _]|]; [|lia]. rewrite Hcc. cbn [andb]. by destruct (_ <? _). }
  unfold armed_for. rewrite Ht, Hsame, Hw'. split_and!; try done; try lia.
  - destruct Hc0 as [|Hc0]; [by left|]. right. unfold base_of in *.
    rewrite (h_period _ _ H). destruct (late _); cbn; lia.
  - pose proof (h_wrote _ _ H n _ Hcb) as Hwr.
    destruct (rearmed (rtc m) (mkAlarm ts cb)) eqn:Hre.
    + exists (time m + 1). rewrite stamp_lookup, Hwr by done. split; [done|].
      apply andb_true_iff in Hre as [Hl Hnear]. unfold near in Hnear. cbn [timestamp] in Hnear.
      apply andb_true_iff in Hnear as [Hge%Z.leb_le _]. destruct Hc0 as [[-> Hcalm]|]; [|lia].
      destruct (time_of_period m O) as [_ Hlate]. specialize (Hlate Hl).
      pose proof (calm_after ts (period (rtc m) + 1) Hcalm). unfold base_of in *. lia.
    + exists w. split; [|done]. rewrite (stamp_same _ (rtc m)); [done|done|apply O|by apply O|done].
Qed.

Lemma armed_other n ts c k ts' b m m' : TOk m → (n < 3)%nat → (k < 3)%nat → k ≠ n →
  0 ≤ ts' < 2 ^ 64 → armed_for n ts c m → rtc_set k ts' m = Some (b, m') → armed_for n ts c m'.
Proof.
  intros O Hn Hk Hne Hts (Hr & Hc0 & Hc & Hcc & Hen & w & Hw & Hw2) Hm.
  destruct (set_run k ts' m b m' O Hk Hts Hm) as (_ & H & Ht & _ & Hw').
  destruct (st_others _ _ _ _ _ H n) as (_ & Ee & Ec & Ew); [done|].
  unfold armed_for, base_of. rewrite Ht, (st_period _ _ _ _ _ H), Ec, Ee, Hw'.
  split_and!; try done; try lia. exists w. split; [|done].
  rewrite (stamp_same _ (rtc m)); [done|done|apply O|by apply O|done].
Qed.

(** It matches at [c] and not before. *)
Lemma armed_match n ts c hits m m' : TOk m → (n < 3)%nat → armed_for n ts c m →
  rtc_tick hits m = Some m' →
  event n (regs (rtc m')) = event n (regs (rtc m)) || (time m' =? c) ∧
  enabled n (rtc m') = enabled n (rtc m).
Proof.
  intros O Hn (Hr & Hc0 & Hc & Hcc & Hen & w & Hw & Hw2) Hm. unfold rtc_tick in Hm.
  destruct (_ || _); [done|]. injection Hm as <-. split; [|done]. cbn [settle rtc regs time].
  rewrite event_count by lia. f_equal. unfold matched. rewrite Hw, Hcc. cbn [default from_option id].
  destruct (Z.eqb_spec (time m + 1) c) as [<-|Hne].
  - rewrite bool_decide_true by done. unfold enabled in Hen.
    by rewrite Hen, (proj2 (Z.leb_le _ _)) by lia.
  - rewrite bool_decide_false; [done|]. intros [= Heq].
    assert (Hz : (c - (time m + 1)) mod 2 ^ 24 = 0) by by rewrite Zminus_mod, Heq, Z.sub_diag.
    rewrite Z.mod_small in Hz by lia. lia.
Qed.

Lemma tick_due hits m m' : rtc_tick hits m = Some m' → irq_pending (regs (rtc m')) = true →
  due m' = Some (default (time m' + latency) (due m)).
Proof.
  unfold rtc_tick. destruct (_ || _); [done|]. intros [= <-]. cbn [settle rtc due time]. by intros ->.
Qed.

Lemma waits_tick n ts hits m m' : TOk m → (n < 3)%nat → Waits n ts m →
  rtc_tick hits m = Some m' → Waits n ts m'.
Proof.
  intros O Hn [Hcb Hph] Hm.
  assert (Hsame : alarms (rtc m') = alarms (rtc m) ∧ base_of (rtc m') = base_of (rtc m)).
  { unfold rtc_tick in Hm. destruct (_ || _); [done|]. by injection Hm as <-. }
  destruct Hsame as [Ha Hb]. split; [by rewrite Ha|].
  destruct Hph as [H|[(c & Hc)|(He & Hen & d & Hdue & Hd)]].
  - left. unfold far. by rewrite Hb.
  - right. destruct (armed_tick n ts c hits m m' Hc Hm) as [Ht Hnext].
    destruct (armed_match n ts c hits m m' O Hn Hc Hm) as [He Hen].
    destruct Hc as (Hr & _ & Hc & _ & Hen0 & _). rewrite Hen0 in Hen.
    destruct (Z.eqb_spec (time m') c) as [Hcc|Hcc]; [|left; exists c; apply Hnext; lia].
    right. rewrite orb_true_r in He. split_and!; [done|done|]. eexists.
    split; [apply (tick_due hits m); [done|by apply (event_pending _ n); [lia| |]]|].
    pose proof (ok_due m O) as Hdue. destruct (due m) as [d|]; simpl; lia.
  - right. right. unfold rtc_tick in Hm. destruct (_ || _); [done|]. injection Hm as <-.
    assert (He' : event n (count (time m + 1) (take 3 hits) (written m) (regs (rtc m))) = true).
    { rewrite event_count by lia. by rewrite He. }
    split_and!; [done|done|]. exists d. cbn [settle due].
    rewrite (event_pending _ n), Hdue; [done|lia|done|done].
Qed.

Lemma waits_irq n ts l m m' : TOk m → (n < 3)%nat → Waits n ts m →
  rtc_irq m = Some (l, m') → n ∈ l ∨ Waits n ts m'.
Proof using Hrelease Hlatency.
  intros O Hn [[cb Hcb] Hph] Hm. destruct (irq_handled m l m' O Hm) as (_ & -> & H & Ht & _ & Hw').
  destruct (event n (regs (rtc m))) eqn:He.
  { left. apply list_elem_of_In, List.filter_In. split; [apply in_seq; unfold ALARM_COUNT; lia|done]. }
  right. pose proof (h_alarm _ _ H n _ Hcb) as Hcb'. rewrite He in Hcb'.
  pose proof (h_enabled _ _ H n _ Hcb) as Hen'. rewrite He in Hen'.
  pose proof (h_cc _ _ H n _ Hcb) as Hcc'. cbn [timestamp] in Hcc'.
  split; [by eexists|]. destruct (time_of_period m O) as [Hno Hlt].
  assert (Hb : base_of (rtc m') = base_of (rtc m) + Z.b2z (late (rtc m)) * 2 ^ 23).
  { unfold base_of. rewrite (h_period _ _ H). lia. }
  unfold rearmed in *. destruct Hph as [Hf|[(c & Hc)|(? & _)]]; [| |congruence].
  - destruct Hf as [Hf Hcalm]. unfold far. destruct (late (rtc m)) eqn:Hl; cbn [andb Z.b2z] in *;
      [|left; split; [lia|done]].
    unfold near in *. cbn [timestamp] in *. specialize (Hlt eq_refl).
    rewrite (proj2 (Z.leb_le 0 _)) in * by lia. cbn [andb] in *.
    destruct (Z.ltb_spec (ts - base_of (rtc m)) 0xc00000) as [Hd|Hd]; [|left; split; [lia|done]].
    right. left. exists ts. unfold armed_for. rewrite Ht, Hcc', Hen', Hw'.
    split_and!; try done; [lia|left; by split|lia|lia|].
    destruct (ok_written m O) as [L W].
    destruct (stamp_ok (time m) (rtc m') (written m) L W) as [L' W'].
    destruct (lookup_lt_is_Some_2 (stamp (time m) (rtc m') (written m)) n) as [x Hx]; [lia|].
    exists x. split; [done|]. rewrite Forall_lookup in W'. specialize (W' n x Hx). lia.
  - right. left. exists c. eapply armed_irq; done.
Qed.

Lemma waits_other n ts k ts' b m m' : TOk m → (n < 3)%nat → (k < 3)%nat → k ≠ n →
  0 ≤ ts' < 2 ^ 64 → Waits n ts m → rtc_set k ts' m = Some (b, m') → Waits n ts m'.
Proof.
  intros O Hn Hk Hne Hts [Hcb Hph] Hm.
  destruct (set_run k ts' m b m' O Hk Hts Hm) as (_ & H & Ht & Hd & Hw).
  destruct (st_others _ _ _ _ _ H n) as (Ea & Ee & Ec & _); [done|].
  split; [by rewrite Ea|].
  assert (Hb : base_of (rtc m') = base_of (rtc m)).
  { unfold base_of. by rewrite (st_period _ _ _ _ _ H). }
  destruct Hph as [Hf|[(c & Hc)|(He & Hen & d & Hdue & Hdb)]].
  - left. unfold far in *. by rewrite Hb.
  - right. left. exists c. by eapply armed_other.
  - right. right. unfold raised. rewrite (set_event _ _ _ _ _ n H), Ee, Hd. split_and!; try done.
    exists d. rewrite (event_pending _ n), Hdue; [done|lia| |].
    + by rewrite (set_event _ _ _ _ _ n H).
    + change (enabled n (rtc m') = true). by rewrite Ee.
Qed.

Lemma set_armed n ts b m m' : TOk m → (n < 3)%nat → 0 ≤ ts < 2 ^ 64 →
  set_safe ts m = true → rtc_set n ts m = Some (b, m') → time m < ts < time m + 0xc00000 →
  armed_for n ts (Z.max ts (time m + 3)) m'.
Proof using Hlatency.
  intros O Hn Hts Hsafe Hm Hd. destruct (set_run n ts m b m' O Hn Hts Hm) as (_ & H & Ht & _ & Hw).
  destruct (st_near _ _ _ _ _ H) as [He Hc]; [lia|].
  unfold armed_for, base_of. rewrite Ht, (st_period _ _ _ _ _ H), He, Hc, Hw. fold (base_of (rtc m)).
  split_and!; try done; try lia.
  - unfold set_safe in Hsafe. rewrite !orb_true_iff, Z.leb_le, Z.ltb_lt in Hsafe.
    destruct (decide (ts < base_of (rtc m))) as [|Hge]; [by right|left].
    destruct Hsafe as [[?|?]|Hcalm]; [lia|done|]. split; [|done].
    destruct (time_of_period m O) as [H1 H2].
    pose proof (calm_after ts (period (rtc m) + 1) Hcalm). unfold base_of in *.
    destruct (late (rtc m)); [specialize (H2 eq_refl)|specialize (H1 eq_refl)]; lia.
  - destruct (ok_written m O) as [L W].
    destruct (stamp_ok (time m) (rtc m') (written m) L W) as [L' W'].
    destruct (lookup_lt_is_Some_2 (stamp (time m) (rtc m') (written m)) n) as [x Hx]; [lia|].
    exists x. split; [done|]. rewrite Forall_lookup in W'. specialize (W' n x Hx). lia.
Qed.

Lemma waits_set n ts b m m' : TOk m → (n < 3)%nat → 0 ≤ ts < 2 ^ 64 →
  set_safe ts m = true → rtc_set n ts m = Some (b, m') →
  if b then ts ≤ time m else time m < ts ∧ Waits n ts m'.
Proof using Hlatency.
  intros O Hn Hts Hsafe Hm. destruct (set_run n ts m b m' O Hn Hts Hm) as (-> & H & Ht & _ & Hw).
  destruct (Z.leb_spec ts (time m)) as [|Hlt]; [done|]. split; [done|].
  destruct (alarm_some _ n (ok_shape m O) Hn) as [a Ha].
  pose proof (st_alarm _ _ _ _ _ H a Ha) as Ha'. rewrite (proj2 (Z.leb_gt _ _)) in Ha' by done.
  split; [by eexists|].
  assert (Hb : base_of (rtc m') = base_of (rtc m)).
  { unfold base_of. by rewrite (st_period _ _ _ _ _ H). }
  destruct (time_of_period m O) as [H1 H2].
  destruct (decide (ts < time m + 0xc00000)) as [Hn1|Hf].
  - right. left. eexists. eapply set_armed; [done..|lia].
  - unfold set_safe in Hsafe. rewrite !orb_true_iff, Z.leb_le, Z.ltb_lt in Hsafe.
    left. unfold far. rewrite Hb.
    destruct (late (rtc m)); [specialize (H2 eq_refl)|specialize (H1 eq_refl)]; (split; [lia|]);
      destruct Hsafe as [[?|?]|?]; try lia; done.
Qed.

(** ** Runs *)

Inductive TAct : Type :=
| Tick (hits : list bool)
| Handler
| SetAlarm (n : nat) (ts : Z).

(** The alarms whose callbacks are run. *)
Definition tstep (a : TAct) (m : Timed) : option (list nat * Timed) :=
  match a with
  | Tick hits => m' ← rtc_tick hits m; Some ([], m')
  | Handler => rtc_irq m
  | SetAlarm n ts => '(b, m') ← rtc_set n ts m; Some (if b : bool then [n] else [], m')
  end.
Fixpoint trun (acts : list TAct) (m : Timed) : option (list nat * Timed) :=
  match acts with
  | [] => Some ([], m)
  | a :: acts' =>
      '(l, m') ← tstep a m;
      '(l', m'') ← trun acts' m';
      Some (l ++ l', m'')
  end.
(** Alarms are set by their owners; [n] is not set again. *)
Definition others_only (n : nat) (a : TAct) : Prop :=
  match a with SetAlarm k ts => (k < 3)%nat ∧ k ≠ n ∧ 0 ≤ ts < 2 ^ 64 | _ => True end.

Lemma tstep_ok n a m l m' : others_only n a → TOk m → tstep a m = Some (l, m') →
  TOk m' ∧ time m ≤ time m' ∧ ((∃ hits, a = Tick hits) ∨ time m' = time m).
Proof using Hrelease Hlatency.
  intros Ha O. destruct a as [hits| |k ts]; cbn [tstep].
  - intros (m1 & Hm & Hs)%bind_Some. injection Hs as <- <-.
    destruct (tick_ok hits m m1 O Hm) as [O' Ht]. split_and!; [done|lia|by left; exists hits].
  - intros Hm. destruct (irq_handled m l m' O Hm) as (_ & _ & _ & Ht & _).
    split_and!; [by eapply irq_ok|lia|by right].
  - intros ([b m1] & Hm & Hs)%bind_Some. injection Hs as _ <-. destruct Ha as (Hk & _ & Hts).
    destruct (set_run k ts m b m1 O Hk Hts Hm) as (_ & _ & Ht & _).
    split_and!; [by eapply set_ok|lia|by right].
Qed.

Lemma trun_ok n acts : ∀ m l m', Forall (others_only n) acts → TOk m →
  trun acts m = Some (l, m') → TOk m' ∧ time m ≤ time m'.
Proof using Hrelease Hlatency.
  induction acts as [|a acts IH]; intros m l m' Ha O; cbn [trun].
  { intros [= _ <-]. split; [done|lia]. }
  apply Forall_cons in Ha as [Ha Has]. intros ([l1 m1] & H1 & Hr)%bind_Some.
  apply bind_Some in Hr as ([l2 m2] & H2 & Hs). injection Hs as _ <-.
  destruct (tstep_ok n a m l1 m1 Ha O H1) as (O1 & Ht1 & _).
  destruct (IH m1 l2 m2 Has O1 H2) as [O2 Ht2]. split; [done|lia].
Qed.

(** Time can always go on. *)
Lemma progress hits m : TOk m → time m < 2 ^ 54 - 1 →
  is_Some (rtc_tick hits m) ∨ is_Some (rtc_irq m).
Proof using Hrelease.
  intros O HT. destruct (rtc_tick hits m) eqn:Hk; [by left; eexists|]. right.
  unfold rtc_tick in Hk. rewrite (proj2 (Z.leb_gt (2 ^ 54 - 1) _)), orb_false_r in Hk by done.
  pose proof (ok_due m O) as Hdue. destruct (due m) as [d|]; [|done].
  destruct Hdue as [_ Hp]. unfold rtc_irq. rewrite Hp.
  destruct (on_interrupt_run (rtc m)) as (s' & -> & H); try apply O; [by apply period_bound|].
  by eexists.
Qed.

Lemma waits_run n ts acts : ∀ m l m', (n < 3)%nat → Forall (others_only n) acts → TOk m →
  Waits n ts m → trun acts m = Some (l, m') → n ∉ l → Waits n ts m'.
Proof using Hrelease Hlatency.
  induction acts as [|a acts IH]; intros m l m' Hn Ha O W; cbn [trun].
  { by intros [= _ <-]. }
  apply Forall_cons in Ha as [Ha Has]. intros ([l1 m1] & H1 & Hr)%bind_Some.
  apply bind_Some in Hr as ([l2 m2] & H2 & Hs). injection Hs as <- <-.
  intros [Hl1 Hl2]%not_elem_of_app. destruct (tstep_ok n a m l1 m1 Ha O H1) as (O1 & _).
  eapply IH; [done|done|exact O1| |done|done].
  destruct a as [hits| |k ts']; cbn [tstep] in H1.
  - apply bind_Some in H1 as (m0 & Hm & Hs). injection Hs as _ <-.
    exact (waits_tick n ts hits m m0 O Hn W Hm).
  - by destruct (waits_irq n ts l1 m m1 O Hn W H1).
  - apply bind_Some in H1 as ([b m0] & Hm & Hs). injection Hs as _ <-.
    destruct Ha as (Hk & Hne & Hts'). exact (waits_other n ts k ts' b m m0 O Hn Hk Hne Hts' W Hm).
Qed.

(** Not early: the register was set at once, and no event of its old value is pending. *)
Definition clean (n : nat) (ts : Z) (m : Timed) : Prop :=
  event n (regs (rtc m)) = false ∧ ∃ c, armed_for n ts c m.

Lemma clean_step n ts a m l m' : (n < 3)%nat → others_only n a → TOk m → clean n ts m →
  (∃ cb, alarms (rtc m) !! n = Some (mkAlarm ts cb)) →
  tstep a m = Some (l, m') → (n ∉ l) ∧ (ts ≤ time m' ∨ clean n ts m').
Proof using Hrelease Hlatency.
  intros Hn Ha O [He (c & Hc)] [cb Hcb] Hs. destruct a as [hits| |k ts']; cbn [tstep] in Hs.
  - apply bind_Some in Hs as (m1 & Hm & Hs). injection Hs as <- <-. split; [apply not_elem_of_nil|].
    destruct (armed_tick n ts c hits m m1 Hc Hm) as [Ht Hnext].
    destruct (armed_match n ts c hits m m1 O Hn Hc Hm) as [He' _].
    destruct (decide (ts ≤ time m1)) as [|Hlt]; [by left|right].
    assert (Hr : ts ≤ c) by apply Hc.
    split; [|exists c; apply Hnext; lia]. rewrite He', He. apply Z.eqb_neq. lia.
  - assert (Hl : n ∉ l).
    { destruct (irq_handled m l m' O Hs) as (_ & -> & _).
      intros [_ ?]%list_elem_of_In%List.filter_In. congruence. }
    split; [done|]. right. split; [|exists c; by eapply armed_irq].
    destruct (irq_handled m l m' O Hs) as (_ & _ & H & _). apply H.
  - apply bind_Some in Hs as ([b m1] & Hm & Hs). injection Hs as <- <-.
    destruct Ha as (Hk & Hne & Hts').
    split. { destruct b; [|apply not_elem_of_nil]. by intros ->%list_elem_of_singleton. }
    right. destruct (set_run k ts' m b m1 O Hk Hts' Hm) as (_ & H & _).
    split; [by rewrite (set_event _ _ _ _ _ n H)|]. exists c. by eapply armed_other.
Qed.

Lemma clean_run n ts acts : ∀ m l m', (n < 3)%nat → Forall (others_only n) acts → TOk m →
  Waits n ts m → ts ≤ time m ∨ clean n ts m → trun acts m = Some (l, m') →
  n ∈ l → ts ≤ time m'.
Proof using Hrelease Hlatency.
  induction acts as [|a acts IH]; intros m l m' Hn Ha O W HC; cbn [trun].
  { by intros [= <- _] ?%not_elem_of_nil. }
  apply Forall_cons in Ha as [Ha Has]. intros ([l1 m1] & H1 & Hr)%bind_Some.
  apply bind_Some in Hr as ([l2 m2] & H2 & Hs). injection Hs as <- <-.
  destruct (tstep_ok n a m l1 m1 Ha O H1) as (O1 & Ht & _).
  destruct (trun_ok n acts m1 l2 m2 Has O1 H2) as [_ Ht2].
  destruct HC as [?|HC]; [lia|].
  destruct (clean_step n ts a m l1 m1 Hn Ha O HC (proj1 W) H1) as [Hl1 HC1].
  intros [?|Hin]%elem_of_app; [done|].
  assert (W1 : Waits n ts m1).
  { eapply (waits_run n ts [a]); [done|by constructor|exact O|exact W| |exact Hl1].
    cbn [trun]. rewrite H1. cbn [mbind option_bind]. by rewrite app_nil_r. }
  exact (IH m1 l2 m2 Hn Has O1 W1 HC1 H2 Hin).
Qed.

(** ** An alarm that is lost *)

(** The register has the value [c], which the counter has passed, and no period begins
    that would make the driver set it again. *)
Definition lost (n : nat) (ts c : Z) (m : Timed) : Prop :=
  (∃ cb, alarms (rtc m) !! n = Some (mkAlarm ts cb)) ∧ cc (regs (rtc m)) !! n = Some (c mod 2 ^ 24) ∧
  c ≤ time m ∧ event n (regs (rtc m)) = false ∧ ts < base_of (rtc m).

Lemma tick_no_event n c hits m m' : (n < 3)%nat → rtc_tick hits m = Some m' →
  cc (regs (rtc m)) !! n = Some c → event n (regs (rtc m)) = false →
  time m' mod 2 ^ 24 ≠ c → event n (regs (rtc m')) = false.
Proof.
  intros Hn Hm Hc He Hne. unfold rtc_tick in Hm. destruct (_ || _); [done|]. injection Hm as <-.
  cbn [settle rtc regs time] in *. rewrite event_count, He by lia. unfold matched.
  rewrite Hc, bool_decide_false; [done|]. by intros [= ->].
Qed.

Lemma lost_step n ts c a m l m' : (n < 3)%nat → others_only n a → TOk m → lost n ts c m →
  tstep a m = Some (l, m') → time m' < c + 2 ^ 24 → (n ∉ l) ∧ lost n ts c m'.
Proof using Hrelease Hlatency.
  intros Hn Ha O ([cb Hcb] & Hcc & Hc & He & Hb) Hs HT. destruct a as [hits| |k ts']; cbn [tstep] in Hs.
  - apply bind_Some in Hs as (m1 & Hm & Hs). injection Hs as <- <-.
    split; [apply not_elem_of_nil|]. destruct (tick_ok hits m m1 O Hm) as [_ Ht].
    assert (He' : event n (regs (rtc m1)) = false).
    { eapply tick_no_event; [done|exact Hm|exact Hcc|done|]. intros Heq.
      assert (Hz : (time m1 - c) mod 2 ^ 24 = 0) by by rewrite Zminus_mod, Heq, Z.sub_diag.
      rewrite Z.mod_small in Hz by lia. lia. }
    unfold rtc_tick in Hm. destruct (_ || _); [done|]. injection Hm as <-.
    cbn [settle time rtc] in *. split_and!; try done; [by exists cb|cbn [settle time]; lia].
  - destruct (irq_handled m l m' O Hs) as (_ & -> & H & Ht & _).
    split. { intros [_ ?]%list_elem_of_In%List.filter_In. congruence. }
    pose proof (h_alarm _ _ H n _ Hcb) as Hcb'. rewrite He in Hcb'.
    split_and!; [by exists cb| |lia|apply H|].
    + rewrite (h_cc _ _ H n _ Hcb). unfold rearmed. destruct (late (rtc m)); [|done].
      unfold near. cbn [timestamp andb]. by rewrite (proj2 (Z.leb_gt 0 _)) by lia.
    + unfold base_of in *. rewrite (h_period _ _ H). destruct (late _); cbn; lia.
  - apply bind_Some in Hs as ([b m1] & Hm & Hs). injection Hs as <- <-.
    destruct Ha as (Hk & Hne & Hts'). destruct (set_run k ts' m b m1 O Hk Hts' Hm) as (_ & H & Ht & _).
    split. { destruct b; [|apply not_elem_of_nil]. by intros ->%list_elem_of_singleton. }
    destruct (st_others _ _ _ _ _ H n) as (Ea & _ & Ec & _); [done|].
    split_and!; [by exists cb; rewrite Ea|by rewrite Ec|lia|by rewrite (set_event _ _ _ _ _ n H)|].
    unfold base_of in *. by rewrite (st_period _ _ _ _ _ H).
Qed.

Lemma lost_run n ts c acts : ∀ m l m', (n < 3)%nat → Forall (others_only n) acts → TOk m →
  lost n ts c m → trun acts m = Some (l, m') → time m' < c + 2 ^ 24 → n ∉ l.
Proof using Hrelease Hlatency.
  induction acts as [|a acts IH]; intros m l m' Hn Ha O L; cbn [trun].
  { intros [= <- _] _. apply not_elem_of_nil. }
  apply Forall_cons in Ha as [Ha Has]. intros ([l1 m1] & H1 & Hr)%bind_Some.
  apply bind_Some in Hr as ([l2 m2] & H2 & Hs). injection Hs as <- <-. intros HT.
  destruct (tstep_ok n a m l1 m1 Ha O H1) as (O1 & _).
  destruct (trun_ok n acts m1 l2 m2 Has O1 H2) as [_ Ht2].
  destruct (lost_step n ts c a m l1 m1 Hn Ha O L H1) as [Hl1 L1]; [lia|].
  apply not_elem_of_app. split; [done|]. exact (IH m1 l2 m2 Hn Has O1 L1 H2 HT).
Qed.

Lemma newly_late hits m m' : TOk m → rtc_tick hits m = Some m' → late (rtc m) = false →
  time m' = base_of (rtc m) → late (rtc m') = true.
Proof using Hlatency.
  intros O Hm Hl Ht. destruct (tick_ok hits m m' O Hm) as [O' _].
  destruct (ok_period m' O') as [_ HT]. fold (late (rtc m')) in HT.
  assert (Hp : period (rtc m') = period (rtc m)).
  { unfold rtc_tick in Hm. destruct (_ || _); [done|]. by injection Hm as <-. }
  destruct (late (rtc m')); [done|]. rewrite Ht, Hp in HT. unfold base_of in HT.
  rewrite Z.div_mul in HT by lia. cbn in HT. lia.
Qed.

(** ** From the start

    [start] leaves such a device ([NrfRtc.start_run]); its time is 0 when the counter
    begins to count. *)
Definition time_zero (s : RTC) : Timed :=
  mkTimed 0 (mkRTC (mkRegs (counter (regs s)) (cc (regs s)) (events_compare (regs s))
    (events_ovrflw (regs s)) (inten (regs s)) []) (period s) (alarms s)) [0; 0; 0] None.

Lemma started_ok start_time addr h0 h : Started start_time addr h0 h →
  rtc_of h0 = RTC_new (regs (rtc_of h0)) → length (cc (regs (rtc_of h0))) = 4%nat →
  events_compare (regs (rtc_of h0)) = replicate 4 false →
  events_ovrflw (regs (rtc_of h0)) = false → TOk (time_zero (rtc_of h)).
Proof.
  intros [S1 _ S3 S4 [S5 S6] S7 S8 _] Hnew Hc He Ho. rewrite Hnew in S7, S8. cbn in S7, S8.
  assert (Hi : ∀ k, (k = 1 ∨ k = 19) → Z.testbit (inten (regs (rtc_of h))) k = true).
  { rewrite S4. intros k [->| ->]; rewrite !Z.lor_spec; apply orb_true_r. }
  split; cbn [time rtc written due time_zero regs counter period alarms cc inten events_ovrflw];
    rewrite ?S1, ?S3, ?S5, ?S6, ?S7, ?S8, ?He, ?Ho.
  - lia.
  - done.
  - split_and!; cbn [time_zero rtc regs alarms cc events_compare]; rewrite ?S3, ?S5, ?S8, ?He; try done.
    by rewrite length_insert.
  - by apply list_lookup_insert_eq; lia.
  - split; apply Hi; auto.
  - split; [done|]. repeat constructor; lia.
  - done.
  - repeat constructor; vm_compute; congruence.
  - done.
  - split; [lia|]. done.
  - done.
  - done.
Qed.

(** ** Properties *)


(** Setting an alarm for the first tick of the next period in the last tick of this one
    loses it.  The driver writes a value two ticks later than that ([safe_timestamp]),
    which is right; but if the period's interrupt is handled before it is reached,
    [next_period] writes the register again with the alarm's own time, which the counter
    has already reached: the callback is run only when the counter has gone all the way
    round, 2^24 ticks (512 seconds) late, or when the alarm is set again. *)
Theorem alarm_lost n m b m1 hits m2 :
  TOk m → (n < 3)%nat → late (rtc m) = false → time m + 1 = base_of (rtc m) →
  event n (regs (rtc m)) = false → rtc_set n (time m + 1) m = Some (b, m1) →
  rtc_tick hits m1 = Some m2 →
  ∃ l3 m3, rtc_irq m2 = Some (l3, m3) ∧ (n ∉ l3) ∧
    ∀ acts l m4, Forall (others_only n) acts → trun acts m3 = Some (l, m4) →
      time m4 < time m + 1 + 2 ^ 24 → n ∉ l.
Proof using Hrelease Hlatency.
  intros O Hn Hl Hbase He Hm Hk. pose proof (ok_range m O) as HT.
  assert (Hts : 0 ≤ time m + 1 < 2 ^ 64) by lia.
  destruct (set_run n _ m b m1 O Hn Hts Hm) as (_ & H & Ht & _).
  pose proof (set_ok n _ m b m1 O Hn Hts Hm) as O1. destruct (tick_ok hits m1 m2 O1 Hk) as [O2 Ht2].
  destruct (alarm_some _ n (ok_shape m O) Hn) as [a Ha].
  pose proof (st_alarm _ _ _ _ _ H a Ha) as Ha1. rewrite (proj2 (Z.leb_gt _ _)) in Ha1 by lia.
  destruct (st_near _ _ _ _ _ H) as [_ Hc1]; [lia|]. rewrite Z.max_r in Hc1 by lia.
  assert (He1 : event n (regs (rtc m1)) = false) by by rewrite (set_event _ _ _ _ _ n H).
  assert (Hb1 : base_of (rtc m1) = time m + 1).
  { rewrite Hbase. unfold base_of. by rewrite (st_period _ _ _ _ _ H). }
  assert (Hl1 : late (rtc m1) = false).
  { rewrite <-Hl. unfold late. by rewrite (st_ovrflw _ _ _ _ _ H), (set_event _ _ _ _ _ 3 H). }
  pose proof (newly_late hits m1 m2 O1 Hk Hl1 ltac:(lia)) as Hl2.
  assert (He2 : event n (regs (rtc m2)) = false).
  { eapply tick_no_event; [done|exact Hk|exact Hc1|done|]. rewrite Ht2, Ht. zdiv. }
  assert (Hsame : alarms (rtc m2) = alarms (rtc m1) ∧ period (rtc m2) = period (rtc m1)).
  { unfold rtc_tick in Hk. destruct (_ || _); [done|]. by injection Hk as <-. }
  destruct Hsame as [Ea Ep]. rewrite <-Ea in Ha1.
  assert (Hb2 : base_of (rtc m2) = time m + 1) by (unfold base_of in *; by rewrite Ep).
  destruct (ok_inten m2 O2) as [Hi1 Hi19].
  assert (Hirq : is_Some (rtc_irq m2)).
  { unfold rtc_irq. rewrite late_pending by done.
    destruct (on_interrupt_run (rtc m2)) as (s' & -> & _); try apply O2; [by apply period_bound|done]. }
  destruct Hirq as [[l3 m3] Hirq]. exists l3, m3. split; [done|].
  destruct (irq_handled m2 l3 m3 O2 Hirq) as (_ & -> & H3 & Ht3 & _). split.
  { intros [_ ?]%list_elem_of_In%List.filter_In. congruence. }
  intros acts l m4 Hacts Hr HT4.
  apply (lost_run n (time m + 1) (time m + 1) acts m3 l m4 Hn Hacts); [by eapply irq_ok| |done|done].
  split_and!; [|..].
  - exists (callback a). pose proof (h_alarm _ _ H3 n _ Ha1) as E. by rewrite He2 in E.
  - rewrite (h_cc _ _ H3 n _ Ha1). unfold rearmed, near. cbn [timestamp].
    by rewrite Hl2, Hb2, Z.sub_diag.
  - lia.
  - apply H3.
  - unfold base_of in *. rewrite (h_period _ _ H3), Hl2. cbn. lia.
Qed.

(** Nor is it safe to set such an alarm long before.  If the interrupt of a period has not been
    handled a tick before the time of an alarm of that period, which is armed and has been
    for long, the next tick raises the alarm's event; but if the interrupt is handled first,
    [next_period] writes the alarm's register again, with the value it has: the match may
    not happen then ([hits]), and the callback is run only when the counter has gone all
    the way round. *)
Theorem alarm_lost_by_rewriting n ts cb m l2 m2 :
  TOk m → (n < 3)%nat → alarms (rtc m) !! n = Some (mkAlarm ts cb) →
  cc (regs (rtc m)) !! n = Some (ts mod 2 ^ 24) → enabled n (rtc m) = true →
  (∃ w, written m !! n = Some w ∧ w + 2 ≤ ts) → event n (regs (rtc m)) = false → late (rtc m) = true → ts = time m + 1 → ts < 2 ^ 54 - 1 →
  rtc_irq m = Some (l2, m2) →
  (∀ hits m', rtc_tick hits m = Some m' → event n (regs (rtc m')) = true) ∧ (n ∉ l2) ∧
  ∀ hits, hits !! n = Some false → ∃ m3, rtc_tick hits m2 = Some m3 ∧ time m3 = ts ∧
    ∀ acts l m4, Forall (others_only n) acts → trun acts m3 = Some (l, m4) →
      time m4 < ts + 2 ^ 24 → n ∉ l.
Proof using Hrelease Hlatency.
  intros O Hn Ha Hcc0 Hen (w & Hw0 & Hle) He Hl Hts Hmax Hirq. pose proof (ok_range m O) as HT.
  destruct (irq_handled m l2 m2 O Hirq) as (_ & -> & H & Ht & Hd & Hw). split.
  { intros hits m' Hk. unfold rtc_tick in Hk. destruct (_ || _); [done|]. injection Hk as <-.
    cbn [settle rtc regs]. rewrite event_count, Hw0 by lia. unfold matched. cbn [default from_option id].
    rewrite Hcc0, <-Hts, bool_decide_true by done. unfold enabled in Hen.
    by rewrite Hen, (proj2 (Z.leb_le _ _)), !orb_true_r by lia. }
  split.
  { intros [_ ?]%list_elem_of_In%List.filter_In. congruence. }
  destruct (time_of_period m O) as [_ Hb]. specialize (Hb Hl).
  assert (Hre : rearmed (rtc m) (mkAlarm ts cb) = true).
  { unfold rearmed, near. cbn [timestamp]. rewrite Hl, (proj2 (Z.leb_le _ _)), (proj2 (Z.ltb_lt _ _)) by lia.
    done. }
  pose proof (h_wrote _ _ H n _ Ha) as Hwr. pose proof (h_cc _ _ H n _ Ha) as Hcc.
  pose proof (h_alarm _ _ H n _ Ha) as Ha2. rewrite He in Ha2. rewrite Hre in Hwr, Hcc. cbn [timestamp] in Hcc.
  assert (Hb2 : ts < base_of (rtc m2)).
  { unfold base_of in *. rewrite (h_period _ _ H), Hl. cbn. lia. }
  pose proof (irq_ok m _ m2 O Hirq) as O2. intros hits Hh.
  destruct (rtc_tick hits m2) as [m3|] eqn:Hk.
  2:{ unfold rtc_tick in Hk. rewrite Hd, Ht in Hk. cbn [orb] in Hk.
      by rewrite (proj2 (Z.leb_gt _ _)) in Hk by lia. }
  exists m3. split; [done|]. destruct (tick_ok hits m2 m3 O2 Hk) as [O3 Ht3].
  split; [lia|]. intros acts l m4 Hacts Hr HT4.
  apply (lost_run n ts ts acts m3 l m4 Hn Hacts O3); [|done|done].
  assert (He2 : event n (regs (rtc m2)) = false) by apply H.
  assert (Hw2 : written m2 !! n = Some (time m2 + 1)) by (apply O2; by rewrite ?Hwr).
  clear Hwr. unfold rtc_tick in Hk. destruct (_ || _); [done|]. injection Hk as <-.
  split_and!; cbn [settle rtc regs time] in *; [by exists cb|done|lia| |done].
  rewrite event_count, He2, Hw2 by lia. unfold matched. rewrite lookup_take, decide_True, Hh by done.
  cbn [default from_option id]. rewrite (proj2 (Z.leb_gt _ _)) by lia. by rewrite andb_false_r, andb_false_r.
Qed.
End timed.

(** ** Witnesses *)
Definition demo_boot : Starting :=
  mkStarting (RTC_new (mkRegs 5 [0; 0; 0; 0] (replicate 4 false) false 0 []))
    (Lag.settled false) None 0 (Interrupt.mkIrq None 0 false false 0).
Definition demo_start : Timed :=
  match start 2 3 1 4096 20 demo_boot with
  | Some h => time_zero (rtc_of h)
  | None => time_zero (rtc_of demo_boot)
  end.
Lemma demo_start_ok : TOk 10 demo_start.
Proof.
  destruct (start_run 2 3 1 4096 ltac:(lia) 20 demo_boot) as (h & E & H); try done; [simpl; lia..|].
  unfold demo_start. rewrite E. by apply (started_ok 10 3 4096 demo_boot).
Qed.


(** The last tick of the first period. *)
Definition demo_end : Timed :=
  mkTimed (2 ^ 23 - 1)
    (mkRTC (mkRegs (2 ^ 23 - 1) [0; 0; 0; 0x800000] (replicate 4 false) false
              (Z.lor INT_OVRFLW INT_COMPARE3) []) 0 (replicate 3 AlarmState_new)) [0; 0; 0] None.
Lemma demo_end_ok : TOk 10 demo_end.
Proof.
  split; cbn [time rtc regs written due period alarms counter cc events_compare events_ovrflw inten
              demo_end]; try done; try lia.
  - split; [done|]. repeat constructor; lia.
  - repeat constructor; vm_compute; congruence.
Qed.

(** The third tick of the next period, for which an alarm was set long before, and the
    interrupt of the period has not been handled. *)
Definition demo_late : Timed :=
  mkTimed (2 ^ 23 + 2)
    (mkRTC (mkRegs (2 ^ 23 + 2) [2 ^ 23 + 3; 0; 0; 0x800000] [false; false; false; true] false
              (Z.lor (compare_n 0) (Z.lor INT_OVRFLW INT_COMPARE3)) [])
      0 [mkAlarm (2 ^ 23 + 3) None; AlarmState_new; AlarmState_new]) [0; 0; 0] (Some (2 ^ 23 + 10)).
Lemma demo_late_ok : TOk 10 demo_late.
Proof.
  split; cbn [time rtc regs written due period alarms counter cc events_compare events_ovrflw inten
              demo_late]; try done; try lia.
  - split; [done|]. repeat constructor; lia.
  - repeat constructor; vm_compute; congruence.
  - intros _. by exists (2 ^ 23 + 10).
Qed.

Lemma alarm_lost_by_rewriting_witness :
  let _ : Profile := false in
  ∃ m2 m3, rtc_irq 10 demo_late = Some ([], m2) ∧
    rtc_tick 10 [false; false; false; false] m2 = Some m3 ∧ time m3 = 2 ^ 23 + 3 ∧
    ∀ l m4, trun 10 (replicate 3 (Tick [])) m3 = Some (l, m4) → time m4 < 2 ^ 23 + 3 + 2 ^ 24 → 0%nat ∉ l.
Proof.
  intros P. destruct (rtc_irq 10 demo_late) as [[l2 m2]|] eqn:Hi; [|by vm_compute in Hi].
  destruct (alarm_lost_by_rewriting (P := P) eq_refl 10 ltac:(lia) 0 (2 ^ 23 + 3) None demo_late l2 m2
    demo_late_ok ltac:(lia) eq_refl eq_refl eq_refl ltac:(by exists 0) eq_refl eq_refl eq_refl eq_refl Hi)
    as (_ & _ & Hlost).
  assert (l2 = []) as -> by (vm_compute in Hi; by injection Hi).
  destruct (Hlost [false; false; false; false] eq_refl) as (m3 & Hk & Ht & Hl).
  exists m2, m3. split_and!; [done|exact Hk|exact Ht|].
  intros l m4 Hr HT. apply (Hl (replicate 3 (Tick [])) l m4); [by repeat constructor|exact Hr|exact HT].
Defined.

Lemma alarm_lost_witness :
  let _ : Profile := false in
  ∃ m1 m2 m3, rtc_set 10 0 (2 ^ 23) demo_end = Some (false, m1) ∧
    rtc_tick 10 [] m1 = Some m2 ∧ rtc_irq 10 m2 = Some ([], m3) ∧ time m3 = 2 ^ 23 ∧
    ∀ l m4, trun 10 (replicate 3 (Tick [])) m3 = Some (l, m4) → time m4 < 2 ^ 23 + 2 ^ 24 → 0%nat ∉ l.
Proof.
  intros P.
  destruct (rtc_set 10 0 (2 ^ 23) demo_end) as [[b m1]|] eqn:Hm; [|by vm_compute in Hm].
  destruct (rtc_tick 10 [] m1) as [m2|] eqn:Hk.
  2:{ vm_compute in Hm. injection Hm as _ <-. by vm_compute in Hk. }
  destruct (alarm_lost (P := P) eq_refl 10 ltac:(lia) 0 demo_end b m1 [] m2
    demo_end_ok ltac:(lia) eq_refl eq_refl eq_refl Hm Hk) as (l3 & m3 & Hi & _ & Hlost).
  assert (b = false ∧ l3 = [] ∧ time m3 = 2 ^ 23) as (-> & -> & Ht).
  { vm_compute in Hm. injection Hm as <- <-. vm_compute in Hk. injection Hk as <-.
    vm_compute in Hi. by injection Hi as <- <-. }
  exists m1, m2, m3. split_and!; [done|done|done|done|]. intros l m4 Hr HT.
  apply (Hlost (replicate 3 (Tick [])) l m4); [by repeat constructor|exact Hr|exact HT].
Defined.
