(* ===== verification/Stm32Rtc.v ===== *)
(** * Stm32Rtc: the STM32 timers as a clock

    [embassy-stm32/src/rtc.rs]: the trait [Instance] as a class of operations with
    its laws, the driver written against the class, and the two shapes of timer
    [impl_timer!] makes (three alarms and one) as instances over the timer's
    registers. *)
From S2P Require Import Prelude Time RtcClock.
Local Open Scope Z_scope.

(** [calc_now]: the counter is widened to [u32] before it is combined. *)
Definition calc_now (period counter : Z) : Z := clock_value 15 period counter.

(** ** The interface to a timer *)
Class Instance (T : Type) : Type := {
  REAL_ALARM_COUNT : nat;
  enable_clock : T → T;
  set_compare : nat → Z → T → T;
  set_compare_interrupt : nat → bool → T → T;
  compare_interrupt_status : nat → T → bool;
  compare_clear_flag : nat → T → T;
  overflow_interrupt_status : T → bool;
  overflow_clear_flag : T → T;
  set_psc_arr : Z → Z → T → T;
  stop_and_reset : T → T;
  start_timer : T → T;
  counter : T → Z
}.

(** What the driver relies on: the channels up to [REAL_ALARM_COUNT] have a compare
    value and an interrupt enable of their own, the operations touch nothing else,
    and the channels beyond do nothing. *)
Class InstanceLaws (T : Type) `{!Instance T} : Type := {
  compare_value : nat → T → Z;
  compare_enabled : nat → T → bool;
  tim_wf : T → Prop;
  set_compare_value : ∀ n m v t, tim_wf t → (m ≤ REAL_ALARM_COUNT)%nat →
    compare_value m (set_compare n v t) = if decide (n = m) then v else compare_value m t;
  set_compare_enabled : ∀ n m v t, compare_enabled m (set_compare n v t) = compare_enabled m t;
  set_compare_wf : ∀ n v t, tim_wf t → tim_wf (set_compare n v t);
  set_interrupt_enabled : ∀ n m b t, (m ≤ REAL_ALARM_COUNT)%nat →
    compare_enabled m (set_compare_interrupt n b t) =
    if decide (n = m) then b else compare_enabled m t;
  set_interrupt_value : ∀ n m b t,
    compare_value m (set_compare_interrupt n b t) = compare_value m t;
  set_interrupt_wf : ∀ n b t, tim_wf t → tim_wf (set_compare_interrupt n b t);
  clear_status : ∀ n m t, compare_interrupt_status m (compare_clear_flag n t) =
    if decide (n = m) then false else compare_interrupt_status m t;
  no_status : ∀ n t, (REAL_ALARM_COUNT < n)%nat → compare_interrupt_status n t = false;
  counter_set_compare : ∀ n v t, counter (set_compare n v t) = counter t;
  counter_set_interrupt : ∀ n b t, counter (set_compare_interrupt n b t) = counter t
}.

(** ** The driver *)
Record AlarmState : Type := mkAlarm { timestamp : Z; callback : option (Z * Z) }.
Definition AlarmState_new : AlarmState := mkAlarm u64_MAX None.
Definition ALARM_COUNT : nat := 3.

Record RTC (T : Type) : Type := mkRTC { rtc : T; period : Z; alarms : list AlarmState }.
Arguments mkRTC {T} _ _ _.
Arguments rtc {T} _.
Arguments period {T} _.
Arguments alarms {T} _.

Inductive IrqOp : Type := SetHandler | SetHandlerContext | Unpend | Enable.

Section driver.
Context {P : Profile} {T : Type} `{!Instance T}.
Context (call : Z * Z → RTC T → outcome (RTC T)).

Definition RTC_new (t : T) : RTC T := mkRTC t 0 (replicate ALARM_COUNT AlarmState_new).

Definition upd_rtc (f : T → T) (s : RTC T) : RTC T := mkRTC (f (rtc s)) (period s) (alarms s).
Definition set_timestamp (i : nat) (ts : Z) (s : RTC T) : RTC T :=
  mkRTC (rtc s) (period s) (alter (λ a, mkAlarm ts (callback a)) i (alarms s)).

(** The prescaler [start] computes from the timer's clock: [pclk] and [ppre] are the
    bus frequency and its divider. *)
Definition prescaler (ppre pclk : Z) : outcome Z :=
  let multiplier := if ppre =? 1 then 1 else 2 in
  freq ← arith 32 (pclk * multiplier);
  psc ← arith 32 (freq / TICKS_PER_SECOND - 1);
  if fits 16 psc then Done psc else Panic.

Definition start (ppre pclk : Z) (s : RTC T) : outcome (RTC T * list IrqOp) :=
  let t1 := stop_and_reset (enable_clock (rtc s)) in
  psc ← prescaler ppre pclk;
  let t2 := set_psc_arr psc (2 ^ 16 - 1) t1 in
  let t3 := set_compare_interrupt 0 true (set_compare 0 0x8000 t2) in
  Done (mkRTC (start_timer t3) (period s) (alarms s),
        [SetHandler; SetHandlerContext; Unpend; Enable]).

Definition now (s : RTC T) : Z := calc_now (period s) (counter (rtc s)).

(** Alarms are numbered from 1; [n - 1] indexes the array. *)
Definition trigger_alarm (n : nat) (s : RTC T) : outcome (RTC T) :=
  let s1 := upd_rtc (set_compare_interrupt n false) s in
  alarm ← expect (alarms s1 !! (n - 1)%nat);
  let s2 := set_timestamp (n - 1) u64_MAX s1 in
  match callback alarm with Some f => call f s2 | None => Done s2 end.

Definition next_period_alarm (t : Z) (n : nat) (s : RTC T) : outcome (RTC T) :=
  alarm ← expect (alarms s !! (n - 1)%nat);
  let at_ := timestamp alarm in
  diff ← arith 64 (at_ - t);
  if diff <? 0xc000 then
    Done (upd_rtc (set_compare_interrupt n true) (upd_rtc (set_compare n (at_ mod 2 ^ 16)) s))
  else Done s.

Fixpoint for_alarms (f : nat → RTC T → outcome (RTC T)) (ns : list nat) (s : RTC T)
    : outcome (RTC T) :=
  match ns with [] => Done s | n :: ns' => s' ← f n s; for_alarms f ns' s' end.

Definition next_period (s : RTC T) : outcome (RTC T) :=
  let old := period s in
  let s1 := mkRTC (rtc s) ((old + 1) mod 2 ^ 32) (alarms s) in
  period ← arith 32 (old + 1);
  let t := Z.shiftl period 15 in
  for_alarms (next_period_alarm t) (seq 1 ALARM_COUNT) s1.

Definition on_compare (n : nat) (s : RTC T) : outcome (RTC T) :=
  if compare_interrupt_status n (rtc s)
  then trigger_alarm n (upd_rtc (compare_clear_flag n) s) else Done s.

Definition on_interrupt (s : RTC T) : outcome (RTC T) :=
  s1 ← (if overflow_interrupt_status (rtc s)
        then next_period (upd_rtc overflow_clear_flag s) else Done s);
  s2 ← (if compare_interrupt_status 0 (rtc s1)
        then next_period (upd_rtc (compare_clear_flag 0) s1) else Done s1);
  for_alarms on_compare (seq 1 ALARM_COUNT) s2.

Definition set_alarm_callback (n : nat) (cb : Z * Z) (s : RTC T) : outcome (RTC T) :=
  _ ← expect (alarms s !! (n - 1)%nat);
  Done (mkRTC (rtc s) (period s)
    (alter (λ a, mkAlarm (timestamp a) (Some cb)) (n - 1)%nat (alarms s))).

Definition set_alarm (n : nat) (ts : Z) (s : RTC T) : outcome (RTC T) :=
  _ ← expect (alarms s !! (n - 1)%nat);
  let s1 := set_timestamp (n - 1) ts s in
  let t := now s1 in
  if ts <=? t then trigger_alarm n s1
  else
    diff ← arith 64 (ts - t);
    if diff <? 0xc000 then
      t3 ← arith 64 (t + 3);
      let safe_timestamp := Z.max ts t3 in
      Done (upd_rtc (set_compare_interrupt n true)
              (upd_rtc (set_compare n (safe_timestamp mod 2 ^ 16)) s1))
    else Done (upd_rtc (set_compare_interrupt n false) s1).

(** [alarm1], [alarm2] and [alarm3]: the alarms the timer really has. *)
Definition alarm1 : option nat := Some 1%nat.
Definition alarm2 : option nat := if (2 <=? REAL_ALARM_COUNT)%nat then Some 2%nat else None.
Definition alarm3 : option nat := if (3 <=? REAL_ALARM_COUNT)%nat then Some 3%nat else None.

Definition Alarm_set (n : nat) (ts : Z) (s : RTC T) : outcome (RTC T) := set_alarm n ts s.
Definition Alarm_clear (n : nat) (s : RTC T) : outcome (RTC T) := set_alarm n u64_MAX s.

End driver.

(** ** The timers' registers *)
Record Tim : Type := mkTim {
  cr1 : Z; dier : Z; sr : Z; egr : Z; psc : Z; arr : Z; cnt : Z; ccr : list Z; clocked : bool
}.

Definition bb_set (r bit : Z) : Z := Z.lor r (Z.shiftl 1 bit).
Definition bb_clear (r bit : Z) : Z := Z.ldiff r (Z.shiftl 1 bit).

Definition upd_cr1 f t := mkTim (f (cr1 t)) (dier t) (sr t) (egr t) (psc t) (arr t) (cnt t) (ccr t) (clocked t).
Definition upd_dier f t := mkTim (cr1 t) (f (dier t)) (sr t) (egr t) (psc t) (arr t) (cnt t) (ccr t) (clocked t).
Definition upd_sr f t := mkTim (cr1 t) (dier t) (f (sr t)) (egr t) (psc t) (arr t) (cnt t) (ccr t) (clocked t).
Definition upd_ccr f t := mkTim (cr1 t) (dier t) (sr t) (egr t) (psc t) (arr t) (cnt t) (f (ccr t)) (clocked t).

(** [impl_timer!] with three alarms ([last = 3]) and with one ([last = 1]); the bodies
    differ in the last channel only. *)
Definition tim_set_compare (last n : nat) (value : Z) (t : Tim) : Tim :=
  if (n <=? last)%nat then upd_ccr (<[n := value]>) t else t.
Definition tim_set_compare_interrupt (last n : nat) (enable : bool) (t : Tim) : Tim :=
  if (last <? n)%nat then t
  else
    let bit := Z.of_nat n + 1 in
    upd_dier (λ r, if enable then bb_set r bit else bb_clear r bit) t.
Definition tim_compare_interrupt_status (last n : nat) (t : Tim) : bool :=
  if (n <=? last)%nat then Z.testbit (sr t) (Z.of_nat n + 1) else false.
Definition tim_compare_clear_flag (last n : nat) (t : Tim) : Tim :=
  if (last <? n)%nat then t else upd_sr (λ r, bb_clear r (Z.of_nat n + 1)) t.

(** Only the update flag is raised by the software update [UG]; with URS set it does
    not raise the interrupt flag. *)
Definition tim_set_psc_arr (p a : Z) (t : Tim) : Tim :=
  let t1 := mkTim (bb_set (cr1 t) 2) (dier t) (sr t) 1 p a (cnt t) (ccr t) (clocked t) in
  upd_cr1 (λ r, bb_clear r 2) t1.
Definition tim_stop_and_reset (t : Tim) : Tim :=
  mkTim (bb_clear (cr1 t) 0) (dier t) (sr t) (egr t) (psc t) (arr t) 0 (ccr t) (clocked t).
(** The clock is enabled and the timer is reset. *)
Definition tim_enable_clock (t : Tim) : Tim :=
  mkTim 0 0 0 0 0 (2 ^ 16 - 1) 0 (replicate (length (ccr t)) 0) true.

Definition Tim_Instance (last : nat) : Instance Tim := {|
  REAL_ALARM_COUNT := last;
  enable_clock := tim_enable_clock;
  set_compare := tim_set_compare last;
  set_compare_interrupt := tim_set_compare_interrupt last;
  compare_interrupt_status := tim_compare_interrupt_status last;
  compare_clear_flag := tim_compare_clear_flag last;
  overflow_interrupt_status t := Z.testbit (sr t) 0;
  overflow_clear_flag := upd_sr (λ r, bb_clear r 0);
  set_psc_arr := tim_set_psc_arr;
  stop_and_reset := tim_stop_and_reset;
  start_timer := upd_cr1 (λ r, bb_set r 0);
  counter t := cnt t mod 2 ^ 16
|}.

Lemma bb_set_bit r b c : 0 ≤ b → 0 ≤ c → Z.testbit (bb_set r b) c = Z.testbit r c || (b =? c).
Proof. intros. unfold bb_set. by rewrite Z.lor_spec, Z.shiftl_1_l, Z.pow2_bits_eqb. Qed.

Lemma bb_clear_bit r b c :
  0 ≤ b → 0 ≤ c → Z.testbit (bb_clear r b) c = Z.testbit r c && negb (b =? c).
Proof. intros. unfold bb_clear. by rewrite Z.ldiff_spec, Z.shiftl_1_l, Z.pow2_bits_eqb. Qed.

Lemma eqb_succ n m : (Z.of_nat n + 1 =? Z.of_nat m + 1) = bool_decide (n = m).
Proof. case_bool_decide; case_bool; done || lia. Qed.

(** Both shapes of timer keep the laws. *)
Definition Tim_Laws (last : nat) : @InstanceLaws Tim (Tim_Instance last).
Proof.
  refine {|
    compare_value n t := nth n (ccr t) 0;
    compare_enabled n t := Z.testbit (dier t) (Z.of_nat n + 1);
    tim_wf t := (last < length (ccr t))%nat |}; simpl.
  - intros n m v t Hw Hm. unfold tim_set_compare.
    destruct (Nat.leb_spec n last); [|by rewrite decide_False by lia]. simpl.
    rewrite !nth_lookup. case_decide; subst.
    + by rewrite list_lookup_insert_eq by lia.
    + by rewrite list_lookup_insert_ne.
  - intros n m v t. unfold tim_set_compare. by destruct (_ <=? _)%nat.
  - intros n v t Hw. unfold tim_set_compare. destruct (_ <=? _)%nat; [|done].
    simpl. by rewrite length_insert.
  - intros n m b t Hm. unfold tim_set_compare_interrupt.
    destruct (Nat.ltb_spec last n); [by rewrite decide_False by lia|]. simpl.
    destruct b; rewrite ?bb_set_bit, ?bb_clear_bit, eqb_succ by lia;
      repeat case_decide; try case_bool_decide; simpl; try done;
      by rewrite ?orb_true_r, ?orb_false_r, ?andb_false_r, ?andb_true_r.
  - intros n m b t. unfold tim_set_compare_interrupt. by destruct (_ <? _)%nat.
  - intros n b t Hw. unfold tim_set_compare_interrupt. by destruct (_ <? _)%nat.
  - intros n m t. unfold tim_compare_interrupt_status, tim_compare_clear_flag.
    destruct (Nat.ltb_spec last n), (Nat.leb_spec m last); simpl; try done.
    + by rewrite decide_False by lia.
    + by case_decide.
    + rewrite bb_clear_bit, eqb_succ by lia.
      case_decide; case_bool_decide; simpl; try done; by rewrite ?andb_false_r, ?andb_true_r.
    + by case_decide.
  - intros n t Hn. unfold tim_compare_interrupt_status.
    by destruct (Nat.leb_spec n last); [lia|].
  - intros n v t. unfold tim_set_compare. by destruct (_ <=? _)%nat.
  - intros n b t. unfold tim_set_compare_interrupt. by destruct (_ <? _)%nat.
Defined.

(** ** Properties *)

(** whatever the clock tree, the prescaler makes the counter run at 32768 Hz or
    faster by less than one part in [psc + 1]: [psc + 1] is the whole number of
    timer clocks in a tick.  A timer clock below one tick, or of more than 2^16
    clocks per tick, panics (with overflow checks; without them the former wraps
    and panics in [try_into]). *)
Theorem prescaler_spec {P : Profile} ppre pclk :
  0 ≤ pclk → pclk * 2 < 2 ^ 32 →
  let freq := pclk * (if ppre =? 1 then 1 else 2) in
  match prescaler ppre pclk with
  | Done psc => 0 ≤ psc < 2 ^ 16 ∧
      (psc + 1) * TICKS_PER_SECOND ≤ freq < (psc + 2) * TICKS_PER_SECOND
  | Panic => freq < TICKS_PER_SECOND ∨ 2 ^ 16 * TICKS_PER_SECOND < freq
  end.
Proof.
  intros H0 H1 freq.
  assert (Hf : 0 ≤ freq < 2 ^ 32) by (unfold freq; destruct (ppre =? 1); lia).
  unfold prescaler. fold freq. rewrite arith_fits by done. simpl.
  unfold TICKS_PER_SECOND in *.
  pose proof (Z.mul_div_le freq 32768 ltac:(lia)) as Hlo.
  pose proof (Z.mul_succ_div_gt freq 32768 ltac:(lia)) as Hhi.
  set (q := freq / 32768) in *. clearbody q freq.
  destruct (decide (q = 0)) as [->|].
  - rewrite arith_overflow by lia. destruct overflow_checks; simpl; [left; lia|].
    change (wrap 32 (-1)) with (2 ^ 32 - 1). simpl. left. lia.
  - rewrite arith_fits by lia. simpl. destruct (fits 16 (q - 1)) eqn:Hfit.
    + apply fits_spec in Hfit. lia.
    + apply fits_false in Hfit. right. lia.
Qed.

Section props.
Context {P : Profile} {T : Type} `{!Instance T} `{!InstanceLaws T}.
Context (call : Z * Z → RTC T → outcome (RTC T)).

Record at_time (t : Z) (s : RTC T) : Prop := {
  at_counter : counter (rtc s) = t mod 2 ^ 16;
  at_period : period s = t / 2 ^ 15 ∨ period s + 1 = t / 2 ^ 15;
  at_period_nonneg : 0 ≤ period s;
  at_range : 0 ≤ t < 2 ^ 47
}.

Lemma stm32_now_at t s : at_time t s → now s = t.
Proof.
  intros [Hc Hp Hp0 HT]. unfold now, calc_now. rewrite Hc.
  apply (clock_value_correct 15); [lia|lia|done|done].
Qed.

(** on any timer that keeps the interface's laws, setting one of its alarms at
    time [t] runs the callback at once when the timestamp has passed; arms the
    compare channel when it is less than 0xc000 ticks ahead, and the first time the
    counter matches is then not before the timestamp and at most two ticks late;
    and disables the channel otherwise, the timestamp then lying at least half a
    period into a later one. *)
Theorem stm32_set_alarm_spec n ts t s a :
  (1 ≤ n ≤ REAL_ALARM_COUNT)%nat → tim_wf (rtc s) →
  alarms s !! (n - 1)%nat = Some a → at_time t s → 0 ≤ ts < 2 ^ 64 →
  (ts ≤ t → ∃ s', set_alarm call n ts s =
     match callback a with Some f => call f s' | None => Done s' end ∧
     alarms s' !! (n - 1)%nat = Some (mkAlarm u64_MAX (callback a)) ∧
     compare_enabled n (rtc s') = false) ∧
  (t < ts → ∃ s', set_alarm call n ts s = Done s' ∧
     alarms s' !! (n - 1)%nat = Some (mkAlarm ts (callback a)) ∧
     (if ts - t <? 0xc000 then
        compare_enabled n (rtc s') = true ∧
        ∀ T', t < T' → T' mod 2 ^ 16 = compare_value n (rtc s') →
          ts ≤ T' ∧ (T' < t + 2 ^ 16 → T' ≤ ts + 2)
      else compare_enabled n (rtc s') = false ∧
        (t / 2 ^ 15 + 1) * 2 ^ 15 + 2 ^ 14 ≤ ts)).
Proof.
  intros Hn Hwf Ha Hat Hts.
  assert (Hnow : now (set_timestamp (n - 1) ts s) = t) by (apply stm32_now_at; by destruct Hat).
  assert (Hset : alarms (set_timestamp (n - 1) ts s) !! (n - 1)%nat =
    Some (mkAlarm ts (callback a))).
  { simpl. rewrite list_lookup_alter_eq. simpl. by rewrite Ha. }
  pose proof (at_range _ _ Hat) as HT.
  unfold set_alarm. rewrite Ha. cbn [expect mbind outcome_bind]. rewrite Hnow. split.
  - intros Hle. rewrite (proj2 (Z.leb_le _ _) Hle). unfold trigger_alarm.
    cbn [upd_rtc alarms]. rewrite Hset. cbn [expect mbind outcome_bind].
    eexists. split; [done|]. split.
    + cbn [set_timestamp alarms upd_rtc]. rewrite !list_lookup_alter_eq.
      rewrite Ha. done.
    + simpl. rewrite set_interrupt_enabled by lia. by rewrite decide_True.
  - intros Hlt. rewrite (proj2 (Z.leb_gt _ _) Hlt). rewrite (arith_fits 64 (ts - t)) by lia.
    cbn [mbind outcome_bind]. destruct (Z.ltb_spec (ts - t) 0xc000) as [Hd|Hd].
    + rewrite (arith_fits 64 (t + 3)) by lia. cbn [mbind outcome_bind].
      eexists. split; [done|]. split; [exact Hset|]. simpl.
      rewrite set_interrupt_enabled by lia. rewrite decide_True by done. split; [done|].
      intros T' HtT. rewrite set_interrupt_value, set_compare_value by (done || lia).
      rewrite decide_True by done. intros Hm.
      assert (Z.max ts (t + 3) ≤ T') by (apply (next_match 16 t); [lia|lia|lia|done|done]).
      split; [lia|]. intros HT2.
      assert (Hdvd : (T' - Z.max ts (t + 3)) mod 2 ^ 16 = 0).
      { by rewrite Zminus_mod, Hm, Z.sub_diag. }
      rewrite Z.mod_small in Hdvd by lia. lia.
    + eexists. split; [done|]. split; [exact Hset|]. simpl.
      rewrite set_interrupt_enabled by lia. rewrite decide_True by done. split; [done|].
      pose proof (Z.mul_div_le t (2 ^ 15) ltac:(lia)). lia.
Qed.
End props.

(** ** Witnesses *)
Lemma prescaler_spec_witness :
  let _ : Profile := true in
  prescaler 2 42000000 = Done 2562 ∧ (2562 + 1) * TICKS_PER_SECOND ≤ 84000000.
Proof.
  pose proof (prescaler_spec (P := true) 2 42000000 ltac:(lia) ltac:(lia)) as H.
  split; [reflexivity|].
  change (prescaler 2 42000000) with (@Done Z 2562) in H. exact (proj1 (proj2 H)).
Defined.

Definition demo_tim (c : Z) : Tim := mkTim 0 0 0 0 0 0 c [0; 0; 0; 0] true.

Lemma stm32_set_alarm_spec_witness :
  let _ : Profile := true in
  let _ : Instance Tim := Tim_Instance 3 in
  ∃ s', set_alarm (λ _ s, Done s) 2 0x8006
    (mkRTC (demo_tim 0x8005) 0 [AlarmState_new; AlarmState_new; AlarmState_new]) = Done s' ∧
    Z.testbit (dier (rtc s')) 3 = true.
Proof.
  destruct (proj2 (@stm32_set_alarm_spec true Tim (Tim_Instance 3) (Tim_Laws 3)
    (λ _ s, Done s) 2 0x8006 0x8005
    (mkRTC (demo_tim 0x8005) 0 [AlarmState_new; AlarmState_new; AlarmState_new])
    AlarmState_new ltac:(simpl; lia) ltac:(simpl; lia) eq_refl
    ltac:(split; [reflexivity|right; reflexivity|simpl; lia|lia]) ltac:(lia)) ltac:(lia))
    as (s' & Hr & _ & Hif).
  exists s'. split; [exact Hr|]. exact (proj1 Hif).
Defined.
