(* ===== verification/Stm32Run.v ===== *)
(** * Stm32Run: an STM32 timer as time goes by

    The driver of [Stm32Rtc] on the timers' registers, with what the hardware does between
    its calls: the counter counts, a channel whose value is reached raises its flag
    whether or not its interrupt is enabled, an interrupt is handled some time later.  The
    interrupt of the overflow is never enabled: what that does to the clock and to the
    alarms is shown here, and what the alarms are good for all the same. *)
From S2P Require Import Prelude Time RtcClock Stm32Rtc.
Local Open Scope Z_scope.

(** ** The hardware and the time *)

(** [time] counts ticks since [start]; [due] is when an interrupt that is pending is
    handled at the latest. *)
Record Timed : Type := mkTimed { time : Z; rtc_of : RTC Tim; due : option Z }.

Section timed.
(** A release build; a timer with [last] alarms; the ticks until an interrupt is handled. *)
Context {P : Profile} (Hrelease : overflow_checks = false).
Context (last : nat) (Hlast : (1 ≤ last ≤ 3)%nat).
Context (latency : Z).
#[local] Instance tim : Instance Tim := Tim_Instance last.
Implicit Types s : RTC Tim.

(** The callbacks signal executors and leave the driver alone. *)
Definition call (_ : Z * Z) s : outcome (RTC Tim) := Done s.

Definition enabled (n : nat) s : bool := Z.testbit (dier (rtc s)) (Z.of_nat n + 1).
Definition status (n : nat) s : bool := compare_interrupt_status n (rtc s).
Definition over s : bool := overflow_interrupt_status (rtc s).
Definition irq_pending s : bool :=
  existsb (λ k, Z.testbit (sr (rtc s)) k && Z.testbit (dier (rtc s)) k) [0; 1; 2; 3; 4].

(** The counter becomes [c]. *)
Definition matched (c : Z) (t : Tim) (n : nat) : bool :=
  (n <=? last)%nat && bool_decide (ccr t !! n = Some c).
Definition count (c : Z) (t : Tim) : Tim :=
  mkTim (cr1 t) (dier t)
    (foldr (λ n r, if matched c t n then bb_set r (Z.of_nat n + 1) else r)
       (if c =? 0 then bb_set (sr t) 0 else sr t) (seq 0 4))
    (egr t) (psc t) (arr t) c (ccr t) (clocked t).

Definition settle (t : Z) s (d : option Z) : Timed :=
  mkTimed t s (if irq_pending s then Some (default (t + latency) d) else None).

Definition tim_tick (m : Timed) : option Timed :=
  if match due m with Some d => d <=? time m | None => false end || (2 ^ 46 - 1 <=? time m)
  then None
  else
    let t := time m + 1 in
    Some (settle t (upd_rtc (count (t mod 2 ^ 16)) (rtc_of m)) (due m)).

(** The alarms whose callbacks the handler runs. *)
Definition fired s : list nat := List.filter (λ n, status n s) (seq 1 ALARM_COUNT).
Definition tim_irq (m : Timed) : option (list nat * Timed) :=
  if irq_pending (rtc_of m) then
    match on_interrupt call (rtc_of m) with
    | Done s => Some (fired (rtc_of m), settle (time m) s (due m))
    | Panic => None
    end
  else None.

(** An alarm is set; [true] if its callback is run at once. *)
Definition tim_set (n : nat) (ts : Z) (m : Timed) : option (bool * Timed) :=
  match set_alarm call n ts (rtc_of m) with
  | Done s => Some (ts <=? now (rtc_of m), settle (time m) s (due m))
  | Panic => None
  end.

(** ** Bits of the registers *)
Lemma status_bit n s : status n s = (n <=? last)%nat && Z.testbit (sr (rtc s)) (Z.of_nat n + 1).
Proof. unfold status. simpl. unfold tim_compare_interrupt_status. by destruct (_ <=? _)%nat. Qed.

Lemma count_bits c t ns b k : 0 ≤ k →
  Z.testbit (foldr (λ n r, if matched c t n then bb_set r (Z.of_nat n + 1) else r) b ns) k =
  Z.testbit b k || existsb (λ n, matched c t n && (Z.of_nat n + 1 =? k)) ns.
Proof.
  intros Hk. induction ns as [|n ns IH]; simpl; [by rewrite orb_false_r|].
  destruct (matched c t n); simpl; [|done]. rewrite bb_set_bit, IH by lia.
  destruct (Z.testbit b k), (existsb _ ns), (_ =? k); done.
Qed.

Lemma status_count c n s : (n < 4)%nat →
  status n (upd_rtc (count c) s) = status n s || matched c (rtc s) n.
Proof.
  intros Hn. rewrite !status_bit. unfold matched at 1. cbn [upd_rtc rtc count sr].
  destruct (Nat.leb_spec n last); [|done]. rewrite !andb_true_l.
  rewrite count_bits by lia. f_equal.
  - destruct (c =? 0); [|done]. rewrite bb_set_bit by lia.
    rewrite (proj2 (Z.eqb_neq _ _)) by lia. apply orb_false_r.
  - transitivity (matched c (rtc s) n).
    2:{ unfold matched. by rewrite (proj2 (Nat.leb_le _ _)) by done. }
    cbn [existsb seq]. rewrite !eqb_succ.
    destruct n as [|[|[|[|n]]]]; [..|lia]; cbn; rewrite ?andb_false_r, ?andb_true_r, ?orb_false_r; done.
Qed.

Lemma over_count c s : over (upd_rtc (count c) s) = over s || (c =? 0).
Proof.
  unfold over. cbn [overflow_interrupt_status tim Tim_Instance upd_rtc rtc count sr].
  rewrite count_bits by lia.
  assert (existsb (λ n, matched c (rtc s) n && (Z.of_nat n + 1 =? 0)) (seq 0 4) = false) as ->.
  { apply not_true_is_false. intros (n & _ & H)%existsb_exists. apply andb_true_iff in H as [_ H].
    apply Z.eqb_eq in H. lia. }
  rewrite orb_false_r. destruct (c =? 0); [|by rewrite orb_false_r]. rewrite bb_set_bit by lia.
  done.
Qed.

Lemma pending_status n s : (n < 4)%nat → status n s = true → enabled n s = true →
  irq_pending s = true.
Proof.
  rewrite status_bit. intros Hn [_ Hs]%andb_true_iff He. unfold irq_pending. apply existsb_exists.
  exists (Z.of_nat n + 1). unfold enabled in He. rewrite Hs, He. split; [|done].
  destruct n as [|[|[|[|n]]]]; [simpl; tauto..|lia].
Qed.

Lemma tim_quiet_not_pending s : (∀ n, status n s = false) →
  (∀ n, (last < n)%nat → enabled n s = false) → Z.testbit (dier (rtc s)) 0 = false →
  irq_pending s = false.
Proof.
  intros Hs Hn H0. apply not_true_is_false. intros (k & Hk & Hb)%existsb_exists.
  apply andb_true_iff in Hb as [Hb1 Hb2].
  assert (k = 0 ∨ ∃ n, k = Z.of_nat n + 1) as [->|[n ->]].
  { simpl in Hk. destruct Hk as [<-|Hk]; [by left|right].
    exists (Z.to_nat (k - 1)). lia. }
  - congruence.
  - specialize (Hs n). rewrite status_bit, Hb1, andb_true_r in Hs. apply Nat.leb_gt in Hs.
    specialize (Hn n Hs). unfold enabled in Hn. congruence.
Qed.

(** ** The parts of the handler *)
Definition shape s : Prop := length (alarms s) = 3%nat ∧ length (ccr (rtc s)) = 4%nat.

Definition near (base : Z) (a : AlarmState) : bool :=
  (0 <=? timestamp a - base) && (timestamp a - base <? 0xc000).
Definition alarm_at (n : nat) s : AlarmState := default AlarmState_new (alarms s !! (n - 1)%nat).
Definition rearmed (base : Z) (ns : list nat) s (m : nat) : bool :=
  bool_decide (m ∈ ns) && (m <=? last)%nat && near base (alarm_at m s).

(** What [next_period] does to the channels [ns]. *)
Record Armed (base : Z) (ns : list nat) s s' : Prop := {
  ar_counter : cnt (rtc s') = cnt (rtc s);
  ar_sr : sr (rtc s') = sr (rtc s);
  ar_period : period s' = period s;
  ar_alarms : alarms s' = alarms s;
  ar_length : length (ccr (rtc s')) = length (ccr (rtc s));
  ar_bit0 : Z.testbit (dier (rtc s')) 0 = Z.testbit (dier (rtc s)) 0;
  ar_enabled m : enabled m s' = rearmed base ns s m || enabled m s;
  ar_ccr m : ccr (rtc s') !! m =
    if rearmed base ns s m then Some (timestamp (alarm_at m s) mod 2 ^ 16) else ccr (rtc s) !! m
}.

Lemma tim_alarm_some n s : shape s → (1 ≤ n ≤ 3)%nat → alarms s !! (n - 1)%nat = Some (alarm_at n s).
Proof.
  intros [Ha _] Hn. destruct (lookup_lt_is_Some_2 (alarms s) (n - 1)) as [a E]; [lia|].
  unfold alarm_at. by rewrite E.
Qed.

Lemma enabled_interrupt n b m s : (1 ≤ n)%nat →
  enabled m (upd_rtc (set_compare_interrupt n b) s) =
  if decide (n = m ∧ n ≤ last)%nat then b else enabled m s.
Proof.
  intros Hn. unfold enabled. simpl. unfold tim_set_compare_interrupt.
  destruct (Nat.ltb_spec last n); [by rewrite decide_False by lia|]. simpl.
  destruct b; rewrite ?bb_set_bit, ?bb_clear_bit, eqb_succ by lia;
    repeat case_decide; try case_bool_decide; simpl; try done; try lia;
    by rewrite ?orb_true_r, ?orb_false_r, ?andb_false_r, ?andb_true_r.
Qed.

Lemma bit0_interrupt n b s : (1 ≤ n)%nat →
  Z.testbit (dier (rtc (upd_rtc (set_compare_interrupt n b) s))) 0 = Z.testbit (dier (rtc s)) 0.
Proof.
  intros Hn. cbn [upd_rtc rtc set_compare_interrupt tim Tim_Instance].
  unfold tim_set_compare_interrupt. destruct (last <? n)%nat; [done|]. cbn [upd_dier dier].
  destruct b; rewrite ?bb_set_bit, ?bb_clear_bit, (proj2 (Z.eqb_neq _ _)) by lia;
    by rewrite ?orb_false_r, ?andb_true_r.
Qed.

Lemma tim_next_period_alarm_run base n s : shape s → (1 ≤ n ≤ 3)%nat → 0 ≤ base < 2 ^ 48 →
  0 ≤ timestamp (alarm_at n s) < 2 ^ 64 →
  next_period_alarm base n s = Done (
    if near base (alarm_at n s) then
      upd_rtc (set_compare_interrupt n true)
        (upd_rtc (set_compare n (timestamp (alarm_at n s) mod 2 ^ 16)) s)
    else s).
Proof using Hrelease Hlast.
  intros Hs Hn Hb Hts. unfold next_period_alarm. rewrite (tim_alarm_some n s Hs Hn).
  cbn [expect mbind outcome_bind]. set (a := alarm_at n s) in *. unfold near.
  destruct (Z.leb_spec 0 (timestamp a - base)) as [Hle|Hlt].
  - rewrite (arith_fits 64) by lia. cbn [mbind outcome_bind andb]. by case_bool.
  - rewrite arith_overflow, Hrelease by lia. cbn [mbind outcome_bind andb].
    unfold wrap. rewrite (proj2 (Z.ltb_ge _ _)); [done|]. zdiv.
Qed.

Lemma Armed_refl base s : Armed base [] s s.
Proof. split; intros; try done; unfold rearmed; rewrite bool_decide_false by apply not_elem_of_nil; done. Qed.

Lemma Armed_step base n s : shape s → (1 ≤ n ≤ 3)%nat →
  Armed base [n] s (if near base (alarm_at n s) then
      upd_rtc (set_compare_interrupt n true)
        (upd_rtc (set_compare n (timestamp (alarm_at n s) mod 2 ^ 16)) s)
    else s).
Proof using Hlast.
  intros [Ha Hc] Hn.
  assert (Hr : ∀ m, rearmed base [n] s m =
    (bool_decide (n = m) && (n <=? last)%nat && near base (alarm_at n s))).
  { intros m. unfold rearmed. destruct (decide (n = m)) as [<-|Hne].
    - by rewrite !bool_decide_true by (done || apply list_elem_of_here).
    - rewrite !bool_decide_false; [done|done|]. by intros ?%list_elem_of_singleton. }
  destruct (near base (alarm_at n s)) eqn:Hnear.
  2:{ split; try done; intros m; by rewrite Hr, andb_false_r. }
  set (s1 := upd_rtc (set_compare n _) s).
  assert (Hs1 : cnt (rtc s1) = cnt (rtc s) ∧ sr (rtc s1) = sr (rtc s) ∧ dier (rtc s1) = dier (rtc s) ∧
    ccr (rtc s1) = if (n <=? last)%nat then <[n := timestamp (alarm_at n s) mod 2 ^ 16]> (ccr (rtc s))
                   else ccr (rtc s)).
  { unfold s1. simpl. unfold tim_set_compare. by destruct (_ <=? _)%nat. }
  destruct Hs1 as (E1 & E2 & E3 & E4).
  assert (Hk : ∀ t : Tim, let t' := tim_set_compare_interrupt last n true t in
    cnt t' = cnt t ∧ sr t' = sr t ∧ ccr t' = ccr t).
  { intros t. cbn. unfold tim_set_compare_interrupt. by destruct (_ <? _)%nat. }
  destruct (Hk (rtc s1)) as (F1 & F2 & F3).
  split.
  - by rewrite <-E1, <-F1.
  - by rewrite <-E2, <-F2.
  - done.
  - done.
  - change (length (ccr (tim_set_compare_interrupt last n true (rtc s1))) = length (ccr (rtc s))).
    rewrite F3, E4. destruct (_ <=? _)%nat; [apply length_insert|done].
  - by rewrite <-E3, <-(bit0_interrupt n true s1) by lia.
  - intros m. rewrite Hr, enabled_interrupt by lia. unfold enabled at 1. rewrite E3. fold (enabled m s).
    destruct (decide (n = m)) as [<-|Hne].
    + rewrite bool_decide_true by done. destruct (Nat.leb_spec n last).
      * by rewrite decide_True by lia.
      * by rewrite decide_False by lia.
    + rewrite bool_decide_false by done. by rewrite decide_False by naive_solver.
  - intros m. rewrite Hr.
    change (ccr (tim_set_compare_interrupt last n true (rtc s1)) !! m = if bool_decide (n = m) &&
      (n <=? last)%nat && true then Some (timestamp (alarm_at m s) mod 2 ^ 16) else ccr (rtc s) !! m).
    rewrite F3, E4. destruct (Nat.leb_spec n last).
    + rewrite list_lookup_insert. destruct (decide (n = m)) as [<-|Hne].
      * rewrite bool_decide_true by done. rewrite decide_True by lia. done.
      * rewrite bool_decide_false by done. rewrite decide_False by naive_solver. done.
    + by rewrite andb_false_r.
Qed.

Lemma Armed_trans base ns ms s s1 s2 :
  Armed base ns s s1 → Armed base ms s1 s2 → Armed base (ns ++ ms) s s2.
Proof.
  intros A B. assert (Ha : ∀ m, alarm_at m s1 = alarm_at m s).
  { intros m. unfold alarm_at. by rewrite (ar_alarms _ _ _ _ A). }
  assert (Hr : ∀ m, rearmed base (ns ++ ms) s m = rearmed base ms s1 m || rearmed base ns s m).
  { intros m. unfold rearmed. rewrite Ha.
    assert (bool_decide (m ∈ ns ++ ms) = bool_decide (m ∈ ns) || bool_decide (m ∈ ms)) as ->.
    { repeat case_bool_decide; set_solver. }
    by destruct (bool_decide (m ∈ ns)), (bool_decide (m ∈ ms)), (m <=? last)%nat, (near base _). }
  destruct A as [A1 A2 A3 A4 A5 A6 A7 A8], B as [B1 B2 B3 B4 B5 B6 B7 B8].
  split; try congruence; intros m; rewrite Hr.
  - by rewrite B7, A7, orb_assoc.
  - rewrite B8, A8, Ha. by destruct (rearmed base ms s1 m).
Qed.

Lemma Armed_shape base ns s s' : Armed base ns s s' → shape s → shape s'.
Proof. intros A [Ha Hc]. split; [by rewrite (ar_alarms _ _ _ _ A)|by rewrite (ar_length _ _ _ _ A)]. Qed.

Lemma for_alarms_armed base ns : ∀ s, shape s → Forall (λ n, 1 ≤ n ≤ 3)%nat ns → 0 ≤ base < 2 ^ 48 →
  Forall (λ a, 0 ≤ timestamp a < 2 ^ 64) (alarms s) →
  ∃ s', for_alarms (next_period_alarm base) ns s = Done s' ∧ Armed base ns s s'.
Proof using Hrelease Hlast.
  induction ns as [|n ns IH]; intros s Hs Hn Hb Hts; cbn [for_alarms].
  { exists s. split; [done|apply Armed_refl]. }
  apply Forall_cons in Hn as [Hn Hns].
  assert (Ht : 0 ≤ timestamp (alarm_at n s) < 2 ^ 64).
  { rewrite Forall_lookup in Hts. eapply Hts. by apply tim_alarm_some. }
  rewrite (tim_next_period_alarm_run base n s Hs Hn Hb Ht). cbn [mbind outcome_bind].
  pose proof (Armed_step base n s Hs Hn) as A. set (s1 := if near _ _ then _ else _) in *.
  destruct (IH s1) as (s' & -> & B); try done.
  - by eapply Armed_shape.
  - by rewrite (ar_alarms _ _ _ _ A).
  - exists s'. split; [done|]. exact (Armed_trans base [n] ns s s1 s' A B).
Qed.

(** The period is counted, and the alarms that are near get their values. *)
Definition base_of s : Z := (period s + 1) * 2 ^ 15.

Lemma tim_next_period_run s : shape s → Forall (λ a, 0 ≤ timestamp a < 2 ^ 64) (alarms s) →
  0 ≤ period s < 2 ^ 32 - 2 →
  ∃ s', next_period s = Done s' ∧
    Armed (base_of s) [1; 2; 3]%nat (mkRTC (rtc s) (period s + 1) (alarms s)) s'.
Proof using Hrelease Hlast.
  intros Hs Hts Hp. unfold next_period. rewrite (arith_fits 32) by lia. cbn [mbind outcome_bind].
  rewrite Z.mod_small by lia. rewrite Z.shiftl_mul_pow2 by lia. fold (base_of s).
  apply for_alarms_armed; [done|repeat constructor; lia|unfold base_of; lia|done].
Qed.

(** What the turns over the alarms do. *)
Record Fired (ns : list nat) s s' : Prop := {
  fi_counter : cnt (rtc s') = cnt (rtc s);
  fi_period : period s' = period s;
  fi_ccr : ccr (rtc s') = ccr (rtc s);
  fi_over : over s' = over s;
  fi_bit0 : Z.testbit (dier (rtc s')) 0 = Z.testbit (dier (rtc s)) 0;
  fi_length : length (alarms s') = length (alarms s);
  fi_status m : status m s' = negb (bool_decide (m ∈ ns)) && status m s;
  fi_enabled m : enabled m s' = if bool_decide (m ∈ ns) && status m s then false else enabled m s;
  fi_alarm m : (1 ≤ m ≤ 3)%nat → alarm_at m s' =
    if bool_decide (m ∈ ns) && status m s then mkAlarm u64_MAX (callback (alarm_at m s))
    else alarm_at m s
}.

Definition fire (n : nat) s : RTC Tim :=
  set_timestamp (n - 1) u64_MAX
    (upd_rtc (set_compare_interrupt n false) (upd_rtc (compare_clear_flag n) s)).

Lemma on_compare_run n s : shape s → (1 ≤ n ≤ 3)%nat →
  on_compare call n s = Done (if status n s then fire n s else s).
Proof.
  intros Hs Hn. unfold on_compare. fold (status n s). destruct (status n s); [|done].
  unfold trigger_alarm, fire. set (s1 := upd_rtc _ (upd_rtc _ s)).
  change (alarms s1) with (alarms s). rewrite (tim_alarm_some n s Hs Hn).
  cbn [expect mbind outcome_bind]. by destruct (callback _).
Qed.

Lemma status_clear n m s : (1 ≤ n)%nat →
  status m (upd_rtc (compare_clear_flag n) s) = negb (bool_decide (n = m)) && status m s.
Proof.
  intros Hn. rewrite !status_bit. simpl. unfold tim_compare_clear_flag.
  destruct (Nat.ltb_spec last n), (Nat.leb_spec m last); simpl; rewrite ?andb_false_r; try done.
  - by rewrite bool_decide_false by lia.
  - rewrite bb_clear_bit, eqb_succ by lia. apply andb_comm.
Qed.

Lemma over_clear n s : over (upd_rtc (compare_clear_flag n) s) = over s.
Proof.
  unfold over. cbn [overflow_interrupt_status tim Tim_Instance upd_rtc rtc compare_clear_flag].
  unfold tim_compare_clear_flag. destruct (_ <? _)%nat; [done|]. cbn [upd_sr sr].
  rewrite bb_clear_bit, (proj2 (Z.eqb_neq _ _)) by lia. apply andb_true_r.
Qed.

Lemma fire_all n s : shape s → (1 ≤ n ≤ 3)%nat → status n s = true → Fired [n] s (fire n s).
Proof.
  intros [Ha Hc] Hn Hst.
  assert (Hin : ∀ m, bool_decide (m ∈ [n]) = bool_decide (n = m)).
  { intros m. apply bool_decide_ext. rewrite list_elem_of_singleton. naive_solver. }
  assert (Hn' : (n <= last)%nat).
  { rewrite status_bit in Hst. apply andb_true_iff in Hst as [?%Nat.leb_le _]. done. }
  set (s1 := upd_rtc (compare_clear_flag n) s).
  assert (Hk : cnt (rtc (fire n s)) = cnt (rtc s) ∧ ccr (rtc (fire n s)) = ccr (rtc s) ∧
    sr (rtc (fire n s)) = sr (rtc s1)).
  { simpl. unfold tim_set_compare_interrupt, tim_compare_clear_flag. by destruct (_ <? _)%nat. }
  destruct Hk as (E1 & E2 & E3).
  assert (Hd : ∀ m, enabled m s1 = enabled m s).
  { intros m. unfold enabled. simpl. unfold tim_compare_clear_flag. by destruct (_ <? _)%nat. }
  assert (Hs : ∀ m, status m (fire n s) = status m s1) by (intros m; by rewrite !status_bit, E3).
  split; try done.
  - unfold over. cbn [overflow_interrupt_status tim Tim_Instance]. rewrite E3. apply (over_clear n s).
  - change (dier (rtc (fire n s))) with (dier (rtc (upd_rtc (set_compare_interrupt n false) s1))).
    rewrite bit0_interrupt by lia. simpl. unfold tim_compare_clear_flag. by destruct (_ <? _)%nat.
  - unfold fire. simpl. by rewrite length_alter.
  - intros m. rewrite Hs, Hin. apply status_clear. lia.
  - intros m. rewrite Hin.
    change (enabled m (fire n s)) with (enabled m (upd_rtc (set_compare_interrupt n false) s1)).
    rewrite enabled_interrupt, Hd by lia. destruct (decide (n = m)) as [<-|Hne].
    + by rewrite decide_True, bool_decide_true, Hst by done.
    + by rewrite decide_False, bool_decide_false by naive_solver.
  - intros m Hm. rewrite Hin. unfold alarm_at, fire. cbn [set_timestamp alarms upd_rtc].
    destruct (decide (n = m)) as [<-|Hne].
    + rewrite list_lookup_alter_eq, bool_decide_true, Hst by done.
      destruct (lookup_lt_is_Some_2 (alarms s) (n - 1)) as [a ->]; [lia|done].
    + rewrite list_lookup_alter_ne by lia. by rewrite bool_decide_false.
Qed.

Lemma Fired_refl s : Fired [] s s.
Proof.
  assert (H : ∀ m : nat, bool_decide (m ∈ @nil nat) = false).
  { intros m. apply bool_decide_false, not_elem_of_nil. }
  split; intros; rewrite ?H; done.
Qed.

Lemma Fired_trans ns ms s s1 s2 : Fired ns s s1 → Fired ms s1 s2 → Fired (ns ++ ms) s s2.
Proof.
  intros A B. assert (Hb : ∀ m : nat, bool_decide (m ∈ ns ++ ms) =
    bool_decide (m ∈ ns) || bool_decide (m ∈ ms)).
  { intros m. repeat case_bool_decide; set_solver. }
  destruct A as [A1 A2 A3 A4 A5 A6 A7 A8 A9], B as [B1 B2 B3 B4 B5 B6 B7 B8 B9].
  split; try congruence; intros m.
  - rewrite B7, A7, Hb. by destruct (bool_decide (m ∈ ns)), (bool_decide (m ∈ ms)).
  - rewrite B8, A8, A7, Hb.
    by destruct (bool_decide (m ∈ ns)), (bool_decide (m ∈ ms)), (status m s).
  - intros Hm. rewrite B9, A9, A7, Hb by done.
    by destruct (bool_decide (m ∈ ns)), (bool_decide (m ∈ ms)), (status m s).
Qed.

Lemma Fired_shape ns s s' : Fired ns s s' → shape s → shape s'.
Proof. intros A [Ha Hc]. split; [by rewrite (fi_length _ _ _ A)|by rewrite (fi_ccr _ _ _ A)]. Qed.

Lemma for_alarms_fired ns : ∀ s, shape s → Forall (λ n, 1 ≤ n ≤ 3)%nat ns →
  ∃ s', for_alarms (on_compare call) ns s = Done s' ∧ Fired ns s s'.
Proof.
  induction ns as [|n ns IH]; intros s Hs Hn; cbn [for_alarms].
  { exists s. split; [done|apply Fired_refl]. }
  apply Forall_cons in Hn as [Hn Hns]. rewrite (on_compare_run n s Hs Hn).
  cbn [mbind outcome_bind].
  assert (A : Fired [n] s (if status n s then fire n s else s)).
  { destruct (status n s) eqn:Hst; [by apply fire_all|].
    assert (Hf : ∀ m, bool_decide (m ∈ [n]) && status m s = false).
    { intros m. case_bool_decide as Hm; [|done]. apply list_elem_of_singleton in Hm as ->. done. }
    split; intros; rewrite ?Hf; try done. specialize (Hf m). by destruct (bool_decide _), (status m s). }
  set (s1 := if status n s then _ else _) in *. destruct (IH s1) as (s' & -> & B); [|done|].
  - by eapply Fired_shape.
  - exists s'. split; [done|]. exact (Fired_trans [n] ns s s1 s' A B).
Qed.

(** The alarms the handler gives a value: [near] the period that begins at the overflow,
    or the one that begins in the middle. *)
Definition rearmed2 s (m : nat) : bool :=
  over s && rearmed (base_of s) [1; 2; 3]%nat s m ||
  status 0 s && rearmed (base_of s + Z.b2z (over s) * 2 ^ 15) [1; 2; 3]%nat s m.

Definition counted s : outcome (RTC Tim) :=
  s1 ← (if over s then next_period (upd_rtc overflow_clear_flag s) else Done s);
  if status 0 s1 then next_period (upd_rtc (compare_clear_flag 0) s1) else Done s1.

Lemma tim_on_interrupt_counted s :
  on_interrupt call s = (s2 ← counted s; for_alarms (on_compare call) (seq 1 ALARM_COUNT) s2).
Proof.
  unfold on_interrupt, counted. fold (over s).
  destruct (if over s then _ else _) as [s1|]; [|done]. cbn [mbind outcome_bind]. by fold (status 0 s1).
Qed.

Record Counted s s' : Prop := {
  co_counter : cnt (rtc s') = cnt (rtc s);
  co_period : period s' = period s + Z.b2z (over s) + Z.b2z (status 0 s);
  co_alarms : alarms s' = alarms s;
  co_length : length (ccr (rtc s')) = length (ccr (rtc s));
  co_bit0 : Z.testbit (dier (rtc s')) 0 = Z.testbit (dier (rtc s)) 0;
  co_over : over s' = false;
  co_status m : status m s' = negb (bool_decide (m = 0%nat)) && status m s;
  co_enabled m : enabled m s' = rearmed2 s m || enabled m s;
  co_ccr m : ccr (rtc s') !! m =
    if rearmed2 s m then Some (timestamp (alarm_at m s) mod 2 ^ 16) else ccr (rtc s) !! m
}.

Lemma clear_over s : let s1 := upd_rtc overflow_clear_flag s in
  over s1 = false ∧ (∀ m, status m s1 = status m s) ∧ (∀ m, enabled m s1 = enabled m s).
Proof.
  cbn zeta. split_and!; [|intros m|done].
  - unfold over. cbn [overflow_interrupt_status tim Tim_Instance upd_rtc rtc overflow_clear_flag upd_sr sr].
    rewrite bb_clear_bit by lia. apply andb_false_r.
  - rewrite !status_bit. cbn [upd_rtc rtc overflow_clear_flag tim Tim_Instance upd_sr sr].
    rewrite bb_clear_bit, (proj2 (Z.eqb_neq 0 _)) by lia. by rewrite andb_true_r.
Qed.

Lemma clear_zero s : let s1 := upd_rtc (compare_clear_flag 0) s in
  over s1 = over s ∧ (∀ m, status m s1 = negb (bool_decide (m = 0%nat)) && status m s) ∧
  (∀ m, enabled m s1 = enabled m s).
Proof.
  cbn zeta. split_and!; [|intros m|done].
  - unfold over. cbn [overflow_interrupt_status tim Tim_Instance upd_rtc rtc compare_clear_flag].
    unfold tim_compare_clear_flag. destruct (_ <? _)%nat; [done|]. cbn [upd_sr sr].
    rewrite bb_clear_bit, (proj2 (Z.eqb_neq _ _)) by lia. apply andb_true_r.
  - rewrite !status_bit. cbn [upd_rtc rtc compare_clear_flag tim Tim_Instance].
    unfold tim_compare_clear_flag. destruct (Nat.ltb_spec last 0); [lia|]. cbn [upd_sr sr].
    rewrite bb_clear_bit, eqb_succ by lia.
    rewrite (bool_decide_ext (0%nat = m) (m = 0%nat)) by done.
    destruct (_ <=? _)%nat, (Z.testbit _ _), (bool_decide _); done.
Qed.

Lemma Armed_flags base ns s s' : Armed base ns s s' →
  over s' = over s ∧ ∀ m, status m s' = status m s.
Proof.
  intros A. split; [|intros m; by rewrite !status_bit, (ar_sr _ _ _ _ A)].
  unfold over. cbn [overflow_interrupt_status tim Tim_Instance]. by rewrite (ar_sr _ _ _ _ A).
Qed.

Lemma rearmed_same base ns s s1 m : alarms s1 = alarms s →
  rearmed base ns s1 m = rearmed base ns s m.
Proof. intros H. unfold rearmed, alarm_at. by rewrite H. Qed.

(** One period is counted, from a state like [s]. *)
Lemma period_counted s s0 : shape s → Forall (λ a, 0 ≤ timestamp a < 2 ^ 64) (alarms s) →
  0 ≤ period s < 2 ^ 32 - 2 → period s0 = period s → alarms s0 = alarms s →
  length (ccr (rtc s0)) = length (ccr (rtc s)) →
  ∃ s', next_period s0 = Done s' ∧ cnt (rtc s') = cnt (rtc s0) ∧ period s' = period s + 1 ∧
    alarms s' = alarms s ∧ length (ccr (rtc s')) = length (ccr (rtc s)) ∧
    Z.testbit (dier (rtc s')) 0 = Z.testbit (dier (rtc s0)) 0 ∧
    over s' = over s0 ∧ (∀ m, status m s' = status m s0) ∧
    (∀ m, enabled m s' = rearmed (base_of s) [1; 2; 3]%nat s m || enabled m s0) ∧
    ∀ m, ccr (rtc s') !! m = if rearmed (base_of s) [1; 2; 3]%nat s m
      then Some (timestamp (alarm_at m s) mod 2 ^ 16) else ccr (rtc s0) !! m.
Proof using Hrelease Hlast.
  intros [Ha Hc] Hts Hp Ep Ea Ec.
  destruct (tim_next_period_run s0) as (s' & -> & A);
    [by split; congruence|by rewrite Ea|by rewrite Ep|].
  destruct (Armed_flags _ _ _ _ A) as [Ho Hst]. destruct A as [A1 A2 A3 A4 A5 A6 A7 A8].
  assert (Hb : base_of s0 = base_of s) by (unfold base_of; by rewrite Ep).
  assert (Hr : ∀ m, rearmed (base_of s0) [1; 2; 3]%nat (mkRTC (rtc s0) (period s0 + 1) (alarms s0)) m =
    rearmed (base_of s) [1; 2; 3]%nat s m) by (intros m; rewrite Hb; by apply rearmed_same).
  assert (Hal : ∀ m, alarm_at m (mkRTC (rtc s0) (period s0 + 1) (alarms s0)) = alarm_at m s)
    by (intros m; unfold alarm_at; simpl; by rewrite Ea).
  exists s'. split; [done|]. cbn [rtc period alarms] in *.
  split_and!; try congruence; try done.
  - intros m. by rewrite A7, Hr.
  - intros m. by rewrite A8, Hr, Hal.
Qed.

Lemma tim_counted_all s : shape s → Forall (λ a, 0 ≤ timestamp a < 2 ^ 64) (alarms s) →
  0 ≤ period s < 2 ^ 32 - 3 → ∃ s', counted s = Done s' ∧ Counted s s'.
Proof using Hrelease Hlast.
  intros Hs Hts Hp. unfold counted.
  assert (H1 : ∃ s1, (if over s then next_period (upd_rtc overflow_clear_flag s) else Done s) = Done s1 ∧
    cnt (rtc s1) = cnt (rtc s) ∧ period s1 = period s + Z.b2z (over s) ∧ alarms s1 = alarms s ∧
    length (ccr (rtc s1)) = length (ccr (rtc s)) ∧
    Z.testbit (dier (rtc s1)) 0 = Z.testbit (dier (rtc s)) 0 ∧ over s1 = false ∧
    (∀ m, status m s1 = status m s) ∧
    (∀ m, enabled m s1 = over s && rearmed (base_of s) [1; 2; 3]%nat s m || enabled m s) ∧
    ∀ m, ccr (rtc s1) !! m = if over s && rearmed (base_of s) [1; 2; 3]%nat s m
      then Some (timestamp (alarm_at m s) mod 2 ^ 16) else ccr (rtc s) !! m).
  { destruct (over s) eqn:Ho.
    - destruct (clear_over s) as (C1 & C2 & C3).
      destruct (period_counted s (upd_rtc overflow_clear_flag s)) as
        (s1 & Hr & E1 & E2 & E3 & E4 & E5 & E6 & E7 & E8 & E9); try done; [lia|].
      exists s1. split_and!; try done; try congruence.
    - exists s. split_and!; try done. simpl. lia. }
  destruct H1 as (s1 & -> & E1 & E2 & E3 & E4 & E5 & E6 & E7 & E8 & E9). cbn [mbind outcome_bind].
  rewrite E7. unfold rearmed2 in *. destruct (status 0 s) eqn:Hh.
  - destruct (clear_zero s1) as (C1 & C2 & C3).
    destruct (period_counted s1 (upd_rtc (compare_clear_flag 0) s1)) as
      (s2 & Hr & F1 & F2 & F3 & F4 & F5 & F6 & F7 & F8 & F9); try done.
    + destruct Hs. split; congruence.
    + by rewrite E3.
    + destruct (over s); simpl in E2; lia.
    + exists s2. split; [done|].
      assert (Hk : cnt (rtc (upd_rtc (compare_clear_flag 0) s1)) = cnt (rtc s1) ∧
        dier (rtc (upd_rtc (compare_clear_flag 0) s1)) = dier (rtc s1) ∧
        ccr (rtc (upd_rtc (compare_clear_flag 0) s1)) = ccr (rtc s1)).
      { cbn [upd_rtc rtc compare_clear_flag tim Tim_Instance]. unfold tim_compare_clear_flag. by destruct (_ <? _)%nat. }
      destruct Hk as (K1 & K2 & K3).
      assert (Hb : base_of s1 = base_of s + Z.b2z (over s) * 2 ^ 15) by (unfold base_of; lia).
      assert (Hal : ∀ m, alarm_at m s1 = alarm_at m s) by (intros m; unfold alarm_at; by rewrite E3).
      split; try congruence.
      * rewrite F2, E2, Hh. cbn. lia.
      * intros m. unfold rearmed2. rewrite F8, C3, E8, (rearmed_same _ _ _ s1) by done. rewrite Hh, Hb.
        cbn [andb]. destruct (over s && _), (rearmed (base_of s + _) _ _ _); done.
      * intros m. unfold rearmed2. rewrite F9, K3, E9, (rearmed_same _ _ _ s1), Hal, Hh, Hb by done.
        cbn [andb]. destruct (over s && _), (rearmed (base_of s + _) _ _ _); done.
  - exists s1. split; [done|]. split; try done.
    + rewrite E2, Hh. cbn. lia.
    + intros m. rewrite E7. by case_bool_decide as Hm; [subst; rewrite Hh|].
    + intros m. unfold rearmed2. rewrite E8, Hh. cbn [andb]. by rewrite orb_false_r.
    + intros m. unfold rearmed2. rewrite E9, Hh. cbn [andb]. by rewrite orb_false_r.
Qed.

(** What a run of the handler leaves. *)
Record Handled s s' : Prop := {
  h_counter : cnt (rtc s') = cnt (rtc s);
  h_period : period s' = period s + Z.b2z (over s) + Z.b2z (status 0 s);
  h_shape : shape s';
  h_over : over s' = false;
  h_status m : status m s' = false;
  h_bit0 : Z.testbit (dier (rtc s')) 0 = Z.testbit (dier (rtc s)) 0;
  h_enabled m : enabled m s' =
    if bool_decide (m ∈ [1; 2; 3]%nat) && status m s then false else rearmed2 s m || enabled m s;
  h_ccr m : ccr (rtc s') !! m =
    if rearmed2 s m then Some (timestamp (alarm_at m s) mod 2 ^ 16) else ccr (rtc s) !! m;
  h_alarm m : (1 ≤ m ≤ 3)%nat → alarm_at m s' =
    if status m s then mkAlarm u64_MAX (callback (alarm_at m s)) else alarm_at m s
}.

Lemma tim_on_interrupt_run s : shape s → Forall (λ a, 0 ≤ timestamp a < 2 ^ 64) (alarms s) →
  0 ≤ period s < 2 ^ 32 - 3 → ∃ s', on_interrupt call s = Done s' ∧ Handled s s'.
Proof using Hrelease Hlast.
  intros Hs Hts Hp. rewrite tim_on_interrupt_counted.
  destruct (tim_counted_all s Hs Hts Hp) as (s1 & -> & A). cbn [mbind outcome_bind].
  assert (Hs1 : shape s1).
  { destruct Hs. by split; rewrite ?(co_alarms _ _ A), ?(co_length _ _ A). }
  destruct (for_alarms_fired (seq 1 ALARM_COUNT) s1 Hs1) as (s2 & Hr & B);
    [repeat constructor; lia|].
  exists s2. split; [exact Hr|].
  assert (Hst : ∀ m, bool_decide (m ∈ [1; 2; 3]%nat) && status m s1 =
    bool_decide (m ∈ [1; 2; 3]%nat) && status m s).
  { intros m. rewrite (co_status _ _ A). destruct m; [done|].
    by rewrite (bool_decide_false (S m = 0%nat)). }
  destruct B as [B1 B2 B3 B4 B5 B6 B7 B8 B9]. change (seq 1 ALARM_COUNT) with [1; 2; 3]%nat in *.
  split.
  - rewrite B1. apply A.
  - rewrite B2. apply A.
  - destruct Hs1. by split; congruence.
  - rewrite B4. apply A.
  - intros m. rewrite B7, (co_status _ _ A). destruct (status m s) eqn:Hm; [|by rewrite !andb_false_r].
    rewrite status_bit in Hm. apply andb_true_iff in Hm as [Hm%Nat.leb_le _].
    destruct (decide (m ∈ [1; 2; 3]%nat)) as [Hin|Hn]; [by rewrite bool_decide_true|].
    assert (m = 0)%nat as ->; [|done].
    destruct m as [|[|[|[|m]]]]; [done|..|lia]; exfalso; apply Hn; set_solver.
  - rewrite B5. apply A.
  - intros m. by rewrite B8, Hst, (co_enabled _ _ A).
  - intros m. rewrite B3. apply A.
  - intros m Hm. assert (Hal : alarm_at m s1 = alarm_at m s) by (unfold alarm_at; by rewrite (co_alarms _ _ A)).
    rewrite B9, Hst, Hal by done. rewrite bool_decide_true; [done|].
    destruct m as [|[|[|[|m]]]]; [lia|set_solver..|lia].
Qed.

(** ** Setting an alarm *)

(** What setting alarm [n] leaves, the clock being read as [v]. *)
Record SetTo (n : nat) (ts v : Z) s s' : Prop := {
  st_counter : cnt (rtc s') = cnt (rtc s);
  st_period : period s' = period s;
  st_shape : shape s';
  st_sr : sr (rtc s') = sr (rtc s);
  st_bit0 : Z.testbit (dier (rtc s')) 0 = Z.testbit (dier (rtc s)) 0;
  st_others m : m ≠ n → enabled m s' = enabled m s ∧ ccr (rtc s') !! m = ccr (rtc s) !! m;
  st_other_alarms m : (1 ≤ m ≤ 3)%nat → m ≠ n → alarm_at m s' = alarm_at m s;
  st_alarm : alarm_at n s' = mkAlarm (if ts <=? v then u64_MAX else ts) (callback (alarm_at n s));
  st_near : v < ts < v + 0xc000 → enabled n s' = true ∧
    ccr (rtc s') !! n = Some (Z.max ts (v + 3) mod 2 ^ 16);
  st_far : v + 0xc000 ≤ ts → enabled n s' = false ∧ ccr (rtc s') !! n = ccr (rtc s) !! n;
  st_past : ts ≤ v → enabled n s' = false ∧ ccr (rtc s') !! n = ccr (rtc s) !! n
}.

Definition with_interrupt (n : nat) (b : bool) (ts : Z) s : RTC Tim :=
  upd_rtc (set_compare_interrupt n b) (set_timestamp (n - 1) ts s).

Lemma with_interrupt_spec n b ts s : shape s → (1 ≤ n ≤ last)%nat →
  let s' := with_interrupt n b ts s in
  cnt (rtc s') = cnt (rtc s) ∧ period s' = period s ∧ shape s' ∧ sr (rtc s') = sr (rtc s) ∧
  ccr (rtc s') = ccr (rtc s) ∧
  Z.testbit (dier (rtc s')) 0 = Z.testbit (dier (rtc s)) 0 ∧
  (∀ m, enabled m s' = if decide (n = m) then b else enabled m s) ∧
  (∀ m, (1 ≤ m ≤ 3)%nat → m ≠ n → alarm_at m s' = alarm_at m s) ∧
  alarm_at n s' = mkAlarm ts (callback (alarm_at n s)).
Proof using Hlast.
  intros [Ha Hc] Hn. cbn zeta.
  assert (Hk : ∀ t : Tim, let t' := tim_set_compare_interrupt last n b t in
    cnt t' = cnt t ∧ sr t' = sr t ∧ ccr t' = ccr t).
  { intros t. cbn zeta. unfold tim_set_compare_interrupt. by destruct (_ <? _)%nat. }
  destruct (Hk (rtc s)) as (E1 & E2 & E3).
  split_and!; [exact E1|done| |exact E2|exact E3| | | |].
  - split; [simpl; by rewrite length_alter|]. etrans; [exact (f_equal length E3)|done].
  - unfold with_interrupt. by rewrite bit0_interrupt by lia.
  - intros m. unfold with_interrupt. rewrite enabled_interrupt by lia.
    destruct (decide (n = m)); [by rewrite decide_True by lia|by rewrite decide_False by naive_solver].
  - intros m Hm Hne. unfold alarm_at. cbn [with_interrupt upd_rtc set_timestamp alarms].
    by rewrite list_lookup_alter_ne by lia.
  - unfold alarm_at. cbn [with_interrupt upd_rtc set_timestamp alarms].
    rewrite list_lookup_alter_eq. by destruct (lookup_lt_is_Some_2 (alarms s) (n - 1)) as [a ->]; [lia|].
Qed.

Lemma alarm_at_set n ts s : shape s → (1 ≤ n ≤ 3)%nat →
  alarm_at n (set_timestamp (n - 1) ts s) = mkAlarm ts (callback (alarm_at n s)).
Proof.
  intros [Ha _] Hn. unfold alarm_at. cbn [set_timestamp alarms]. rewrite list_lookup_alter_eq.
  by destruct (lookup_lt_is_Some_2 (alarms s) (n - 1)) as [a ->]; [lia|].
Qed.

Lemma tim_set_alarm_run n ts s : shape s → (1 ≤ n ≤ last)%nat → 0 ≤ now s < 2 ^ 63 → 0 ≤ ts < 2 ^ 64 →
  ∃ s', set_alarm call n ts s = Done s' ∧ SetTo n ts (now s) s s'.
Proof using Hlast.
  intros Hs Hn Hv Hts. unfold set_alarm. rewrite (tim_alarm_some n s Hs) by lia.
  cbn [expect mbind outcome_bind]. set (s1 := set_timestamp (n - 1) ts s).
  change (now s1) with (now s). set (v := now s) in *.
  assert (Hs1 : shape s1).
  { destruct Hs. split; [|done]. unfold s1. simpl. by rewrite length_alter. }
  assert (Ha1 : alarm_at n s1 = mkAlarm ts (callback (alarm_at n s))) by (apply alarm_at_set; [done|lia]).
  destruct (Z.leb_spec ts v) as [Hle|Hlt].
  - exists (with_interrupt n false u64_MAX s1). split.
    { unfold trigger_alarm. cbn [upd_rtc alarms]. rewrite (tim_alarm_some n s1 Hs1) by lia.
      cbn [expect mbind outcome_bind]. destruct (callback (alarm_at n s1)); reflexivity. }
    destruct (with_interrupt_spec n false u64_MAX s1 Hs1 Hn) as (E1 & E2 & E3 & E4 & E5 & E6 & E7 & E8 & E9).
    split; try done; try lia.
    + intros m Hm. rewrite E7, E5. by rewrite decide_False.
    + intros m Hm Hne. rewrite E8 by done. unfold alarm_at, s1. cbn [set_timestamp alarms].
      by rewrite list_lookup_alter_ne by lia.
    + by rewrite E9, Ha1, (proj2 (Z.leb_le _ _)).
    + intros _. rewrite E7, E5. by rewrite decide_True.
  - rewrite (arith_fits 64 (ts - v)) by lia. cbn [mbind outcome_bind].
    destruct (decide (ts - v < 0xc000)) as [Hd|Hd].
    + rewrite (proj2 (Z.ltb_lt _ _) Hd), (arith_fits 64) by lia. cbn [mbind outcome_bind].
      set (x := Z.max ts (v + 3) mod 2 ^ 16). set (s2 := upd_rtc (set_compare n x) s).
      exists (with_interrupt n true ts s2). split; [done|].
      assert (Hk : cnt (rtc s2) = cnt (rtc s) ∧ sr (rtc s2) = sr (rtc s) ∧ dier (rtc s2) = dier (rtc s) ∧
        ccr (rtc s2) = <[n := x]> (ccr (rtc s))).
      { unfold s2. cbn [upd_rtc rtc set_compare tim Tim_Instance]. unfold tim_set_compare.
        by rewrite (proj2 (Nat.leb_le _ _)) by lia. }
      destruct Hk as (K1 & K2 & K3 & K4). pose proof Hs as [Hal Hcl].
      assert (Hs2 : shape s2) by (split; [done|]; by rewrite K4, length_insert).
      destruct (with_interrupt_spec n true ts s2 Hs2 Hn) as (E1 & E2 & E3 & E4 & E5 & E6 & E7 & E8 & E9).
      split; try congruence; try done; try lia.
      * intros m Hm. rewrite E7, E5, K4, list_lookup_insert_ne by done. rewrite decide_False by done.
        unfold enabled. by rewrite K3.
      * by rewrite E9, (proj2 (Z.leb_gt _ _)) by lia.
      * intros _. rewrite E7, E5, K4. rewrite decide_True by done.
        by rewrite list_lookup_insert_eq by lia.
    + rewrite (proj2 (Z.ltb_ge _ _)) by lia. exists (with_interrupt n false ts s). split; [done|].
      destruct (with_interrupt_spec n false ts s Hs Hn) as (E1 & E2 & E3 & E4 & E5 & E6 & E7 & E8 & E9).
      split; try done; try lia.
      * intros m Hm. rewrite E7, E5. by rewrite decide_False.
      * by rewrite E9, (proj2 (Z.leb_gt _ _)) by lia.
      * intros _. rewrite E7, E5. by rewrite decide_True.
Qed.

(** ** The invariant *)
Context (Hlatency : 0 ≤ latency ≤ 2 ^ 14).

(** The interrupt of the overflow is off; so the overflow is counted with the middle of
    the range that follows it, or when an alarm rings in between, and until then the count
    of periods is one behind -- two, while the interrupt of the middle is pending. *)
Record TimOk (m : Timed) : Prop := {
  ok_range : 0 ≤ time m < 2 ^ 46;
  ok_counter : cnt (rtc (rtc_of m)) = time m mod 2 ^ 16;
  ok_shape : shape (rtc_of m);
  ok_mid : ccr (rtc (rtc_of m)) !! 0%nat = Some 0x8000;
  ok_values : Forall (λ c, 0 ≤ c < 2 ^ 16) (ccr (rtc (rtc_of m)));
  ok_masked : Z.testbit (dier (rtc (rtc_of m))) 0 = false;
  ok_mid_enabled : enabled 0 (rtc_of m) = true;
  ok_none n : (last < n)%nat → enabled n (rtc_of m) = false;
  ok_timestamps : Forall (λ a, 0 ≤ timestamp a < 2 ^ 64) (alarms (rtc_of m));
  ok_period : 0 ≤ period (rtc_of m) ∧
    time m / 2 ^ 15 = period (rtc_of m) + Z.b2z (over (rtc_of m)) + Z.b2z (status 0 (rtc_of m));
  ok_over : over (rtc_of m) = true → status 0 (rtc_of m) = true ∨ (time m / 2 ^ 15) mod 2 = 0;
  ok_middle : status 0 (rtc_of m) = true → (time m / 2 ^ 15) mod 2 = 1 ∧
    ∃ d, due m = Some d ∧ d ≤ time m / 2 ^ 15 * 2 ^ 15 + latency;
  ok_due : match due m with
           | Some d => time m ≤ d ≤ time m + latency ∧ irq_pending (rtc_of m) = true
           | None => irq_pending (rtc_of m) = false
           end
}.

(** The overflow and the middle have not been counted: the clock is a turn of the counter
    behind. *)
Definition behind s : bool := over s && status 0 s.
Definition clock_of (m : Timed) : Z := time m - (if behind (rtc_of m) then 2 ^ 16 else 0).

Lemma now_clock m : TimOk m → now (rtc_of m) = clock_of m.
Proof using All.
  intros O. destruct (ok_period m O) as [Hp HT]. pose proof (ok_range m O) as Hr.
  pose proof (ok_middle m O) as Hm. unfold clock_of, behind.
  assert (Hc : counter (rtc (rtc_of m)) = time m mod 2 ^ 16).
  { cbn. rewrite (ok_counter m O). zdiv. }
  destruct (over (rtc_of m)), (status 0 (rtc_of m)); cbn [andb Z.b2z] in *; try (
    rewrite Z.sub_0_r; apply stm32_now_at; split; [exact Hc|lia|lia|lia]).
  apply stm32_now_at. split; [|zdiv|lia|]; [|destruct (Hm eq_refl) as [Hodd _]; zdiv].
  rewrite Hc. zdiv.
Qed.

Lemma clock_range m : TimOk m → 0 ≤ clock_of m ≤ time m.
Proof using All.
  intros O. destruct (ok_period m O) as [Hp HT]. pose proof (ok_range m O) as Hr.
  pose proof (ok_middle m O) as Hm. unfold clock_of, behind.
  destruct (over (rtc_of m)), (status 0 (rtc_of m)); cbn [andb Z.b2z] in *; try lia.
  destruct (Hm eq_refl) as [Hodd _]. zdiv.
Qed.

Lemma tim_next_tick t : 0 ≤ t → let c := (t + 1) mod 2 ^ 16 in
  (t + 1) / 2 ^ 15 = t / 2 ^ 15 + Z.b2z (c =? 0) + Z.b2z (c =? 0x8000) ∧
  (c = 0 → ((t + 1) / 2 ^ 15) mod 2 = 0) ∧
  (c = 0x8000 → ((t + 1) / 2 ^ 15) mod 2 = 1 ∧ t + 1 = (t + 1) / 2 ^ 15 * 2 ^ 15).
Proof. intros Ht. clear -Ht. cbn zeta. do 2 case_bool; cbn; split_and!; try done; zdiv. Qed.

Lemma settle_due t s d : (match d with Some d => t ≤ d ≤ t + latency | None => True end) →
  match due (settle t s d) with
  | Some d => t ≤ d ≤ t + latency ∧ irq_pending s = true
  | None => irq_pending s = false
  end.
Proof using All.
  intros Hd. unfold settle. cbn [due]. destruct (irq_pending s) eqn:E; [|done].
  split; [|done]. destruct d; simpl; lia.
Qed.

Lemma tim_tick_ok m m' : TimOk m → tim_tick m = Some m' → TimOk m' ∧ time m' = time m + 1.
Proof using All.
  intros O Hm. unfold tim_tick in Hm. destruct (_ || _) eqn:Hg; [done|]. injection Hm as <-.
  split; [|done]. apply orb_false_iff in Hg as [Hd HT%Z.leb_gt].
  set (t := time m) in *. set (s := rtc_of m) in *. set (s' := upd_rtc _ s).
  destruct (tim_next_tick t) as (N1 & N2 & N3); [apply O|]. set (c := (t + 1) mod 2 ^ 16) in *.
  destruct (ok_period m O) as [Hp HTp]. fold t s in HTp, Hp. pose proof (ok_range m O) as Hr.
  assert (Ho : over s' = over s || (c =? 0)) by apply over_count.
  assert (H0 : status 0 s' = status 0 s || (c =? 0x8000)).
  { unfold s'. rewrite status_count by lia. f_equal. unfold matched.
    rewrite (ok_mid m O : ccr (rtc s) !! 0%nat = _). simpl. rewrite Z.eqb_sym.
    case_bool_decide; case_bool; congruence. }
  assert (Hmid : status 0 s = true → (t + 1) / 2 ^ 15 = t / 2 ^ 15 ∧ c ≠ 0 ∧ c ≠ 0x8000 ∧
    (t / 2 ^ 15) mod 2 = 1 ∧ ∃ d, due m = Some d ∧ d ≤ t / 2 ^ 15 * 2 ^ 15 + latency ∧ t < d).
  { intros Hs. destruct (ok_middle m O Hs) as (Hodd & d & Hdue & Hb). fold t in Hodd, Hb.
    rewrite Hdue in Hd. apply Z.leb_gt in Hd.
    assert (Heq : (t + 1) / 2 ^ 15 = t / 2 ^ 15) by zdiv.
    split_and!; [done| | |done|by exists d].
    - intros Hc. rewrite Hc, Heq in N1. simpl in N1. lia.
    - intros Hc. rewrite Hc, Heq in N1. simpl in N1. lia. }
  assert (Hpast : match due m with Some d => t + 1 ≤ d ≤ t + 1 + latency | None => True end).
  { pose proof (ok_due m O) as Hdue. fold t in Hdue. destruct (due m) as [d|]; [|done].
    apply Z.leb_gt in Hd. lia. }
  split; cbn [settle time rtc_of]; fold s'.
  - lia.
  - done.
  - apply O.
  - apply O.
  - apply O.
  - apply O.
  - apply O.
  - apply O.
  - apply O.
  - split; [done|]. rewrite Ho, H0. change (period s') with (period s).
    destruct (status 0 s) eqn:Hs.
    + destruct (Hmid eq_refl) as (-> & Hc0 & Hc1 & _). rewrite !(proj2 (Z.eqb_neq _ _)) by done.
      by rewrite !orb_false_r.
    + rewrite N1, HTp. cbn [orb]. destruct (over s) eqn:Hov.
      * destruct (ok_over m O Hov) as [Hx|Heven]; [fold s in Hx; congruence|]. fold t in Heven.
        destruct (Z.eqb_spec c 0) as [Hc|_]; [|simpl; lia]. specialize (N2 Hc).
        rewrite Hc in N1. simpl in N1. zdiv.
      * simpl. lia.
  - rewrite Ho, H0. destruct (status 0 s) eqn:Hs; [by left|]. cbn [orb].
    intros Hx0. destruct (Z.eqb_spec c 0x8000) as [Hc|Hc]; [by left|]. right.
    destruct (Z.eqb_spec c 0) as [Hc0|Hc0]; [by apply N2|].
    rewrite N1. simpl. rewrite !Z.add_0_r. destruct (over s) eqn:Hov; [|done].
    destruct (ok_over m O Hov) as [Hx|?]; [fold s in Hx; congruence|done].
  - rewrite H0. intros Hs'. assert (Hpd : irq_pending s' = true).
    { eapply (pending_status 0); [lia|by rewrite H0|]. exact (ok_mid_enabled m O). }
    unfold settle. cbn [due]. rewrite Hpd. destruct (status 0 s) eqn:Hs.
    + destruct (Hmid eq_refl) as (-> & _ & _ & Hodd & d & -> & Hb & _). split; [done|]. by exists d.
    + cbn [orb] in Hs'. apply Z.eqb_eq in Hs'. destruct (N3 Hs') as [Hodd Heq]. split; [done|].
      eexists. split; [done|]. destruct (due m); simpl; lia.
  - by apply settle_due.
Qed.

Lemma rearmed2_some s n : rearmed2 s n = true → (1 ≤ n ≤ last)%nat.
Proof.
  unfold rearmed2, rearmed.
  assert (Hin : ∀ b x y, b && (bool_decide (n ∈ [1; 2; 3]%nat) && (n <=? last)%nat && x) = y →
    y = true → (1 ≤ n ≤ last)%nat).
  { intros b x y <- Hb. apply andb_true_iff in Hb as [_ Hb]. apply andb_true_iff in Hb as [Hb _].
    apply andb_true_iff in Hb as [Hb%bool_decide_eq_true Hl%Nat.leb_le]. set_unfold in Hb. lia. }
  intros [H|H]%orb_true_iff; by eapply Hin.
Qed.

Lemma tim_period_bound m : TimOk m → 0 ≤ period (rtc_of m) < 2 ^ 32 - 3.
Proof using All.
  intros O. destruct (ok_period m O) as [Hp HT]. pose proof (ok_range m O).
  destruct (over _), (status 0 _); cbn in HT; zdiv.
Qed.

Lemma tim_irq_handled m l m' : TimOk m → tim_irq m = Some (l, m') →
  irq_pending (rtc_of m) = true ∧ l = fired (rtc_of m) ∧ Handled (rtc_of m) (rtc_of m') ∧
  time m' = time m ∧ due m' = None.
Proof using All.
  intros O. unfold tim_irq. destruct (irq_pending _) eqn:Hp; [|done].
  destruct (tim_on_interrupt_run (rtc_of m)) as (s' & -> & H); try apply O; [by apply tim_period_bound|].
  intros [= <- <-]. split_and!; try done. unfold settle. cbn [due].
  rewrite tim_quiet_not_pending; [done|apply H| |].
  - intros n Hn. rewrite (h_enabled _ _ H), (ok_none m O n Hn).
    destruct (rearmed2 (rtc_of m) n) eqn:Hr; [apply rearmed2_some in Hr; lia|].
    by destruct (_ && _).
  - rewrite (h_bit0 _ _ H). apply O.
Qed.

Lemma fired_elem n s : n ∈ fired s ↔ (1 ≤ n ≤ 3)%nat ∧ status n s = true.
Proof.
  unfold fired. rewrite list_elem_of_In, List.filter_In, in_seq. unfold ALARM_COUNT.
  split; intros [? ?]; split; try done; lia.
Qed.

(** Every alarm, every channel. *)
Lemma timestamp_at s k : shape s → Forall (λ a, 0 ≤ timestamp a < 2 ^ 64) (alarms s) →
  (1 ≤ k ≤ 3)%nat → 0 ≤ timestamp (alarm_at k s) < 2 ^ 64.
Proof. intros Hs Ht Hk. rewrite Forall_lookup in Ht. eapply Ht. by apply tim_alarm_some. Qed.

Lemma timestamps_at s : shape s →
  (∀ k, (1 ≤ k ≤ 3)%nat → 0 ≤ timestamp (alarm_at k s) < 2 ^ 64) →
  Forall (λ a, 0 ≤ timestamp a < 2 ^ 64) (alarms s).
Proof.
  intros [Ha _] H. apply Forall_lookup. intros i a Hi.
  assert (Hi3 : (i < 3)%nat) by (apply lookup_lt_Some in Hi; lia).
  specialize (H (i + 1)%nat ltac:(lia)). unfold alarm_at in H. by rewrite Nat.add_sub, Hi in H.
Qed.

Lemma values_at s' s : Forall (λ c, 0 ≤ c < 2 ^ 16) (ccr (rtc s)) →
  (∀ k, ccr (rtc s') !! k = ccr (rtc s) !! k ∨ ∃ c, ccr (rtc s') !! k = Some c ∧ 0 ≤ c < 2 ^ 16) →
  Forall (λ c, 0 ≤ c < 2 ^ 16) (ccr (rtc s')).
Proof.
  intros Hs Hk. apply Forall_lookup. intros k c Hc. destruct (Hk k) as [E|(c' & E & H)].
  - rewrite Forall_lookup in Hs. apply (Hs k). congruence.
  - congruence.
Qed.

Lemma tim_irq_ok m l m' : TimOk m → tim_irq m = Some (l, m') → TimOk m'.
Proof using All.
  intros O Hm. destruct (tim_irq_handled m l m' O Hm) as (Hpd & _ & H & Ht & Hd).
  destruct (ok_period m O) as [Hp HT].
  assert (H00 : rearmed2 (rtc_of m) 0 = false).
  { apply not_true_is_false. intros Hr%rearmed2_some. lia. }
  split; rewrite ?Ht, ?(h_over _ _ H), ?(h_status _ _ H 0).
  - apply O.
  - rewrite (h_counter _ _ H). apply O.
  - apply H.
  - rewrite (h_ccr _ _ H), H00. apply O.
  - apply (values_at _ (rtc_of m)); [apply O|]. intros k. rewrite (h_ccr _ _ H).
    destruct (rearmed2 (rtc_of m) k); [right; eexists; split; [done|zdiv]|by left].
  - rewrite (h_bit0 _ _ H). apply O.
  - rewrite (h_enabled _ _ H), H00. exact (ok_mid_enabled m O).
  - intros n Hn. rewrite (h_enabled _ _ H), (ok_none m O n Hn).
    destruct (rearmed2 (rtc_of m) n) eqn:Hr; [apply rearmed2_some in Hr; lia|].
    by destruct (_ && _).
  - apply timestamps_at; [apply H|]. intros k Hk. rewrite (h_alarm _ _ H) by done.
    pose proof (timestamp_at _ k (ok_shape m O) (ok_timestamps m O) Hk).
    destruct (status k (rtc_of m)); [cbn; unfold u64_MAX; lia|done].
  - rewrite (h_period _ _ H). split; [destruct (over _), (status 0 _); cbn; lia|]. rewrite HT. cbn [Z.b2z]. lia.
  - done.
  - done.
  - rewrite Hd. pose proof Hd as Hd'. unfold tim_irq in Hm.
    destruct (irq_pending (rtc_of m)); [|done]. destruct (on_interrupt call _) as [s'|]; [|done].
    injection Hm as _ <-. unfold settle in Hd'. cbn [due rtc_of settle] in *.
    by destruct (irq_pending s').
Qed.

Lemma tim_set_run n ts m b m' : TimOk m → (1 ≤ n ≤ last)%nat → 0 ≤ ts < 2 ^ 64 →
  tim_set n ts m = Some (b, m') →
  b = (ts <=? clock_of m) ∧ SetTo n ts (clock_of m) (rtc_of m) (rtc_of m') ∧ time m' = time m ∧
  m' = settle (time m) (rtc_of m') (due m).
Proof using All.
  intros O Hn Hts. unfold tim_set. pose proof (now_clock m O) as Hnow. rewrite <-Hnow.
  pose proof (clock_range m O) as Hc. pose proof (ok_range m O) as Hr.
  destruct (tim_set_alarm_run n ts (rtc_of m)) as (s' & -> & H); [apply O|done|lia|done|].
  by intros [= <- <-].
Qed.

Lemma tim_set_defined n ts m : TimOk m → (1 ≤ n ≤ last)%nat → 0 ≤ ts < 2 ^ 64 → is_Some (tim_set n ts m).
Proof using All.
  intros O Hn Hts. unfold tim_set. pose proof (now_clock m O) as Hnow.
  pose proof (clock_range m O) as Hc. pose proof (ok_range m O) as Hr.
  destruct (tim_set_alarm_run n ts (rtc_of m)) as (s' & -> & H); [apply O|done|lia|done|]. done.
Qed.

Lemma set_flags n ts v s s' : SetTo n ts v s s' → over s' = over s ∧ ∀ m, status m s' = status m s.
Proof.
  intros H. split; [|intros m; by rewrite !status_bit, (st_sr _ _ _ _ _ H)].
  unfold over. cbn [overflow_interrupt_status tim Tim_Instance]. by rewrite (st_sr _ _ _ _ _ H).
Qed.

Lemma tim_set_ok n ts m b m' : TimOk m → (1 ≤ n ≤ last)%nat → 0 ≤ ts < 2 ^ 64 →
  tim_set n ts m = Some (b, m') → TimOk m'.
Proof using All.
  intros O Hn Hts Hm. destruct (tim_set_run n ts m b m' O Hn Hts Hm) as (_ & H & Ht & Hset).
  destruct (set_flags _ _ _ _ _ H) as [Ho Hs]. pose proof (ok_due m O) as Hdue.
  assert (Hpast : match due m with Some d => time m ≤ d ≤ time m + latency | None => True end).
  { destruct (due m); [apply Hdue|done]. }
  pose proof (settle_due (time m) (rtc_of m') (due m) Hpast) as Hd'. rewrite <-Hset in Hd'.
  split; rewrite ?Ht, ?Ho, ?Hs.
  - apply O.
  - rewrite (st_counter _ _ _ _ _ H). apply O.
  - apply H.
  - destruct (st_others _ _ _ _ _ H 0%nat) as [_ ->]; [lia|]. apply O.
  - apply (values_at _ (rtc_of m)); [apply O|]. intros k. destruct (decide (k = n)) as [->|Hne].
    + destruct (decide (clock_of m < ts)); [|left].
      * destruct (decide (ts < clock_of m + 0xc000)).
        -- right. eexists. split; [by apply (st_near _ _ _ _ _ H)|zdiv].
        -- left. apply (st_far _ _ _ _ _ H). lia.
      * apply (st_past _ _ _ _ _ H). lia.
    + left. by apply (st_others _ _ _ _ _ H).
  - rewrite (st_bit0 _ _ _ _ _ H). apply O.
  - destruct (st_others _ _ _ _ _ H 0%nat) as [-> _]; [lia|]. apply O.
  - intros k Hk. destruct (st_others _ _ _ _ _ H k) as [-> _]; [lia|]. by apply (ok_none m O).
  - apply timestamps_at; [apply H|]. intros k Hk. destruct (decide (k = n)) as [->|Hne].
    + rewrite (st_alarm _ _ _ _ _ H). cbn [timestamp]. case_bool; [unfold u64_MAX; lia|done].
    + rewrite (st_other_alarms _ _ _ _ _ H) by done.
      by apply timestamp_at; [apply O|apply O|].
  - rewrite (st_period _ _ _ _ _ H). apply O.
  - apply O.
  - intros H0. destruct (ok_middle m O H0) as (Hodd & d & E & Hb). split; [done|]. exists d.
    split; [|done]. rewrite Hset. cbn [settle due].
    rewrite (pending_status 0); [by rewrite E|lia|by rewrite Hs|].
    destruct (st_others _ _ _ _ _ H 0%nat) as [-> _]; [lia|]. apply O.
  - exact Hd'.
Qed.

(** ** An alarm that is waited for

    A later period begins before it; or the counter reaches its value at [c], a turn after
    its time at the latest; or its flag has been raised. *)
Definition far (ts : Z) (m : Timed) : Prop := base_of (rtc_of m) ≤ ts.
Definition armed_for (n : nat) (ts c : Z) (m : Timed) : Prop :=
  enabled n (rtc_of m) = true ∧ ccr (rtc (rtc_of m)) !! n = Some (c mod 2 ^ 16) ∧
  time m < c ≤ time m + 2 ^ 16 ∧ c ≤ ts + 2 + 2 ^ 16.
Definition raised (n : nat) (ts : Z) (m : Timed) : Prop :=
  enabled n (rtc_of m) = true ∧ status n (rtc_of m) = true ∧
  ∃ d, due m = Some d ∧ d ≤ ts + 2 + 2 ^ 16 + latency.
Definition Waits (n : nat) (ts : Z) (m : Timed) : Prop :=
  timestamp (alarm_at n (rtc_of m)) = ts ∧ (far ts m ∨ (∃ c, armed_for n ts c m) ∨ raised n ts m).

Lemma period_time m : TimOk m →
  (period (rtc_of m) + Z.b2z (over (rtc_of m)) + Z.b2z (status 0 (rtc_of m))) * 2 ^ 15 ≤ time m <
  (period (rtc_of m) + Z.b2z (over (rtc_of m)) + Z.b2z (status 0 (rtc_of m)) + 1) * 2 ^ 15.
Proof using All. intros O. destruct (ok_period m O) as [_ <-]. zdiv. Qed.

Lemma tim_waits_bound n ts m : TimOk m → Waits n ts m → time m ≤ ts + 2 + 2 ^ 16 + latency.
Proof using All.
  intros O [_ [H|[(c & _ & _ & Hc & Hb)|(_ & _ & d & Hd & Hb)]]]; [|lia|].
  - pose proof (period_time m O). unfold far, base_of in H.
    destruct (over _), (status 0 _); cbn [Z.b2z] in *; lia.
  - pose proof (ok_due m O) as Hdue. rewrite Hd in Hdue. lia.
Qed.

Lemma matched_at n c s : (n ≤ last)%nat → ccr (rtc s) !! n = Some c → matched c (rtc s) n = true.
Proof. intros Hn Hc. unfold matched. by rewrite (proj2 (Nat.leb_le _ _)), bool_decide_true. Qed.

Lemma tim_tick_due m m' d : tim_tick m = Some m' → irq_pending (rtc_of m') = true →
  due m = Some d → due m' = Some d.
Proof.
  unfold tim_tick. destruct (_ || _); [done|]. intros [= <-] Hp Hd. cbn [settle due] in *.
  cbn [settle rtc_of] in Hp. by rewrite Hp, Hd.
Qed.

Lemma tim_waits_tick n ts m m' : TimOk m → (1 ≤ n ≤ last)%nat → Waits n ts m →
  tim_tick m = Some m' → Waits n ts m'.
Proof using All.
  intros O Hn [Hts W] Hm. pose proof Hm as Hm0. unfold tim_tick in Hm.
  destruct (_ || _) eqn:Hg; [done|]. injection Hm as Hm.
  set (c1 := (time m + 1) mod 2 ^ 16) in *.
  assert (Hr : rtc_of m' = upd_rtc (count c1) (rtc_of m)) by by rewrite <-Hm.
  assert (Ht : time m' = time m + 1) by by rewrite <-Hm.
  assert (He : ∀ k, enabled k (rtc_of m') = enabled k (rtc_of m)) by (intros k; by rewrite Hr).
  assert (Hst : status n (rtc_of m') = status n (rtc_of m) || matched c1 (rtc (rtc_of m)) n).
  { rewrite Hr. apply status_count. lia. }
  split; [by rewrite Hr|]. destruct W as [H|[(c & He0 & Hc & Hb & Hb2)|(He0 & Hs & d & Hd & Hb)]].
  - left. unfold far. by rewrite Hr.
  - destruct (decide (time m + 1 = c)) as [Heq|Hne].
    + right; right. assert (Hc1 : c1 = c mod 2 ^ 16) by (unfold c1; by rewrite Heq). assert (Hs' : status n (rtc_of m') = true).
      { rewrite Hst, (matched_at n c1) by (congruence || lia). apply orb_true_r. }
      assert (Hp : irq_pending (rtc_of m') = true).
      { eapply (pending_status n); [lia|done|by rewrite He]. }
      split_and!; [by rewrite He|done|]. pose proof (ok_due m O) as Hdue.
      rewrite <-Hm. cbn [settle due]. rewrite <-Hr, Hp. eexists. split; [done|].
      destruct (due m); simpl; lia.
    + right; left. exists c. split_and!; try lia; [by rewrite He|by rewrite Hr].
  - right; right. assert (Hs' : status n (rtc_of m') = true) by by rewrite Hst, Hs.
    split_and!; [by rewrite He|done|]. exists d. split; [|done].
    eapply tim_tick_due; [done| |done]. eapply (pending_status n); [lia|done|by rewrite He].
Qed.

(** The value the handler writes for [ts] is reached within a turn of it. *)
Lemma next_turn ts t b : b ≤ ts < b + 0xc000 → b ≤ t < b + 2 ^ 16 →
  ∃ c, c mod 2 ^ 16 = ts mod 2 ^ 16 ∧ t < c ≤ t + 2 ^ 16 ∧ c ≤ ts + 2 ^ 16.
Proof.
  intros H1 H2. clear -H1 H2. destruct (decide (t < ts)); [exists ts; split; [done|lia]|].
  exists (ts + 2 ^ 16). split; [zdiv|lia].
Qed.

Lemma rearmed2_near s n : (1 ≤ n ≤ last)%nat → rearmed2 s n =
  over s && near (base_of s) (alarm_at n s) ||
  status 0 s && near (base_of s + Z.b2z (over s) * 2 ^ 15) (alarm_at n s).
Proof using All.
  intros Hn. unfold rearmed2, rearmed. rewrite (proj2 (Nat.leb_le _ _)), bool_decide_true by
    (lia || (set_unfold; lia)). done.
Qed.

Lemma tim_waits_irq n ts l m m' : TimOk m → (1 ≤ n ≤ last)%nat → Waits n ts m →
  tim_irq m = Some (l, m') → n ∈ l ∨ Waits n ts m'.
Proof using All.
  intros O Hn [Hts W] Hm. destruct (tim_irq_handled m l m' O Hm) as (_ & -> & H & Ht & _).
  destruct (status n (rtc_of m)) eqn:Hst; [left; apply fired_elem; split; [lia|done]|right].
  pose proof (h_alarm _ _ H n ltac:(lia)) as Ha. rewrite Hst in Ha.
  pose proof (h_enabled _ _ H n) as He. rewrite Hst, andb_false_r in He.
  pose proof (h_ccr _ _ H n) as Hc. pose proof (period_time m O) as Hpt.
  split; [by rewrite Ha|]. destruct (rearmed2 (rtc_of m) n) eqn:Hr.
  - right; left. rewrite rearmed2_near in Hr by done.
    assert (Hb : ∃ b, near b (alarm_at n (rtc_of m)) = true ∧ b ≤ time m < b + 2 ^ 16).
    { unfold base_of in Hr. destruct (over _), (status 0 _); cbn [andb orb Z.b2z] in *;
        try apply orb_true_iff in Hr as [Hr|Hr]; try done; (eexists; split; [exact Hr|lia]). }
    destruct Hb as (b & Hnear & Hbt). unfold near in Hnear. rewrite Hts in *.
    apply andb_true_iff in Hnear as [?%Z.leb_le ?%Z.ltb_lt].
    destruct (next_turn ts (time m) b) as (c & Hcm & Hc1 & Hc2); [lia|lia|].
    exists c. split_and!; try lia; [by rewrite He|by rewrite Hc, Hcm].
  - destruct W as [Hf|[(c & He0 & Hc0 & Hb & Hb2)|(_ & ? & _)]]; [left|right; left|congruence].
    + unfold far, base_of in *. rewrite (h_period _ _ H).
      rewrite rearmed2_near in Hr by done. unfold near, base_of in Hr. rewrite Hts in Hr.
      destruct (over _), (status 0 _); cbn [andb orb Z.b2z] in *; rewrite ?orb_false_r in Hr;
        try apply orb_false_iff in Hr as [Hr1 Hr2];
        repeat match goal with H : _ && _ = false |- _ =>
          apply andb_false_iff in H as [?%Z.leb_gt|?%Z.ltb_ge] end; lia.
    + exists c. split_and!; try lia; [by rewrite He|by rewrite Hc].
Qed.

Lemma tim_waits_other n ts k ts' b m m' : TimOk m → (1 ≤ n ≤ last)%nat → (1 ≤ k ≤ last)%nat → k ≠ n →
  0 ≤ ts' < 2 ^ 64 → Waits n ts m → tim_set k ts' m = Some (b, m') → Waits n ts m'.
Proof using All.
  intros O Hn Hk Hne Hts' [Hts W] Hm.
  destruct (tim_set_run k ts' m b m' O Hk Hts' Hm) as (_ & H & Ht & Hset).
  destruct (set_flags _ _ _ _ _ H) as [_ Hs]. destruct (st_others _ _ _ _ _ H n) as [He Hc]; [done|].
  split; [by rewrite (st_other_alarms _ _ _ _ _ H) by (done || lia)|].
  destruct W as [Hf|[(c & He0 & Hc0 & Hb & Hb2)|(He0 & Hs0 & d & Hd & Hb)]].
  - left. unfold far, base_of. by rewrite (st_period _ _ _ _ _ H).
  - right; left. exists c. split_and!; try lia; [by rewrite He|by rewrite Hc].
  - right; right. split_and!; [by rewrite He|by rewrite Hs|]. exists d. split; [|done].
    rewrite Hset. cbn [settle due].
    rewrite (pending_status n); [by rewrite Hd|lia|by rewrite Hs|by rewrite He].
Qed.

Lemma tim_waits_set n ts b m m' : TimOk m → (1 ≤ n ≤ last)%nat → 0 ≤ ts < 2 ^ 64 →
  tim_set n ts m = Some (b, m') → if b then ts ≤ clock_of m else clock_of m < ts ∧ Waits n ts m'.
Proof using All.
  intros O Hn Hts Hm. destruct (tim_set_run n ts m b m' O Hn Hts Hm) as (-> & H & Ht & _).
  pose proof (period_time m O) as Hpt. pose proof (clock_range m O) as Hcr.
  destruct (Z.leb_spec ts (clock_of m)) as [|Hlt]; [done|]. split; [done|].
  split. { rewrite (st_alarm _ _ _ _ _ H). by rewrite (proj2 (Z.leb_gt _ _)). }
  destruct (decide (ts < clock_of m + 0xc000)) as [Hnear|Hfar].
  - right; left. destruct (st_near _ _ _ _ _ H) as [He Hc]; [lia|].
    set (x := Z.max ts (clock_of m + 3)) in *.
    exists (x + (time m - clock_of m)). unfold clock_of in *.
    split_and!; [done| |destruct (behind _); lia..].
    rewrite Hc. f_equal. destruct (behind _); [|f_equal; lia].
    replace (x + (time m - (time m - 2 ^ 16))) with (x + 1 * 2 ^ 16) by lia. by rewrite Z.mod_add.
  - left. unfold far, base_of. rewrite (st_period _ _ _ _ _ H). unfold clock_of, behind in *.
    destruct (over _), (status 0 _); cbn [andb Z.b2z] in *; lia.
Qed.

(** ** Runs *)
Inductive TAct : Type :=
| Tick
| Handler
| SetAlarm (n : nat) (ts : Z).

(** The alarms whose callbacks are run. *)
Definition tstep (a : TAct) (m : Timed) : option (list nat * Timed) :=
  match a with
  | Tick => m' ← tim_tick m; Some ([], m')
  | Handler => tim_irq m
  | SetAlarm n ts => '(b, m') ← tim_set n ts m; Some (if b : bool then [n] else [], m')
  end.
Fixpoint trun (acts : list TAct) (m : Timed) : option (list nat * Timed) :=
  match acts with
  | [] => Some ([], m)
  | a :: acts' =>
      '(l, m') ← tstep a m;
      '(l', m'') ← trun acts' m';
      Some (l ++ l', m'')
  end.
(** The others set their alarms as they like; [n] is not set again. *)
Definition others_only (n : nat) (a : TAct) : Prop :=
  match a with SetAlarm k ts => (1 ≤ k ≤ last)%nat ∧ k ≠ n ∧ 0 ≤ ts < 2 ^ 64 | _ => True end.

Lemma tim_tstep_ok n a m l m' : others_only n a → TimOk m → tstep a m = Some (l, m') →
  TimOk m' ∧ time m ≤ time m'.
Proof using All.
  intros Ha O. destruct a as [| |k ts]; cbn [tstep].
  - intros (m1 & Hm & Hs)%bind_Some. injection Hs as <- <-.
    destruct (tim_tick_ok m m1 O Hm) as [O' Ht]. split; [done|lia].
  - intros Hm. destruct (tim_irq_handled m l m' O Hm) as (_ & _ & _ & Ht & _).
    split; [by eapply tim_irq_ok|lia].
  - intros ([b m1] & Hm & Hs)%bind_Some. injection Hs as _ <-. destruct Ha as (Hk & _ & Hts).
    destruct (tim_set_run k ts m b m1 O Hk Hts Hm) as (_ & _ & Ht & _).
    split; [by eapply tim_set_ok|lia].
Qed.

Lemma tim_trun_ok n acts : ∀ m l m', Forall (others_only n) acts → TimOk m →
  trun acts m = Some (l, m') → TimOk m' ∧ time m ≤ time m'.
Proof using All.
  induction acts as [|a acts IH]; intros m l m' Ha O; cbn [trun].
  { intros [= _ <-]. split; [done|lia]. }
  apply Forall_cons in Ha as [Ha Has]. intros ([l1 m1] & H1 & Hr)%bind_Some.
  apply bind_Some in Hr as ([l2 m2] & H2 & Hs). injection Hs as _ <-.
  destruct (tim_tstep_ok n a m l1 m1 Ha O H1) as (O1 & Ht1).
  destruct (IH m1 l2 m2 Has O1 H2). split; [done|lia].
Qed.

(** An invariant of the steps that lasts until alarm [n] is run holds in runs. *)
Lemma trun_inv n (J : Timed → Prop) acts :
  (∀ a m l m', others_only n a → TimOk m → J m → tstep a m = Some (l, m') → n ∈ l ∨ J m') →
  ∀ m l m', Forall (others_only n) acts → TimOk m → J m → trun acts m = Some (l, m') →
  TimOk m' ∧ time m ≤ time m' ∧ (n ∈ l ∨ J m').
Proof using All.
  intros HJ. induction acts as [|a acts IH]; intros m l m' Ha O Hj; cbn [trun].
  { intros [= <- <-]. split_and!; [done|lia|by right]. }
  apply Forall_cons in Ha as [Ha Has]. intros ([l1 m1] & H1 & Hr)%bind_Some.
  apply bind_Some in Hr as ([l2 m2] & H2 & Hs). injection Hs as <- <-.
  destruct (tim_tstep_ok n a m l1 m1 Ha O H1) as (O1 & Ht1). rewrite elem_of_app.
  destruct (HJ a m l1 m1 Ha O Hj H1) as [Hl|Hj1].
  - destruct (tim_trun_ok n acts m1 l2 m2 Has O1 H2). split_and!; [done|lia|auto].
  - destruct (IH m1 l2 m2 Has O1 Hj1 H2) as (? & ? & Hl). split_and!; [done|lia|naive_solver].
Qed.

Lemma waits_step n ts a m l m' : (1 ≤ n ≤ last)%nat → others_only n a → TimOk m → Waits n ts m →
  tstep a m = Some (l, m') → n ∈ l ∨ Waits n ts m'.
Proof using All.
  intros Hn Ha O W. destruct a as [| |k ts']; cbn [tstep].
  - intros (m1 & Hm & Hs)%bind_Some. injection Hs as _ <-. right. by eapply tim_waits_tick.
  - intros Hm. by eapply tim_waits_irq.
  - intros ([b m1] & Hm & Hs)%bind_Some. injection Hs as _ <-. destruct Ha as (Hk & Hne & Hts').
    right. exact (tim_waits_other n ts k ts' b m m1 O Hn Hk Hne Hts' W Hm).
Qed.

(** Time can always go on. *)
Lemma tim_progress m : TimOk m → time m < 2 ^ 46 - 1 → is_Some (tim_tick m) ∨ is_Some (tim_irq m).
Proof using All.
  intros O HT. destruct (tim_tick m) eqn:Hk; [by left; eexists|]. right.
  unfold tim_tick in Hk. rewrite (proj2 (Z.leb_gt (2 ^ 46 - 1) _)), orb_false_r in Hk by done.
  pose proof (ok_due m O) as Hdue. destruct (due m) as [d|]; [|done].
  destruct Hdue as [_ Hp]. unfold tim_irq. rewrite Hp.
  destruct (tim_on_interrupt_run (rtc_of m)) as (s' & -> & H); try apply O; [by apply tim_period_bound|].
  by eexists.
Qed.

(** ** An alarm that is far ahead

    The flag of its channel is raised nevertheless, when the counter comes by the value
    the channel happens to have; and the next middle of the range runs the callback. *)
Definition stale (n : nat) (ts t0 : Z) (m : Timed) : Prop :=
  timestamp (alarm_at n (rtc_of m)) = ts ∧
  ((status n (rtc_of m) = false ∧ ∃ c, ccr (rtc (rtc_of m)) !! n = Some (c mod 2 ^ 16) ∧
      time m < c ≤ t0 + 2 ^ 16) ∨
   (status n (rtc_of m) = true ∧ ∃ M, M mod 2 ^ 16 = 0x8000 ∧ M ≤ t0 + 2 ^ 17 ∧
      (time m < M ∨ (status 0 (rtc_of m) = true ∧ time m / 2 ^ 15 * 2 ^ 15 = M)))).

Lemma stale_bound n ts t0 m : TimOk m → stale n ts t0 m → time m ≤ t0 + 2 ^ 17 + latency.
Proof using All.
  intros O [_ [(_ & c & _ & Hc)|(_ & M & _ & Hb & [H|[Hs HM]])]]; [lia|lia|].
  destruct (ok_middle m O Hs) as (_ & d & Hd & Hdb). pose proof (ok_due m O) as Hdue.
  rewrite Hd in Hdue. lia.
Qed.

(** The next middle of the range, or the one whose interrupt is pending. *)
Lemma next_middle m : TimOk m → ∃ M, M mod 2 ^ 16 = 0x8000 ∧ M ≤ time m + 2 ^ 16 ∧
  (time m < M ∨ (status 0 (rtc_of m) = true ∧ time m / 2 ^ 15 * 2 ^ 15 = M)).
Proof using All.
  intros O. destruct (status 0 (rtc_of m)) eqn:Hs.
  - destruct (ok_middle m O Hs) as [Hodd _]. exists (time m / 2 ^ 15 * 2 ^ 15).
    split_and!; [zdiv|zdiv|by right].
  - exists (time m + 1 + (0x7fff - time m) mod 2 ^ 16). split_and!; [zdiv|zdiv|left; zdiv].
Qed.

Lemma stale_tick n ts t0 m m' : TimOk m → (1 ≤ n ≤ last)%nat → stale n ts t0 m →
  tim_tick m = Some m' → stale n ts t0 m'.
Proof using All.
  intros O Hn [Hts W] Hm. destruct (tim_tick_ok m m' O Hm) as [O' Ht].
  unfold tim_tick in Hm. destruct (_ || _) eqn:Hg; [done|]. injection Hm as Hm.
  set (c1 := (time m + 1) mod 2 ^ 16) in *.
  assert (Hr : rtc_of m' = upd_rtc (count c1) (rtc_of m)) by by rewrite <-Hm.
  assert (Hst : ∀ k, (k < 4)%nat →
    status k (rtc_of m') = status k (rtc_of m) || matched c1 (rtc (rtc_of m)) k).
  { intros k Hk. rewrite Hr. by apply status_count. }
  split; [by rewrite Hr|]. destruct W as [(Hs & c & Hc & Hb)|(Hs & M & HM & Hb & HMt)].
  - destruct (status n (rtc_of m')) eqn:Hs'.
    + right. split; [done|]. destruct (next_middle m' O') as (M & HM & HMb & HMt).
      exists M. split_and!; [done|lia|done].
    + left. split; [done|]. exists c. split; [by rewrite Hr|].
      destruct (decide (time m + 1 = c)) as [Heq|]; [|lia]. exfalso.
      rewrite Hst, (matched_at n c1), orb_true_r in Hs'; [done|lia| |lia].
      unfold c1. by rewrite Heq.
  - right. rewrite Hst, Hs by lia. split; [done|]. exists M. split_and!; [done|done|].
    destruct HMt as [HMt|[H0 HMt]].
    + destruct (decide (time m' = M)) as [Heq|]; [right|left; lia].
      rewrite Hst, (matched_at 0 c1), orb_true_r; [split; [done|zdiv]|lia| |lia].
      rewrite (ok_mid m O). f_equal. unfold c1. rewrite <-Ht, Heq. lia.
    + right. rewrite Hst, H0 by lia. split; [done|].
      destruct (ok_middle m O H0) as (Hodd & d & Hd & Hdb). rewrite Hd in Hg.
      apply orb_false_iff in Hg as [Hg%Z.leb_gt _]. rewrite Ht. zdiv.
Qed.

Lemma not_rearmed n m : TimOk m → (1 ≤ n ≤ last)%nat →
  time m + 0xc000 ≤ timestamp (alarm_at n (rtc_of m)) → rearmed2 (rtc_of m) n = false.
Proof using All.
  intros O Hn Hts. rewrite rearmed2_near by done. pose proof (period_time m O) as Hpt.
  unfold near, base_of. destruct (over _), (status 0 _); cbn [andb orb Z.b2z] in *;
    rewrite ?(proj2 (Z.ltb_ge _ 0xc000)), ?andb_false_r by lia; done.
Qed.

Lemma stale_step n ts t0 a m l m' : (1 ≤ n ≤ last)%nat → t0 + 2 ^ 18 ≤ ts → others_only n a →
  TimOk m → stale n ts t0 m → tstep a m = Some (l, m') → n ∈ l ∨ stale n ts t0 m'.
Proof using All.
  intros Hn Hfar Ha O W. destruct a as [| |k ts']; cbn [tstep].
  - intros (m1 & Hm & Hs)%bind_Some. injection Hs as _ <-. right. by eapply stale_tick.
  - intros Hm. destruct (tim_irq_handled m l m' O Hm) as (_ & -> & H & Ht & _).
    destruct W as [Hts [(Hs & c & Hc & Hb)|(Hs & _)]].
    2:{ left. apply fired_elem. split; [lia|done]. }
    right. split. { rewrite (h_alarm _ _ H) by lia. by rewrite Hs. }
    left. split; [apply H|]. exists c. rewrite (h_ccr _ _ H), (not_rearmed n m O Hn) by lia.
    split; [done|lia].
  - intros ([b m1] & Hm & Hs)%bind_Some. injection Hs as _ <-. destruct Ha as (Hk & Hne & Hts').
    right. destruct (tim_set_run k ts' m b m1 O Hk Hts' Hm) as (_ & H & Ht & _).
    destruct (set_flags _ _ _ _ _ H) as [_ Hs].
    destruct (st_others _ _ _ _ _ H n) as [_ Hc]; [done|]. destruct W as [Hts W].
    split; [by rewrite (st_other_alarms _ _ _ _ _ H) by (done || lia)|].
    rewrite !Hs, Hc, Ht. done.
Qed.

Lemma stale_set n ts b m m' : TimOk m → (1 ≤ n ≤ last)%nat → 0 ≤ ts < 2 ^ 64 →
  time m + 2 ^ 18 ≤ ts → tim_set n ts m = Some (b, m') → stale n ts (time m) m'.
Proof using All.
  intros O Hn Hts Hfar Hm. pose proof (tim_set_ok n ts m b m' O Hn Hts Hm) as O'.
  destruct (tim_set_run n ts m b m' O Hn Hts Hm) as (_ & H & Ht & _). pose proof (clock_range m O) as Hc.
  split. { rewrite (st_alarm _ _ _ _ _ H). by rewrite (proj2 (Z.leb_gt _ _)) by lia. }
  destruct (status n (rtc_of m')) eqn:Hs; [right|left]; (split; [done|]).
  - destruct (next_middle m' O') as (M & HM & Hb & HMt). exists M. split_and!; [done|lia|done].
  - destruct (lookup_lt_is_Some_2 (ccr (rtc (rtc_of m'))) n) as [x Hx].
    { rewrite (proj2 (ok_shape m' O')). lia. }
    pose proof (ok_values m' O') as Hv. rewrite Forall_lookup in Hv. specialize (Hv n x Hx).
    exists (time m + 1 + (x - (time m + 1)) mod 2 ^ 16). rewrite Hx, Ht.
    split; [f_equal; zdiv|zdiv].
Qed.

(** ** An alarm the overflow has to arm *)

(** Nobody's interrupt is enabled but that of the middle of the range, which comes at
    [M + 2^16]. *)
Definition quiet (M : Z) (m : Timed) : Prop :=
  M ≤ time m < M + 2 ^ 16 ∧ M mod 2 ^ 16 = 0x8000 ∧ irq_pending (rtc_of m) = false ∧
  ∀ k, (1 ≤ k ≤ 3)%nat → enabled k (rtc_of m) = false.

Lemma quiet_pending m : TimOk m → status 0 (rtc_of m) = false →
  (∀ k, (1 ≤ k ≤ 3)%nat → enabled k (rtc_of m) = false) → irq_pending (rtc_of m) = false.
Proof using All.
  intros O H0 He. apply not_true_is_false. intros (k & Hk & Hb)%existsb_exists.
  apply andb_true_iff in Hb as [Hb1 Hb2].
  assert (k = 0 ∨ ∃ n, (n ≤ 3)%nat ∧ k = Z.of_nat n + 1) as [->|(n & Hn & ->)].
  { simpl in Hk. destruct Hk as [<-|Hk]; [by left|right]. exists (Z.to_nat (k - 1)). lia. }
  - by rewrite (ok_masked m O) in Hb2.
  - destruct n as [|n].
    + rewrite status_bit in H0. apply andb_false_iff in H0 as [H0%Nat.leb_gt|H0]; [lia|congruence].
    + specialize (He (S n) ltac:(lia)). unfold enabled in He. congruence.
Qed.

Lemma quiet_tick M m m' : TimOk m → quiet M m → tim_tick m = Some m' →
  quiet M m' ∨ M + 2 ^ 16 ≤ time m'.
Proof using All.
  intros O (Ht & HM & Hp & He) Hm. destruct (tim_tick_ok m m' O Hm) as [O' Ht'].
  destruct (decide (M + 2 ^ 16 ≤ time m')) as [|Hlt]; [by right|left].
  unfold tim_tick in Hm. destruct (_ || _); [done|]. injection Hm as Hm.
  set (c1 := (time m + 1) mod 2 ^ 16) in *.
  assert (Hr : rtc_of m' = upd_rtc (count c1) (rtc_of m)) by by rewrite <-Hm.
  assert (H0 : status 0 (rtc_of m') = false).
  { rewrite Hr, status_count by lia. apply orb_false_iff. split.
    - apply not_true_is_false. intros Hs.
      by rewrite (pending_status 0 (rtc_of m) ltac:(lia) Hs (ok_mid_enabled m O)) in Hp.
    - unfold matched. rewrite (ok_mid m O), bool_decide_false; [apply andb_false_r|].
      intros [= Hc]. unfold c1 in Hc. zdiv. }
  assert (He' : ∀ k, (1 ≤ k ≤ 3)%nat → enabled k (rtc_of m') = false).
  { intros k Hk. rewrite Hr. by apply He. }
  split_and!; [lia|lia|done|by apply quiet_pending|done].
Qed.

Lemma quiet_run n M acts : ∀ m l m', (∀ k ts, SetAlarm k ts ∉ acts) → TimOk m → quiet M m →
  trun acts m = Some (l, m') → n ∈ l → M + 2 ^ 16 ≤ time m'.
Proof using All.
  induction acts as [|a acts IH]; intros m l m' Ha O Q; cbn [trun].
  { by intros [= <- _] ?%not_elem_of_nil. }
  assert (Has : ∀ k ts, SetAlarm k ts ∉ acts) by (intros k ts ?; by eapply Ha, list_elem_of_further).
  intros ([l1 m1] & H1 & Hr)%bind_Some. apply bind_Some in Hr as ([l2 m2] & H2 & Hs).
  injection Hs as <- <-. destruct a as [| |k ts]; cbn [tstep] in H1.
  - apply bind_Some in H1 as (m0 & Hm & Hs). injection Hs as <- <-.
    destruct (tim_tick_ok m m0 O Hm) as [O0 _]. intros Hin. rewrite app_nil_l in Hin.
    destruct (quiet_tick M m m0 O Q Hm) as [Q0|Hge]; [exact (IH m0 l2 m2 Has O0 Q0 H2 Hin)|].
    assert (Ho : Forall (others_only n) acts).
    { apply Forall_forall. intros [| |k ts] Hk; [done|done|by destruct (Has k ts)]. }
    destruct (tim_trun_ok n acts m0 l2 m2 Ho O0 H2) as [_ Ht]. lia.
  - destruct Q as (_ & _ & Hp & _). unfold tim_irq in H1. by rewrite Hp in H1.
  - destruct (Ha k ts). apply list_elem_of_here.
Qed.

(** ** From the start *)
Lemma tim_started_ok ppre pclk t s ops : length (ccr t) = 4%nat →
  start ppre pclk (RTC_new t) = Done (s, ops) → TimOk (mkTimed 0 s None).
Proof using All.
  intros Hc. unfold start. destruct (prescaler ppre pclk) as [p|]; [|done].
  cbn [mbind outcome_bind]. intros [= <- _].
  set (t3 := set_compare_interrupt 0 true (set_compare 0 0x8000
    (set_psc_arr p (2 ^ 16 - 1) (stop_and_reset (enable_clock t))))).
  assert (H3 : cnt t3 = 0 ∧ sr t3 = 0 ∧ dier t3 = 2 ∧ ccr t3 = [0x8000; 0; 0; 0]).
  { split_and!; try done. simpl. by rewrite Hc. }
  change (TimOk (mkTimed 0 (mkRTC (start_timer t3) 0 (replicate ALARM_COUNT AlarmState_new)) None)).
  destruct H3 as (A1 & A2 & A3 & A4). clearbody t3.
  assert (Hen : ∀ k, Z.testbit (dier t3) (Z.of_nat k + 1) = (k =? 0)%nat).
  { intros k. rewrite A3. change 2 with (2 ^ 1). rewrite Z.pow2_bits_eqb by lia.
    destruct k; [done|]. apply Z.eqb_neq. lia. }
  assert (Hst : ∀ k (s : RTC Tim), sr (rtc s) = 0 → status k s = false).
  { intros k s E. rewrite status_bit, E, Z.bits_0. apply andb_false_r. }
  assert (Hz : sr (start_timer t3) = 0) by done.
  set (s := mkRTC (start_timer t3) _ _).
  assert (Ho : over s = false) by (unfold over; simpl; by rewrite A2).
  split; cbn [time rtc_of due]; rewrite ?Ho, ?(Hst 0%nat s Hz).
  - lia.
  - exact A1.
  - split; [done|]. simpl. by rewrite A4.
  - simpl. by rewrite A4.
  - simpl. rewrite A4. repeat constructor; lia.
  - cbn. by rewrite A3.
  - apply (Hen 0%nat).
  - intros k Hk. etrans; [apply (Hen k)|]. apply Nat.eqb_neq. lia.
  - repeat constructor; cbn; unfold u64_MAX; lia.
  - done.
  - done.
  - done.
  - unfold irq_pending. cbn [existsb]. change (sr (rtc s)) with (sr t3). by rewrite A2.
Qed.

(** ** Properties *)


(** The clock falls back by a whole turn when the counter passes the middle of its range
    and nothing has counted the overflow before it, until the interrupt is handled. *)
Theorem stm32_clock_falls_back m m' :
  TimOk m → tim_tick m = Some m' → time m' mod 2 ^ 16 = 0x8000 → over (rtc_of m) = true →
  now (rtc_of m) = time m ∧ now (rtc_of m') = time m' - 2 ^ 16.
Proof using All.
  intros O Hm Hmid Hov. destruct (tim_tick_ok m m' O Hm) as [O' Ht]. pose proof (ok_range m O) as Hr0.
  rewrite !now_clock by done. unfold clock_of, behind. rewrite Hov.
  assert (Hs : status 0 (rtc_of m) = false).
  { apply not_true_is_false. intros Hs. destruct (ok_middle m O Hs) as (Hodd & d & Hd & Hb).
    unfold tim_tick in Hm. rewrite Hd in Hm. destruct (_ || _) eqn:Hg; [done|].
    apply orb_false_iff in Hg as [Hg%Z.leb_gt _]. zdiv. }
  rewrite Hs. cbn [andb]. split; [lia|].
  unfold tim_tick in Hm. destruct (_ || _); [done|]. injection Hm as <-. cbn [settle time rtc_of] in *.
  rewrite over_count, Hov, status_count by lia.
  rewrite (matched_at 0), orb_true_r; [done|lia|]. rewrite (ok_mid m O). by rewrite Hmid.
Qed.

(** An alarm between the period that begins with the overflow and the next middle of the
    range, set before that period, is armed by the interrupt of that middle: it is late,
    by up to half a second, if no other alarm's interrupt comes to its help. *)
Theorem stm32_alarm_late n ts M m b m1 :
  TimOk m → (1 ≤ n ≤ last)%nat → M mod 2 ^ 16 = 0x8000 → M ≤ time m < M + 2 ^ 16 →
  status 0 (rtc_of m) = false →
  (∀ k, (1 ≤ k ≤ 3)%nat → k ≠ n → enabled k (rtc_of m) = false) →
  time m + 0xc000 ≤ ts < M + 2 ^ 16 → tim_set n ts m = Some (b, m1) →
  ∀ acts l m2, (∀ k ts', SetAlarm k ts' ∉ acts) → trun acts m1 = Some (l, m2) → n ∈ l →
    M + 2 ^ 16 ≤ time m2.
Proof using All.
  intros O Hn HM HMt Hs He Hts Hm acts l m2 Ha Hr. pose proof (ok_range m O) as Hr0.
  assert (Hts' : 0 ≤ ts < 2 ^ 64) by lia.
  pose proof (tim_set_ok n ts m b m1 O Hn Hts' Hm) as O1.
  destruct (tim_set_run n ts m b m1 O Hn Hts' Hm) as (_ & H & Ht & _).
  destruct (set_flags _ _ _ _ _ H) as [_ Hst].
  assert (Hc : clock_of m = time m) by (unfold clock_of, behind; rewrite Hs, andb_false_r; lia).
  assert (He1 : ∀ k, (1 ≤ k ≤ 3)%nat → enabled k (rtc_of m1) = false).
  { intros k Hk. destruct (decide (k = n)) as [->|Hne]; [apply (st_far _ _ _ _ _ H); lia|].
    destruct (st_others _ _ _ _ _ H k Hne) as [-> _]. by apply He. }
  apply (quiet_run n M acts m1); [done|done| |done].
  split_and!; [lia|lia|done|by apply quiet_pending; [|rewrite Hst|]|done].
Qed.
End timed.

(** ** Witnesses *)
#[local] Instance demo_profile : Profile := false.

Definition demo_state (sr0 : Z) (t p : Z) : Timed :=
  mkTimed t (mkRTC (mkTim 1 2 sr0 0 2562 (2 ^ 16 - 1) (t mod 2 ^ 16) [0x8000; 0; 0; 0] true)
               p (replicate ALARM_COUNT AlarmState_new)) None.

Lemma demo_ok sr0 t p : 0 ≤ t < 2 ^ 46 → (sr0 = 0 ∨ sr0 = 1) → 0 ≤ p →
  t / 2 ^ 15 = p + sr0 → (sr0 = 1 → (t / 2 ^ 15) mod 2 = 0) → TimOk 3 10 (demo_state sr0 t p).
Proof.
  intros Ht Hsr Hp Hq He.
  assert (Hen : ∀ k, enabled k (rtc_of (demo_state sr0 t p)) = (k =? 0)%nat).
  { intros k. unfold enabled. cbn [demo_state rtc_of rtc dier]. change 2 with (2 ^ 1).
    rewrite Z.pow2_bits_eqb by lia. destruct k; [done|]. apply Z.eqb_neq. lia. }
  split; cbn [demo_state time rtc_of rtc period cnt ccr dier alarms due]; try done.
  - repeat constructor; lia.
  - intros k Hk. rewrite Hen. apply Nat.eqb_neq. lia.
  - repeat constructor; cbn; unfold u64_MAX; lia.
  - split; [done|]. rewrite Hq. destruct Hsr as [-> | ->].
    + change (p + 0 = p + 0 + 0). lia.
    + change (p + 1 = p + 1 + 0). lia.
  - destruct Hsr as [-> | ->]; [done|]. intros _. right. by apply He.
  - by destruct Hsr as [-> | ->].
  - by destruct Hsr as [-> | ->].
Qed.


Lemma stm32_clock_falls_back_witness :
  ∃ m', tim_tick 3 10 (demo_state 1 (3 * 2 ^ 15 - 1) 1) = Some m' ∧ time m' = 3 * 2 ^ 15 ∧
    now (Instance0 := Tim_Instance 3) (rtc_of m') = 2 ^ 15.
Proof.
  destruct (tim_tick 3 10 (demo_state 1 (3 * 2 ^ 15 - 1) 1)) as [m'|] eqn:Hm; [|by vm_compute in Hm].
  assert (Ht : time m' = 3 * 2 ^ 15) by (vm_compute in Hm; by injection Hm as <-).
  destruct (stm32_clock_falls_back (P := false) eq_refl 3 ltac:(lia) 10 ltac:(lia)
    (demo_state 1 (3 * 2 ^ 15 - 1) 1) m'
    (demo_ok 1 (3 * 2 ^ 15 - 1) 1 ltac:(lia) ltac:(by right) ltac:(lia) eq_refl ltac:(done)) Hm)
    as [_ Hn]; [by rewrite Ht|done|].
  exists m'. split_and!; [done|done|]. rewrite Ht in Hn. exact Hn.
Defined.

Lemma stm32_alarm_late_witness :
  ∃ m1, tim_set 3 10 1 (0x8000 + 0xc000) (demo_state 0 0x8000 1) = Some (false, m1) ∧
    ∀ k l m2, trun 3 10 (replicate k Tick ++ [Handler]) m1 = Some (l, m2) → 1%nat ∈ l →
      0x8000 + 0xc000 + 2 ^ 14 ≤ time m2.
Proof.
  destruct (tim_set 3 10 1 (0x8000 + 0xc000) (demo_state 0 0x8000 1)) as [[b m1]|] eqn:Hm;
    [|by vm_compute in Hm].
  assert (b = false) as ->. { vm_compute in Hm. by injection Hm as <- _. }
  exists m1. split; [done|]. intros k l m2.
  apply (stm32_alarm_late (P := false) eq_refl 3 ltac:(lia) 10 ltac:(lia) 1 (0x8000 + 0xc000) 0x8000
    (demo_state 0 0x8000 1) false m1
    (demo_ok 0 0x8000 1 ltac:(lia) ltac:(by left) ltac:(lia) eq_refl ltac:(done))); try done; try (cbn; lia).
  - intros [|[|[|[|k']]]] Hk Hne; try done; lia.
  - intros k' ts' [H%elem_of_replicate_inv|H]%elem_of_app; [done|].
    by apply list_elem_of_singleton in H.
Defined.
