(* ===== verification/Sync.v ===== *)
(** * Sync: signals, waker registrations, portals

    [embassy/src/util/]: [Signal] ([signal.rs]), the two implementations of
    [WakerRegistration] and [AtomicWaker] ([waker.rs], [waker_agnostic.rs]),
    [Portal], [Forever], [DropBomb], [OnDrop] and the mutexes; with the executor's
    wakers ([executor/waker.rs]).  Every operation of a [Signal] and of an
    [AtomicWaker] runs in a critical section or is one access to memory, so an
    interleaving of tasks and interrupts is a sequence of operations.  What an
    operation wakes is part of its result. *)
From S2P Require Import Prelude.
From stdpp Require Import sorting.
Local Open Scope Z_scope.

(** ** Wakers *)
Module Waker.

(** The vtable of this executor, or of another one. *)
Inductive VTable : Set :=
| VTABLE
| Foreign (id : Z).
#[global] Instance VTable_eq_dec : EqDecision VTable.
Proof. solve_decision. Defined.

Record t : Set := mk { data : Z; vtable : VTable }.
#[global] Instance eq_dec : EqDecision t.
Proof. solve_decision. Defined.

Definition from_task (p : Z) : t := mk p VTABLE.
Definition clone (w : t) : t := match vtable w with VTABLE => mk (data w) VTABLE | _ => w end.
Definition task_from_waker (w : t) : outcome Z :=
  if decide (vtable w = VTABLE) then Done (data w) else Panic.
(** [Waker::will_wake] of [core] compares data and vtable. *)
Definition will_wake (a b : t) : bool := bool_decide (a = b).

Lemma clone_id w : clone w = w.
Proof. by destruct w as [d []]. Qed.
End Waker.

(** ** [Signal] *)
Module Signal.
Section signal.
Context {T : Type}.

Inductive State : Type :=
| None_
| Waiting (w : Waker.t)
| Signaled (v : T).

Definition new : State := None_.

(** [signal]: what it wakes, and the next state. *)
Definition signal (val : T) (s : State) : list Waker.t * State :=
  match s with
  | Waiting w => ([w], Signaled val)
  | _ => ([], Signaled val)
  end.

Definition reset (s : State) : State := None_.

Definition poll_wait (cx : Waker.t) (s : State) : outcome (Poll T * State) :=
  match s with
  | None_ => Done (Pending, Waiting (Waker.clone cx))
  | Waiting w => if Waker.will_wake w cx then Done (Pending, s) else Panic
  | Signaled res => Done (Ready res, None_)
  end.

Definition signaled (s : State) : bool := match s with Signaled _ => true | _ => false end.

(** A signal in use: the operations done on it, and what the waiting side sees --
    the values its polls returned, and whether it sleeps: its last poll was pending
    and nothing has woken it since. *)
Inductive Op : Type :=
| OpSignal (v : T)
| OpReset
| OpPoll (w : Waker.t).

Record Sys : Type := mkSys { st : State; asleep : bool; got : list T }.

Definition step (op : Op) (s : Sys) : outcome Sys :=
  match op with
  | OpSignal v =>
      let '(ws, st') := signal v (st s) in
      Done (mkSys st' (match ws with [] => asleep s | _ => false end) (got s))
  | OpReset => Done (mkSys (reset (st s)) (asleep s) (got s))
  | OpPoll w =>
      '(r, st') ← poll_wait w (st s);
      Done (match r with
            | Pending => mkSys st' true (got s)
            | Ready v => mkSys st' false (got s ++ [v]) end)
  end.

Fixpoint run (ops : list Op) (s : Sys) : outcome Sys :=
  match ops with [] => Done s | op :: ops' => s' ← step op s; run ops' s' end.
End signal.
Arguments State T : clear implicits.
Arguments Op T : clear implicits.
Arguments Sys T : clear implicits.

(** The abstract view: a one-place mailbox whose value is overwritten by [signal] and
    taken by a poll. *)
Fixpoint mailbox {T} (ops : list (Op T)) (m : option T) : list T :=
  match ops with
  | [] => []
  | OpSignal v :: ops' => mailbox ops' (Some v)
  | OpReset :: ops' => mailbox ops' None
  | OpPoll _ :: ops' => match m with
                        | Some v => v :: mailbox ops' None
                        | None => mailbox ops' None end
  end.

(** [w] is the only task that polls; nobody resets a signal [w] waits for. *)
Definition polled_by {T} (w : Waker.t) (op : Op T) : Prop :=
  match op with OpPoll w' => w' = w | _ => True end.
Definition is_reset {T} (op : Op T) : bool := match op with OpReset => true | _ => false end.

(** The value in the mailbox, and the states a run with one poller goes through. *)
Definition held {T} (s : State T) : option T :=
  match s with Signaled v => Some v | _ => None end.
Definition waits_for {T} (w : Waker.t) (s : State T) : Prop :=
  match s with Waiting w' => w' = w | _ => True end.

Lemma step_ok {T} w (op : Op T) s :
  polled_by w op → waits_for w (st s) →
  ∃ s', step op s = Done s' ∧ waits_for w (st s') ∧
    (∀ ops, got s' ++ mailbox ops (held (st s')) = got s ++ mailbox (op :: ops) (held (st s))) ∧
    (is_reset op = false → (asleep s = true → ∃ w', st s = Waiting w') →
     asleep s' = true → ∃ w', st s' = Waiting w').
Proof.
  destruct op as [v| |w'], s as [[|w0|v0] a g]; simpl; intros Hp Hw; subst;
    rewrite ?Waker.clone_id; unfold Waker.will_wake; rewrite ?bool_decide_true by done; simpl;
    eexists; (split; [reflexivity|]); simpl; repeat split; intros; try done; eauto.
  - destruct H0 as [? [=]]; done.
  - destruct H0 as [? [=]]; done.
  - by rewrite <-app_assoc.
Qed.

Lemma run_ok {T} w (ops : list (Op T)) : ∀ s,
  Forall (polled_by w) ops → waits_for w (st s) →
  ∃ s', run ops s = Done s' ∧ got s' = got s ++ mailbox ops (held (st s)) ∧
    (Forall (λ op, is_reset op = false) ops → (asleep s = true → ∃ w', st s = Waiting w') →
     asleep s' = true → ∃ w', st s' = Waiting w').
Proof.
  induction ops as [|op ops IH]; intros s Hp Hw.
  - exists s. rewrite app_nil_r. split_and!; auto.
  - inversion Hp as [|?? Hop Hops]; subst.
    destruct (step_ok w op s Hop Hw) as (s1 & E1 & Hw1 & Hg & Hs).
    destruct (IH s1 Hops Hw1) as (s2 & E2 & Hg2 & Hs2).
    exists s2. cbn [run]. rewrite E1. cbn [mbind outcome_bind]. rewrite E2, Hg2, Hg.
    split_and!; [done..|]. intros Hr Ha. inversion Hr; subst. eauto.
Qed.
End Signal.

(** ** [WakerRegistration] and [AtomicWaker]

    The files [waker.rs] (tasks of this executor, stored as pointers) and
    [waker_agnostic.rs] (any wakers, stored as they are) offer the same two types. *)
Module WakerTask.
Definition WakerRegistration : Type := option Z.
Definition new : WakerRegistration := None.
Definition register (self : WakerRegistration) (w : Waker.t) : outcome (list Z * WakerRegistration) :=
  w ← Waker.task_from_waker w;
  Done (match self with
        | Some w2 => if w2 =? w then ([], self) else ([w2], Some w)
        | None => ([], Some w) end).
Definition wake (self : WakerRegistration) : list Z * WakerRegistration :=
  match self with Some w => ([w], None) | None => ([], None) end.

Definition AtomicWaker : Type := option Z.
Definition atomic_new : AtomicWaker := None.
Definition atomic_register (self : AtomicWaker) (w : Waker.t) : outcome AtomicWaker :=
  w ← Waker.task_from_waker w; Done (Some w).
Definition atomic_wake (self : AtomicWaker) : list Z * AtomicWaker :=
  match self with Some w2 => ([w2], self) | None => ([], self) end.
End WakerTask.

Module WakerAgnostic.
Definition WakerRegistration : Type := option Waker.t.
Definition new : WakerRegistration := None.
Definition register (self : WakerRegistration) (w : Waker.t)
    : list Waker.t * WakerRegistration :=
  let replace := match self with
                 | Some old_waker => ([old_waker], Some (Waker.clone w))
                 | None => ([], Some (Waker.clone w)) end in
  match self with
  | Some w2 => if Waker.will_wake w2 w then ([], self) else replace
  | None => replace
  end.
Definition wake (self : WakerRegistration) : list Waker.t * WakerRegistration :=
  match self with Some w => ([w], None) | None => ([], None) end.

Definition AtomicWaker : Type := option Waker.t.
Definition atomic_new : AtomicWaker := None.
Definition atomic_register (self : AtomicWaker) (w : Waker.t) : AtomicWaker :=
  match self with
  | Some w2 => if Waker.will_wake w2 w then Some w2 else Some (Waker.clone w)
  | None => Some (Waker.clone w)
  end.
(** The cell is emptied while the waker is woken, and filled again. *)
Definition atomic_wake (self : AtomicWaker) : list Waker.t * AtomicWaker :=
  match self with Some w => ([w], Some w) | None => ([], None) end.
End WakerAgnostic.

(** A registration in use, through either implementation: which wakers each
    operation wakes. *)
Inductive RegOp : Type :=
| Register (w : Waker.t)
| Wake.

Section runs.
Context {S W : Type}.
Context (register : S → Waker.t → outcome (list W * S)) (wake : S → list W * S).
Fixpoint run_reg (ops : list RegOp) (s : S) : outcome (list (list W) * S) :=
  match ops with
  | [] => Done ([], s)
  | op :: ops' =>
      '(ws, s1) ← match op with Register w => register s w | Wake => Done (wake s) end;
      '(wss, s2) ← run_reg ops' s1;
      Done (ws :: wss, s2)
  end.
End runs.

Definition run_task_reg := run_reg WakerTask.register WakerTask.wake.
Definition run_agnostic_reg := run_reg (λ s w, Done (WakerAgnostic.register s w)) WakerAgnostic.wake.
Definition run_task_atomic :=
  run_reg (λ s w, s' ← WakerTask.atomic_register s w; Done ([] : list Z, s')) WakerTask.atomic_wake.
Definition run_agnostic_atomic :=
  run_reg (λ s w, Done ([] : list Waker.t, WakerAgnostic.atomic_register s w))
    WakerAgnostic.atomic_wake.

Definition of_task (op : RegOp) : Prop :=
  match op with Register w => Waker.vtable w = Waker.VTABLE | Wake => True end.

(** The tasks of this executor, as wakers. *)
Definition as_wakers (r : outcome (list (list Z) * option Z))
    : outcome (list (list Waker.t) * option Waker.t) :=
  match r with
  | Done (wss, s) => Done (map (map Waker.from_task) wss, option_map Waker.from_task s)
  | Panic => Panic
  end.

(** Tasks registered so far and not woken since they were. *)
Definition waiting_after (op : RegOp) (woken : list Z) (l : list Z) : list Z :=
  filter (λ p, p ∉ woken) match op with Register w => Waker.data w :: l | Wake => l end.
Fixpoint waiting_tasks (ops : list RegOp) (wss : list (list Z)) (l : list Z) : list Z :=
  match ops, wss with
  | op :: ops', ws :: wss' => waiting_tasks ops' wss' (waiting_after op ws l)
  | _, _ => l
  end.

Lemma from_task_eqb p q :
  Waker.will_wake (Waker.from_task p) (Waker.from_task q) = (p =? q).
Proof.
  unfold Waker.will_wake. destruct (Z.eqb_spec p q) as [->|].
  - by rewrite bool_decide_true.
  - rewrite bool_decide_false; [done|]. by intros [= ?].
Qed.

Lemma of_task_from w : Waker.vtable w = Waker.VTABLE →
  w = Waker.from_task (Waker.data w) ∧ Waker.task_from_waker w = Done (Waker.data w).
Proof. destruct w as [d v]; simpl; intros ->. done. Qed.

(** Runs of two implementations correspond when their operations do. *)
Section simulation.
Context {S S' W W' : Type} (f : W → W') (h : S → S').
Context (r : S → Waker.t → outcome (list W * S)) (k : S → list W * S).
Context (r' : S' → Waker.t → outcome (list W' * S')) (k' : S' → list W' * S').
Definition mapped {A B} (g : A → B) (x : outcome (A * S)) : outcome (B * S') :=
  match x with Done (a, s) => Done (g a, h s) | Panic => Panic end.
Lemma run_reg_sim (P : Waker.t → Prop) :
  (∀ s w, P w → r' (h s) w = mapped (map f) (r s w)) →
  (∀ s, Done (k' (h s)) = mapped (map f) (Done (k s))) →
  ∀ ops s, Forall (λ op, match op with Register w => P w | Wake => True end) ops →
  run_reg r' k' ops (h s) = mapped (map (map f)) (run_reg r k ops s).
Proof.
  intros Hr Hk. induction ops as [|op ops IH]; intros s H; [done|].
  inversion H as [|?? Hop Hrest]; subst. cbn [run_reg]. destruct op as [w|].
  - rewrite (Hr s w Hop). destruct (r s w) as [[ws s1]|]; [|done].
    simpl. rewrite (IH s1 Hrest). by destruct (run_reg r k ops s1) as [[]|].
  - rewrite Hk. destruct (k s) as [ws s1].
    simpl. rewrite (IH s1 Hrest). by destruct (run_reg r k ops s1) as [[]|].
Qed.
End simulation.

Lemma register_agrees s w : Waker.vtable w = Waker.VTABLE →
  Done (WakerAgnostic.register (option_map Waker.from_task s) w) =
    mapped (option_map Waker.from_task) (map Waker.from_task) (WakerTask.register s w).
Proof.
  intros Hw. destruct (of_task_from w Hw) as [Ew Et].
  unfold WakerTask.register. rewrite Et. rewrite Ew. destruct s as [q|]; [|reflexivity].
  unfold WakerAgnostic.register. cbn [option_map]. rewrite from_task_eqb.
  cbn [mbind outcome_bind Waker.data Waker.from_task]. by destruct (q =? Waker.data w).
Qed.

Lemma atomic_register_agrees s w : Waker.vtable w = Waker.VTABLE →
  WakerAgnostic.atomic_register (option_map Waker.from_task s) w = Some w ∧
  WakerTask.atomic_register s w = Done (Some (Waker.data w)).
Proof.
  intros Hw. destruct (of_task_from w Hw) as [Ew Et].
  unfold WakerTask.atomic_register. rewrite Et. split; [|done].
  rewrite Ew. destruct s as [q|]; [|done].
  unfold WakerAgnostic.atomic_register. cbn [option_map]. rewrite from_task_eqb.
  destruct (Z.eqb_spec q (Waker.data w)) as [->|]; [done|by rewrite Waker.clone_id].
Qed.

Lemma registration_runs_agree ops s : Forall of_task ops →
  run_agnostic_reg ops (option_map Waker.from_task s) = as_wakers (run_task_reg ops s) ∧
  run_agnostic_atomic ops (option_map Waker.from_task s) = as_wakers (run_task_atomic ops s).
Proof.
  intros H. change as_wakers with (mapped (option_map Waker.from_task) (map (map Waker.from_task))).
  split; apply (run_reg_sim _ _ _ _ _ _ (λ w, Waker.vtable w = Waker.VTABLE)); try exact H;
    try (by intros [q|]).
  - exact register_agrees.
  - intros q w Hw. destruct (atomic_register_agrees q w Hw) as [-> ->].
    destruct (of_task_from w Hw) as [-> _]. done.
Qed.

(** *** What a [WakerRegistration] promises

    A task that registers is woken unless it stays the one registered. *)
Lemma registration_keeps ops : ∀ s wss s' l,
  run_task_reg ops s = Done (wss, s') → (∀ p, p ∈ l → s = Some p) →
  ∀ p, p ∈ waiting_tasks ops wss l → s' = Some p.
Proof.
  unfold run_task_reg. induction ops as [|op ops IH]; simpl.
  - intros s wss s' l [= <- <-] Hl. exact Hl.
  - intros s wss s' l H Hl. apply bind_Done in H as ([ws s1] & E1 & H).
    apply bind_Done in H as ([wss1 s2] & E2 & [= <- <-]). simpl.
    refine (IH s1 _ _ _ E2 _). intros p. unfold waiting_after. rewrite list_elem_of_filter.
    destruct op as [w|].
    + unfold WakerTask.register in E1. apply bind_Done in E1 as (d & Ed & [= E1]).
      assert (d = Waker.data w) as ->
        by (revert Ed; unfold Waker.task_from_waker; case_decide; by intros [= ->]).
      rewrite elem_of_cons. intros [Hn Hp]. destruct s as [q|]; simpl in E1.
      * destruct (Z.eqb_spec q (Waker.data w)) as [->|]; injection E1 as <- <-;
          destruct Hp as [->|Hp]; auto.
        exfalso. apply Hn. specialize (Hl _ Hp) as [= <-]. set_solver.
      * injection E1 as <- <-. destruct Hp as [->|Hp]; [done|]. by specialize (Hl _ Hp).
    + intros [Hn Hp]. specialize (Hl _ Hp) as ->. injection E1 as <- <-. set_solver.
Qed.

(** ** [Portal] *)
Module Portal.
Section portal.
Context {T R F : Type}.
(** The closures handed to [wait_once] and [wait_many], with the state they capture:
    the calls they make themselves to the same portal, and their result. *)
Context (func_once : F → T → list T * R * F).
Context (func_many : F → T → list T * option R * F).

(** Which [call_func] the pointer in the state points to. *)
Inductive Kind : Set := Once | Many.
Inductive State : Set :=
| None_
| Running
| Waiting (func : Kind).

(** The portal with the locals of the [wait] in progress; [result] is [None] while it is
    uninitialised; [woken] collects what the signal woke. *)
Record t : Type := mk {
  state : State; fn : F; signal : Signal.State unit; result : option R; woken : list Waker.t
}.

Definition set_state (st : State) (p : t) : t := mk st (fn p) (signal p) (result p) (woken p).
Definition set_fn (f : F) (p : t) : t := mk (state p) f (signal p) (result p) (woken p).
Definition set_result (r : R) (p : t) : t := mk (state p) (fn p) (signal p) (Some r) (woken p).
Definition send (p : t) : t :=
  let '(ws, s) := Signal.signal tt (signal p) in mk (state p) (fn p) s (result p) (woken p ++ ws).

(** [call], with the closures of [wait_once] and [wait_many]; [None] is fuel running out. *)
Fixpoint call (fuel : nat) (val : T) (p : t) : option (outcome t) :=
  match fuel with
  | O => None
  | S n =>
      let nested := fix calls (vs : list T) (p : t) : option (outcome t) :=
        match vs with
        | [] => Some (Done p)
        | v :: vs' => match call n v p with
                      | Some (Done p') => calls vs' p'
                      | other => other end
        end in
      match state p with
      | None_ => Some (Done p)
      | Running => Some Panic
      | Waiting Once =>
          let '(inner, r, f') := func_once (fn p) val in
          match nested inner (set_fn f' (set_state None_ p)) with
          | Some (Done p1) => Some (Done (send (set_result r p1)))
          | other => other
          end
      | Waiting Many =>
          let '(inner, r, f') := func_many (fn p) val in
          match nested inner (set_fn f' (set_state Running p)) with
          | Some (Done p1) =>
              Some (Done match r with
                         | None => set_state (Waiting Many) p1
                         | Some res => set_state None_ (send (set_result res p1)) end)
          | other => other
          end
      end
  end.

Fixpoint calls (fuel : nat) (vals : list T) (p : t) : option (outcome t) :=
  match vals with
  | [] => Some (Done p)
  | v :: vals' => match call fuel v p with
                  | Some (Done p') => calls fuel vals' p'
                  | other => other end
  end.

(** [wait_once] and [wait_many], up to their await; [f] is what [func] captures. *)
Definition wait (k : Kind) (f : F) (p : t) : outcome t :=
  match state p with
  | None_ => Done (mk (Waiting k) f Signal.new None (woken p))
  | _ => Panic
  end.

(** ... and from there: [assume_init] of a result nobody wrote would be undefined
    behaviour, shown as a panic. *)
Definition wait_poll (cx : Waker.t) (p : t) : outcome (Poll R * t) :=
  '(r, s) ← Signal.poll_wait cx (signal p);
  let p' := mk (state p) (fn p) s (result p) (woken p) in
  match r with
  | Ready _ => res ← expect (result p); Done (Ready res, p')
  | Pending => Done (Pending, p')
  end.

(** What [wait_many] is for: feeding values to the closure until it has a result. *)
Fixpoint feed (f : F) (vals : list T) : option R * F :=
  match vals with
  | [] => (None, f)
  | v :: vals' => let '(_, r, f') := func_many f v in
                  match r with Some _ => (r, f') | None => feed f' vals' end
  end.

Lemma calls_idle n vals p : state p = None_ → calls (S n) vals p = Some (Done p).
Proof. intros E. induction vals as [|v vals IH]; [done|]. cbn. rewrite E. exact IH. Qed.

Lemma calls_many vals : ∀ f p w,
  (∀ f v, fst (fst (func_many f v)) = []) →
  state p = Waiting Many → fn p = f → signal p = Signal.Waiting w →
  calls 2 vals p = Some (Done
    match feed f vals with
    | (Some r, f') => mk None_ f' (Signal.Signaled tt) (Some r) (woken p ++ [w])
    | (None, f') => set_fn f' p
    end).
Proof.
  induction vals as [|v vals IH]; intros f p w Hn Ep Ef Es.
  - simpl. f_equal. by destruct p; simpl in *; subst.
  - cbn. rewrite Ep, Ef. specialize (Hn f v) as Hi. destruct (func_many f v) as [[inner r] f'] eqn:E.
    simpl in Hi. subst inner. destruct r as [r|]; simpl.
    + unfold send. simpl. rewrite Es. simpl. by rewrite calls_idle.
    + unfold set_state at 1. simpl. rewrite (IH f' _ w Hn); [|done..].
      destruct (feed f' vals) as [[r|] f'']; [done|]. unfold set_fn. simpl. by rewrite Ep.
Qed.
End portal.
Arguments t R F : clear implicits.
End Portal.

(** ** [Forever], the drop guards and the mutexes *)
Module Forever.
Section forever.
Context {T : Type}.
(** [t] is [None] while it is uninitialised. *)
Record t : Type := mk { used : bool; value : option T }.
Definition new : t := mk false None.
Definition put (val : T) (s : t) : outcome t :=
  if used s then Panic else Done (mk true (Some val)).
(** [val] may do anything to the rest of the world, for instance panic. *)
Definition put_with {W} (val : W → outcome (T * W)) (s : t) (w : W) : outcome (t * W) :=
  if used s then Panic else '(v, w') ← val w; Done (mk true (Some v), w').
(** Undefined behaviour, [None], when nothing was put. *)
Definition steal (s : t) : option T := value s.
End forever.
End Forever.

Definition DropBomb_drop : outcome unit := Panic.
Definition DropBomb_defuse : outcome unit := Done tt.
Definition OnDrop_drop {W} (f : W → W) (w : W) : W := f w.
Definition OnDrop_defuse {W} (f : W → W) (w : W) : W := w.

(** [thread] tells whether the code runs in thread mode. *)
Definition ThreadModeMutex_borrow {T} (thread : bool) (inner : T) : outcome T :=
  _ ← assert thread; Done inner.
Definition CriticalSectionMutex_borrow {T} (inner : T) : T := inner.

Lemma register_from_task (r : WakerTask.WakerRegistration) p :
  ∃ ws w, WakerTask.register r (Waker.from_task p) = Done (ws, w).
Proof.
  unfold WakerTask.register, Waker.task_from_waker. simpl.
  destruct r as [q|]; [destruct (q =? p)|]; by eexists _, _.
Qed.

Lemma registration_total ops : ∀ s, Forall of_task ops →
  ∃ r, run_task_reg ops s = Done r.
Proof.
  unfold run_task_reg. induction ops as [|op ops IH]; intros s H; [by eexists|].
  inversion H as [|?? Hop Hrest]; subst. cbn [run_reg].
  assert (∃ x, match op with Register w => WakerTask.register s w
                           | Wake => Done (WakerTask.wake s) end = Done x) as [[ws s1] ->].
  { destruct op as [w|]; [|by eexists]. destruct (of_task_from w Hop) as [_ Et].
    unfold WakerTask.register. rewrite Et. by eexists. }
  cbn [mbind outcome_bind]. destruct (IH s1 Hrest) as [[wss s2] ->]. by eexists.
Qed.

(** ** Properties *)

(** C23: a signal polled by one task never panics and delivers what a one-place
    mailbox would: each value sent is received once unless it is overwritten or
    reset; without resets the task never sleeps over a value that is there. A poll
    by a second task panics, and a reset drops the waker of the task that waits:
    the next value wakes nobody. *)
Theorem signal_spec {T} (w : Waker.t) (ops : list (Signal.Op T)) :
  Forall (Signal.polled_by w) ops →
  (∃ s, Signal.run ops (Signal.mkSys Signal.new false []) = Done s ∧
     Signal.got s = Signal.mailbox ops None ∧
     (Forall (λ op, Signal.is_reset op = false) ops →
      Signal.asleep s = true → Signal.signaled (Signal.st s) = false)) ∧
  (∀ w' a g, w' ≠ w → Signal.step (Signal.OpPoll w')
     (Signal.mkSys (Signal.Waiting w : Signal.State T) a g) = Panic) ∧
  (∀ (v : T) g, Signal.run [Signal.OpReset; Signal.OpSignal v]
     (Signal.mkSys (Signal.Waiting w) true g) =
     Done (Signal.mkSys (Signal.Signaled v) true g)).
Proof.
  intros H. split_and!.
  - destruct (Signal.run_ok w ops (Signal.mkSys Signal.new false []) H I) as (s & E & Hg & Hs).
    exists s. split_and!; [done..|]. intros Hr Ha.
    destruct (Hs Hr (λ F, match Bool.diff_false_true F with end) Ha) as [w' ->]. done.
  - intros w' a g Hw. simpl. unfold Waker.will_wake.
    rewrite bool_decide_false by congruence. done.
  - done.
Qed.

Lemma signal_spec_witness :
  Forall (Signal.polled_by (Waker.from_task 1))
    [Signal.OpPoll (Waker.from_task 1); Signal.OpSignal 5; Signal.OpPoll (Waker.from_task 1)] ∧
  ∃ s, Signal.run [Signal.OpPoll (Waker.from_task 1); Signal.OpSignal 5;
                   Signal.OpPoll (Waker.from_task 1)] (Signal.mkSys Signal.new false []) = Done s ∧
    Signal.got s = [5].
Proof.
  assert (H : Forall (Signal.polled_by (Waker.from_task 1))
    [Signal.OpPoll (Waker.from_task 1); Signal.OpSignal 5; Signal.OpPoll (Waker.from_task 1)]).
  { repeat constructor. }
  split; [exact H|].
  destruct (signal_spec (Waker.from_task 1) _ H) as [(s & E & Hg & _) _].
  exists s. split; [exact E|exact Hg].
Defined.

(** for wakers of this executor's tasks the two implementations of
    [WakerRegistration] and [AtomicWaker] wake the same tasks at every operation;
    and a [WakerRegistration] forgets no task: of those that registered and were
    not woken since, only the one it holds is left. *)
Theorem waker_registration_spec (ops : list RegOp) :
  Forall of_task ops →
  run_agnostic_reg ops WakerAgnostic.new = as_wakers (run_task_reg ops WakerTask.new) ∧
  run_agnostic_atomic ops WakerAgnostic.atomic_new =
    as_wakers (run_task_atomic ops WakerTask.atomic_new) ∧
  ∃ wss s, run_task_reg ops WakerTask.new = Done (wss, s) ∧
    ∀ p, p ∈ waiting_tasks ops wss [] → s = Some p.
Proof.
  intros H. destruct (registration_runs_agree ops None H) as [H1 H2].
  split_and!; [exact H1|exact H2|].
  destruct (run_task_reg ops WakerTask.new) as [[wss s]|] eqn:E.
  - exists wss, s. split; [done|]. refine (registration_keeps ops _ _ _ [] E _).
    intros p Hp. by apply elem_of_nil in Hp.
  - by destruct (registration_total ops WakerTask.new H) as [? E'%(eq_trans (eq_sym E))].
Qed.

Lemma waker_registration_spec_witness :
  ∃ ops, Forall of_task ops ∧ ∃ wss s, run_task_reg ops WakerTask.new = Done (wss, s) ∧
    wss = [[]; []; [1]; [2]; []] ∧ run_agnostic_reg ops None = as_wakers (Done (wss, s)).
Proof.
  pose (ops := [Register (Waker.from_task 1); Register (Waker.from_task 1);
                Register (Waker.from_task 2); Wake; Wake]).
  assert (H : Forall of_task ops) by (repeat constructor).
  destruct (waker_registration_spec ops H) as (E & _ & wss & s & E' & _).
  exists ops. split; [exact H|]. exists wss, s. rewrite <-E'. split; [done|].
  split; [|exact E]. vm_compute in E'. by injection E' as <- <-.
Defined.

(** [Portal::wait_many] gives its closure the values of the calls until it has a
    result, ignores the calls after that, wakes the waiting task once and returns the
    result; the portal is then free again.  While the closure runs, a call to the
    portal panics, and so does a second task that waits; a call with nobody
    waiting does nothing. *)
Theorem portal_wait_many_spec {T R F : Type} once (many : F → T → list T * option R * F)
    (p : Portal.t R F) (f : F) (w w2 : Waker.t) (vals : list T) :
  Portal.state p = Portal.None_ → Portal.woken p = [] →
  (∀ f v, fst (fst (many f v)) = []) →
  ∃ p0 p1 p2,
    Portal.wait Portal.Many f p = Done p0 ∧
    Portal.wait_poll w p0 = Done (Pending, p1) ∧
    (∀ k f', Portal.wait k f' p1 = Panic) ∧
    Portal.calls once many 2 vals p1 = Some (Done p2) ∧
    Portal.fn p2 = snd (Portal.feed many f vals) ∧
    match fst (Portal.feed many f vals) with
    | None => Portal.wait_poll w p2 = Done (Pending, p2) ∧ Portal.woken p2 = []
    | Some r => Portal.woken p2 = [w] ∧ Portal.state p2 = Portal.None_ ∧
                ∃ p3, Portal.wait_poll w2 p2 = Done (Ready r, p3)
    end ∧
    (∀ v, Portal.call once many 1 v p = Some (Done p)) ∧
    (∀ (v : T) q (once' : F → T → list T * R * F) many' inner r f', Portal.state q = Portal.Waiting Portal.Many →
       many' (Portal.fn q) v = (inner, r, f') → inner ≠ [] →
       Portal.call once' many' 2 v (q : Portal.t R F) = Some Panic).
Proof.
  intros Ep Ew Hn. unfold Portal.wait, Portal.wait_poll. rewrite Ep, Ew.
  eexists _, _, _. split; [reflexivity|]. simpl. rewrite Waker.clone_id.
  split; [reflexivity|]. split; [done|].
  split; [apply (Portal.calls_many once many vals f _ w Hn); done|].
  split_and!.
  - simpl. destruct (Portal.feed many f vals) as [[r|] f']; done.
  - simpl. destruct (Portal.feed many f vals) as [[r|] f']; simpl.
    + split_and!; [done..|]. by eexists.
    + split; [|done]. unfold Waker.will_wake. by rewrite bool_decide_true.
  - intros v. cbn. by rewrite Ep.
  - intros v q once' many' inner r f' Eq Em Hi. destruct inner as [|v' inner]; [done|].
    cbn. rewrite Eq, Em. done.
Qed.

Lemma portal_wait_many_spec_witness :
  let many := λ (f v : Z), ([] : list Z, if 10 <=? f + v then Some (f + v) else None, f + v) in
  ∃ p0 p1 p2, Portal.calls (λ f v : Z, ([], 0, f)) many 2 [3; 4; 5; 6] p1 = Some (Done p2) ∧
    Portal.wait (R := Z) Portal.Many 0 (Portal.mk Portal.None_ 0 Signal.new None []) = Done p0 ∧
    Portal.fn p2 = 12 ∧ Portal.woken p2 = [Waker.from_task 7].
Proof.
  intros many.
  destruct (portal_wait_many_spec (λ f v : Z, ([], 0, f)) many
    (Portal.mk (R := Z) Portal.None_ 0 Signal.new None []) 0 (Waker.from_task 7) (Waker.from_task 7)
    [3; 4; 5; 6] eq_refl eq_refl (λ f v, eq_refl))
    as (p0 & p1 & p2 & H0 & _ & _ & H2 & Hf & Hr & _).
  exists p0, p1, p2. split; [exact H2|]. split; [exact H0|]. split; [exact Hf|exact (proj1 Hr)].
Defined.
