(* ===== verification/Usb.v ===== *)
(** * Usb: the CDC-ACM serial port

    [embassy-extras/src/usb/]: the packet-level class [CdcAcmClass] ([cdc_acm.rs]),
    the buffered [UsbSerial] and its two interfaces ([usb_serial.rs]), and the class
    sets of [mod.rs], whose use is in [UsbSet].  The endpoints are [usb_device]'s: [UsbBus] has the operations
    the code calls and [UsbBusLaws] what their documentation says. *)
From S2P Require Import Prelude RingBuffer Sync Interrupt Io.
Local Open Scope Z_scope.

(** [usb_device::UsbError], as far as the code tells its variants apart. *)
Inductive UsbError : Set := WouldBlock | OtherError (code : Z).
#[export] Instance UsbError_eq_dec : EqDecision UsbError.
Proof. solve_decision. Defined.

(** The bulk endpoints: [EndpointIn::write], [EndpointOut::read] into a buffer of the
    given length, and the hardware finishing the transmission of a packet. *)
Class UsbBus (B : Type) : Type := {
  ep_write : list Z → B → Result nat UsbError * B;
  ep_read : nat → B → Result (list Z) UsbError * B;
  complete : B → B
}.

(** A packet is taken whole or not at all; a full endpoint would block; an endpoint
    with no packet in flight does not; a received packet fits the buffer. *)
Class UsbBusLaws (B : Type) `{!UsbBus B} : Type := {
  packets : B → list (list Z);
  busy : B → bool;
  write_taken : ∀ d b n b', ep_write d b = (Ok n, b') →
    n = length d ∧ packets b' = packets b ++ [d] ∧ busy b' = true;
  write_refused : ∀ d b e b', ep_write d b = (Err e, b') →
    packets b' = packets b ∧ busy b' = busy b;
  write_idle : ∀ d b b', busy b = false → ep_write d b ≠ (Err WouldBlock, b');
  read_packets : ∀ n b r b', ep_read n b = (r, b') →
    packets b' = packets b ∧ busy b' = busy b ∧ ∀ d, r = Ok d → (length d ≤ n)%nat;
  complete_packets : ∀ b, packets (complete b) = packets b ∧ busy (complete b) = false
}.

(** ** [cdc_acm.rs] *)
Definition USB_CLASS_CDC : Z := 0x02.
Definition USB_CLASS_CDC_DATA : Z := 0x0a.
Definition CDC_SUBCLASS_ACM : Z := 0x02.
Definition CDC_PROTOCOL_NONE : Z := 0x00.
Definition CS_INTERFACE : Z := 0x24.
Definition CDC_TYPE_HEADER : Z := 0x00.
Definition CDC_TYPE_CALL_MANAGEMENT : Z := 0x01.
Definition CDC_TYPE_ACM : Z := 0x02.
Definition CDC_TYPE_UNION : Z := 0x06.
Definition REQ_SEND_ENCAPSULATED_COMMAND : Z := 0x00.
Definition REQ_SET_LINE_CODING : Z := 0x20.
Definition REQ_GET_LINE_CODING : Z := 0x21.
Definition REQ_SET_CONTROL_LINE_STATE : Z := 0x22.

Inductive StopBits : Set := One | OnePointFive | Two.
Inductive ParityType : Set := NoParity | Odd | Event | Mark | Space.

Definition StopBits_from_u8 (value : Z) : StopBits :=
  if value <=? 2 then if value =? 0 then One else if value =? 1 then OnePointFive else Two
  else One.
Definition u8_of_StopBits (s : StopBits) : Z :=
  match s with One => 0 | OnePointFive => 1 | Two => 2 end.
Definition ParityType_from_u8 (value : Z) : ParityType :=
  if value <=? 4 then
    if value =? 0 then NoParity else if value =? 1 then Odd else if value =? 2 then Event
    else if value =? 3 then Mark else Space
  else NoParity.
Definition u8_of_ParityType (p : ParityType) : Z :=
  match p with NoParity => 0 | Odd => 1 | Event => 2 | Mark => 3 | Space => 4 end.

Record LineCoding : Set := mkLineCoding {
  stop_bits : StopBits; data_bits : Z; parity_type : ParityType; data_rate : Z
}.
Definition LineCoding_default : LineCoding := mkLineCoding One 8 NoParity 8000.

(** [u32::to_le_bytes] and [u32::from_le_bytes]. *)
Definition to_le_bytes (n : Z) : list Z :=
  [n mod 256; n / 2 ^ 8 mod 256; n / 2 ^ 16 mod 256; n / 2 ^ 24 mod 256].
Definition from_le_bytes (b0 b1 b2 b3 : Z) : Z := b0 + b1 * 2 ^ 8 + b2 * 2 ^ 16 + b3 * 2 ^ 24.

Record CdcAcmClass (B : Type) : Type := mkCdc {
  comm_if : Z; data_if : Z;
  read_ep_address : Z; write_ep_address : Z; max_packet_size : Z;
  bus : B;
  line_coding : LineCoding; dtr : bool; rts : bool
}.
Arguments mkCdc {B} _ _ _ _ _ _ _ _ _.
Arguments comm_if {B} _.
Arguments data_if {B} _.
Arguments read_ep_address {B} _.
Arguments write_ep_address {B} _.
Arguments max_packet_size {B} _.
Arguments bus {B} _.
Arguments line_coding {B} _.
Arguments dtr {B} _.
Arguments rts {B} _.

(** The interface numbers and addresses are the allocator's. *)
Definition CdcAcmClass_new {B} (comm data rd wr : Z) (b : B) (max_packet_size : Z)
    : CdcAcmClass B :=
  mkCdc comm data rd wr max_packet_size b (mkLineCoding One 8 NoParity 8000) false false.

Section cdc.
Context {B : Type} `{!UsbBus B}.
Implicit Types c : CdcAcmClass B.

Definition with_bus (b : B) c : CdcAcmClass B :=
  mkCdc (comm_if c) (data_if c) (read_ep_address c) (write_ep_address c) (max_packet_size c)
    b (line_coding c) (dtr c) (rts c).
Definition with_line (l : LineCoding) (d r : bool) c : CdcAcmClass B :=
  mkCdc (comm_if c) (data_if c) (read_ep_address c) (write_ep_address c) (max_packet_size c)
    (bus c) l d r.

Definition write_packet (data : list Z) c : Result nat UsbError * CdcAcmClass B :=
  let '(r, b) := ep_write data (bus c) in (r, with_bus b c).
Definition read_packet (n : nat) c : Result (list Z) UsbError * CdcAcmClass B :=
  let '(r, b) := ep_read n (bus c) in (r, with_bus b c).

Definition cdc_reset c : CdcAcmClass B := with_line LineCoding_default false false c.

(** A control request, with its type and recipient reduced to what is compared. *)
Record Request : Set := mkRequest {
  is_class : bool; to_interface : bool; index : Z; request : Z; value : Z; length_ : Z
}.
Inductive Reply : Set :=
| Ignored
| Rejected
| Accepted (data : list Z).

Definition addressed (req : Request) c : bool :=
  is_class req && to_interface req && (index req =? comm_if c).

Definition control_in (req : Request) c : Reply :=
  if negb (addressed req c) then Ignored
  else if (request req =? REQ_GET_LINE_CODING) && (length_ req =? 7) then
    Accepted (to_le_bytes (data_rate (line_coding c)) ++
      [u8_of_StopBits (stop_bits (line_coding c));
       u8_of_ParityType (parity_type (line_coding c)); data_bits (line_coding c)])
  else Rejected.

Definition control_out (req : Request) (data : list Z) c : Reply * CdcAcmClass B :=
  if negb (addressed req c) then (Ignored, c)
  else if request req =? REQ_SEND_ENCAPSULATED_COMMAND then (Accepted [], c)
  else
    match (if request req =? REQ_SET_LINE_CODING then data else []) with
    | b0 :: b1 :: b2 :: b3 :: sb :: pt :: db :: _ =>
        (Accepted [], with_line (mkLineCoding (StopBits_from_u8 sb) db (ParityType_from_u8 pt)
                                   (from_le_bytes b0 b1 b2 b3)) (dtr c) (rts c) c)
    | _ =>
        if request req =? REQ_SET_CONTROL_LINE_STATE then
          (Accepted [], with_line (line_coding c) (negb (Z.land (value req) 1 =? 0))
                          (negb (Z.land (value req) 2 =? 0)) c)
        else (Rejected, c)
    end.

(** What is asked of the [DescriptorWriter], up to the first error. *)
Inductive DescCall : Set :=
| Iad (first count class subclass protocol : Z)
| Interface (number class subclass protocol : Z)
| WriteDesc (type_ : Z) (desc : list Z)
| Endpoint (address : Z)
| CommEndpoint.

Definition descriptors c : list DescCall :=
  [Iad (comm_if c) 2 USB_CLASS_CDC CDC_SUBCLASS_ACM CDC_PROTOCOL_NONE;
   Interface (comm_if c) USB_CLASS_CDC CDC_SUBCLASS_ACM CDC_PROTOCOL_NONE;
   WriteDesc CS_INTERFACE [CDC_TYPE_HEADER; 0x10; 0x01];
   WriteDesc CS_INTERFACE [CDC_TYPE_ACM; 0x00];
   WriteDesc CS_INTERFACE [CDC_TYPE_UNION; comm_if c; data_if c];
   WriteDesc CS_INTERFACE [CDC_TYPE_CALL_MANAGEMENT; 0x00; data_if c];
   CommEndpoint;
   Interface (data_if c) USB_CLASS_CDC_DATA 0x00 0x00;
   Endpoint (write_ep_address c);
   Endpoint (read_ep_address c)].

Fixpoint write_all {D} (writer : DescCall → D → Result unit UsbError * D) (l : list DescCall)
    (w : D) : Result unit UsbError * D :=
  match l with
  | [] => (Ok tt, w)
  | d :: l' => match writer d w with
               | (Ok _, w') => write_all writer l' w'
               | err => err end
  end.
Definition get_configuration_descriptors {D} (writer : DescCall → D → Result unit UsbError * D)
    (w : D) c : Result unit UsbError * D := write_all writer (descriptors c) w.
End cdc.

(** ** [usb_serial.rs] *)
Inductive WriteState : Set :=
| Idle
| Short
| Full (n : Z).

Record UsbSerial (B : Type) : Type := mkSerial {
  inner : CdcAcmClass B;
  read_buf : RingBuffer; write_buf : RingBuffer;
  read_waker : WakerTask.WakerRegistration; write_waker : WakerTask.WakerRegistration;
  write_state : WriteState;
  read_error : bool; write_error : bool
}.
Arguments mkSerial {B} _ _ _ _ _ _ _ _.
Arguments inner {B} _.
Arguments read_buf {B} _.
Arguments write_buf {B} _.
Arguments read_waker {B} _.
Arguments write_waker {B} _.
Arguments write_state {B} _.
Arguments read_error {B} _.
Arguments write_error {B} _.

Definition SHORT_PACKET_INTERVAL : Z := 10.

Section serial.
Context {P : Profile} {B : Type} `{!UsbBus B}.
Implicit Types s : UsbSerial B.

Definition with_inner (c : CdcAcmClass B) s : UsbSerial B :=
  mkSerial c (read_buf s) (write_buf s) (read_waker s) (write_waker s) (write_state s)
    (read_error s) (write_error s).
Definition with_read (rb : RingBuffer) (w : WakerTask.WakerRegistration) (e : bool) s
    : UsbSerial B :=
  mkSerial (inner s) rb (write_buf s) w (write_waker s) (write_state s) e (write_error s).
Definition with_write (wb : RingBuffer) (w : WakerTask.WakerRegistration) (e : bool) s
    : UsbSerial B :=
  mkSerial (inner s) (read_buf s) wb (read_waker s) w (write_state s) (read_error s) e.
Definition set_write_state (ws : WriteState) s : UsbSerial B :=
  mkSerial (inner s) (read_buf s) (write_buf s) (read_waker s) (write_waker s) ws
    (read_error s) (write_error s).
Definition set_write_error s : UsbSerial B := with_write (write_buf s) (write_waker s) true s.

(** [class] is what [CdcAcmClass::new(alloc, 64)] makes. *)
Definition UsbSerial_new (class : CdcAcmClass B) (read_buf write_buf : list Z) : UsbSerial B :=
  mkSerial class (RingBuffer.new read_buf) (RingBuffer.new write_buf)
    WakerTask.new WakerTask.new Idle false false.

Definition full_size_packets s : Z := match write_state s with Full c => c | _ => 0 end.

(** The largest packet to send now. *)
Definition max_size s : outcome Z :=
  let ep_size := max_packet_size (inner s) in
  if SHORT_PACKET_INTERVAL <? full_size_packets s then arith 32 (ep_size - 1) else Done ep_size.

Definition flush_write s : outcome (UsbSerial B) :=
  let ep_size := max_packet_size (inner s) in
  max_size ← max_size s;
  '(off, n) ← pop_buf (write_buf s);
  let all := slice (buf (write_buf s)) off n in
  let pkt := if max_size <? Z.of_nat (length all) then take (Z.to_nat max_size) all else all in
  match pkt with
  | _ :: _ =>
      let '(r, c) := write_packet pkt (inner s) in
      let s1 := with_inner c s in
      match r with
      | Err (OtherError _) => Done (set_write_error s1)
      | _ =>
          let count := match r with Ok k => Z.of_nat k | _ => 0 end in
          ws ← (if Z.of_nat (length pkt) =? ep_size
                then n ← arith 32 (full_size_packets s + 1); Done (Full n) else Done Short);
          wb ← pop (write_buf s1) count;
          Done (set_write_state ws (with_write wb (write_waker s1) (write_error s1) s1))
      end
  | [] =>
      if 0 <? full_size_packets s then
        let '(r, c) := write_packet [] (inner s) in
        let s1 := with_inner c s in
        match r with
        | Err WouldBlock => Done s1
        | Err (OtherError _) => Done (set_write_error s1)
        | Ok _ => Done (set_write_state Idle s1)
        end
      else Done s
  end.

(** The result with what was woken. *)
Definition poll_fill_buf (cx : Waker.t) s
    : outcome (IoPoll (list Z) * list Z * UsbSerial B) :=
  if read_error s then
    Done (Ready (Err Other), [], with_read (read_buf s) (read_waker s) false s)
  else
    '(off, n) ← pop_buf (read_buf s);
    let shown := slice (buf (read_buf s)) off n in
    match shown with
    | [] => '(ws, w) ← WakerTask.register (read_waker s) cx;
            Done (Pending, ws, with_read (read_buf s) w (read_error s) s)
    | _ => Done (Ready (Ok shown), [], s)
    end.

Definition consume (amt : nat) s : outcome (UsbSerial B) :=
  rb ← pop (read_buf s) (Z.of_nat amt);
  Done (with_read rb (read_waker s) (read_error s) s).

Definition poll_write (cx : Waker.t) (data : list Z) s
    : outcome (IoPoll nat * list Z * UsbSerial B) :=
  if write_error s then
    Done (Ready (Err Other), [], with_write (write_buf s) (write_waker s) false s)
  else
    '(off, n) ← push_buf (write_buf s);
    if n =? 0 then
      '(ws, w) ← WakerTask.register (write_waker s) cx;
      Done (Pending, ws, with_write (write_buf s) w (write_error s) s)
    else
      let count := Nat.min (Z.to_nat n) (length data) in
      wb ← push (fill (write_buf s) off (take count data)) (Z.of_nat count);
      s' ← flush_write (with_write wb (write_waker s) (write_error s) s);
      Done (Ready (Ok count), [], s').

Definition reset s : UsbSerial B :=
  set_write_state Idle
    (with_write (RingBuffer.clear (write_buf s)) (write_waker s) (write_error s)
       (with_read (RingBuffer.clear (read_buf s)) (read_waker s) (read_error s)
          (with_inner (cdc_reset (inner s)) s))).

Definition endpoint_in_complete (addr : Z) s : outcome (list Z * UsbSerial B) :=
  if addr =? write_ep_address (inner s) then
    let '(ws, w) := WakerTask.wake (write_waker s) in
    s' ← flush_write (with_write (write_buf s) w (write_error s) s);
    Done (ws, s')
  else Done ([], s).

Definition endpoint_out (addr : Z) s : outcome (list Z * UsbSerial B) :=
  if addr =? read_ep_address (inner s) then
    '(off, n) ← push_buf (read_buf s);
    let '(r, c) := read_packet (Z.to_nat n) (inner s) in
    let s1 := with_inner c s in
    match r with
    | Err (OtherError _) => Done ([], with_read (read_buf s1) (read_waker s1) true s1)
    | _ =>
        let data := match r with Ok d => d | _ => [] end in
        if (0 <? length data)%nat then
          rb ← push (fill (read_buf s1) off data) (Z.of_nat (length data));
          let '(ws, w) := WakerTask.wake (read_waker s1) in
          Done (ws, with_read rb w (read_error s1) s1)
        else Done ([], s1)
    end
  else Done ([], s).

(** The class callbacks [UsbDevice::poll] makes. *)
Inductive UsbEvent : Set :=
| EvReset
| EvInComplete (addr : Z)
| EvOut (addr : Z)
| EvControlIn (req : Request)
| EvControlOut (req : Request) (data : list Z).

Definition class_event (ev : UsbEvent) s : outcome (list Z * UsbSerial B) :=
  match ev with
  | EvReset => Done ([], reset s)
  | EvInComplete addr => endpoint_in_complete addr s
  | EvOut addr => endpoint_out addr s
  | EvControlIn _ => Done ([], s)
  | EvControlOut req data => Done ([], with_inner (snd (control_out req data (inner s))) s)
  end.
End serial.

(** ** [mod.rs] and the interfaces: the serial port inside the interrupt's state *)
Record ClassSet1 (C1 : Type) : Type := mkSet1 { class : C1 }.
Record ClassSet2 (C1 C2 : Type) : Type := mkSet2 { class1 : C1; class2 : C2 }.
Arguments mkSet1 {C1} _.
Arguments class {C1} _.
Arguments mkSet2 {C1 C2} _ _.
Arguments class1 {C1 C2} _.
Arguments class2 {C1 C2} _.

(** [SerialState]: the serial port in a class set, at index [I]. *)
Inductive Index0 : Set := .
Inductive Index1 : Set := .
Class SerialState (B T I : Type) : Type := {
  get_serial : T → UsbSerial B;
  set_serial : UsbSerial B → T → T
}.
#[export] Instance serial_set1 B : SerialState B (ClassSet1 (UsbSerial B)) Index0 :=
  {| get_serial t := class t; set_serial s t := mkSet1 s |}.
#[export] Instance serial_set2_0 B C2 : SerialState B (ClassSet2 (UsbSerial B) C2) Index0 :=
  {| get_serial t := class1 t; set_serial s t := mkSet2 s (class2 t) |}.
#[export] Instance serial_set2_1 B C1 : SerialState B (ClassSet2 C1 (UsbSerial B)) Index1 :=
  {| get_serial t := class2 t; set_serial s t := mkSet2 (class1 t) s |}.

Section interfaces.
Context {P : Profile} {B T I : Type} `{!UsbBus B} `{!SerialState B T I}.

(** A use of the serial port under the mutex; a panic inside is one outside. *)
Definition with_serial {R} (f : UsbSerial B → outcome (R * UsbSerial B))
    (m : PeripheralMutex T) : outcome (R * PeripheralMutex T) :=
  let '(r, m') := with_state (λ st i,
    match f (get_serial (I := I) st) with
    | Done (r, s') => (Done r, set_serial (I := I) s' st, i)
    | Panic => (Panic, st, i)
    end) m in
  r ← r; Done (r, m').

Definition ReadInterface_poll_fill_buf (cx : Waker.t) (m : PeripheralMutex T)
    : outcome (IoPoll (list Z) * list Z * PeripheralMutex T) :=
  with_serial (λ s,
    '(r, ws, s') ← poll_fill_buf cx s;
    Done ((match r with
           | Ready (Ok b) => Ready (Ok b)
           | Ready (Err _) => Ready (Err Other)
           | Pending => Pending end, ws), s')) m.
Definition ReadInterface_consume (amt : nat) (m : PeripheralMutex T)
    : outcome (unit * PeripheralMutex T) :=
  with_serial (λ s, s' ← consume amt s; Done (tt, s')) m.
Definition WriteInterface_poll_write (cx : Waker.t) (data : list Z) (m : PeripheralMutex T)
    : outcome (IoPoll nat * list Z * PeripheralMutex T) :=
  with_serial (λ s, '(r, ws, s') ← poll_write cx data s; Done ((r, ws), s')) m.
End interfaces.
