(* ===== verification/UsbProofs.v ===== *)
(** * UsbProofs: what the serial port delivers

    The invariants of [Usb.UsbSerial]'s two queues, and the properties of the serial
    port and of its line coding. *)
From S2P Require Import Prelude RingBuffer Sync Interrupt Io Usb.
Local Open Scope Z_scope.

Section write_side.
Context {P : Profile} {B : Type} `{!UsbBus B, !UsbBusLaws B}.
Implicit Types s : UsbSerial B.

Definition ep_size s : Z := max_packet_size (inner s).
Definition sent s : list (list Z) := packets (bus (inner s)).
(** The last packet sent was a full one. *)
Definition last_full s : Prop :=
  ∃ p, last (sent s) = Some p ∧ Z.of_nat (length p) = ep_size s.

(** The write side when the bytes [acc] have been accepted. *)
Record WInv s (acc : list Z) : Prop := {
  wi_wf : wf (write_buf s);
  wi_ep : 1 ≤ ep_size s < 2 ^ 31;
  wi_fifo : concat (sent s) ++ contents (write_buf s) = acc;
  wi_last : last_full s → 0 < full_size_packets s ∨ contents (write_buf s) ≠ [];
  wi_full : 0 ≤ full_size_packets s ≤ SHORT_PACKET_INTERVAL + 1;
  wi_size : Forall (λ p, Z.of_nat (length p) ≤ ep_size s) (sent s)
}.

(** What operations of the write side leave alone. *)
Definition same_read s s' : Prop :=
  read_buf s' = read_buf s ∧ read_waker s' = read_waker s ∧ read_error s' = read_error s ∧
  ep_size s' = ep_size s ∧ write_waker s' = write_waker s ∧
  write_ep_address (inner s') = write_ep_address (inner s) ∧
  read_ep_address (inner s') = read_ep_address (inner s).

(** Nothing is left to send, and the host has seen the end of it. *)
Definition settled s : Prop :=
  busy (bus (inner s)) = true ∨ contents (write_buf s) = [] ∧ ¬ last_full s.

Lemma max_size_run s : 1 ≤ ep_size s < 2 ^ 31 →
  ∃ m, max_size s = Done m ∧ 0 ≤ m ≤ ep_size s ∧
    (m = ep_size s ↔ full_size_packets s ≤ SHORT_PACKET_INTERVAL).
Proof.
  intros H. unfold max_size, ep_size in *. case_bool.
  - rewrite arith_fits by lia. eexists. split; [done|]. lia.
  - eexists. split; [done|]. lia.
Qed.

Lemma write_packet_eq pkt (c : CdcAcmClass B) :
  write_packet pkt c = (fst (ep_write pkt (bus c)), with_bus (snd (ep_write pkt (bus c))) c).
Proof. unfold write_packet. by destruct (ep_write pkt (bus c)). Qed.

(** A packet offered to the endpoint and not taken. *)
Lemma refused_inv s acc d e ws we :
  WInv s acc → ep_write d (bus (inner s)) = (Err e, snd (ep_write d (bus (inner s)))) →
  let s' := mkSerial (with_bus (snd (ep_write d (bus (inner s)))) (inner s)) (read_buf s)
    (write_buf s) (read_waker s) (write_waker s) ws (read_error s) we in
  0 ≤ full_size_packets s' ≤ SHORT_PACKET_INTERVAL + 1 →
  (0 < full_size_packets s → 0 < full_size_packets s' ∨ contents (write_buf s) ≠ []) →
  WInv s' acc ∧ sent s' = sent s ∧ busy (bus (inner s')) = busy (bus (inner s)).
Proof.
  intros [] Hw s' Hf Hl. apply write_refused in Hw as [Hp Hb].
  assert (Es : sent s' = sent s) by exact Hp.
  split; [|done]. split; try done.
  - by rewrite Es.
  - unfold last_full. rewrite Es. intros Hlf. destruct (wi_last0 Hlf); auto.
  - by rewrite Es.
Qed.

(** The zero-length packet after a full one. *)
Lemma flush_zlp s acc : WInv s acc → 0 < full_size_packets s →
  ∃ s', (let '(r, c) := write_packet [] (inner s) in
         let s1 := with_inner c s in
         match r with
         | Err WouldBlock => Done s1
         | Err (OtherError _) => Done (set_write_error s1)
         | Ok _ => Done (set_write_state Idle s1)
         end) = Done s' ∧ WInv s' acc ∧ same_read s s' ∧
    (write_error s' = false → settled s').
Proof.
  intros I Hpos. pose proof I as [Hwf Hep Hfifo Hlast Hfull Hsize].
  rewrite write_packet_eq. destruct (ep_write [] (bus (inner s))) as [[k|e] b'] eqn:Ew; simpl.
  - apply write_taken in Ew as (_ & Hp & Hb). eexists. split; [done|].
    assert (Hl : ¬ last_full (set_write_state Idle (with_inner (with_bus b' (inner s)) s))).
    { intros (p & E & El). unfold sent in E. simpl in E. rewrite Hp, last_snoc in E.
      injection E as <-. unfold ep_size in *. simpl in El. lia. }
    split; [split; try done|split; [done|intros _; by left]].
    + unfold sent. simpl. rewrite Hp, concat_app. simpl. by rewrite app_nil_r.
    + unfold sent. simpl. rewrite Hp. apply Forall_app. split; [done|].
      repeat constructor. unfold ep_size in *. simpl. lia.
  - assert (Hw : ep_write [] (bus (inner s)) = (Err e, snd (ep_write [] (bus (inner s)))))
      by (by rewrite Ew).
    destruct e as [|code]; eexists; (split; [reflexivity|]).
    + destruct (refused_inv s acc [] _ (write_state s) (write_error s) I Hw)
        as (I' & _ & Hb); [exact Hfull|by left|].
      rewrite Ew in I', Hb. split; [exact I'|]. split; [done|]. intros _. left.
      unfold with_inner. simpl. simpl in Hb. rewrite Hb.
      destruct (busy (bus (inner s))) eqn:E; [done|].
      by destruct (write_idle [] (bus (inner s)) b' E).
    + destruct (refused_inv s acc [] _ (write_state s) true I Hw)
        as (I' & _ & _); [exact Hfull|by left|].
      rewrite Ew in I'. split; [exact I'|]. done.
Qed.

(** A packet of what is queued. *)
Lemma flush_packet s acc pkt m : WInv s acc →
  0 ≤ m ≤ ep_size s → (m = ep_size s ↔ full_size_packets s ≤ SHORT_PACKET_INTERVAL) →
  pkt ≠ [] → pkt = take (length pkt) (peeked (write_buf s)) → Z.of_nat (length pkt) ≤ m →
  ∃ s', (let '(r, c) := write_packet pkt (inner s) in
         let s1 := with_inner c s in
         match r with
         | Err (OtherError _) => Done (set_write_error s1)
         | _ =>
             let count := match r with Ok k => Z.of_nat k | _ => 0 end in
             ws ← (if Z.of_nat (length pkt) =? max_packet_size (inner s)
                   then n ← arith 32 (full_size_packets s + 1); Done (Full n) else Done Short);
             wb ← pop (write_buf s1) count;
             Done (set_write_state ws (with_write wb (write_waker s1) (write_error s1) s1))
         end) = Done s' ∧ WInv s' acc ∧ same_read s s' ∧
    (write_error s' = false → settled s').
Proof.
  intros I Hm Hmf Hne Hpk Hlen. pose proof I as [Hwf Hep Hfifo Hlast Hfull Hsize].
  destruct (pop_buf_run (write_buf s) Hwf) as (_ & _ & _ & _ & _ & (rest & Hrest) & Hnil).
  assert (Hk : (length pkt ≤ length (peeked (write_buf s)))%nat).
  { rewrite Hpk at 1. rewrite length_take. lia. }
  assert (Hcne : contents (write_buf s) ≠ []).
  { intros E. apply Hnil in E. rewrite E, take_nil in Hpk. done. }
  set (ws' := if Z.of_nat (length pkt) =? ep_size s then Full (full_size_packets s + 1) else Short).
  assert (Hws : (if Z.of_nat (length pkt) =? max_packet_size (inner s)
                 then n ← arith 32 (full_size_packets s + 1); Done (Full n) else Done Short)
    = Done ws').
  { unfold ws', ep_size. destruct (Z.eqb _ _); [|done].
    rewrite arith_fits; [done|]. unfold SHORT_PACKET_INTERVAL in *. lia. }
  set (fp := match ws' with Full c => c | _ => 0 end).
  assert (Hfp : 0 ≤ fp ≤ SHORT_PACKET_INTERVAL + 1 ∧ (Z.of_nat (length pkt) = ep_size s → 0 < fp)).
  { unfold fp, ws'. destruct (Z.eqb_spec (Z.of_nat (length pkt)) (ep_size s)); simpl;
      unfold SHORT_PACKET_INTERVAL in *; lia. }
  clearbody ws'. rewrite write_packet_eq. 
  destruct (ep_write pkt (bus (inner s))) as [[k|e] b'] eqn:Ew; cbn [fst snd].
  - apply write_taken in Ew as (-> & Hp & Hb).
    destruct (pop_run (write_buf s) (length pkt) Hwf Hk) as (wb & Hpop & Wwb & _ & Hcon).
    rewrite Hws. cbn [mbind outcome_bind write_buf with_inner]. rewrite Hpop.
    cbn [mbind outcome_bind]. eexists. split; [done|].
    split; [split; try done|split; [done|intros _; by left]].
    + unfold sent. simpl. rewrite Hp, concat_app, Hcon. simpl. rewrite app_nil_r, <-app_assoc.
      rewrite <-Hfifo. f_equal. rewrite Hrest, drop_app_le by lia.
      rewrite Hpk at 1. by rewrite app_assoc, take_drop.
    + intros (p & E & El). unfold sent in E. simpl in E. rewrite Hp, last_snoc in E.
      injection E as <-. left. apply Hfp. exact El.
    + apply Hfp.
    + unfold sent. simpl. rewrite Hp. apply Forall_app. split; [done|].
      repeat constructor. unfold ep_size in *. simpl in *. lia.
  - assert (Hw : ep_write pkt (bus (inner s)) = (Err e, snd (ep_write pkt (bus (inner s)))))
      by (by rewrite Ew).
    destruct e as [|code].
    + rewrite Hws. cbn [mbind outcome_bind]. unfold pop. simpl. eexists. split; [reflexivity|].
      destruct (refused_inv s acc pkt _ ws' (write_error s) I Hw)
        as (I' & _ & Hb); [apply Hfp|by right|].
      rewrite Ew in I', Hb. split; [exact I'|]. split; [done|]. intros _. left.
      simpl. simpl in Hb. rewrite Hb.
      destruct (busy (bus (inner s))) eqn:E; [done|].
      by destruct (write_idle pkt (bus (inner s)) b' E).
    + eexists. split; [reflexivity|]. destruct (refused_inv s acc pkt _ (write_state s) true I Hw)
        as (I' & _ & _); [exact Hfull|by right|].
      rewrite Ew in I'. split; [exact I'|]. done.
Qed.

Lemma flush_run s acc : WInv s acc →
  ∃ s', flush_write s = Done s' ∧ WInv s' acc ∧ same_read s s' ∧
    (write_error s' = false → settled s').
Proof.
  intros I. pose proof I as [Hwf Hep Hfifo Hlast Hfull Hsize].
  destruct (max_size_run s Hep) as (m & Hm & Hmr & Hmf).
  destruct (pop_buf_run (write_buf s) Hwf) as (off & n & Hpop & Hsl & Hlen & (rest & Hrest) & Hnil).
  unfold flush_write. rewrite Hm. cbn [mbind outcome_bind]. rewrite Hpop.
  cbn [mbind outcome_bind]. rewrite Hsl.
  set (pkt := if m <? Z.of_nat (length (peeked (write_buf s)))
              then take (Z.to_nat m) (peeked (write_buf s)) else peeked (write_buf s)).
  assert (Hpkt : ∃ k, pkt = take k (peeked (write_buf s)) ∧ k = length pkt ∧ Z.of_nat k ≤ m).
  { unfold pkt. case_bool.
    - exists (Z.to_nat m). rewrite length_take. split; [done|]. lia.
    - exists (length (peeked (write_buf s))). by rewrite take_ge by done. }
  destruct Hpkt as (k & Hpk & Hk & Hkm).
  assert (Hpe : pkt = [] → contents (write_buf s) = [] ∨ m = 0).
  { unfold pkt. intros E. revert E. case_bool; [|rewrite Hnil; auto].
    intros E. right. destruct (Z.to_nat m) eqn:E2; [lia|].
    destruct (peeked (write_buf s)); [simpl in *; lia|done]. }
  clearbody pkt. subst k.
  destruct pkt as [|x pkt'] eqn:Epkt.
  - destruct (Z.ltb_spec 0 (full_size_packets s)) as [Hpos|Hz].
    + exact (flush_zlp s acc I Hpos).
    + exists s. split; [done|]. split; [done|]. split; [done|]. intros _. right.
      destruct (Hpe eq_refl) as [Hc|Hm0]; [|exfalso; revert Hmf; unfold SHORT_PACKET_INTERVAL; lia].
      split; [done|]. intros Hl. by destruct (Hlast Hl); [lia|].
  - rewrite <-Epkt in *. apply (flush_packet s acc pkt m I Hmr Hmf); try done.
    by rewrite Epkt.
Qed.

(** ** The serial port in use *)

(** A task writes, a task reads up to [max] bytes, the transmission of a packet
    completes, a packet arrives. *)
Inductive SOp : Type :=
| OWrite (task : Z) (data : list Z)
| ORead (task : Z) (max : nat)
| OComplete
| OOut.

(** The port, with the bytes its writers were told it took, the bytes its endpoint
    received and the bytes its readers consumed. *)
Record Sys : Type := mkSys {
  ser : UsbSerial B; accepted : list Z; received : list Z; delivered : list Z
}.

(** What the endpoint hands over at [endpoint_out]. *)
Definition received_by s : list Z :=
  match push_buf (read_buf s) with
  | Done (_, n) => match fst (read_packet (Z.to_nat n) (inner s)) with Ok d => d | _ => [] end
  | Panic => []
  end.

Definition sstep (op : SOp) (y : Sys) : outcome Sys :=
  match op with
  | OWrite task data =>
      '(r, _, s') ← poll_write (Waker.from_task task) data (ser y);
      Done (mkSys s' (accepted y ++ match r with Ready (Ok k) => take k data | _ => [] end)
              (received y) (delivered y))
  | ORead task max =>
      '(r, _, s1) ← poll_fill_buf (Waker.from_task task) (ser y);
      let amt := match r with Ready (Ok b) => take max b | _ => [] end in
      s2 ← consume (length amt) s1;
      Done (mkSys s2 (accepted y) (received y) (delivered y ++ amt))
  | OComplete =>
      let s := ser y in
      let s1 := with_inner (with_bus (complete (bus (inner s))) (inner s)) s in
      '(_, s2) ← endpoint_in_complete (write_ep_address (inner s1)) s1;
      Done (mkSys s2 (accepted y) (received y) (delivered y))
  | OOut =>
      '(_, s1) ← endpoint_out (read_ep_address (inner (ser y))) (ser y);
      Done (mkSys s1 (accepted y) (received y ++ received_by (ser y)) (delivered y))
  end.

Fixpoint srun (ops : list SOp) (y : Sys) : outcome Sys :=
  match ops with [] => Done y | op :: ops' => y' ← sstep op y; srun ops' y' end.

(** The invariant of both queues. *)
Record SInv (y : Sys) : Prop := {
  si_write : WInv (ser y) (accepted y);
  si_wf : wf (read_buf (ser y));
  si_fifo : delivered y ++ contents (read_buf (ser y)) = received y
}.

Lemma WInv_frame s s' acc : WInv s acc → write_buf s' = write_buf s → ep_size s' = ep_size s →
  sent s' = sent s → write_state s' = write_state s → WInv s' acc.
Proof.
  intros [] E1 E2 E3 E4. unfold last_full, full_size_packets in *.
  split; unfold last_full, full_size_packets; by rewrite ?E1, ?E2, ?E3, ?E4.
Qed.

(** The arguments of a port that is made: buffers that fit, an endpoint nobody used. *)
Definition fresh (class : CdcAcmClass B) (rb wb : list Z) : Prop :=
  Z.of_nat (length rb) < 2 ^ 31 ∧ Z.of_nat (length wb) < 2 ^ 31 ∧
  1 ≤ max_packet_size class < 2 ^ 31 ∧ packets (bus class) = [].
Lemma SInv_new class rb wb : fresh class rb wb →
  SInv (mkSys (UsbSerial_new class rb wb) [] [] []).
Proof.
  intros (Hr & Hw & Hep & Hnil). split; simpl; [|by apply new_wf|done]. split; simpl.
  - by apply new_wf.
  - done.
  - unfold sent. simpl. by rewrite Hnil.
  - unfold last_full, sent. simpl. rewrite Hnil. by intros (? & [=] & _).
  - unfold full_size_packets, SHORT_PACKET_INTERVAL. simpl. lia.
  - unfold sent. simpl. by rewrite Hnil.
Qed.

Lemma SInv_write y task data : SInv y → ∃ y', sstep (OWrite task data) y = Done y' ∧ SInv y' ∧
  read_buf (ser y') = read_buf (ser y).
Proof.
  intros [Iw Wr Fr]. unfold sstep, poll_write. destruct (write_error (ser y)) eqn:Ee.
  - eexists. split; [done|]. split; [|done]. split; try done. simpl. rewrite app_nil_r.
    by eapply WInv_frame.
  - pose proof Iw as [Hwf Hep Hfifo Hlast Hfull Hsize].
    destruct (push_buf_run (write_buf (ser y)) Hwf) as (off & n & Hp & Hn & _ & Hroom).
    rewrite Hp. cbn [mbind outcome_bind]. destruct (Z.eqb_spec n 0) as [->|Hn0].
    + destruct (register_from_task (write_waker (ser y)) task) as (ws & w & Hr).
      rewrite Hr. cbn [mbind outcome_bind]. eexists. split; [done|].
      split; [|done]. split; try done. simpl. rewrite app_nil_r. by eapply WInv_frame.
    + destruct Hroom as [-> Hroom]; [lia|].
      set (k := Nat.min (Z.to_nat n) (length data)).
      assert (Hk : ∃ wb, push (fill (write_buf (ser y)) (end_ (write_buf (ser y))) (take k data))
          (Z.of_nat k) = Done wb ∧ wf wb ∧ contents wb = contents (write_buf (ser y)) ++ take k data).
      { assert (Hl : length (take k data) = k) by (rewrite length_take; lia).
        destruct (decide (k = O)) as [E|E].
        - rewrite E. cbn [take]. rewrite fill_nil, app_nil_r. by exists (write_buf (ser y)).
        - destruct (push_fill (write_buf (ser y)) (take k data) Hwf) as (wb & H1 & H2 & _ & H3);
            [rewrite Hl; lia|apply Hroom; lia|]. rewrite Hl in H1. by exists wb. }
      destruct Hk as (wb & -> & Wwb & Hc). cbn [mbind outcome_bind].
      assert (I1 : WInv (with_write wb (write_waker (ser y)) false (ser y))
        (accepted y ++ take k data)).
      { split; try done; simpl.
        - rewrite Hc, app_assoc. by f_equal.
        - intros Hl. destruct (Hlast Hl) as [?|Hne]; [by left|]. right. rewrite Hc.
          by intros [? _]%app_eq_nil. }
      destruct (flush_run _ _ I1) as (s' & -> & I' & (E1 & _) & _). cbn [mbind outcome_bind].
      eexists. split; [done|]. split; [|exact E1]. split; simpl; [done|by rewrite E1..].
Qed.

(** What a poll of the reader shows, and what it leaves alone. *)
Definition shown_by (r : IoPoll (list Z)) : list Z := match r with Ready (Ok b) => b | _ => [] end.
Lemma fill_run task y : SInv y →
  ∃ r ws s', poll_fill_buf (Waker.from_task task) (ser y) = Done (r, ws, s') ∧
    shown_by r `prefix_of` peeked (read_buf s') ∧ (∀ e, r = Ready (Err e) → e = Other) ∧
    SInv (mkSys s' (accepted y) (received y) (delivered y)).
Proof.
  intros [Iw Wr Fr]. unfold poll_fill_buf. destruct (read_error (ser y)) eqn:Ee.
  - eexists _, _, _. split; [done|]. split_and!; [apply prefix_nil|by intros e [= <-]|].
    split; simpl; [by eapply WInv_frame|done|done].
  - destruct (pop_buf_run (read_buf (ser y)) Wr) as (off & n & -> & Hsl & _).
    cbn [mbind outcome_bind]. rewrite Hsl. destruct (peeked (read_buf (ser y))) as [|x l] eqn:El.
    + destruct (register_from_task (read_waker (ser y)) task) as (ws & w & ->).
      cbn [mbind outcome_bind]. eexists _, _, _. split; [done|].
      split_and!; [apply prefix_nil|done|]. split; simpl; [by eapply WInv_frame|done|done].
    + eexists _, _, _. split; [done|]. rewrite El. by split_and!.
Qed.
Lemma consume_run amt y : SInv y → amt `prefix_of` peeked (read_buf (ser y)) →
  ∃ s', consume (length amt) (ser y) = Done s' ∧
    SInv (mkSys s' (accepted y) (received y) (delivered y ++ amt)).
Proof.
  intros [Iw Wr Fr] Hamt. unfold consume.
  destruct (pop_buf_run (read_buf (ser y)) Wr) as (_ & _ & _ & _ & _ & (rest & Hrest) & _).
  destruct Hamt as [more Hmore].
  destruct (pop_run (read_buf (ser y)) (length amt) Wr) as (rb & -> & Wrb & _ & Hc);
    [rewrite Hmore, length_app; lia|].
  cbn [mbind outcome_bind]. eexists. split; [done|].
  split; simpl; [by eapply WInv_frame|done|].
  by rewrite <-Fr, Hc, Hrest, Hmore, <-!app_assoc, drop_app_length.
Qed.

Lemma SInv_read y task max : SInv y → ∃ y', sstep (ORead task max) y = Done y' ∧ SInv y'.
Proof.
  intros I. unfold sstep. destruct (fill_run task y I) as (r & ws & s1 & -> & Hsh & _ & I1).
  cbn [mbind outcome_bind]. fold (shown_by r).
  assert (Hp : match r with Ready (Ok b) => take max b | _ => [] end = take max (shown_by r))
    by (destruct r as [[]|]; simpl; by rewrite ?take_nil).
  rewrite Hp.
  destruct (consume_run (take max (shown_by r)) _ I1) as (s2 & E & I2).
  { simpl. etrans; [|exact Hsh]. exists (drop max (shown_by r)). by rewrite take_drop. }
  cbn [ser accepted received delivered] in *. rewrite E. by eexists.
Qed.

Lemma SInv_complete y : SInv y →
  ∃ y', sstep OComplete y = Done y' ∧ SInv y' ∧
    (write_error (ser y') = false → settled (ser y')).
Proof.
  intros [Iw Wr Fr]. unfold sstep, endpoint_in_complete. rewrite Z.eqb_refl.
  destruct (complete_packets (bus (inner (ser y)))) as [Hp _].
  set (s1 := with_inner _ (ser y)).
  destruct (WakerTask.wake (write_waker s1)) as [ws w].
  destruct (flush_run (with_write (write_buf s1) w (write_error s1) s1) (accepted y))
    as (s' & -> & I' & (E1 & _) & Hset); [by eapply WInv_frame|].
  cbn [mbind outcome_bind]. eexists. split; [done|]. split; [|exact Hset].
  split; simpl; [done|by rewrite E1..].
Qed.

Lemma SInv_out y : SInv y → ∃ y', sstep OOut y = Done y' ∧ SInv y' ∧
  peeked (read_buf (ser y)) `prefix_of` peeked (read_buf (ser y')).
Proof.
  intros [Iw Wr Fr]. unfold sstep, endpoint_out, received_by. rewrite Z.eqb_refl.
  destruct (push_buf_run (read_buf (ser y)) Wr) as (off & n & Hp & Hn & Hfull & Hroom).
  rewrite Hp. cbn [mbind outcome_bind]. unfold read_packet.
  destruct (ep_read (Z.to_nat n) (bus (inner (ser y)))) as [r b'] eqn:Er.
  apply read_packets in Er as (Hpk & Hb & Hd). cbn [fst].
  assert (Hsame : ∀ rb w e, WInv (with_read rb w e (with_inner (with_bus b' (inner (ser y))) (ser y)))
    (accepted y)) by (intros; by eapply WInv_frame).
  assert (Hsame' : WInv (with_inner (with_bus b' (inner (ser y))) (ser y)) (accepted y))
    by (by eapply WInv_frame).
  destruct r as [d|[|code]]; cbn [read_buf with_inner].
  - specialize (Hd d eq_refl). destruct (Nat.ltb_spec 0 (length d)) as [Hl|Hl].
    + destruct Hroom as [-> Hroom]; [lia|].
      assert (Hrm : room (read_buf (ser y)) (Z.of_nat (length d))) by (apply Hroom; lia).
      destruct (push_fill (read_buf (ser y)) d Wr) as (rb & Epu & Wrb & _ & Hc); [lia|done|].
      pose proof (push_peeked _ d rb Wr Hrm Epu Wrb Hc) as Hpre.
      rewrite Epu. cbn [mbind outcome_bind]. destruct (WakerTask.wake _) as [ws w]. eexists. split; [done|].
      split; [|exact Hpre]. split; simpl; [apply Hsame|done|]. by rewrite Hc, app_assoc, Fr.
    + destruct d; [|simpl in Hl; lia]. eexists. split; [done|].
      split; [|done]. split; simpl; [done|done|by rewrite app_nil_r].
  - eexists. split; [done|]. split; [|done]. split; simpl; [done|done|by rewrite app_nil_r].
  - eexists. split; [done|]. split; [|done].
    split; simpl; [apply Hsame|done|by rewrite app_nil_r].
Qed.

Lemma SInv_step op y : SInv y → ∃ y', sstep op y = Done y' ∧ SInv y'.
Proof.
  destruct op; [|apply SInv_read| |]; intros H.
  - destruct (SInv_write y task data H) as (y' & ? & ? & _). eauto.
  - destruct (SInv_complete y H) as (y' & ? & ? & _). eauto.
  - destruct (SInv_out y H) as (y' & ? & ? & _). eauto.
Qed.

Lemma SInv_run ops : ∀ y, SInv y → ∃ y', srun ops y = Done y' ∧ SInv y'.
Proof.
  induction ops as [|op ops IH]; intros y I; [by exists y|].
  destruct (SInv_step op y I) as (y1 & E1 & I1). cbn [srun]. rewrite E1. apply IH, I1.
Qed.
End write_side.

Arguments SOp : clear implicits.
Arguments Sys B : clear implicits.

(** A bus to run the port on: packets sent, one in flight, packets waiting to be read. *)
Record Sim : Type := mkSim { out : list (list Z); inflight : bool; queue : list (list Z) }.

#[export] Instance Sim_bus : UsbBus Sim := {|
  ep_write d b := if inflight b then (Err WouldBlock, b)
                  else (Ok (length d), mkSim (out b ++ [d]) true (queue b));
  ep_read n b := match queue b with
                 | [] => (Err WouldBlock, b)
                 | p :: q => if (length p <=? n)%nat then (Ok p, mkSim (out b) (inflight b) q)
                             else (Err (OtherError 0), b) end;
  complete b := mkSim (out b) false (queue b)
|}.

#[export] Instance Sim_laws : UsbBusLaws Sim.
Proof.
  refine {| packets := out; busy := inflight |}.
  - intros d [o i q] n b'. simpl. destruct i; [done|]. by intros [= <- <-].
  - intros d [o i q] e b'. simpl. destruct i; [|done]. by intros [= _ <-].
  - intros d [o i q] b'. simpl. by intros ->.
  - intros n [o i q] r b'. simpl. destruct q as [|p q].
    + intros [= <- <-]. done.
    + destruct (Nat.leb_spec (length p) n); intros [= <- <-]; simpl; split_and!; try done.
      by intros d [= <-].
  - done.
Defined.

Definition sim_port (ep : Z) (q : list (list Z)) (rb wb : list Z) : UsbSerial Sim :=
  UsbSerial_new (CdcAcmClass_new 0 1 1 2 (mkSim [] false q) ep) rb wb.

(** Small writes while a packet is in flight: each is refused by the endpoint, but resets
    the count of full packets. *)
Fixpoint small_writes (n : nat) : list SOp :=
  match n with
  | O => []
  | S m => [OWrite 1 [1]; OWrite 1 [2; 3; 4; 5; 6; 7; 8]; OComplete] ++ small_writes m
  end.

(** ** Properties *)

(** C24: on an endpoint that behaves as documented nothing panics, and both directions
    are queues: the packets sent, followed by what is still buffered, are the bytes
    writers were told were taken, no packet longer than the endpoint's; and what the
    readers consumed, followed by what is buffered, is what the endpoint received.
    When a transmission completes without error, either another packet is in flight
    or everything was sent and the last packet was not a full one, so the host sees
    the end of the data.  An error on reading wakes no reader.  The short packet
    meant to be forced every 10 full ones is not always: the count is reset by
    packets the endpoint refuses, and here 20 full packets are sent in a row. *)
Theorem usb_serial_spec {P : Profile} {B : Type} `{!UsbBus B, !UsbBusLaws B}
    (class : CdcAcmClass B) (rb wb : list Z) (ops : list SOp) :
  Z.of_nat (length rb) < 2 ^ 31 → Z.of_nat (length wb) < 2 ^ 31 →
  1 ≤ max_packet_size class < 2 ^ 31 → packets (bus class) = [] →
  (∃ y, srun ops (mkSys (UsbSerial_new class rb wb) [] [] []) = Done y ∧
     concat (sent (ser y)) ++ contents (write_buf (ser y)) = accepted y ∧
     Forall (λ p, Z.of_nat (length p) ≤ max_packet_size (inner (ser y))) (sent (ser y)) ∧
     delivered y ++ contents (read_buf (ser y)) = received y ∧
     ∃ y', sstep OComplete y = Done y' ∧
       (write_error (ser y') = false → settled (ser y'))) ∧
  (∀ (s : UsbSerial B) off n code b', push_buf (read_buf s) = Done (off, n) →
     ep_read (Z.to_nat n) (bus (inner s)) = (Err (OtherError code), b') →
     ∃ s', endpoint_out (read_ep_address (inner s)) s = Done ([], s') ∧
       read_error s' = true ∧ read_buf s' = read_buf s ∧ read_waker s' = read_waker s) ∧
  (∃ y, srun (small_writes 21) (mkSys (sim_port 8 [] [] (replicate 32 0)) [] [] []) = Done y ∧
     drop 2 (sent (ser y)) = replicate 20 [1; 2; 3; 4; 5; 6; 7; 8]).
Proof.
  intros Hr Hw Hep Hnil. split_and!.
  - destruct (SInv_run ops _ (SInv_new class rb wb (conj Hr (conj Hw (conj Hep Hnil))))) as (y & E & I). exists y. split; [exact E|].
    destruct (SInv_complete y I) as (y' & E' & _ & Hset). destruct I as [[] Wr Fr].
    split_and!; [done..|]. by exists y'.
  - intros s off n code b' Hp He. unfold endpoint_out, read_packet. rewrite Z.eqb_refl, Hp.
    cbn [mbind outcome_bind]. rewrite He. by eexists.
  - eexists. split; [vm_compute; reflexivity|]. by vm_compute.
Qed.

Lemma usb_serial_spec_witness :
  let _ : Profile := true in
  let class := CdcAcmClass_new 0 1 1 2 (mkSim [] false [[9; 8]]) 4 in
  1 ≤ max_packet_size class < 2 ^ 31 ∧
  ∃ y, srun [OWrite 1 [1; 2; 3; 4; 5]; OOut; ORead 2 1; OComplete; OComplete]
         (mkSys (UsbSerial_new class [0; 0; 0] [0; 0; 0; 0; 0; 0]) [] [] []) = Done y ∧
    sent (ser y) = [[1; 2; 3; 4]; [5]] ∧ delivered y = [9] ∧ received y = [9; 8].
Proof.
  intros pr class. assert (H : 1 ≤ max_packet_size class < 2 ^ 31) by done.
  assert (Hn : packets (bus class) = []) by done. split; [exact H|].
  destruct (usb_serial_spec (P := pr) class [0; 0; 0] [0; 0; 0; 0; 0; 0]
    [OWrite 1 [1; 2; 3; 4; 5]; OOut; ORead 2 1; OComplete; OComplete]
    eq_refl eq_refl H Hn) as [(y & E & _) _].
  exists y. split; [exact E|]. vm_compute in E. by injection E as <-.
Defined.

(** [to_le_bytes] and [from_le_bytes] are inverse. *)
Lemma le_bytes_roundtrip n : 0 ≤ n < 2 ^ 32 →
  ∃ b0 b1 b2 b3, to_le_bytes n = [b0; b1; b2; b3] ∧ from_le_bytes b0 b1 b2 b3 = n.
Proof.
  intros H. eexists _, _, _, _. split; [done|]. unfold from_le_bytes.
  change (2 ^ 8) with 256. change (2 ^ 16) with 65536. change (2 ^ 24) with 16777216. zdiv.
Qed.

Lemma from_to_le_bytes b0 b1 b2 b3 :
  Forall (λ b, 0 ≤ b < 256) [b0; b1; b2; b3] →
  to_le_bytes (from_le_bytes b0 b1 b2 b3) = [b0; b1; b2; b3].
Proof.
  intros H. rewrite !Forall_cons in H. unfold to_le_bytes, from_le_bytes.
  change (2 ^ 8) with 256. change (2 ^ 16) with 65536. change (2 ^ 24) with 16777216.
  repeat f_equal; zdiv.
Qed.

Lemma stop_bits_bytes b : 0 ≤ b < 256 →
  u8_of_StopBits (StopBits_from_u8 b) = if b <=? 2 then b else 0.
Proof.
  intros H. unfold StopBits_from_u8. repeat case_bool; simpl; lia.
Qed.

Lemma parity_bytes b : 0 ≤ b < 256 →
  u8_of_ParityType (ParityType_from_u8 b) = if b <=? 4 then b else 0.
Proof.
  intros H. unfold ParityType_from_u8. repeat case_bool; simpl; lia.
Qed.

(** C26: the seven bytes a host sets as line coding are the seven bytes it gets back,
    except that an unknown stop-bits or parity code reads back as 0; the rest of the
    class is untouched, the control lines follow the two low bits of their request,
    and requests for another interface are ignored. *)
Theorem line_coding_roundtrip {B : Type} (c : CdcAcmClass B)
    (b0 b1 b2 b3 sb pt db : Z) (rest : list Z) (set get : Request) :
  Forall (λ b, 0 ≤ b < 256) [b0; b1; b2; b3; sb; pt; db] →
  addressed set c = true → request set = REQ_SET_LINE_CODING →
  addressed get c = true → request get = REQ_GET_LINE_CODING → length_ get = 7 →
  (let '(reply, c') := control_out set (b0 :: b1 :: b2 :: b3 :: sb :: pt :: db :: rest) c in
   reply = Accepted [] ∧ bus c' = bus c ∧ dtr c' = dtr c ∧ rts c' = rts c ∧
   control_in get c' = Accepted [b0; b1; b2; b3; if sb <=? 2 then sb else 0;
                                 if pt <=? 4 then pt else 0; db] ∧
   control_in get (cdc_reset c') = Accepted [64; 31; 0; 0; 0; 0; 8]) ∧
  (∀ req v data, addressed req c = true → request req = REQ_SET_CONTROL_LINE_STATE →
     value req = v →
     control_out req data c = (Accepted [], with_line (line_coding c) (Z.testbit v 0) (Z.testbit v 1) c)) ∧
  (∀ req data, addressed req c = false →
     control_in req c = Ignored ∧ control_out req data c = (Ignored, c)).
Proof.
  intros Hb Ha Hs Hg Hgr Hl. rewrite !Forall_cons in Hb. destruct Hb as (H0 & H1 & H2 & H3 & H4 & H5 & H6 & _).
  split_and!.
  - unfold control_out. rewrite Ha, Hs. cbn -[StopBits_from_u8 ParityType_from_u8 from_le_bytes].
    split_and!; [done..| |].
    + unfold control_in, addressed in *. cbn -[StopBits_from_u8 ParityType_from_u8 from_le_bytes to_le_bytes].
      rewrite Hg, Hgr, Hl. cbn -[StopBits_from_u8 ParityType_from_u8 from_le_bytes to_le_bytes].
      rewrite from_to_le_bytes, stop_bits_bytes, parity_bytes by (try lia; repeat constructor; lia).
      done.
    + unfold control_in, addressed in *. cbn -[to_le_bytes]. by rewrite Hg, Hgr, Hl.
  - intros req v data Har Hr Hv. unfold control_out. rewrite Har, Hr, Hv.
    rewrite <-(land_bit 0 v), <-(land_bit 1 v) by lia. done.
  - intros req data Har. unfold control_in, control_out. by rewrite Har.
Qed.

Lemma line_coding_roundtrip_witness :
  let c := CdcAcmClass_new 0 1 1 2 (mkSim [] false []) 64 in
  let set := mkRequest true true 0 REQ_SET_LINE_CODING 0 7 in
  let get := mkRequest true true 0 REQ_GET_LINE_CODING 0 7 in
  addressed set c = true ∧
  control_in get (snd (control_out set [0; 0xc2; 1; 0; 2; 9; 8] c)) =
    Accepted [0; 0xc2; 1; 0; 2; 0; 8].
Proof.
  intros c set get. split; [done|].
  assert (Hb : Forall (λ b, 0 ≤ b < 256) [0; 0xc2; 1; 0; 2; 9; 8]) by (repeat constructor; lia).
  destruct (line_coding_roundtrip c 0 0xc2 1 0 2 9 8 [] set get Hb eq_refl eq_refl eq_refl
    eq_refl eq_refl) as [H _]. exact (proj1 (proj2 (proj2 (proj2 (proj2 H))))).
Defined.
