(* ===== verification/UsbSet.v ===== *)
(** * UsbSet: the classes of a USB device, behind its interrupt

    [embassy-extras/src/usb/mod.rs]: the state of the USB interrupt is the device with a
    set of one or two classes, which the handler polls; the interfaces of a serial port
    reach it through the [PeripheralMutex] and the index of its class.  The device is
    [usb_device]'s: a poll of it calls the classes. *)
From S2P Require Import Prelude RingBuffer Sync Interrupt Io Usb UsbProofs.
Local Open Scope Z_scope.

(** ** [usb_device]

    [&mut dyn UsbClass] is a reference into the set: a callback that changes its class
    there, and gives the tasks it woke. *)
Definition DynClass (T : Type) : Type := UsbEvent → T → outcome (list Z * T).

(** [UsbDevice::poll]: whether anything happened, with the tasks woken; and the calls of
    the classes, by their place in the array, that a poll makes. *)
Class UsbDevice (D : Type) : Type := {
  dev_poll : ∀ T, list (DynClass T) → D → T → outcome (bool * list Z * D * T);
  dev_calls : ∀ T, list (DynClass T) → D → T → list (nat * UsbEvent)
}.

(** Callbacks, each to a class by its place in the array. *)
Fixpoint callbacks {T} (classes : list (DynClass T)) (cs : list (nat * UsbEvent)) (t : T)
    : outcome (list Z * T) :=
  match cs with
  | [] => Done ([], t)
  | (i, ev) :: cs' =>
      f ← expect (classes !! i);
      '(ws, t1) ← f ev t;
      '(ws', t2) ← callbacks classes cs' t1;
      Done (ws ++ ws', t2)
  end.

(** A poll does nothing to the classes but call them: which, and how often, is up to the
    device and to what the host sends. *)
Class UsbDeviceLaws (D : Type) `{!UsbDevice D} : Prop := {
  calls_classes : ∀ T (classes : list (DynClass T)) d t,
    Forall (λ c, (fst c < length classes)%nat) (dev_calls T classes d t);
  poll_callbacks : ∀ T (classes : list (DynClass T)) d t,
    callbacks classes (dev_calls T classes d t) t =
      ('(_, ws, _, t') ← dev_poll T classes d t; Done (ws, t'))
}.

(** ** [mod.rs] *)
Class UsbClass (C : Type) : Type := on_event : UsbEvent → C → outcome (list Z * C).
#[export] Instance serial_class {P : Profile} {B} `{!UsbBus B} : UsbClass (UsbSerial B) :=
  class_event.

Class ClassSet (D T : Type) : Type := poll_all : T → D → outcome (bool * list Z * D * T).
Class IntoClassSet (S T : Type) : Type := into_class_set : S → T.

Section sets.
Context {D C1 C2 : Type} `{!UsbDevice D, !UsbClass C1, !UsbClass C2}.

Definition ref_class (ev : UsbEvent) (t : ClassSet1 C1) : outcome (list Z * ClassSet1 C1) :=
  '(ws, c) ← on_event ev (class t); Done (ws, mkSet1 c).
Definition ref_class1 (ev : UsbEvent) (t : ClassSet2 C1 C2) : outcome (list Z * ClassSet2 C1 C2) :=
  '(ws, c) ← on_event ev (class1 t); Done (ws, mkSet2 c (class2 t)).
Definition ref_class2 (ev : UsbEvent) (t : ClassSet2 C1 C2) : outcome (list Z * ClassSet2 C1 C2) :=
  '(ws, c) ← on_event ev (class2 t); Done (ws, mkSet2 (class1 t) c).

#[export] Instance set1_poll_all : ClassSet D (ClassSet1 C1) :=
  λ self device, dev_poll _ [ref_class] device self.
#[export] Instance set2_poll_all : ClassSet D (ClassSet2 C1 C2) :=
  λ self device, dev_poll _ [ref_class1; ref_class2] device self.
#[export] Instance into_set1 : IntoClassSet C1 (ClassSet1 C1) := λ self, mkSet1 self.
#[export] Instance into_set2 : IntoClassSet (C1 * C2) (ClassSet2 C1 C2) :=
  λ self, mkSet2 (fst self) (snd self).
End sets.

(** The state of the interrupt, and the serial port in it ([state.classes.get_serial()]). *)
Record State (D T : Type) : Type := mkState { device : D; classes : T }.
Arguments mkState {D T} _ _.
Arguments device {D T} _.
Arguments classes {D T} _.
#[export] Instance state_serial D B T I `{!SerialState B T I} : SerialState B (State D T) I := {|
  get_serial st := get_serial (I := I) (classes st);
  set_serial s st := mkState (device st) (set_serial (I := I) s (classes st))
|}.

(** [ReadInterface] and [WriteInterface], as what they do to the mutex they refer to. *)
Record Reader (M : Type) : Type := mkReader {
  reader_poll_fill_buf : Waker.t → M → outcome (IoPoll (list Z) * list Z * M);
  reader_consume : nat → M → outcome (unit * M)
}.
Arguments mkReader {M} _ _.
Arguments reader_poll_fill_buf {M} _.
Arguments reader_consume {M} _.
Record Writer (M : Type) : Type := mkWriter {
  writer_poll_write : Waker.t → list Z → M → outcome (IoPoll nat * list Z * M)
}.
Arguments mkWriter {M} _.
Arguments writer_poll_write {M} _.

Section usb.
Context {P : Profile} {B D T : Type} `{!UsbBus B, !ClassSet D T}.
#[local] Abbreviation Usb := (PeripheralMutex (State D T)).

Definition on_interrupt (self : State D T) : outcome (list Z * State D T) :=
  '(_, ws, d, t) ← poll_all (classes self) (device self); Done (ws, mkState d t).

Definition Usb_new {S} `{!IntoClassSet S T} (device : D) (class_set : S) (irq : Irq Fn) : Usb :=
  let state := mkState device (into_class_set class_set) in
  PeripheralMutex_new state irq.
(** [addr] is where the mutex is. *)
Definition Usb_start (addr : Z) (self : Usb) : Usb := register_interrupt addr self.

(** The interfaces of the class at an index. *)
Definition interfaces I `{!SerialState B T I} : Reader Usb * Writer Usb :=
  (mkReader (ReadInterface_poll_fill_buf (I := I)) (ReadInterface_consume (I := I)),
   mkWriter (WriteInterface_poll_write (I := I))).
Definition take_serial_0 `{!SerialState B T Index0} : Reader Usb * Writer Usb := interfaces Index0.
Definition take_serial_1 `{!SerialState B T Index1} : Reader Usb * Writer Usb := interfaces Index1.

(** The interrupt is raised: when the line is enabled, its handler runs on the state. *)
Definition usb_raise (self : Usb) : outcome (list Z * Usb) :=
  let i1 := pend (irq self) in
  if enabled i1 then
    let i2 := unpend i1 in
    match func i2 with
    | Some state_handler =>
        '(ws, st) ← on_interrupt (state self);
        Done (ws, mkPM st (irq_setup_done self) i2)
    | _ => Done ([], mkPM (state self) (irq_setup_done self) i2)
    end
  else Done ([], mkPM (state self) (irq_setup_done self) i1).
End usb.

(** ** One port by itself

    A port with what its clients were told and hold: [Sys] of [UsbProofs], and the slice
    its reader was shown and has not consumed. *)
Record Port (B : Type) : Type := mkPort { sys : Sys B; lent : list Z }.
Arguments mkPort {B} _ _.
Arguments sys {B} _.
Arguments lent {B} _.

(** The reader asks for bytes; it consumes up to [max] of those it was shown; the writer
    writes; a packet has been transmitted; the class is called. *)
Inductive POp : Type :=
| PFill (task : Z)
| PConsume (max : nat)
| PWrite (task : Z) (data : list Z)
| PComplete
| PEvent (ev : UsbEvent).
Inductive PRes : Type :=
| RFill (r : IoPoll (list Z))
| RWrite (r : IoPoll nat).

Section port.
Context {P : Profile} {B : Type} `{!UsbBus B}.

Definition finish (s : UsbSerial B) : UsbSerial B :=
  with_inner (with_bus (complete (bus (inner s))) (inner s)) s.
Definition with_ser (s : UsbSerial B) (y : Sys B) : Sys B :=
  mkSys s (accepted y) (received y) (delivered y).
Definition taken (r : IoPoll nat) (data : list Z) : list Z :=
  match r with Ready (Ok k) => take k data | _ => [] end.
(** What an event brings from the host. *)
Definition event_bytes (ev : UsbEvent) (s : UsbSerial B) : list Z :=
  match ev with
  | EvOut addr => if addr =? read_ep_address (inner s) then received_by s else []
  | _ => []
  end.

Definition pstep (op : POp) (g : Port B) : outcome (list PRes * list Z * Port B) :=
  let y := sys g in
  match op with
  | PFill task =>
      '(r, ws, s) ← poll_fill_buf (Waker.from_task task) (ser y);
      Done ([RFill r], ws, mkPort (with_ser s y) (shown_by r))
  | PConsume max =>
      let amt := take max (lent g) in
      s ← consume (length amt) (ser y);
      Done ([], [], mkPort (mkSys s (accepted y) (received y) (delivered y ++ amt)) [])
  | PWrite task data =>
      '(r, ws, s) ← poll_write (Waker.from_task task) data (ser y);
      Done ([RWrite r], ws,
            mkPort (mkSys s (accepted y ++ taken r data) (received y) (delivered y)) (lent g))
  | PComplete => Done ([], [], mkPort (with_ser (finish (ser y)) y) (lent g))
  | PEvent ev =>
      '(ws, s) ← class_event ev (ser y);
      Done ([], ws, mkPort (mkSys s (accepted y) (received y ++ event_bytes ev (ser y))
                              (delivered y)) (lent g))
  end.

(** Two ports that have nothing to do with each other: [false] is the first. *)
Definition port_of {A} (p : bool) (gs : A * A) : A := if p then snd gs else fst gs.
Definition set_port {A} (p : bool) (g : A) (gs : A * A) : A * A :=
  if p then (fst gs, g) else (g, snd gs).
Definition hstep (op : bool * POp) (gs : Port B * Port B)
    : outcome (list (bool * PRes) * list Z * (Port B * Port B)) :=
  '(rs, ws, g) ← pstep (snd op) (port_of (fst op) gs);
  Done (map (pair (fst op)) rs, ws, set_port (fst op) g gs).
Fixpoint hrun (h : list (bool * POp)) (gs : Port B * Port B)
    : outcome (list (bool * PRes) * list Z * (Port B * Port B)) :=
  match h with
  | [] => Done ([], [], gs)
  | op :: h' =>
      '(rs, ws, gs1) ← hstep op gs;
      '(rs', ws', gs2) ← hrun h' gs1;
      Done (rs ++ rs', ws ++ ws', gs2)
  end.
End port.

(** ** Two ports behind one interrupt *)

(** What happens: the clients of a port, the endpoints, the host's doings as the device
    sees them, the interrupt. *)
Inductive UOp (D : Type) : Type :=
| UFill (p : bool) (task : Z)
| UConsume (p : bool) (max : nat)
| UWrite (p : bool) (task : Z) (data : list Z)
| UComplete (p : bool)
| UHost (f : D → D)
| UIrq.
Arguments UFill {D} _ _.
Arguments UConsume {D} _ _.
Arguments UWrite {D} _ _ _.
Arguments UComplete {D} _.
Arguments UHost {D} _.
Arguments UIrq {D}.

(** The clients' part and the endpoints' of what happens, port by port. *)
Definition outside {D} (op : UOp D) : list (bool * POp) :=
  match op with
  | UFill p task => [(p, PFill task)]
  | UConsume p max => [(p, PConsume max)]
  | UWrite p task data => [(p, PWrite task data)]
  | UComplete p => [(p, PComplete)]
  | UHost _ | UIrq => []
  end.
Definition is_event (op : bool * POp) : bool := match snd op with PEvent _ => true | _ => false end.

Section two.
Context {P : Profile} {B D : Type} `{!UsbBus B, !UsbDevice D}.
#[local] Abbreviation Set2 := (ClassSet2 (UsbSerial B) (UsbSerial B)).
#[local] Abbreviation Usb := (PeripheralMutex (State D Set2)).

(** The program: the mutex, and the slices the readers hold. *)
Record Prg : Type := mkPrg { usb : Usb; held : list Z * list Z }.

Definition reader (p : bool) : Reader Usb :=
  fst (if p then take_serial_1 (B := B) else take_serial_0 (B := B)).
Definition writer (p : bool) : Writer Usb :=
  snd (if p then take_serial_1 (B := B) else take_serial_0 (B := B)).
Definition set_classes (t : Set2) (m : Usb) : Usb :=
  mkPM (mkState (device (state m)) t) (irq_setup_done m) (irq m).
Definition complete_class (p : bool) (t : Set2) : Set2 :=
  if p then mkSet2 (class1 t) (finish (class2 t)) else mkSet2 (finish (class1 t)) (class2 t).

Definition ustep (op : UOp D) (y : Prg) : outcome (list (bool * PRes) * list Z * Prg) :=
  match op with
  | UFill p task =>
      '(r, ws, m) ← reader_poll_fill_buf (reader p) (Waker.from_task task) (usb y);
      Done ([(p, RFill r)], ws, mkPrg m (set_port p (shown_by r) (held y)))
  | UConsume p max =>
      '(_, m) ← reader_consume (reader p) (length (take max (port_of p (held y)))) (usb y);
      Done ([], [], mkPrg m (set_port p [] (held y)))
  | UWrite p task data =>
      '(r, ws, m) ← writer_poll_write (writer p) (Waker.from_task task) data (usb y);
      Done ([(p, RWrite r)], ws, mkPrg m (held y))
  | UComplete p =>
      Done ([], [], mkPrg (set_classes (complete_class p (classes (state (usb y)))) (usb y)) (held y))
  | UHost f =>
      Done ([], [], mkPrg (mkPM (mkState (f (device (state (usb y)))) (classes (state (usb y))))
                             (irq_setup_done (usb y)) (irq (usb y))) (held y))
  | UIrq => '(ws, m) ← usb_raise (usb y); Done ([], ws, mkPrg m (held y))
  end.
Fixpoint urun (ops : list (UOp D)) (y : Prg) : outcome (list (bool * PRes) * list Z * Prg) :=
  match ops with
  | [] => Done ([], [], y)
  | op :: ops' =>
      '(rs, ws, y1) ← ustep op y;
      '(rs', ws', y2) ← urun ops' y1;
      Done (rs ++ rs', ws ++ ws', y2)
  end.

(** What each port sees of all this by itself: its clients' calls and its endpoints', and
    the calls of its class that the device makes when the handler polls it. *)
Definition handler_runs (m : Usb) : bool :=
  enabled (irq m) && match func (irq m) with Some state_handler => true | _ => false end.
Definition event_of (c : nat * UsbEvent) : bool * POp := ((fst c =? 1)%nat, PEvent (snd c)).
Definition refs : list (DynClass Set2) := [ref_class1; ref_class2].
Definition seen (op : UOp D) (y : Prg) : list (bool * POp) :=
  match op with
  | UIrq =>
      if handler_runs (usb y)
      then event_of <$> dev_calls Set2 refs (device (state (usb y))) (classes (state (usb y)))
      else []
  | _ => outside op
  end.
Fixpoint history (ops : list (UOp D)) (y : Prg) : list (bool * POp) :=
  match ops with
  | [] => []
  | op :: ops' =>
      seen op y ++ match ustep op y with Done (_, _, y1) => history ops' y1 | Panic => [] end
  end.
End two.
Arguments Prg : clear implicits.
Arguments mkPrg {B D} _ _.
Arguments usb {B D} _.
Arguments held {B D} _.

(** ** The program is two ports by themselves *)
Lemma with_serial_eq {B T I R} `{!SerialState B T I} (f : UsbSerial B → outcome (R * UsbSerial B)) m :
  with_serial (I := I) f m =
    ('(r, s) ← f (get_serial (I := I) (state m));
     Done (r, mkPM (set_serial (I := I) s (state m)) (irq_setup_done m) (enable (disable (irq m))))).
Proof.
  unfold with_serial, with_state. by destruct (f _) as [[r s]|].
Qed.

(** The interface turns every error into [Other]: there is no other one. *)
Lemma fill_buf_error {P : Profile} {B} (s : UsbSerial B) cx r ws s' :
  poll_fill_buf cx s = Done (r, ws, s') →
  match r with Ready (Ok b) => Ready (Ok b) | Ready (Err _) => Ready (Err Other) | Pending => Pending end
    = r.
Proof.
  unfold poll_fill_buf. destruct (read_error s); [by intros [= <- _ _]|].
  destruct (pop_buf (read_buf s)) as [[off n]|]; [|done]. simpl.
  destruct (slice _ off n); [|by intros [= <- _ _]].
  destruct (WakerTask.register _ cx) as [[? ?]|]; [|done]. by intros [= <- _ _].
Qed.

Section simulation.
Context {P : Profile} {B D : Type} `{!UsbBus B, !UsbDevice D, !UsbDeviceLaws D}.
#[local] Abbreviation Set2 := (ClassSet2 (UsbSerial B) (UsbSerial B)).

(** The set has the two ports. *)
Definition same_ports (t : Set2) (gs : Port B * Port B) : Prop :=
  class1 t = ser (sys (fst gs)) ∧ class2 t = ser (sys (snd gs)).
Definition rel (y : Prg B D) (gs : Port B * Port B) : Prop :=
  same_ports (classes (state (usb y))) gs ∧ held y = (lent (fst gs), lent (snd gs)).

(** [h] explains the outcome [o] of a step or a run of the program. *)
Definition explains (h : list (bool * POp)) (gs : Port B * Port B)
    (o : outcome (list (bool * PRes) * list Z * Prg B D)) : Prop :=
  match o with
  | Done (rs, ws, y) => ∃ gs', hrun h gs = Done (rs, ws, gs') ∧ rel y gs'
  | Panic => hrun h gs = Panic
  end.

Lemma hrun_app h1 h2 : ∀ gs : Port B * Port B,
  hrun (h1 ++ h2) gs = ('(rs, ws, gs1) ← hrun h1 gs; '(rs', ws', gs2) ← hrun h2 gs1;
                        Done (rs ++ rs', ws ++ ws', gs2)).
Proof.
  induction h1 as [|op h1 IH]; intros gs; simpl.
  - by destruct (hrun h2 gs) as [[[rs ws] gs']|].
  - destruct (hstep op gs) as [[[rs ws] gs1]|]; [|done]. simpl. rewrite IH.
    destruct (hrun h1 gs1) as [[[rs' ws'] gs2]|]; [|done]. simpl.
    destruct (hrun h2 gs2) as [[[rs'' ws''] gs3]|]; [|done]. simpl. by rewrite <-!app_assoc.
Qed.

Lemma hrun_one op (gs : Port B * Port B) : hrun [op] gs = hstep op gs.
Proof.
  cbn [hrun]. destruct (hstep op gs) as [[[rs ws] gs1]|]; [|done]. cbn. by rewrite !app_nil_r.
Qed.

(** Through the interfaces of a port: an operation on its class. *)
Definition serial_at (p : bool) (t : Set2) : UsbSerial B := if p then class2 t else class1 t.
Definition put_at (p : bool) (s : UsbSerial B) (t : Set2) : Set2 :=
  if p then mkSet2 (class1 t) s else mkSet2 s (class2 t).
Definition used (p : bool) (s : UsbSerial B) (m : PeripheralMutex (State D Set2))
    : PeripheralMutex (State D Set2) :=
  mkPM (mkState (device (state m)) (put_at p s (classes (state m)))) (irq_setup_done m)
    (enable (disable (irq m))).

Lemma fill_at p cx m : reader_poll_fill_buf (reader p) cx m =
  ('(r, ws, s) ← poll_fill_buf cx (serial_at p (classes (state m))); Done (r, ws, used p s m)).
Proof.
  destruct p; cbn -[poll_fill_buf with_serial]; unfold ReadInterface_poll_fill_buf;
    rewrite with_serial_eq; cbn -[poll_fill_buf];
    (destruct (poll_fill_buf _ _) as [[[r ws] s]|] eqn:Ef; [|done]);
    cbn; by rewrite (fill_buf_error _ _ _ _ _ Ef).
Qed.
Lemma consume_at p n m : reader_consume (reader p) n m =
  (s ← consume n (serial_at p (classes (state m))); Done (tt, used p s m)).
Proof.
  destruct p; cbn -[consume with_serial]; unfold ReadInterface_consume;
    rewrite with_serial_eq; cbn -[consume]; by destruct (consume _ _).
Qed.
Lemma write_at p cx data m : writer_poll_write (writer p) cx data m =
  ('(r, ws, s) ← poll_write cx data (serial_at p (classes (state m))); Done (r, ws, used p s m)).
Proof.
  destruct p; cbn -[poll_write with_serial]; unfold WriteInterface_poll_write;
    rewrite with_serial_eq; cbn -[poll_write]; by destruct (poll_write _ _ _) as [[[r ws] s]|].
Qed.

Lemma serial_rel y gs p : rel y gs →
  serial_at p (classes (state (usb y))) = ser (sys (port_of p gs)) ∧
  port_of p (held y) = lent (port_of p gs).
Proof. intros [[H1 H2] ->]. by destruct p. Qed.
Lemma used_rel y gs p s g l : rel y gs → ser (sys g) = s → lent g = l →
  rel (mkPrg (used p s (usb y)) (set_port p l (held y))) (set_port p g gs).
Proof. intros [[H1 H2] Hh] <- <-. by destruct p; split; cbn; rewrite ?Hh. Qed.
Lemma used_rel_lent y gs p s g : rel y gs → ser (sys g) = s → lent g = lent (port_of p gs) →
  rel (mkPrg (used p s (usb y)) (held y)) (set_port p g gs).
Proof. intros [[H1 H2] Hh] <- Hl. by destruct p; split; cbn; rewrite ?Hh, ?Hl. Qed.

(** A step of a client or an endpoint. *)
Lemma explains_outside op y gs : rel y gs → op ≠ UIrq → explains (outside op) gs (ustep op y).
Proof.
  intros Hr Hop. unfold explains.
  destruct op as [p task|p max|p task data|p|f|]; cbn [outside ustep]; try done.
  - destruct (serial_rel y gs p Hr) as [Es _]. rewrite hrun_one, fill_at, Es.
    unfold hstep. cbn [fst snd pstep]. destruct (poll_fill_buf _ _) as [[[r ws] s]|]; [|done].
    eexists. split; [done|]. by apply used_rel.
  - destruct (serial_rel y gs p Hr) as [Es El]. rewrite hrun_one, consume_at, Es, El.
    unfold hstep. cbn [fst snd pstep]. destruct (consume _ _) as [s|]; [|done].
    eexists. split; [done|]. by apply used_rel.
  - destruct (serial_rel y gs p Hr) as [Es _]. rewrite hrun_one, write_at, Es.
    unfold hstep. cbn [fst snd pstep]. destruct (poll_write _ _ _) as [[[r ws] s]|]; [|done].
    eexists. split; [done|]. by apply used_rel_lent.
  - eexists. split; [done|]. destruct Hr as [[H1 H2] Hh].
    by destruct p; split; cbn; rewrite ?Hh, ?H1, ?H2.
  - by eexists.
Qed.

(** The callbacks of a poll are events of the ports. *)
Definition lents (gs : Port B * Port B) : list Z * list Z := (lent (fst gs), lent (snd gs)).
(** The classes the device is given. *)
Definition ref_at (p : bool) : DynClass Set2 := if p then ref_class2 else ref_class1.
Lemma explains_event p ev (t : Set2) gs : same_ports t gs →
  match ref_at p ev t with
  | Done (ws, t') => ∃ gs', hstep (p, PEvent ev) gs = Done ([], ws, gs') ∧ same_ports t' gs' ∧
      lents gs' = lents gs
  | Panic => hstep (p, PEvent ev) gs = Panic
  end.
Proof.
  intros [H1 H2]. destruct p; unfold hstep, ref_at, ref_class1, ref_class2, on_event, serial_class;
    cbn -[class_event]; rewrite ?H1, ?H2; destruct (class_event _ _) as [[ws s]|]; try done;
    by eexists.
Qed.

Lemma callbacks_cons {T} (cl : list (DynClass T)) i ev f cs t : cl !! i = Some f →
  callbacks cl ((i, ev) :: cs) t =
    ('(ws, t1) ← f ev t; '(ws', t2) ← callbacks cl cs t1; Done (ws ++ ws', t2)).
Proof.
  intros Hf. change (callbacks cl ((i, ev) :: cs) t) with
    (g ← expect (cl !! i); '(ws, t1) ← g ev t; '(ws', t2) ← callbacks cl cs t1;
     Done (ws ++ ws', t2)). by rewrite Hf.
Qed.
Lemma explains_callbacks cs : ∀ (t : Set2) gs,
  Forall (λ c, (fst c < 2)%nat) cs → same_ports t gs →
  match callbacks refs cs t with
  | Done (ws, t') => ∃ gs', hrun (event_of <$> cs) gs = Done ([], ws, gs') ∧ same_ports t' gs' ∧
      lents gs' = lents gs
  | Panic => hrun (event_of <$> cs) gs = Panic
  end.
Proof.
  induction cs as [|[i ev] cs IH]; intros t gs; [by intros _ Hs; exists gs|].
  intros [Hi Hcs]%Forall_cons Hs. cbn [fst] in Hi.
  assert (Hf : refs !! i =
    Some (ref_at (i =? 1)%nat))
    by (destruct i as [|[|]]; [done|done|lia]).
  rewrite fmap_cons, (callbacks_cons _ _ _ _ _ _ Hf). cbn [hrun].
  change (event_of (i, ev)) with ((i =? 1)%nat, PEvent ev).
  pose proof (explains_event (i =? 1)%nat ev t gs Hs) as Hx.
  destruct (ref_at _ ev t) as [[ws t1]|]; cbn [mbind outcome_bind];
    [|by rewrite Hx].
  destruct Hx as (gs1 & -> & Hs1 & L1). cbn [mbind outcome_bind]. specialize (IH t1 gs1 Hcs Hs1).
  destruct (callbacks _ cs t1) as [[ws' t2]|]; cbn [mbind outcome_bind]; [|by rewrite IH].
  destruct IH as (gs2 & -> & Hs2 & L2). exists gs2. by rewrite L2.
Qed.

Lemma explains_irq y gs : rel y gs →
  Forall (λ op, is_event op = true) (seen UIrq y) ∧ explains (seen UIrq y) gs (ustep UIrq y).
Proof.
  intros [Hs Hh]. cbn [ustep seen]. unfold usb_raise, handler_runs. cbn [enabled pend unpend func].
  destruct (enabled (irq (usb y))); [|split; [done|]; by exists gs].
  destruct (func (irq (usb y))) as [[]|]; try (split; [done|]; by exists gs).
  unfold on_interrupt, poll_all, set2_poll_all. fold refs. cbn [andb].
  pose proof (poll_callbacks _ refs (device (state (usb y))) (classes (state (usb y)))) as E.
  pose proof (calls_classes _ refs (device (state (usb y))) (classes (state (usb y)))) as Hcs.
  change (length refs) with 2%nat in Hcs. revert E Hcs. generalize (dev_calls _ refs
    (device (state (usb y))) (classes (state (usb y)))) as cs. intros cs E Hcs.
  split; [by apply Forall_fmap, Forall_true|].
  pose proof (explains_callbacks cs _ gs Hcs Hs) as H. rewrite E in H.
  destruct (dev_poll _ _ _ _) as [[[[b ws] d] t]|]; [|done].
  cbn -[hrun] in *. destruct H as (gs' & Hr & Hs' & L).
  exists gs'. split; [done|]. split; [done|]. cbn. rewrite Hh. exact (eq_sym L).
Qed.

(** The outside part of a history. *)
Definition outsides (h : list (bool * POp)) : list (bool * POp) :=
  filter (λ op, is_event op = false) h.
Lemma outsides_outside (op : UOp D) : outsides (outside op) = outside op.
Proof. by destruct op. Qed.
Lemma outsides_events h : Forall (λ op, is_event op = true) h → outsides h = [].
Proof.
  induction 1 as [|op h He _ IH]; [done|]. unfold outsides in *.
  rewrite filter_cons_False by (rewrite He; done). done.
Qed.

Lemma seen_outside (op : UOp D) y gs : rel y gs → outsides (seen op y) = outside op.
Proof.
  intros Hr. destruct op; try done. apply outsides_events. by apply (explains_irq y gs).
Qed.

Lemma explains_run ops : ∀ y gs, rel y gs →
  explains (history ops y) gs (urun ops y) ∧
  outsides (history ops y) `prefix_of` flat_map outside ops ∧
  (urun ops y ≠ Panic → outsides (history ops y) = flat_map outside ops).
Proof.
  induction ops as [|op ops IH]; intros y gs Hr.
  { split; [by exists gs|done]. }
  pose proof (seen_outside op y gs Hr) as Ho.
  assert (Hx : explains (seen op y) gs (ustep op y)).
  { destruct op; try (by apply explains_outside). by apply explains_irq. }
  cbn [urun flat_map history].
  destruct (ustep op y) as [[[rs ws] y1]|]; cbn [mbind outcome_bind].
  2:{ rewrite app_nil_r, Ho. split; [done|]. split; [by apply prefix_app_r|done]. }
  destruct Hx as (gs1 & E1 & Hr1). destruct (IH y1 gs1 Hr1) as (Hx2 & Hp2 & Ho2).
  unfold explains in *. rewrite hrun_app, E1. unfold outsides in *. rewrite filter_app, Ho.
  cbn [mbind outcome_bind]. destruct (urun ops y1) as [[[rs' ws'] y2]|]; cbn [mbind outcome_bind].
  - destruct Hx2 as (gs2 & -> & Hr2). split; [by exists gs2|]. rewrite Ho2 by done. done.
  - rewrite Hx2. split; [done|]. split; [by apply prefix_app|done].
Qed.
End simulation.

(** ** What a port keeps *)
Section invariant.
Context {P : Profile} {B : Type} `{!UsbBus B, !UsbBusLaws B}.

(** The invariant of both queues, and the reader's slice is still there. *)
Definition PInv (g : Port B) : Prop :=
  SInv (sys g) ∧ lent g `prefix_of` peeked (read_buf (ser (sys g))).

Lemma control_out_frame req data (c : CdcAcmClass B) :
  bus (snd (control_out req data c)) = bus c ∧
  max_packet_size (snd (control_out req data c)) = max_packet_size c.
Proof.
  unfold control_out. destruct (negb _); [done|]. destruct (_ =? _); [done|].
  repeat match goal with |- context [match ?l with [] => _ | _ => _ end] => destruct l end;
    try done; by destruct (_ =? _).
Qed.

Lemma PInv_event ev g : ev ≠ EvReset → PInv g →
  ∃ ws g', pstep (PEvent ev) g = Done ([], ws, g') ∧ PInv g'.
Proof.
  intros Hne [I Hl]. destruct (id I) as [Iw Wr Fr]. cbn [pstep].
  destruct ev as [|addr|addr|req|req data]; [done| | | |]; cbn [class_event event_bytes].
  - unfold endpoint_in_complete. rewrite app_nil_r.
    destruct (addr =? _); [|by eexists _, _].
    destruct (WakerTask.wake _) as [ws w].
    destruct (flush_run (with_write (write_buf (ser (sys g))) w (write_error (ser (sys g)))
      (ser (sys g))) (accepted (sys g))) as (s' & -> & I' & (E1 & _) & _);
      [by eapply WInv_frame|].
    eexists _, _. split; [done|]. split; [split|]; cbn; try rewrite E1; done.
  - destruct (Z.eqb_spec addr (read_ep_address (inner (ser (sys g))))) as [->|Ha].
    + destruct (SInv_out (sys g) I) as (y' & E & I' & Hp). unfold sstep in E.
      destruct (endpoint_out _ _) as [[ws s']|]; [|done]. injection E as <-.
      eexists _, _. split; [done|]. split; [done|]. cbn in *. by etrans.
    + unfold endpoint_out. rewrite (proj2 (Z.eqb_neq _ _) Ha), app_nil_r. by eexists _, _.
  - rewrite app_nil_r. by eexists _, _.
  - rewrite app_nil_r. eexists _, _. split; [done|]. split; [|done].
    destruct (control_out_frame req data (inner (ser (sys g)))) as [Eb Em].
    split; cbn; [|done..]. eapply WInv_frame; [exact Iw|done|exact Em| |done].
    unfold sent. cbn. by rewrite Eb.
Qed.

Lemma PInv_step op g : op ≠ PEvent EvReset → PInv g →
  ∃ rs ws g', pstep op g = Done (rs, ws, g') ∧ PInv g'.
Proof.
  intros Hne Hg. destruct (id Hg) as [I Hl]. destruct op as [task|max|task data| |ev]; cbn [pstep].
  - destruct (fill_run task (sys g) I) as (r & ws & s & -> & Hsh & _ & I').
    by eexists _, _, _.
  - destruct (consume_run (take max (lent g)) (sys g) I) as (s & -> & I').
    { etrans; [|exact Hl]. exists (drop max (lent g)). by rewrite take_drop. }
    eexists _, _, _. split; [done|]. split; [done|apply prefix_nil].
  - destruct (SInv_write (sys g) task data I) as (y' & E & I' & Er). unfold sstep in E.
    destruct (poll_write _ _ _) as [[[r ws] s]|]; [|done]. injection E as <-.
    eexists _, _, _. split; [done|]. split; [done|]. cbn in *. by rewrite Er.
  - eexists _, _, _. split; [done|]. split; [|done]. destruct I as [Iw Wr Fr].
    split; cbn; [|done..]. eapply WInv_frame; [exact Iw|done|done| |done].
    unfold sent. cbn. by destruct (complete_packets (bus (inner (ser (sys g))))).
  - destruct (PInv_event ev g) as (ws & g' & E & I'); [congruence|done|]. eauto.
Qed.

Lemma PInv_run h : ∀ gs : Port B * Port B, Forall (λ op, snd op ≠ PEvent EvReset) h →
  (∀ p, PInv (port_of p gs)) →
  ∃ rs ws gs', hrun h gs = Done (rs, ws, gs') ∧ ∀ p, PInv (port_of p gs').
Proof.
  induction h as [|[p op] h IH]; intros gs; [by eexists _, _, _|].
  intros [Hop Hh]%Forall_cons Hg. cbn [hrun]. unfold hstep. cbn [fst snd] in *.
  destruct (PInv_step op (port_of p gs) Hop (Hg p)) as (rs & ws & g & -> & Ig).
  cbn [mbind outcome_bind].
  destruct (IH (set_port p g gs) Hh) as (rs' & ws' & gs' & -> & Hg').
  { intros q. destruct p, q; try exact Ig; [exact (Hg false)|exact (Hg true)]. }
  by eexists _, _, _.
Qed.

(** A port that was just made. *)
Definition new_port (s : UsbSerial B) : Port B := mkPort (mkSys s [] [] []) [].
Lemma PInv_new class rb wb : fresh class rb wb → PInv (new_port (UsbSerial_new class rb wb)).
Proof. intros Hf. split; [by apply SInv_new|apply prefix_nil]. Qed.
End invariant.

(** ** The interrupt stays on *)
Section ready.
Context {P : Profile} {B D : Type} `{!UsbBus B, !UsbDevice D}.
#[local] Abbreviation Usb := (PeripheralMutex (State D (ClassSet2 (UsbSerial B) (UsbSerial B)))).

Definition ready (m : Usb) : Prop :=
  enabled (irq m) = true ∧ func (irq m) = Some state_handler.

Lemma usb_raise_ready m : ready m →
  usb_raise m = ('(ws, st) ← on_interrupt (state m);
                 Done (ws, mkPM st (irq_setup_done m) (unpend (pend (irq m))))).
Proof. intros [He Hf]. unfold usb_raise. cbn. by rewrite He, Hf. Qed.

Lemma ready_step op y rs ws y' : ready (usb y) → ustep op y = Done (rs, ws, y') → ready (usb y').
Proof.
  intros Hm. destruct op as [p task|p max|p task data|p|f|]; cbn [ustep].
  - rewrite fill_at. destruct (poll_fill_buf _ _) as [[[r w] s]|]; [|done].
    intros [= <- <- <-]. split; [done|apply Hm].
  - rewrite consume_at. destruct (consume _ _) as [s|]; [|done].
    intros [= <- <- <-]. split; [done|apply Hm].
  - rewrite write_at. destruct (poll_write _ _ _) as [[[r w] s]|]; [|done].
    intros [= <- <- <-]. split; [done|apply Hm].
  - by intros [= <- <- <-].
  - by intros [= <- <- <-].
  - rewrite usb_raise_ready by done. destruct (on_interrupt _) as [[w st]|]; [|done].
    by intros [= <- <- <-].
Qed.
Lemma ready_run ops : ∀ y rs ws y', ready (usb y) → urun ops y = Done (rs, ws, y') → ready (usb y').
Proof.
  induction ops as [|op ops IH]; intros y rs ws y' Hm; cbn [urun]; [by intros [= <- <- <-]|].
  destruct (ustep op y) as [[[rs1 ws1] y1]|] eqn:E; [|done]. cbn.
  pose proof (ready_step _ _ _ _ _ Hm E) as Hm1.
  destruct (urun ops y1) as [[[rs2 ws2] y2]|] eqn:E2; [|done]. intros [= <- <- <-]. eauto.
Qed.
End ready.

(** ** A reset of the bus *)

(** Bytes the reader was shown and consumes after a reset take the place of bytes nobody
    received. *)
Lemma reset_phantom {P : Profile} {B} (s : UsbSerial B) (amt : nat) :
  (0 < amt < length (buf (read_buf s)))%nat → Z.of_nat (length (buf (read_buf s))) < 2 ^ 31 →
  ∃ s', consume amt (reset s) = Done s' ∧ contents (read_buf s') = drop amt (buf (read_buf s)).
Proof.
  intros Ha Hl. unfold consume, pop, wrap_index, reset, clear, len.
  cbn [read_buf with_read with_write set_write_state with_inner buf start end_ empty].
  rewrite (proj2 (Z.eqb_neq _ _)), Z.add_0_l, arith32 by lia. cbn [mbind outcome_bind].
  rewrite (proj2 (Z.leb_le _ _)) by (cbn; lia). cbn [assert mbind outcome_bind].
  eexists. split; [done|]. cbn. unfold contents, len. cbn.
  destruct (Z.eqb_spec (Z.of_nat amt) (Z.of_nat (length (buf (read_buf s))))); [lia|].
  destruct (Z.eqb_spec (Z.of_nat amt) 0); [lia|]. destruct (Z.ltb_spec (Z.of_nat amt) 0); [lia|].
  rewrite app_nil_r. unfold slice. rewrite Nat2Z.id. apply take_ge. rewrite length_drop. lia.
Qed.

(** Only the end of a transmission takes the writer's waker. *)
Lemma write_waker_kept {P : Profile} {B} `{!UsbBus B} ev (s : UsbSerial B) ws s' :
  ev ≠ EvInComplete (write_ep_address (inner s)) → class_event ev s = Done (ws, s') →
  write_waker s' = write_waker s.
Proof.
  intros Hne. destruct ev as [|addr|addr|req|req data]; cbn [class_event].
  - by intros [= _ <-].
  - unfold endpoint_in_complete. destruct (Z.eqb_spec addr (write_ep_address (inner s))) as [->|];
      [done|by intros [= _ <-]].
  - unfold endpoint_out. destruct (addr =? _); [|by intros [= _ <-]].
    destruct (push_buf _) as [[off n]|]; [|done]. cbn [mbind outcome_bind].
    destruct (read_packet _ _) as [[d|[|code]] c]; try by intros [= _ <-].
    destruct (_ <? _)%nat; [|by intros [= _ <-]]. destruct (push _ _) as [rb|]; [|done].
    cbn [mbind outcome_bind]. destruct (WakerTask.wake _). by intros [= _ <-].
  - by intros [= _ <-].
  - by intros [= _ <-].
Qed.

(** ** Properties *)

(** C25: two serial ports behind one interrupt do not disturb each other: whatever the
    clients of both do, the host sends and the device's polls call, the results, the
    tasks woken and both states are those of two ports by themselves, each given its own
    clients' calls in order and the calls of its class that the device makes (a panic is one
    of theirs); the interrupt stays on, and polls the device.  If the device's polls
    report no reset of the bus, nothing panics, both directions of each port are queues, and the slice a reader was shown stays the
    front of its queue, although interrupts come before it is consumed.  If the bus
    is reset in between, consuming it makes bytes appear that nobody received; and a
    reset empties the write buffer, but wakes no writer that waits for room: only
    the end of a transmission does. *)
Theorem usb_ports_spec {P : Profile} {B D : Type} `{!UsbBus B, !UsbBusLaws B}
    `{!UsbDevice D, !UsbDeviceLaws D} (c0 c1 : CdcAcmClass B) rb0 wb0 rb1 wb1 (d : D) (line : Irq Fn) addr ops :
  fresh c0 rb0 wb0 → fresh c1 rb1 wb1 →
  let s0 := UsbSerial_new c0 rb0 wb0 in let s1 := UsbSerial_new c1 rb1 wb1 in
  let gs0 := (new_port s0, new_port s1) in
  let y0 := mkPrg (Usb_start addr (Usb_new d (s0, s1) line)) ([], []) in
  (let h := history ops y0 in
   explains h gs0 (urun ops y0) ∧ outsides h `prefix_of` flat_map outside ops ∧
   (urun ops y0 ≠ Panic → outsides h = flat_map outside ops) ∧
     (Forall (λ op, snd op ≠ PEvent EvReset) h →
      ∃ rs ws y gs, urun ops y0 = Done (rs, ws, y) ∧ hrun h gs0 = Done (rs, ws, gs) ∧ rel y gs ∧
        ∀ p, let g := port_of p gs in let s := ser (sys g) in
          concat (sent s) ++ contents (write_buf s) = accepted (sys g) ∧
          delivered (sys g) ++ contents (read_buf s) = received (sys g) ∧
          lent g `prefix_of` contents (read_buf s))) ∧
  (∀ rs ws y, urun ops y0 = Done (rs, ws, y) →
     usb_raise (usb y) = ('(ws', st) ← on_interrupt (state (usb y));
       Done (ws', mkPM st (irq_setup_done (usb y)) (unpend (pend (irq (usb y))))))) ∧
  (∀ (s : UsbSerial B) (amt : nat),
     (0 < amt < length (buf (read_buf s)))%nat → Z.of_nat (length (buf (read_buf s))) < 2 ^ 31 →
     ∃ s', consume amt (reset s) = Done s' ∧ contents (read_buf s') = drop amt (buf (read_buf s))) ∧
  (∀ s : UsbSerial B, class_event EvReset s = Done ([], reset s) ∧
     contents (write_buf (reset s)) = []) ∧
  (∀ ev (s : UsbSerial B) ws s', ev ≠ EvInComplete (write_ep_address (inner s)) →
     class_event ev s = Done (ws, s') → write_waker s' = write_waker s).
Proof.
  intros F0 F1 s0 s1 gs0 y0. split_and!.
  - destruct (explains_run ops y0 gs0) as (Hx & Hp & Ho); [by split|]. intros h. fold h in Hx, Hp, Ho.
    split_and!; [done..|]. intros Hh. destruct (PInv_run h gs0 Hh) as (rs & ws & gs & E & Hg).
    { intros []; by apply PInv_new. }
    unfold explains in Hx. rewrite E in Hx. destruct (urun ops y0) as [[[rs' ws'] y]|]; [|done].
    destruct Hx as (gs' & [= <- <- <-] & Hr). exists rs, ws, y, gs. split_and!; [done..|].
    intros p g s. destruct (Hg p) as [[Iw Wr Fr] Hl]. split_and!; [apply Iw|exact Fr|].
    destruct (pop_buf_run _ Wr) as (_ & _ & _ & _ & _ & (rest & Hrest) & _).
    unfold s, g. rewrite Hrest. by apply prefix_app_r.
  - intros rs ws y E. apply usb_raise_ready. exact (ready_run ops y0 rs ws y (conj eq_refl eq_refl) E).
  - apply reset_phantom.
  - done.
  - intros ev s ws s'. apply write_waker_kept.
Qed.

(** ** Witness

    A device that calls the classes it is told to, poll by poll. *)
Definition Script : Type := list (list (nat * UsbEvent)).
Definition script_calls (classes : nat) (d : Script) : list (nat * UsbEvent) :=
  filter (λ c, (fst c < classes)%nat) (default [] (head d)).
#[export] Instance Script_device : UsbDevice Script := {|
  dev_poll T classes d t :=
    '(ws, t') ← callbacks classes (script_calls (length classes) d) t;
    Done (negb (bool_decide (d = [])), ws, tail d, t');
  dev_calls T classes d t := script_calls (length classes) d
|}.
#[export] Instance Script_laws : UsbDeviceLaws Script.
Proof.
  split; intros T classes d t.
  - apply Forall_forall. by intros c [Hc _]%list_elem_of_filter.
  - cbn. by destruct (callbacks _ _ t) as [[ws t']|].
Defined.

Definition demo_class (first : Z) (q : list (list Z)) : CdcAcmClass Sim :=
  CdcAcmClass_new first (first + 1) (first + 1) (first + 2) (mkSim [] false q) 4.
(** Every class is called for every endpoint.  The second port receives while the first
    writes and reads; both readers are interrupted before they consume. *)
Definition both (ev : UsbEvent) : list (nat * UsbEvent) := [(0%nat, ev); (1%nat, ev)].
Definition demo : list (UOp Script) :=
  [UFill true 64; UWrite false 32 [1; 2; 3; 4; 5];
   UHost (λ d, d ++ [both (EvOut 3) ++ both (EvOut 1)]); UIrq; UFill false 32; UFill true 64;
   UComplete false; UHost (λ d, d ++ [both (EvInComplete 2) ++ both (EvOut 3)]); UIrq;
   UConsume true 1; UConsume false 2].

Definition demo_zeros : list Z := replicate 8 0.
Definition demo_start : Prg Sim Script :=
  mkPrg (Usb_start 1024 (Usb_new (D := Script) []
    (UsbSerial_new (demo_class 0 [[7; 8]]) demo_zeros demo_zeros,
     UsbSerial_new (demo_class 2 [[9]; [6]]) demo_zeros demo_zeros) Irq_new)) ([], []).
Definition demo_results : list (bool * PRes) :=
  [(true, RFill Pending); (false, RWrite (Ready (Ok 5%nat)));
   (false, RFill (Ready (Ok [7; 8]))); (true, RFill (Ready (Ok [9])))].
Lemma ports_demo_run : let _ : Profile := true in
  ∃ y, urun demo demo_start = Done (demo_results, [64], y) ∧
    sent (class1 (classes (state (usb y)))) = [[1; 2; 3; 4]; [5]] ∧
    contents (read_buf (class2 (classes (state (usb y))))) = [6].
Proof. eexists. split; [vm_compute; reflexivity|]. split; vm_compute; reflexivity. Qed.

Lemma usb_ports_spec_witness :
  let _ : Profile := true in
  fresh (demo_class 0 [[7; 8]]) demo_zeros demo_zeros ∧
  fresh (demo_class 2 [[9]; [6]]) demo_zeros demo_zeros ∧
  ∃ y gs, urun demo demo_start = Done (demo_results, [64], y) ∧
    hrun (history demo demo_start)
      (new_port (UsbSerial_new (demo_class 0 [[7; 8]]) demo_zeros demo_zeros),
       new_port (UsbSerial_new (demo_class 2 [[9]; [6]]) demo_zeros demo_zeros))
      = Done (demo_results, [64], gs) ∧ rel y gs ∧
    sent (class1 (classes (state (usb y)))) = [[1; 2; 3; 4]; [5]] ∧
    ∀ p, delivered (sys (port_of p gs)) ++ contents (read_buf (ser (sys (port_of p gs)))) =
      received (sys (port_of p gs)).
Proof.
  cbv zeta.
  assert (F0 : fresh (demo_class 0 [[7; 8]]) demo_zeros demo_zeros) by done.
  assert (F1 : fresh (demo_class 2 [[9]; [6]]) demo_zeros demo_zeros) by done.
  split; [exact F0|]. split; [exact F1|].
  destruct (usb_ports_spec (P := true) (D := Script) _ _ demo_zeros demo_zeros demo_zeros demo_zeros []
    Irq_new 1024 demo F0 F1) as [(_ & _ & _ & Hq) _]. fold demo_start in Hq.
  destruct Hq as (rs & ws & y & gs & E & Hh & Hr & Hp).
  { assert (Hb : forallb (λ op, match snd op with PEvent EvReset => false | _ => true end)
      (history (P := true) demo demo_start) = true) by (vm_compute; reflexivity).
    rewrite forallb_forall in Hb. apply Forall_forall. intros op Hin%list_elem_of_In Er.
    specialize (Hb op Hin). by rewrite Er in Hb. }
  destruct ports_demo_run as (y' & E' & Hs & _). rewrite E' in E. injection E as <- <- <-.
  exists y', gs. split_and!; [exact E'|exact Hh|exact Hr|exact Hs|].
  intros p. apply Hp.
Defined.
