(* ===== verification/LowPower.v ===== *)
(** * LowPower: sleeping in the middle of a function

    [low_power_wait_until] of [embassy-extras/src/lib.rs]: a loop that executes WFE
    until a condition holds, and the event register of the processor that WFE waits
    for.  The machine the condition looks at is changed by an environment of
    hardware and interrupt handlers, between any two steps. *)
From S2P Require Import Prelude.

Section wait.
Context {S : Type} (condition : S → bool).

(** The processor: about to look at the condition, about to execute WFE, or out of
    the loop; [event] is its event register. *)
Inductive Pc : Set := AtCheck | AtWfe | Exited.
#[global] Instance Pc_eq_dec : EqDecision Pc.
Proof. solve_decision. Defined.
Record Cpu : Type := mkCpu { pc : Pc; event : bool; mach : S }.

Definition low_power_wait_until (event : bool) (s : S) : Cpu := mkCpu AtCheck event s.

(** One step; WFE with a clear event register does not return.  After the loop, SEV
    sets the register for the executor's own WFE. *)
Definition cpu_step (c : Cpu) : option Cpu :=
  match pc c with
  | AtCheck =>
      if condition (mach c) then Some (mkCpu Exited true (mach c))
      else Some (mkCpu AtWfe (event c) (mach c))
  | AtWfe => if event c then Some (mkCpu AtCheck false (mach c)) else None
  | Exited => None
  end.

(** ** The environment *)

(** [env a s] is what [a] does to the machine, and whether it sets the event register
    of the processor, as taking an interrupt does. *)
Context {A : Type} (env : A → S → option (S * bool)).

Inductive Act : Type := Step | Env (a : A).

Definition wait_step (act : Act) (c : Cpu) : option Cpu :=
  match act with
  | Step => cpu_step c
  | Env a => r ← env a (mach c); Some (mkCpu (pc c) (event c || snd r) (fst r))
  end.
Fixpoint wait_run (acts : list Act) (c : Cpu) : option Cpu :=
  match acts with [] => Some c | a :: acts' => c' ← wait_step a c; wait_run acts' c' end.

Lemma wait_run_app a1 a2 c :
  wait_run (a1 ++ a2) c = c' ← wait_run a1 c; wait_run a2 c'.
Proof.
  revert c. induction a1 as [|a a1 IH]; intros c; [done|]. simpl.
  destruct (wait_step a c); simpl; [apply IH|done].
Qed.

(** ** No missed event

    [due] says that an interrupt is about to be taken.  If the environment never makes
    the condition true without one, and never loses one, the loop does not sleep over
    a true condition. *)
Section awake.
Context (due : S → bool) (I : S → Prop).
Hypothesis env_inv : ∀ a s s' ev, I s → env a s = Some (s', ev) → I s'.
Hypothesis env_due : ∀ a s s' ev, I s → env a s = Some (s', ev) →
  condition s' = true → (condition s = true → due s = true) → due s' = true ∨ ev = true.
Hypothesis env_cond : ∀ a s s' ev, I s → env a s = Some (s', ev) →
  condition s = true → condition s' = true.

Definition awake (c : Cpu) : Prop :=
  I (mach c) ∧
  (condition (mach c) = true → pc c = AtWfe → event c = true ∨ due (mach c) = true).

Lemma awake_step act c c' : awake c → wait_step act c = Some c' → awake c'.
Proof using env_inv env_due.
  intros [HI Ha]. destruct act as [|a]; simpl.
  - unfold cpu_step. destruct (pc c) eqn:Hpc; [|destruct (event c)|done].
    + destruct (condition (mach c)) eqn:Hc; intros [= <-]; split; try done. simpl. congruence.
    + by intros [= <-].
    + done.
  - destruct (env a (mach c)) as [[s' ev]|] eqn:He; [|done]. intros [= <-].
    split; [by eapply env_inv|]. simpl. intros Hc Hpc.
    destruct (event c) eqn:Hev; [by left|]. simpl.
    destruct (env_due a _ _ _ HI He Hc) as [?| ->]; [|by right|by left].
    intros Hc0. by destruct (Ha Hc0 Hpc).
Qed.

Lemma awake_run acts : ∀ c c', awake c → wait_run acts c = Some c' → awake c'.
Proof using env_inv env_due.
  induction acts as [|a acts IH]; intros c c' Ha; simpl; [by intros [= <-]|].
  destruct (wait_step a c) as [c1|] eqn:H1; [|done]. simpl. intros H2.
  eapply IH; [|done]. by eapply awake_step.
Qed.

Lemma awake_start ev s : I s → awake (low_power_wait_until ev s).
Proof using Type. intros HI. by split. Qed.

(** Once the condition holds and the interrupts were taken, the loop exits. *)
Lemma awake_exits c :
  awake c → condition (mach c) = true → due (mach c) = false → pc c ≠ Exited →
  ∃ n, wait_run (replicate n Step) c = Some (mkCpu Exited true (mach c)).
Proof using Type.
  intros [HI Ha] Hc Hd Hpc. destruct c as [[] ev s]; simpl in *.
  - exists 1%nat. simpl. unfold cpu_step. simpl. by rewrite Hc.
  - destruct (Ha Hc eq_refl) as [->|]; [|congruence].
    exists 2%nat. simpl. unfold cpu_step. simpl. by rewrite Hc.
  - done.
Qed.
End awake.

(** ** Asleep for good

    An environment that takes no interrupt does not wake a sleeping processor. *)
Section asleep.
Hypothesis env_silent : ∀ a s s' ev, env a s = Some (s', ev) → ev = false.

Lemma asleep_forever acts : ∀ c c',
  pc c = AtWfe → event c = false → wait_run acts c = Some c' → pc c' = AtWfe.
Proof using env_silent.
  induction acts as [|[|a] acts IH]; intros c c' Hpc Hev; simpl; [by intros [= <-]| |].
  - unfold cpu_step. by rewrite Hpc, Hev.
  - destruct (env a (mach c)) as [[s' ev]|] eqn:He; [|done]. simpl.
    apply IH; [done|]. simpl. by rewrite (env_silent _ _ _ _ He), Hev.
Qed.
End asleep.
End wait.
Arguments Cpu S : clear implicits.
Arguments Step {A}.
Arguments Env {A} a.
