(* ===== verification/Doorbell.v ===== *)
(** * Doorbell: how an executor sleeps, and what wakes it

    [Executor] and [InterruptExecutor] of [embassy/src/executor/mod.rs].  Each gives the
    raw executor a signal function and runs [run_queued] again after a signal: the
    first executes SEV and waits with WFE, the second pends an interrupt whose handler
    calls [run_queued].  [RunQueueConc]'s executor waits for a flag; here the flag is
    replaced by what the two really wait for.  The class [Doorbell] has the operations,
    [DoorbellLaws] what an executor relies on. *)
From stdpp Require Import functions.
From S2P Require Import Prelude Task Interrupt LowPower RunQueueConc.
Local Open Scope Z_scope.

(** ** The interface

    [ring] is the signal function; [answer] the wait of an executor with nothing to do,
    [None] while it sleeps; [open] the set-up that lets the executor run.  [noise] is
    what others do to the same hardware.  A task may execute WFE in its poll
    ([low_power_wait_until]): [poll_wfe] and, when it is done, [poll_sev].  [rung] says
    that a signal has been given and not answered. *)
Class Doorbell (B : Type) : Type := {
  ring : B → B;
  answer : B → option B;
  open : B → B;
  noise : Z → B → B;
  poll_wfe : B → option B;
  poll_sev : B → B;
  rung : B → bool;
  ready : B → bool
}.

(** [kept] holds while a signal given before or during a wait inside of a poll is sure
    to be seen after it. *)
Class DoorbellLaws (B : Type) `{!Doorbell B} : Type := {
  kept : B → bool;
  ring_rung b : rung (ring b) = true;
  rung_open b : rung b = true → rung (open b) = true;
  rung_noise z b : rung b = true → rung (noise z b) = true;
  kept_rung b : rung b = true → kept b = true;
  kept_open b : kept b = true → kept (open b) = true;
  kept_noise z b : kept b = true → kept (noise z b) = true;
  kept_wfe b b' : kept b = true → poll_wfe b = Some b' → kept b' = true;
  kept_sev b : kept b = true → rung (poll_sev b) = true;
  answer_rung b : ready b = true → rung b = true → is_Some (answer b);
  answer_quiet b b' : answer b = Some b' → rung b' = false ∧ ready b' = ready b;
  silent_asleep b : rung b = false → answer b = None;
  ready_open b : ready (open b) = true;
  ready_kept b : ready b = true → ready (ring b) = true ∧ ready (poll_sev b) = true ∧
    (∀ z, ready (noise z b) = true) ∧ (∀ b', poll_wfe b = Some b' → ready b' = true)
}.

(** ** The thread's executor: the event register of the processor *)
Module EventRegister.
Record Core : Type := mkCore { event : bool }.

(** [|_| cortex_m::asm::sev()], and [cortex_m::asm::wfe()]. *)
Definition sev (c : Core) : Core := mkCore true.
Definition wfe (c : Core) : option Core := if event c then Some (mkCore false) else None.

(** Any interrupt that is taken sets the register. *)
#[export] Instance event_register : Doorbell Core := {|
  ring := sev;
  answer := wfe;
  open c := c;
  noise _ c := mkCore true;
  poll_wfe := wfe;
  poll_sev := sev;
  rung := event;
  ready _ := true
|}.

#[export] Instance event_register_laws : DoorbellLaws Core.
Proof.
  refine {| kept _ := true |}; intros; simpl in *; unfold wfe in *; try done.
  - destruct (event b); naive_solver.
  - by destruct (event b); simplify_eq.
  - by destruct (event b).
Defined.
End EventRegister.
Import (hints) EventRegister.

(** ** The interrupt's executor: a pending bit *)
Module Pended.
#[local] Abbreviation Nvic := (Z → Irq Fn).

Definition pend_by_number (n : Z) (nvic : Nvic) : Nvic := <[n := pend (nvic n)]> nvic.

(** [InterruptExecutor::new] keeps the number of the line in the context pointer of the
    signal function, which takes it out as a [u16]. *)
Definition InterruptExecutor_new (number : Z) : Z := number.
Definition signal_fn (ctx : Z) (nvic : Nvic) : Nvic := pend_by_number (wrap 16 ctx) nvic.

(** [start], before [init] and after it. *)
Definition start_begin (number : Z) (nvic : Nvic) : Nvic :=
  <[number := disable (nvic number)]> nvic.
Definition start_end (number executor : Z) (nvic : Nvic) : Nvic :=
  <[number := enable (set_handler_context executor
                (set_handler executor_handler (nvic number)))]> nvic.
Definition InterruptExecutor_start {W} (number executor : Z) (init : Nvic → W → Nvic * W)
    (nvic : Nvic) (w : W) : Nvic * W :=
  let '(nvic', w') := init (start_begin number nvic) w in (start_end number executor nvic', w').

(** The hardware enters the handler of an enabled, pending line; [Some] if it is the one
    that runs the executor's [run_queued]. *)
Definition enter (number : Z) (nvic : Nvic) : option Nvic :=
  let i := nvic number in
  if enabled i && pending i then
    match trampoline (λ f _, match f with executor_handler => true | _ => false end) i with
    | Some true => Some (<[number := unpend i]> nvic)
    | _ => None
    end
  else None.

(** The line is enabled, with the executor's handler. *)
Definition runs (number : Z) (nvic : Nvic) : bool :=
  enabled (nvic number) &&
  match func (nvic number) with Some executor_handler => true | _ => false end.

Section line.
Context (number executor : Z).

(** Other lines may be pended, and this one by others; a WFE in a poll waits for
    something else, and does not touch the line. *)
Definition pended : Doorbell Nvic := {|
  ring := signal_fn (InterruptExecutor_new number);
  answer := enter number;
  open := start_end number executor;
  noise z nvic := pend_by_number z nvic;
  poll_wfe nvic := Some nvic;
  poll_sev nvic := nvic;
  rung nvic := pending (nvic number);
  ready := runs number
|}.

Lemma pend_lookup z nvic :
  pending (pend_by_number z nvic number) =
    (if decide (z = number) then true else pending (nvic number)) ∧
  runs number (pend_by_number z nvic) = runs number nvic.
Proof.
  unfold pend_by_number, runs. case_decide as Hz.
  - by rewrite Hz, fn_lookup_insert.
  - by rewrite !fn_lookup_insert_ne.
Qed.

Lemma start_lookup nvic :
  pending (start_end number executor nvic number) = pending (nvic number) ∧
  runs number (start_end number executor nvic) = true.
Proof. unfold start_end, runs. by rewrite fn_lookup_insert. Qed.

(** However [init] used the controller, the line is ready after [start], and pending if
    [init] left it so: a task it spawned is polled as soon as the line is enabled. *)
Lemma InterruptExecutor_start_ready {W} init nvic (w : W) nvic' w' :
  InterruptExecutor_start number executor init nvic w = (nvic', w') →
  runs number nvic' = true ∧
  pending (nvic' number) = pending (fst (init (start_begin number nvic) w) number).
Proof.
  unfold InterruptExecutor_start. destruct (init _ _) as [n1 w1]. intros [= <- <-].
  destruct (start_lookup n1). by split.
Qed.

Lemma enter_spec nvic nvic' : enter number nvic = Some nvic' →
  nvic' = <[number := unpend (nvic number)]> nvic ∧ pending (nvic number) = true.
Proof.
  unfold enter. destruct (enabled _), (pending _); simpl; try done.
  unfold trampoline. by destruct (func _) as [[]|]; intros; simplify_eq.
Qed.

Hypothesis Hnumber : 0 ≤ number < 2 ^ 16.

Definition pended_laws : @DoorbellLaws Nvic pended.
Proof using Hnumber.
  refine (@Build_DoorbellLaws Nvic pended (λ nvic, pending (nvic number)) _ _ _ _ _ _ _ _ _ _ _ _ _);
    cbn [ring answer open noise poll_wfe poll_sev rung ready pended]; try done.
  - intros b. unfold signal_fn, InterruptExecutor_new. rewrite wrap_small by done.
    rewrite (proj1 (pend_lookup _ _)). by rewrite decide_True.
  - intros b. by rewrite (proj1 (start_lookup b)).
  - intros z b. rewrite (proj1 (pend_lookup z b)). by case_decide.
  - intros b. by rewrite (proj1 (start_lookup b)).
  - intros z b. rewrite (proj1 (pend_lookup z b)). by case_decide.
  - by intros b b' ? [= <-].
  - intros b. unfold runs, enter, trampoline. intros Hr Hp. rewrite Hp.
    by destruct (enabled _), (func _) as [[]|].
  - intros b b' [-> Hp]%enter_spec. unfold runs. by rewrite fn_lookup_insert.
  - intros b Hp. unfold enter. by rewrite Hp, andb_false_r.
  - intros b. by apply start_lookup.
  - intros b Hr. unfold signal_fn. rewrite (proj2 (pend_lookup _ _)). split_and!; try done.
    + intros z. by rewrite (proj2 (pend_lookup _ _)).
    + by intros b' [= <-].
Defined.
End line.
End Pended.

(** ** The executor with its doorbell *)
Section machine.
Context {B : Type} `{!Doorbell B}.

(** [core] is the queue, the tasks, the contexts and the executor's place in
    [run_queued]; [waiting] its place in a [low_power_wait_until] in a poll. *)
Record Machine : Type := mkMachine { core : CState; bell : B; waiting : option Pc }.

(** Besides the steps of [RunQueueConc]: the executor is set up; someone else uses the
    hardware; the signal function is called with nothing queued, as by the alarm; a
    task waits in its poll for [condition]. *)
Inductive MAct : Type :=
| Core (a : Action)
| Open
| Noise (z : Z)
| Ring
| LowPower (condition : bool).

(** A context that has put a task in the empty queue calls the signal function. *)
Definition rings (a : Action) (s : CState) : bool :=
  match a with
  | ACtx i _ => match ctxs s !! i with Some Signalling => true | _ => false end
  | _ => false
  end.

(** The executor: [run_queued], and then the wait.  It knows nothing of the queue when
    the wait is over. *)
Definition exec_mstep (done : bool) (m : Machine) : option Machine :=
  match waiting m, exec_ (core m) with
  | Some _, _ => None
  | None, Waiting =>
      b ← answer (bell m);
      Some (mkMachine (set_exec SwapNull (set_signal false (core m))) b None)
  | None, _ => s ← exec_step done (core m); Some (mkMachine s (bell m) None)
  end.

Definition low_power_mstep (condition : bool) (m : Machine) : option Machine :=
  match waiting m, exec_ (core m) with
  | None, Polling _ _ => Some (mkMachine (core m) (bell m) (Some AtCheck))
  | Some AtCheck, _ =>
      Some (if condition then mkMachine (core m) (poll_sev (bell m)) None
            else mkMachine (core m) (bell m) (Some AtWfe))
  | Some AtWfe, _ =>
      b ← poll_wfe (bell m); Some (mkMachine (core m) b (Some AtCheck))
  | _, _ => None
  end.

Definition mstep (a : MAct) (m : Machine) : option Machine :=
  match a with
  | Core (AExec done) => exec_mstep done m
  | Core a =>
      s ← step a (core m);
      Some (mkMachine s (if rings a (core m) then ring (bell m) else bell m) (waiting m))
  | Open => Some (mkMachine (core m) (open (bell m)) (waiting m))
  | Noise z => Some (mkMachine (core m) (noise z (bell m)) (waiting m))
  | Ring => Some (mkMachine (core m) (ring (bell m)) (waiting m))
  | LowPower condition => low_power_mstep condition m
  end.
Fixpoint mrun (acts : list MAct) (m : Machine) : option Machine :=
  match acts with [] => Some m | a :: acts' => m' ← mstep a m; mrun acts' m' end.

(** The executor on its own, with the answers of the futures it polls. *)
Fixpoint mrun_exec (ans : nat → bool) (n : nat) (m : Machine) : option Machine :=
  match n with
  | O => Some m
  | S n' => m' ← exec_mstep (ans O) m; mrun_exec (λ k, ans (S k)) n' m'
  end.

(** [Executor::run] runs [run_queued] before it waits; [InterruptExecutor::start] leaves
    that to the handler. *)
Definition mstart (first : Exec) (n : nat) (b : B) : Machine :=
  mkMachine (set_exec first (start n)) b None.

(** The executor sleeps: it is waiting, and the wait does not return. *)
Definition asleep (m : Machine) : Prop :=
  waiting m = None ∧ exec_ (core m) = Waiting ∧ answer (bell m) = None.

(** ** The invariant: a signal given is in the doorbell *)
Context `{!DoorbellLaws B}.

Definition heard (w : option Pc) (b : B) : bool := if w is Some _ then kept b else rung b.
Definition MInv (m : Machine) : Prop :=
  cinv (core m) ∧ (signaled (core m) = true → heard (waiting m) (bell m) = true).

Lemma mstart_inv first n b : first = SwapNull ∨ first = Waiting → MInv (mstart first n b).
Proof.
  intros Hf. split; [|done]. exists [], [].
  destruct (start_inv n) as [I1 I2 I3 I4 I5 I6 I7 I8 I9 I10 I11 I12].
  destruct Hf as [->| ->]; split; try done; by intros p q [?|?].
Qed.

Lemma exec_mstep_cases d m m' : exec_mstep d m = Some m' →
  (∃ s, exec_step d (core m) = Some s ∧ exec_ (core m) ≠ Waiting ∧ m' = mkMachine s (bell m) None) ∨
  (exec_ (core m) = Waiting ∧ ∃ b, answer (bell m) = Some b ∧
    m' = mkMachine (set_exec SwapNull (set_signal false (core m))) b None).
Proof.
  unfold exec_mstep. intros H. destruct (waiting m) as [|]; [done|].
  assert (exec_ (core m) = Waiting ∨ exec_ (core m) ≠ Waiting) as [Hx|Hx]
    by (destruct (exec_ (core m)); by (left + right)).
  - right. rewrite Hx in H. destruct (answer (bell m)); naive_solver.
  - left. destruct (exec_ (core m)), (exec_step d (core m)); naive_solver.
Qed.

Lemma core_mstep a m m' : mstep (Core a) m = Some m' →
  (∃ d, a = AExec d ∧ exec_mstep d m = Some m') ∨
  (∃ s, step a (core m) = Some s ∧
    ((∀ d, a ≠ AExec d) ∧ m' = mkMachine s (if rings a (core m) then ring (bell m) else bell m)
                                 (waiting m))).
Proof.
  intros H. destruct a; cbn [mstep] in H; [right..|left; by eexists|right];
    (match type of H with (?o ≫= _) = Some _ =>
      destruct o as [s|] eqn:?; [|done]; injection H as <-; by exists s end).
Qed.

Lemma exec_mstep_inv done m m' : MInv m → exec_mstep done m = Some m' → MInv m'.
Proof.
  intros [I Hs] H.
  destruct (exec_mstep_cases _ _ _ H) as [(s & Hstep & Hx & ->)|(Hx & b & Hb & ->)].
  - destruct (exec_step_alone _ _ _ I Hstep) as (I' & _ & Hsig). split; [done|].
    simpl. intros Hs'. unfold exec_mstep in H. destruct (waiting m); [done|]. apply Hs.
    destruct (signaled (core m)); [done|]. by rewrite Hsig in Hs'.
  - split; [|done]. destruct I as (q & b' & I). exists q, b'. by apply CInv_wakeup.
Qed.

(** The contexts raise the flag only where they ring. *)
Lemma step_signaled a s s' :
  (∀ d, a ≠ AExec d) → step a s = Some s' → signaled s' = true →
  signaled s = true ∨ rings a s = true.
Proof.
  intros Ha H Hs. destruct a as [i p|i p|i weak|d|p queued]; simpl in *.
  - unfold begin_wake in H. repeat case_match; simplify_eq/=; by left.
  - unfold begin_spawn in H. repeat case_match; simplify_eq/=; by left.
  - unfold ctx_step in H. repeat case_match; simplify_eq/=; by (left + right).
  - by destruct (Ha d).
  - unfold timer_step in H. simplify_eq/=. by left.
Qed.

Lemma heard_ring w b : heard w (ring b) = true.
Proof. destruct w; simpl; [apply kept_rung|]; apply ring_rung. Qed.
Lemma heard_keep w b b' : (rung b = true → rung b' = true) → (kept b = true → kept b' = true) →
  heard w b = true → heard w b' = true.
Proof. by destruct w. Qed.

Lemma low_power_inv c m m' : MInv m → low_power_mstep c m = Some m' → MInv m'.
Proof.
  intros [I Hs] H. unfold low_power_mstep in H.
  destruct m as [s b [[]|]]; simpl in *.
  - destruct c; simplify_eq/=; (split; [done|simpl; intros Hsig]).
    + by apply kept_sev, Hs.
    + by apply Hs.
  - destruct (poll_wfe b) as [b'|] eqn:Hb; simplify_eq/=. split; [done|simpl; intros Hsig].
    eapply kept_wfe; [|done]. by apply Hs.
  - done.
  - destruct (exec_ s); simplify_eq/=. split; [done|simpl; intros Hsig]. by apply kept_rung, Hs.
Qed.

Lemma mstep_inv a m m' : MInv m → mstep a m = Some m' → MInv m'.
Proof.
  intros Im H. destruct (id Im) as [I Hs].
  destruct a as [a| |z| |c]; simpl in H.
  2-4: simplify_eq/=; split; simpl; [done|]; intros Hsig; specialize (Hs Hsig).
  2: eapply heard_keep, Hs; [apply rung_open|apply kept_open].
  2: eapply heard_keep, Hs; [apply rung_noise|apply kept_noise].
  2: apply heard_ring.
  2: by eapply low_power_inv.
  destruct (core_mstep _ _ _ H) as [(d & -> & H')|(s & Hstep & Ha & ->)].
  { by eapply exec_mstep_inv. }
  split; [by eapply step_inv|]. simpl. intros Hsig.
  destruct (step_signaled a (core m) s Ha Hstep Hsig) as [Hsig'| ->]; [|apply heard_ring].
  destruct (rings a (core m)); [apply heard_ring|by apply Hs].
Qed.

Lemma mrun_inv acts : ∀ m m', MInv m → mrun acts m = Some m' → MInv m'.
Proof.
  induction acts as [|a acts IH]; intros m m' I; simpl; [by intros [= <-]|].
  destruct (mstep a m) as [m1|] eqn:H1; [|done]. simpl.
  apply IH. by eapply mstep_inv.
Qed.

(** Once it is set up, the doorbell stays ready. *)
Lemma mstep_ready a m m' : mstep a m = Some m' → ready (bell m) = true ∨ a = Open →
  ready (bell m') = true.
Proof.
  intros H [Hr| ->]; [|simpl in H; simplify_eq/=; apply ready_open].
  destruct (ready_kept _ Hr) as (Hring & Hsev & Hnoise & Hwfe).
  destruct a as [a| |z| |c]; [|simpl in H; simplify_eq/=; auto using ready_open..].
  - destruct (core_mstep _ _ _ H) as [(d & -> & H')|(s & _ & _ & ->)].
    + destruct (exec_mstep_cases _ _ _ H') as [(s & _ & _ & ->)|(_ & b & Hb & ->)]; [done|].
      simpl. destruct (answer_quiet _ _ Hb). congruence.
    + simpl. by destruct (rings a (core m)).
  - unfold low_power_mstep in H. destruct m as [s b [[]|]]; simpl in *; try done.
    + destruct c; by simplify_eq/=.
    + destruct (poll_wfe b) eqn:Hb; simplify_eq/=. by apply Hwfe.
    + destruct (exec_ s); by simplify_eq/=.
Qed.

Lemma mrun_ready acts : ∀ m m', mrun acts m = Some m' → ready (bell m) = true ∨ Open ∈ acts →
  ready (bell m') = true.
Proof.
  induction acts as [|a acts IH]; intros m m' H Hr; simpl in H.
  - simplify_eq. destruct Hr as [?|?%not_elem_of_nil]; done.
  - destruct (mstep a m) as [m1|] eqn:H1; [|done]. apply (IH _ _ H).
    destruct Hr as [Hr|[Ha|Ha]%elem_of_cons]; [left|left|by right];
      (eapply mstep_ready; [done|]); auto.
Qed.

(** Whatever [RunQueueConc]'s executor does, this one does. *)
Lemma exec_mstep_sim d m s :
  MInv m → ready (bell m) = true → waiting m = None → exec_step d (core m) = Some s →
  ∃ b, exec_mstep d m = Some (mkMachine s b None) ∧ ready b = true ∧ MInv (mkMachine s b None).
Proof.
  intros Im Hr Hw Hstep. destruct (id Im) as [_ Hs]. rewrite Hw in Hs. simpl in Hs.
  assert (∃ b, exec_mstep d m = Some (mkMachine s b None) ∧ ready b = true) as (b & Hb & Hr').
  { unfold exec_mstep. rewrite Hw.
    destruct (exec_ (core m)) eqn:Hx; try by (rewrite Hstep; exists (bell m)).
    unfold exec_step in Hstep. rewrite Hx in Hstep.
    destruct (signaled (core m)); simplify_eq.
    destruct (answer_rung _ Hr (Hs eq_refl)) as [b Hb]. exists b. rewrite Hb. split; [done|].
    destruct (answer_quiet _ _ Hb). congruence. }
  exists b. split_and!; [done|done|]. by eapply exec_mstep_inv.
Qed.

Lemma mrun_exec_sim k : ∀ ans m s, MInv m → ready (bell m) = true → waiting m = None →
  run_exec ans k (core m) = Some s →
  ∃ b, mrun_exec ans k m = Some (mkMachine s b None) ∧ ready b = true ∧ MInv (mkMachine s b None).
Proof.
  induction k as [|k IH]; intros ans m s Im Hr Hw Hrun; simpl in *.
  { simplify_eq. exists (bell m). destruct m; simpl in *; by subst. }
  destruct (exec_step (ans O) (core m)) as [s1|] eqn:H1; [|done]. simpl in Hrun.
  destruct (exec_mstep_sim _ _ _ Im Hr Hw H1) as (b1 & -> & Hr1 & Im1).
  exact (IH _ _ _ Im1 Hr1 eq_refl Hrun).
Qed.

Lemma mrun_exec_app k j ans m m1 : mrun_exec ans k m = Some m1 →
  mrun_exec ans (k + j) m = mrun_exec (λ i, ans (k + i)%nat) j m1.
Proof.
  revert ans m. induction k as [|k IH]; intros ans m H; [by injection H as ->|].
  simpl in *. destruct (exec_mstep (ans O) m) as [m2|]; [|done]. simpl in *.
  by rewrite (IH _ _ H).
Qed.

(** A wait that returns over an empty queue is followed by an empty pass. *)
Lemma empty_pass ans s b b' : answer b = Some b' → exec_ s = Waiting → head_ s = None →
  ∃ s', mrun_exec ans 3 (mkMachine s b None) = Some (mkMachine s' b' None) ∧
    s' = set_exec Waiting (set_head None (set_signal false s)).
Proof.
  intros Hb Hw Hh. eexists. split; [|done]. simpl. unfold exec_mstep. simpl.
  rewrite Hw, Hb. simpl. by rewrite Hh.
Qed.

Lemma runs_dry m ans : MInv m → ready (bell m) = true → waiting m = None →
  Forall (λ c, c = Rest) (ctxs (core m)) →
  ∃ k m', mrun_exec ans k m = Some m' ∧ asleep m' ∧
    ∀ p, queued_word (state_ (core m') p) = false ∧ marks (core m') p = takes (core m') p.
Proof.
  intros Im Hr Hw Hrest. destruct (id Im) as [I _].
  assert (H : ∀ ans, ∃ k s, run_exec ans k (core m) = Some s ∧ cinv s ∧ quiescent s).
  { clear ans. intros ans. destruct (drains_quiescent _ I Hrest ans) as (k & s & Hk & Hq).
    exists k, s. split_and!; try done. revert I Hk. generalize (core m). clear.
    revert ans. induction k as [|k IH]; intros ans c I Hk; simplify_eq/=; [done|].
    destruct (exec_step (ans O) c) eqn:H1; [|done]. eapply IH; [|done].
    by eapply exec_step_inv. }
  destruct (H ans) as (k & s & Hk & Is & Hq).
  destruct (mrun_exec_sim k ans m s Im Hr Hw Hk) as (b & Hm & _ & _).
  destruct (quiescent_empty s Is Hq) as (Hhead & Hempty). destruct Hq as (_ & Hwait & _).
  destruct (answer b) as [b'|] eqn:Hb.
  - destruct (empty_pass (λ i, ans (k + i)%nat) s b b' Hb Hwait Hhead) as (s' & Hs' & ->).
    eexists (k + 3)%nat, _. rewrite (mrun_exec_app k 3 _ _ _ Hm), Hs'.
    split_and!; [done| |done]. split_and!; [done|done|]. simpl.
    apply silent_asleep. by destruct (answer_quiet _ _ Hb).
  - exists k, (mkMachine s b None). by split_and!.
Qed.
End machine.
Arguments Machine B : clear implicits.

(** ** Properties *)

(** C8: the executor does not sleep over a task: under every interleaving of wakes, spawns,
    signals, other uses of the hardware, and low-power waits inside of polls, when it
    sleeps the queue is empty or a context is about to call the signal function, and
    that call ends the sleep; it never touches an uninitialised future. *)
Theorem executor_never_oversleeps {B} `{!Doorbell B, !DoorbellLaws B} first n (b : B) acts m :
  first = SwapNull ∨ first = Waiting → mrun acts (mstart first n b) = Some m →
  ub (core m) = false ∧
  (ready b = true ∨ Open ∈ acts → asleep m →
    (head_ (core m) = None ∨ ∃ i, ctxs (core m) !! i = Some Signalling) ∧
    ∀ i weak d, ctxs (core m) !! i = Some Signalling →
      ∃ m1 m2, mstep (Core (ACtx i weak)) m = Some m1 ∧ exec_mstep d m1 = Some m2 ∧
        exec_ (core m2) = SwapNull).
Proof.
  intros Hf Hrun. destruct (mrun_inv acts _ _ (mstart_inv first n b Hf) Hrun) as [I Hs].
  destruct I as (q & b' & I). split; [apply I|]. intros Hr (Hw & Hx & Ha).
  apply (mrun_ready _ _ _ Hrun) in Hr. rewrite Hw in Hs. simpl in Hs. split.
  - destruct (head_ (core m)) eqn:Hh; [right|by left].
    destruct (ci_signal _ _ _ I) as [Hsig|[?|?]]; try congruence.
    destruct (answer_rung _ Hr (Hs Hsig)). congruence.
  - intros i weak d Hi. destruct (ready_kept _ Hr) as (Hr' & _).
    destruct (answer_rung _ Hr' (ring_rung (bell m))) as [b2 Hb2].
    eexists _, _. split_and!.
    + simpl. unfold ctx_step. by rewrite Hi.
    + unfold exec_mstep. simpl. by rewrite Hw, Hx, Hb2.
    + done.
Qed.

(** C9: once the contexts stop, the executor visits every queued task and goes to sleep, in
    finitely many steps, whatever its futures answer and however often it was rung;
    every marking has then been answered by one visit. *)
Theorem executor_falls_asleep {B} `{!Doorbell B, !DoorbellLaws B} first n (b : B) acts m ans :
  first = SwapNull ∨ first = Waiting → mrun acts (mstart first n b) = Some m →
  ready b = true ∨ Open ∈ acts → waiting m = None → Forall (λ c, c = Rest) (ctxs (core m)) →
  ∃ k m', mrun_exec ans k m = Some m' ∧ asleep m' ∧
    ∀ p, has STATE_RUN_QUEUED (state_ (core m') p) = false ∧
      marks (core m') p = takes (core m') p.
Proof.
  intros Hf Hrun Hr. apply (mrun_ready _ _ _ Hrun) in Hr. apply runs_dry; [|done].
  by apply (mrun_inv acts (mstart first n b)), Hrun; apply mstart_inv.
Qed.

(** ** A concrete run

    The executor goes to sleep before the first task is spawned, and its poll waits in
    low power while the second one is. *)
Definition demo_sleep (passes : nat) : list MAct :=
  Open :: replicate passes (Core (AExec false)) ++
  Core (ASpawn 0 1) :: replicate 4 (Core (ACtx 0 false)).
Definition demo_wait (passes : nat) : list MAct :=
  demo_sleep passes ++ Core (ACtx 0 false) :: replicate 4 (Core (AExec false)) ++
  [LowPower false; LowPower false; Noise 3; LowPower false; Core (ASpawn 1 2)] ++
  replicate 5 (Core (ACtx 1 false)) ++ [LowPower false; LowPower false; LowPower true].

Definition thread_bell : EventRegister.Core := EventRegister.mkCore true.
Definition line_bell : Z → Irq Fn := Pended.start_begin 37 (λ _, Irq_new).
#[local] Instance line37 : Doorbell (Z → Irq Fn) := Pended.pended 37 4096.
#[local] Instance line37_laws : DoorbellLaws (Z → Irq Fn).
Proof. apply (Pended.pended_laws 37 4096). done. Defined.

Definition demo {B} `{!Doorbell B} first (b : B) (acts : list MAct) : Machine B :=
  default (mstart first 2 b) (mrun acts (mstart first 2 b)).

Lemma demo_doorbell_run {B} `{!Doorbell B} first (b : B) acts :
  is_Some (mrun acts (mstart first 2 b)) →
  mrun acts (mstart first 2 b) = Some (demo first b acts).
Proof. intros [m Hm]. unfold demo. by rewrite Hm. Qed.

Lemma executor_never_oversleeps_witness :
  let m := demo SwapNull thread_bell (demo_sleep 5) in
  let l := demo Waiting line_bell (demo_sleep 0) in
  asleep m ∧ (head_ (core m) = None ∨ ∃ i, ctxs (core m) !! i = Some Signalling) ∧
  asleep l ∧ (head_ (core l) = None ∨ ∃ i, ctxs (core l) !! i = Some Signalling).
Proof.
  intros m l.
  assert (Hm : asleep m) by (split_and!; vm_compute; reflexivity).
  assert (Hl : asleep l) by (split_and!; vm_compute; reflexivity).
  split; [exact Hm|split; [|split; [exact Hl|]]].
  - apply (executor_never_oversleeps SwapNull 2 thread_bell (demo_sleep 5) m).
    + by left.
    + apply demo_doorbell_run. vm_compute. by eexists.
    + by left.
    + exact Hm.
  - apply (executor_never_oversleeps Waiting 2 line_bell (demo_sleep 0) l).
    + by right.
    + apply demo_doorbell_run. vm_compute. by eexists.
    + right. by left.
    + exact Hl.
Defined.

Lemma executor_falls_asleep_witness :
  let m := demo SwapNull thread_bell (demo_wait 5) in
  let l := demo Waiting line_bell (demo_wait 0) in
  (head_ (core m) = Some 2%positive ∧ ∃ k m', mrun_exec (λ _, true) k m = Some m' ∧ asleep m') ∧
  (head_ (core l) = Some 2%positive ∧ ∃ k l', mrun_exec (λ _, true) k l = Some l' ∧ asleep l').
Proof.
  intros m l. split; (split; [vm_compute; reflexivity|]).
  - destruct (executor_falls_asleep SwapNull 2 thread_bell (demo_wait 5) m (λ _, true))
      as (k & m' & Hk & Ha & _).
    + by left.
    + apply demo_doorbell_run. vm_compute. by eexists.
    + by left.
    + vm_compute. reflexivity.
    + vm_compute. repeat constructor.
    + exists k, m'. split; [exact Hk|exact Ha].
  - destruct (executor_falls_asleep Waiting 2 line_bell (demo_wait 0) l (λ _, true))
      as (k & m' & Hk & Ha & _).
    + by right.
    + apply demo_doorbell_run. vm_compute. by eexists.
    + right. by left.
    + vm_compute. reflexivity.
    + vm_compute. repeat constructor.
    + exists k, m'. split; [exact Hk|exact Ha].
Defined.
