(* ===== verification/Multiprio.v ===== *)
(** * Multiprio: executors at several priorities

    [embassy-nrf-examples/src/bin/multiprio.rs]: an [Executor] in thread mode and two
    [InterruptExecutor]s (executor/mod.rs, [Doorbell]), each with an alarm of the RTC and
    its own priority.  The processor runs the most urgent handler there is: a handler is
    entered on top of those it interrupts. *)
From stdpp Require Import functions sorting.
From S2P Require Import Prelude Interrupt Doorbell.
Local Open Scope Z_scope.

(** ** Lines and executors *)
Definition RTC1 : Z := 17.
Definition SWI0_EGU0 : Z := 20.
Definition SWI1_EGU1 : Z := 21.
Definition lines : list Z := [RTC1; SWI0_EGU0; SWI1_EGU1].
Definition NVIC_PRIO_BITS : Z := 3.

(** The addresses of the statics. *)
Definition RTC : Z := 0x20000000.
Definition EXECUTOR_HIGH : Z := 0x20000100.
Definition EXECUTOR_MED : Z := 0x20000200.
Definition EXECUTOR_LOW : Z := 0x20000300.
(** The tasks, by the storage of their pools. *)
Definition run_high : Z := 0x20000400.
Definition run_med : Z := 0x20000500.
Definition run_low : Z := 0x20000600.
(** The lines that run executors, with the tasks spawned in their [start]. *)
Definition irq_executors : list (Z * Z * Z) :=
  [(SWI1_EGU1, EXECUTOR_HIGH, run_high); (SWI0_EGU0, EXECUTOR_MED, run_med)].

(** The signal function of an executor with its context: [pend_by_number], or SEV. *)
Inductive Signal : Set := Pend (ctx : Z) | Sev.
(** [raw::Executor], as far as it matters here: its signal and its alarm. *)
Record Raw : Type := mkRaw { signal : Signal; alarm : option nat }.

(** ** What runs *)

(** A step of a pass is the poll of a task, which may wake tasks and so signal executors,
    or the setting of the alarm's callback at its end; the RTC's handler triggers alarms. *)
Inductive Act : Type :=
| Poll (task : Z) (wakes : list Signal)
| SetCallback (k : nat) (s : Signal)
| TriggerAlarm (k : nat).

(** [main], one call or access at a time. *)
Inductive TStep : Type :=
| RtcStart
| SetPriority (line level : Z)
| New (executor : Z) (s : Signal)
| SetAlarm (executor : Z) (k : nat)
| StartBegin (line : Z)
| Spawn (executor task : Z)
| StartEnd (line executor : Z)
| FirstPass.

#[export] Instance Signal_eq_dec : EqDecision Signal.
Proof. solve_decision. Defined.
#[export] Instance TStep_eq_dec : EqDecision TStep.
Proof. solve_decision. Defined.

Definition start_executor (line level executor : Z) (k : nat) (task : Z) : list TStep :=
  [SetPriority line level; New executor (Pend (Pended.InterruptExecutor_new line));
   SetAlarm executor k; StartBegin line; Spawn executor task; StartEnd line executor].
Definition main : list TStep :=
  RtcStart :: start_executor SWI1_EGU1 6 EXECUTOR_HIGH 2 run_high ++
  start_executor SWI0_EGU0 7 EXECUTOR_MED 1 run_med ++
  [New EXECUTOR_LOW Sev; SetAlarm EXECUTOR_LOW 0; Spawn EXECUTOR_LOW run_low; FirstPass].

Inductive Ran : Type :=
| Entered (line : Z)
| Step (line : Z) (a : Act)
| Thread.

(** [active] are the handlers that have been entered and have not returned, the innermost
    first, each with the rest of its work; [low] is the rest of the thread executor's pass;
    [event] the event register of the processor; [queue] the tasks that [spawn] has put into
    an executor's run queue and no pass has taken out of it. *)
Record Cpu : Type := mkCpu {
  nvic : Z → Irq Fn; execs : Z → option Raw; queue : Z → list Z;
  callbacks : nat → option Signal; event : bool;
  active : list (Z * list Act); thread : list TStep; low : list Act; log : list Ran
}.
Definition reset : Cpu :=
  mkCpu (λ _, Irq_new) (λ _, None) (λ _, []) (λ _, None) false [] main [] [].

Definition set_nvic i (c : Cpu) := mkCpu i (execs c) (queue c) (callbacks c) (event c) (active c) (thread c) (low c) (log c).
Definition set_callbacks f (c : Cpu) := mkCpu (nvic c) (execs c) (queue c) f (event c) (active c) (thread c) (low c) (log c).
Definition set_event b (c : Cpu) := mkCpu (nvic c) (execs c) (queue c) (callbacks c) b (active c) (thread c) (low c) (log c).
Definition set_active l (c : Cpu) := mkCpu (nvic c) (execs c) (queue c) (callbacks c) (event c) l (thread c) (low c) (log c).
Definition set_thread i x l (c : Cpu) := mkCpu i x (queue c) (callbacks c) (event c) (active c) l (low c) (log c).
Definition set_low l (c : Cpu) := mkCpu (nvic c) (execs c) (queue c) (callbacks c) (event c) (active c) (thread c) l (log c).
Definition set_queue q (c : Cpu) := mkCpu (nvic c) (execs c) q (callbacks c) (event c) (active c) (thread c) (low c) (log c).
Definition ran r (c : Cpu) := mkCpu (nvic c) (execs c) (queue c) (callbacks c) (event c) (active c) (thread c) (low c) (log c ++ [r]).

Definition signal_executor (s : Signal) (c : Cpu) : Cpu :=
  match s with
  | Pend ctx => set_nvic (Pended.signal_fn ctx (nvic c)) c
  | Sev => set_event true c
  end.
Definition run_act (a : Act) (c : Cpu) : Cpu :=
  match a with
  | Poll _ wakes => foldl (λ c s, signal_executor s c) c wakes
  | SetCallback k s => set_callbacks (<[k := Some s]> (callbacks c)) c
  | TriggerAlarm k => match callbacks c k with Some s => signal_executor s c | None => c end
  end.

(** ** [main] *)
Definition t_nvic (t : TStep) (i : Z → Irq Fn) : Z → Irq Fn :=
  match t with
  | RtcStart => <[RTC1 := enable (unpend (set_handler_context RTC (set_handler state_handler (i RTC1))))]> i
  | SetPriority line level => <[line := set_priority NVIC_PRIO_BITS level (i line)]> i
  | StartBegin line => Pended.start_begin line i
  | StartEnd line executor => Pended.start_end line executor i
  | _ => i
  end.
Definition t_execs (t : TStep) (x : Z → option Raw) : Z → option Raw :=
  match t with
  | New e s => <[e := Some (mkRaw s None)]> x
  | SetAlarm e k => <[e := (λ r, mkRaw (signal r) (Some k)) <$> x e]> x
  | _ => x
  end.
(** A pass of the executor at this address: [polls] are the tasks that wakers have put into
    its queue, with what their polls signal; those that [spawn] has put there are polled
    too.  The pass takes all of them out of the queue when it begins. *)
Definition polled (q : list Z) (polls : list (Z * list Signal)) : list Act :=
  map (λ '(p, wakes), Poll p wakes) polls ++
  map (λ p, Poll p []) (filter (λ p, p ∉ polls.*1) q).
Definition pass (c : Cpu) (executor : Z) (polls : list (Z * list Signal)) : list Act :=
  polled (queue c executor) polls ++
  match execs c executor with
  | Some (mkRaw s (Some k)) => [SetCallback k s]
  | _ => []
  end.
Definition dequeue (executor : Z) (c : Cpu) : Cpu := set_queue (<[executor := []]> (queue c)) c.

(** [spawn] puts a task into the queue and signals the executor, whose queue was empty: it has
    not run. *)
Definition run_thread (polls : list (Z * list Signal)) (t : TStep) (rest : list TStep) (c : Cpu) : Cpu :=
  let c := set_thread (t_nvic t (nvic c)) (t_execs t (execs c)) rest c in
  match t with
  | Spawn e p =>
      let c := set_queue (<[e := p :: queue c e]> (queue c)) c in
      match execs c e with Some r => signal_executor (signal r) c | None => c end
  | FirstPass => dequeue EXECUTOR_LOW (set_low (pass c EXECUTOR_LOW polls) c)
  | _ => c
  end.

(** ** The processor *)
Definition current (c : Cpu) : Z :=
  match active c with (n, _) :: _ => prio (nvic c n) | [] => 256 end.
Definition calls (c : Cpu) (n : Z) : bool :=
  enabled (nvic c n) && pending (nvic c n) && (prio (nvic c n) <? current c).
Definition better (c : Cpu) (m n : Z) : bool :=
  (prio (nvic c m) <? prio (nvic c n)) || ((prio (nvic c m) =? prio (nvic c n)) && (m <? n)).
(** The line to enter: the most urgent, and of those the one with the lowest number. *)
Definition urgent (c : Cpu) : option Z :=
  foldr (λ n best, if calls c n then
      match best with Some m => if better c m n then Some m else Some n | None => Some n end
    else best) None lines.

(** What the handler of a line does; [None] is the call of a null pointer. *)
Definition body (c : Cpu) (n : Z) (polls : list (Z * list Signal)) (fired : list nat) : option (list Act) :=
  trampoline (λ f ctx, match f with
    | executor_handler => pass c ctx polls
    | state_handler => map TriggerAlarm fired
    | irq_wake_handler => []
    end) (nvic c n).
(** An executor's handler takes the tasks out of its queue. *)
Definition begun (n : Z) (c : Cpu) : Cpu :=
  match func (nvic c n) with
  | Some executor_handler => dequeue (ctx (nvic c n)) c
  | _ => c
  end.

(** [Raise]: the hardware pends a line.  [Cycle]: the processor goes on, [polls] being the
    woken tasks that a pass finds when it begins, [fired] the alarms that the RTC finds. *)
Inductive Choice : Type :=
| Raise (n : Z)
| Cycle (polls : list (Z * list Signal)) (fired : list nat).

Definition cycle (polls : list (Z * list Signal)) (fired : list nat) (c : Cpu) : option Cpu :=
  match urgent c, active c with
  | Some n, frames =>
      acts ← body c n polls fired;
      Some (ran (Entered n) (set_event true (set_active ((n, acts) :: frames)
        (set_nvic (<[n := unpend (nvic c n)]> (nvic c)) (begun n c)))))
  | None, (n, a :: acts) :: frames =>
      Some (ran (Step n a) (run_act a (set_active ((n, acts) :: frames) c)))
  | None, (_, []) :: frames => Some (set_event true (set_active frames c))
  | None, [] =>
      match thread c, low c with
      | t :: rest, _ => Some (ran Thread (run_thread polls t rest c))
      | [], a :: acts => Some (ran Thread (run_act a (set_low acts c)))
      | [], [] =>
          (* [wfe], and the next pass *)
          if event c then
            Some (dequeue EXECUTOR_LOW (set_low (pass c EXECUTOR_LOW polls) (set_event false c)))
          else Some c
      end
  end.
Definition step (x : Choice) (c : Cpu) : option Cpu :=
  match x with
  | Raise n => Some (set_nvic (Pended.pend_by_number n (nvic c)) c)
  | Cycle polls fired => cycle polls fired c
  end.
Fixpoint run (xs : list Choice) (c : Cpu) : option Cpu :=
  match xs with [] => Some c | x :: xs' => c' ← step x c; run xs' c' end.

(** ** What the set-up leaves *)
Definition nvic_to (k : nat) : Z → Irq Fn := foldl (λ i t, t_nvic t i) (nvic reset) (take k main).
Definition execs_to (k : nat) : Z → option Raw := foldl (λ x t, t_execs t x) (execs reset) (take k main).

(** The alarm an executor sets the callback of, and its signal. *)
Definition owner (k : nat) (s : Signal) : bool :=
  match k, s with
  | 2%nat, Pend ctx => ctx =? SWI1_EGU1
  | 1%nat, Pend ctx => ctx =? SWI0_EGU0
  | 0%nat, Sev => true
  | _, _ => false
  end.
Definition owned (r : option Raw) : bool :=
  match r with Some (mkRaw s (Some a)) => owner a s | _ => true end.
(** Checked at every point of the set-up: an enabled line has a handler, and only an
    executor that has a signal and an alarm of its own is called. *)
Definition setup_ok (k : nat) : bool :=
  forallb (λ n, let i := nvic_to k n in
    implb (enabled i) (match func i with Some _ => true | None => false end) && owned (execs_to k (ctx i))) lines &&
  owned (execs_to k EXECUTOR_LOW).

Lemma setup_checked : forallb setup_ok (seq 0 (S (length main))) = true.
Proof. vm_compute. reflexivity. Qed.

Lemma take_main k : take k main = take (Nat.min k (length main)) main.
Proof.
  destruct (decide (k ≤ length main)%nat); [by rewrite Nat.min_l|].
  rewrite Nat.min_r by lia. by rewrite !take_ge by lia.
Qed.
Lemma setup_holds k : (k ≤ length main)%nat → setup_ok k = true.
Proof.
  intros Hk. pose proof setup_checked as H. rewrite forallb_forall in H. apply H, in_seq. lia.
Qed.

(** ** The invariant *)
Definition act_owned (a : Act) : Prop :=
  match a with SetCallback k s => owner k s = true | _ => True end.
Definition at_step (k : nat) (c : Cpu) : Prop :=
  (k ≤ length main)%nat ∧ thread c = drop k main ∧ (∀ e, execs c e = execs_to k e) ∧
  ∀ n, unpend (nvic c n) = unpend (nvic_to k n).
(** A task spawned in [start]: it is in the queue and the line is pended; or a pass that has
    begun will poll it; or it has been polled. *)
Definition polled_in (l p : Z) (c : Cpu) : Prop :=
  (∃ acts wakes, (l, acts) ∈ active c ∧ Poll p wakes ∈ acts) ∨ ∃ wakes, Step l (Poll p wakes) ∈ log c.
Definition spawned (c : Cpu) : Prop := ∀ l e p, (l, e, p) ∈ irq_executors →
  Spawn e p ∉ thread c → (pending (nvic c l) = true ∧ p ∈ queue c e) ∨ polled_in l p c.
Record Inv (c : Cpu) : Prop := {
  i_setup : ∃ k, at_step k c;
  i_sorted : StronglySorted (λ f g : Z * list Act, prio (nvic c f.1) < prio (nvic c g.1)) (active c);
  i_lines : Forall (λ f, f.1 ∈ lines) (active c);
  i_acts : Forall (λ f, Forall act_owned f.2) (active c) ∧ Forall act_owned (low c);
  i_callbacks : ∀ k s, callbacks c k = Some s → owner k s = true;
  i_spawned : spawned c
}.

(** Pending a line changes nothing else. *)
Definition same_lines (i j : Z → Irq Fn) : Prop :=
  ∀ n, unpend (j n) = unpend (i n) ∧ (pending (i n) = true → pending (j n) = true).

Lemma unpend_fields i j : unpend (H := Fn) j = unpend i →
  func j = func i ∧ ctx j = ctx i ∧ enabled j = enabled i ∧ prio j = prio i.
Proof. destruct i, j. by intros [= -> -> -> ->]. Qed.

Lemma pend_same z i : same_lines i (Pended.pend_by_number z i).
Proof.
  intros n. unfold Pended.pend_by_number. destruct (decide (z = n)) as [->|Hne].
  - by rewrite fn_lookup_insert.
  - by rewrite fn_lookup_insert_ne.
Qed.
Lemma same_lines_trans i j k : same_lines i j → same_lines j k → same_lines i k.
Proof. intros H1 H2 n. destruct (H1 n), (H2 n). split; [congruence|auto]. Qed.

(** A signal, an act: lines are pended, and that is all the lines see. *)
Definition mild (c c' : Cpu) : Prop :=
  same_lines (nvic c) (nvic c') ∧ execs c' = execs c ∧ active c' = active c ∧
  thread c' = thread c ∧ low c' = low c ∧ log c' = log c ∧ queue c' = queue c.

Lemma mild_refl c : mild c c.
Proof. by split_and!. Qed.
Lemma signal_mild s c : mild c (signal_executor s c) ∧ callbacks (signal_executor s c) = callbacks c.
Proof. destruct s; (split; [|done]); split_and!; try done. apply pend_same. Qed.

Lemma run_act_mild a c : mild c (run_act a c).
Proof.
  destruct a as [p wakes|k s|k]; cbn [run_act].
  - revert c. induction wakes as [|s wakes IH]; intros c; [apply mild_refl|]. cbn [foldl].
    destruct (signal_mild s c) as [(S1 & X1 & A1 & T1 & L1 & G1 & Q1) _].
    destruct (IH (signal_executor s c)) as (S2 & X2 & A2 & T2 & L2 & G2 & Q2).
    split_and!; try congruence. by eapply same_lines_trans.
  - by split_and!.
  - destruct (callbacks c k); [apply signal_mild|apply mild_refl].
Qed.

Lemma foldl_callbacks wakes c : callbacks (foldl (λ c s, signal_executor s c) c wakes) = callbacks c.
Proof.
  revert c. induction wakes as [|s wakes IH]; intros c; [done|]. cbn [foldl].
  rewrite IH. apply signal_mild.
Qed.

Definition callbacks_owned (c : Cpu) : Prop := ∀ k s, callbacks c k = Some s → owner k s = true.

Lemma run_act_callbacks a c : act_owned a → callbacks_owned c → callbacks_owned (run_act a c).
Proof.
  intros Ha Hc. destruct a as [p wakes|k s|k]; cbn [run_act].
  - intros k s. rewrite foldl_callbacks. apply Hc.
  - intros j s'. cbn. destruct (decide (k = j)) as [->|Hne].
    + rewrite fn_lookup_insert. by intros [= <-].
    + rewrite fn_lookup_insert_ne by done. apply Hc.
  - destruct (callbacks c k) as [s|]; [|done]. intros j s'.
    rewrite (proj2 (signal_mild s c)). apply Hc.
Qed.

Lemma prio_same i j n : same_lines i j → prio (j n) = prio (i n).
Proof. intros H. by destruct (unpend_fields _ _ (proj1 (H n))) as (_ & _ & _ & ?). Qed.

Lemma sorted_same c c' l : (∀ n, prio (nvic c' n) = prio (nvic c n)) →
  StronglySorted (λ f g : Z * list Act, prio (nvic c f.1) < prio (nvic c g.1)) l →
  StronglySorted (λ f g : Z * list Act, prio (nvic c' f.1) < prio (nvic c' g.1)) l.
Proof.
  intros Hp H. induction H as [|f l _ IH Hf]; constructor; [done|].
  eapply Forall_impl; [exact Hf|]. intros g. by rewrite !Hp.
Qed.

Lemma Inv_mild c c' : Inv c → mild c c' → callbacks_owned c' → Inv c'.
Proof.
  intros [(k & Hk & Ht & Hx & Hn) Hs Hl Ha _ Hsp] (S & X & A & T & L & G & Q) Hcb. split; try done.
  - exists k. split; [done|]. split; [congruence|]. split; [intros e; by rewrite X|].
    intros n. by rewrite (proj1 (S n)).
  - rewrite A. eapply sorted_same; [|exact Hs]. intros n. by apply prio_same.
  - by rewrite A.
  - by rewrite A, L.
  - intros l e p Hle. unfold polled_in. rewrite T, A, G, Q. intros Hn'.
    destruct (Hsp l e p Hle Hn') as [[Hp ?]|?]; [left|by right]. split; [by apply (proj2 (S l))|done].
Qed.

Lemma Inv_act c a : Inv c → act_owned a → Inv (run_act a c).
Proof.
  intros I Ha. eapply Inv_mild; [exact I|apply run_act_mild|].
  apply run_act_callbacks; [done|exact (i_callbacks c I)].
Qed.

Lemma Inv_ran c r : Inv c → Inv (ran r c).
Proof.
  intros [? ? ? ? ? Hsp]. split; try done. intros l e p Hle Hn. cbn.
  destruct (Hsp l e p Hle Hn) as [?|[?|[w ?]]]; [by left|right; by left|].
  right. right. exists w. apply elem_of_app. by left.
Qed.
Lemma mild_ran r c c' : mild c c' → mild (ran r c) (ran r c').
Proof. intros (? & ? & ? & ? & ? & G & ?). split_and!; try done. cbn. by rewrite G. Qed.

(** ** Entering a handler *)
Lemma urgent_from l c : let best := foldr (λ n best, if calls c n then
      match best with Some m => if better c m n then Some m else Some n | None => Some n end
    else best) None l in
  match best with
  | Some n => n ∈ l ∧ calls c n = true ∧ ∀ m, m ∈ l → calls c m = true → prio (nvic c n) ≤ prio (nvic c m)
  | None => ∀ m, m ∈ l → calls c m = false
  end.
Proof.
  induction l as [|n l IH]; cbn [foldr]; cbv zeta in *.
  { intros m Hm. by apply not_elem_of_nil in Hm. }
  destruct (calls c n) eqn:Hn.
  - destruct (foldr _ None l) as [m|].
    + destruct IH as (Hm & Hc & Hb). unfold better. destruct (_ || _) eqn:Ho.
      * split; [by right|]. split; [done|]. intros j [->|Hj]%elem_of_cons Hcj; [|by apply Hb].
        apply orb_true_iff in Ho as [Ho|[Ho _]%andb_true_iff]; lia.
      * split; [by left|]. split; [done|]. intros j [->|Hj]%elem_of_cons Hcj; [done|].
        specialize (Hb j Hj Hcj). apply orb_false_iff in Ho as [Ho _]. lia.
    + split; [by left|]. split; [done|]. intros j [->|Hj]%elem_of_cons Hcj; [done|].
      by rewrite IH in Hcj.
  - destruct (foldr _ None l) as [m|].
    + destruct IH as (Hm & Hc & Hb). split; [by right|]. split; [done|].
      intros j [->|Hj]%elem_of_cons Hcj; [congruence|by apply Hb].
    + intros j [->|Hj]%elem_of_cons; [done|by apply IH].
Qed.
Lemma urgent_Some c n : urgent c = Some n →
  n ∈ lines ∧ calls c n = true ∧ ∀ m, m ∈ lines → calls c m = true → prio (nvic c n) ≤ prio (nvic c m).
Proof. intros H. pose proof (urgent_from lines c) as Hu. cbv zeta in Hu. unfold urgent in H. by rewrite H in Hu. Qed.
Lemma urgent_None c m : urgent c = None → m ∈ lines → calls c m = false.
Proof. intros H. pose proof (urgent_from lines c) as Hu. cbv zeta in Hu. unfold urgent in H. rewrite H in Hu. apply Hu. Qed.

Lemma calls_spec c n : calls c n = true →
  enabled (nvic c n) = true ∧ pending (nvic c n) = true ∧ prio (nvic c n) < current c.
Proof. unfold calls. rewrite !andb_true_iff, Z.ltb_lt. tauto. Qed.

Lemma pass_owned c e polls : owned (execs c e) = true → Forall act_owned (pass c e polls).
Proof.
  intros Ho. unfold pass. apply Forall_app. split.
  - apply Forall_app. split; apply Forall_fmap, Forall_true; [by intros []|done].
  - destruct (execs c e) as [[s [a|]]|]; repeat constructor. exact Ho.
Qed.
(** A pass polls what it takes out of the queue. *)
Lemma pass_polls c e polls p : p ∈ queue c e → ∃ wakes, Poll p wakes ∈ pass c e polls.
Proof.
  intros Hp. unfold pass, polled. destruct (decide (p ∈ polls.*1)) as [Hin|Hnin].
  - apply list_elem_of_fmap in Hin as ([p' w] & -> & Hin). exists w. rewrite !elem_of_app. left. left.
    apply list_elem_of_fmap. by exists (p', w).
  - exists []. rewrite !elem_of_app. left. right. apply list_elem_of_fmap. exists p.
    split; [done|]. by apply list_elem_of_filter.
Qed.

(** The handler of a line that calls does what it is for. *)
Lemma body_defined c n polls fired : Inv c → n ∈ lines → enabled (nvic c n) = true →
  ∃ acts, body c n polls fired = Some acts ∧ Forall act_owned acts.
Proof.
  intros [(k & Hk & _ & Hx & Hn) _ _ _ _ _] Hin He.
  destruct (unpend_fields _ _ (Hn n)) as (Hf & Hc & He' & _).
  pose proof (setup_holds k Hk) as Hok. unfold setup_ok in Hok.
  apply andb_true_iff in Hok as [Hok _]. rewrite forallb_forall in Hok.
  specialize (Hok n (proj1 (list_elem_of_In _ _) Hin)). cbv zeta in Hok.
  apply andb_true_iff in Hok as [H1 H2].
  rewrite <-He', He, <-Hf in H1. cbn in H1. unfold body, trampoline.
  destruct (func (nvic c n)) as [f|]; [|done]. eexists. split; [done|]. destruct f.
  - constructor.
  - apply Forall_fmap, Forall_true. done.
  - apply pass_owned. rewrite Hx, Hc. exact H2.
Qed.

(** The lines at every point of the set-up: a line that is enabled and runs an executor with a
    task of its own runs that executor, and no other does. *)
Definition handlers_ok (k : nat) : bool :=
  forallb (λ n, match enabled (nvic_to k n), func (nvic_to k n) with
    | true, Some executor_handler =>
        forallb (λ '(l, e, _), bool_decide (l = n ↔ e = ctx (nvic_to k n))) irq_executors
    | true, _ => forallb (λ '(l, _, _), bool_decide (l ≠ n)) irq_executors
    | _, _ => true
    end) lines.
Lemma handlers_hold k n l e p : (k ≤ length main)%nat → n ∈ lines → (l, e, p) ∈ irq_executors →
  enabled (nvic_to k n) = true →
  match func (nvic_to k n) with
  | Some executor_handler => l = n ↔ e = ctx (nvic_to k n)
  | _ => l ≠ n
  end.
Proof.
  intros Hk Hn Hle He.
  assert (H : forallb handlers_ok (seq 0 (S (length main))) = true) by (vm_compute; reflexivity).
  rewrite forallb_forall in H. specialize (H k ltac:(apply in_seq; lia)). unfold handlers_ok in H.
  rewrite forallb_forall in H. specialize (H n (proj1 (list_elem_of_In _ _) Hn)). rewrite He in H.
  destruct (func (nvic_to k n)) as [[]|]; rewrite forallb_forall in H;
    specialize (H (l, e, p) (proj1 (list_elem_of_In _ _) Hle)); by apply bool_decide_eq_true in H.
Qed.

Lemma begun_fields n c : nvic (begun n c) = nvic c ∧ execs (begun n c) = execs c ∧
  active (begun n c) = active c ∧ thread (begun n c) = thread c ∧ low (begun n c) = low c ∧
  log (begun n c) = log c ∧ callbacks (begun n c) = callbacks c.
Proof. unfold begun. by destruct (func (nvic c n)) as [[]|]. Qed.

(** What entering a handler does to a task that has been spawned. *)
Lemma spawned_enter k c n polls fired acts : at_step k c → n ∈ lines → enabled (nvic c n) = true →
  body c n polls fired = Some acts → ∀ l e p, (l, e, p) ∈ irq_executors →
  pending (nvic c l) = true → p ∈ queue c e →
  (l ≠ n ∧ p ∈ queue (begun n c) e) ∨ (l = n ∧ ∃ wakes, Poll p wakes ∈ acts).
Proof.
  intros (Hk & _ & _ & Hn) Hin He Hb l e p Hle _ Hq.
  destruct (unpend_fields _ _ (Hn n)) as (Hf & Hc & He' & _). rewrite He in He'. symmetry in He'.
  pose proof (handlers_hold k n l e p Hk Hin Hle He') as H. rewrite <-Hf, <-Hc in H.
  unfold body, trampoline in Hb. unfold begun.
  destruct (func (nvic c n)) as [f|]; [|by left]. injection Hb as <-.
  destruct f; try (left; by split). destruct (decide (l = n)) as [Hl|Hl].
  - right. split; [done|]. rewrite <-(proj1 H Hl). by apply pass_polls.
  - left. split; [done|]. cbn. rewrite fn_lookup_insert_ne; [done|]. intros E. by apply Hl, H.
Qed.

Lemma Inv_enter c n polls fired acts : Inv c → urgent c = Some n →
  body c n polls fired = Some acts → Forall act_owned acts →
  Inv (ran (Entered n) (set_event true (set_active ((n, acts) :: active c)
        (set_nvic (<[n := unpend (nvic c n)]> (nvic c)) (begun n c))))).
Proof.
  intros [(k & Hat) Hs Hl [Ha Hlow] Hcb Hsp] (Hin & Hc & _)%urgent_Some Hbody Hacts.
  destruct (calls_spec c n Hc) as (Hen & _ & Hlt). pose proof Hat as (Hk & Ht & Hx & Hn).
  assert (Hun : ∀ m, unpend ((<[n := unpend (nvic c n)]> (nvic c)) m) = unpend (nvic c m)).
  { intros m. destruct (decide (n = m)) as [->|]; [by rewrite fn_lookup_insert|].
    by rewrite fn_lookup_insert_ne. }
  assert (Hp : ∀ m, prio ((<[n := unpend (nvic c n)]> (nvic c)) m) = prio (nvic c m)).
  { intros m. by destruct (unpend_fields _ _ (Hun m)) as (_ & _ & _ & ?). }
  destruct (begun_fields n c) as (_ & BX & _ & BT & BL & BG & BC).
  split; cbn; rewrite ?BL, ?BT, ?BC; try done.
  - exists k. split_and!; cbn; rewrite ?BT, ?BX; try done. intros m. by rewrite Hun.
  - constructor; cbn.
    + exact (sorted_same c (set_nvic (<[n := unpend (nvic c n)]> (nvic c)) c) _ Hp Hs).
    + unfold current in Hlt. destruct (active c) as [|[m a] fs]; [constructor|].
      apply StronglySorted_inv in Hs as [_ Hf]. constructor; cbn; [by rewrite !Hp|].
      eapply Forall_impl; [exact Hf|]. intros g Hg. rewrite !Hp. cbn in Hg. lia.
  - by constructor.
  - split; [by constructor|done].
  - intros l e p Hle. unfold polled_in. cbn. rewrite BT, BG. intros Hnin.
    destruct (Hsp l e p Hle Hnin) as [[Hpend Hq]|[(a & w & Hin' & Hw)|[w Hw]]].
    + destruct (spawned_enter k c n polls fired acts Hat Hin Hen Hbody l e p Hle Hpend Hq)
        as [[Hne Hq']|[-> [w Hw]]].
      * left. by rewrite fn_lookup_insert_ne.
      * right. left. exists acts, w. split; [by left|done].
    + right. left. exists a, w. split; [by right|done].
    + right. right. exists w. apply elem_of_app. by left.
Qed.

(** ** The thread *)
Definition spawn_ok (k : nat) : bool :=
  match main !! k with
  | Some (Spawn e _) =>
      match execs_to k e with
      | Some (mkRaw s _) =>
          implb (e =? EXECUTOR_HIGH) (match s with Pend ctx => ctx =? SWI1_EGU1 | _ => false end) &&
          implb (e =? EXECUTOR_MED) (match s with Pend ctx => ctx =? SWI0_EGU0 | _ => false end)
      | None => false
      end
  | _ => true
  end.
Lemma spawn_checked k : spawn_ok k = true.
Proof.
  destruct (decide (k < length main)%nat) as [Hk|Hk].
  - assert (H : forallb spawn_ok (seq 0 (length main)) = true) by (vm_compute; reflexivity).
    rewrite forallb_forall in H. apply H, in_seq. lia.
  - unfold spawn_ok. by rewrite lookup_ge_None_2 by lia.
Qed.

Lemma setup_step k t rest : drop k main = t :: rest →
  main !! k = Some t ∧ (S k ≤ length main)%nat ∧ drop (S k) main = rest ∧
  nvic_to (S k) = t_nvic t (nvic_to k) ∧ execs_to (S k) = t_execs t (execs_to k).
Proof.
  intros Hd. assert (Ht : main !! k = Some t).
  { rewrite <-(Nat.add_0_r k), <-lookup_drop, Hd. done. }
  split; [done|]. pose proof (lookup_lt_Some _ _ _ Ht). split; [lia|].
  split; [by rewrite <-Nat.add_1_r, <-drop_drop, Hd|].
  unfold nvic_to, execs_to. by rewrite (take_S_r main k t Ht), !foldl_app.
Qed.

Lemma t_nvic_same t i j n : (∀ m, unpend (j m) = unpend (i m)) →
  unpend (t_nvic t j n) = unpend (t_nvic t i n).
Proof.
  intros H. destruct t; cbn [t_nvic]; try apply H;
    (match goal with |- unpend (Pended.start_begin _ _ _) = _ => unfold Pended.start_begin
     | |- unpend (Pended.start_end _ _ _ _) = _ => unfold Pended.start_end | _ => idtac end);
    match goal with |- unpend ((<[?l := _]> _) n) = _ =>
      destruct (decide (l = n)) as [->|]; [rewrite !fn_lookup_insert|by rewrite !fn_lookup_insert_ne];
      pose proof (H n) as Hn; destruct (j n), (i n); injection Hn as -> -> -> ->; done end.
Qed.
Lemma t_nvic_pending t i n : n ≠ RTC1 → pending (t_nvic t i n) = pending (i n).
Proof.
  intros Hn. destruct t; cbn [t_nvic]; try done; unfold Pended.start_begin, Pended.start_end;
    match goal with |- pending ((<[?l := _]> _) n) = _ =>
      destruct (decide (l = n)) as [E|]; [rewrite E, !fn_lookup_insert|by rewrite !fn_lookup_insert_ne];
      done || congruence end.
Qed.
Lemma t_execs_ext t x y e : (∀ e, x e = y e) → t_execs t x e = t_execs t y e.
Proof.
  intros H. destruct t; cbn [t_execs]; try apply H;
    match goal with |- (<[?a := _]> _) e = _ =>
      destruct (decide (a = e)) as [->|]; [rewrite !fn_lookup_insert; by rewrite ?H|
                                           by rewrite !fn_lookup_insert_ne] end.
Qed.

(** A step of [main], but for the signal it may give. *)
Definition set_up (t : TStep) (rest : list TStep) (c : Cpu) : Cpu :=
  set_thread (t_nvic t (nvic c)) (t_execs t (execs c)) rest c.

Lemma set_up_step k c t rest : at_step k c → thread c = t :: rest → at_step (S k) (set_up t rest c).
Proof.
  intros (Hk & Hd & Hx & Hn) Ht. rewrite Ht in Hd. symmetry in Hd.
  destruct (setup_step k t rest Hd) as (_ & Hk' & Hd' & Hn' & Hx').
  split_and!; [done|by rewrite Hd'| |].
  - intros e. rewrite Hx'. by apply t_execs_ext.
  - intros n. rewrite Hn'. by apply t_nvic_same.
Qed.

Lemma at_step_mild k c c' : at_step k c → mild c c' → at_step k c'.
Proof.
  intros (Hk & Hd & Hx & Hn) (S & X & _ & T & _). split_and!; try congruence; try done.
  intros n. by rewrite (proj1 (S n)).
Qed.

Lemma Inv_in_thread k c : at_step k c → active c = [] → Forall act_owned (low c) →
  callbacks_owned c → spawned c → Inv c.
Proof. intros Hk Ha Hl Hc Hs. split; rewrite ?Ha; try done; [by exists k|constructor]. Qed.

Lemma spawned_set_up t rest c : spawned c → thread c = t :: rest → (∀ e p, t ≠ Spawn e p) →
  spawned (set_up t rest c).
Proof.
  intros Hsp Ht Hne l e p Hle Hnin. destruct (Hsp l e p Hle) as [[Hp Hq]|?]; [|left|by right].
  - rewrite Ht, elem_of_cons. intros [E|?]; [by destruct (Hne e p)|done].
  - split; [|done]. cbn. rewrite t_nvic_pending; [done|]. intros ->.
    apply elem_of_cons in Hle as [[= ?]|[[= ?]|?%not_elem_of_nil]%elem_of_cons]; done.
Qed.

(** The first task of an executor: its line is pended. *)
Definition queued (e p : Z) (c : Cpu) : Cpu := set_queue (<[e := p :: queue c e]> (queue c)) c.
Lemma spawned_signal k c e p rest r : at_step k c → spawned c → thread c = Spawn e p :: rest →
  execs c e = Some r → spawned (signal_executor (signal r) (queued e p (set_up (Spawn e p) rest c))).
Proof.
  intros (_ & Hd & Hx & _) Hsp Ht Hr l e' p' Hle Hnin.
  set (c1 := queued e p (set_up (Spawn e p) rest c)) in *.
  destruct (signal_mild (signal r) c1) as [(S & _ & A & T & _ & G & Q) _].
  rewrite T in Hnin. unfold polled_in. rewrite A, G, Q. cbn in Hnin.
  destruct (decide (Spawn e' p' = Spawn e p)) as [[= -> ->]|Hne].
  - left. rewrite Ht in Hd. symmetry in Hd. destruct (setup_step _ _ _ Hd) as (Hkt & _).
    pose proof (spawn_checked k) as Hok. unfold spawn_ok in Hok. rewrite Hkt, <-Hx, Hr in Hok.
    split; [|cbn; rewrite fn_lookup_insert; by left]. destruct r as [s a]. cbn in *.
    apply elem_of_cons in Hle as [[= -> ->]|[[= -> ->]|?%not_elem_of_nil]%elem_of_cons]; [..|done];
      destruct s as [ctx|]; try done; cbn in Hok; rewrite ?andb_true_r in Hok;
      apply Z.eqb_eq in Hok as ->; unfold signal_executor, Pended.signal_fn; cbn;
      by rewrite (proj1 (Pended.pend_lookup _ _ _)).
  - destruct (Hsp l e' p' Hle) as [[Hp Hq]|?]; [|left|by right].
    + by rewrite Ht, elem_of_cons; intros [?|?].
    + split; [by apply (proj2 (S l))|]. cbn. destruct (decide (e = e')) as [->|].
      * rewrite fn_lookup_insert. by right.
      * by rewrite fn_lookup_insert_ne.
Qed.

(** The thread executor's pass takes tasks out of its own queue only. *)
Lemma spawned_low acts b c : spawned c → spawned (dequeue EXECUTOR_LOW (set_low acts (set_event b c))).
Proof.
  intros Hsp l e p Hle Hn. destruct (Hsp l e p Hle Hn) as [[? ?]|?]; [left|by right].
  split; [done|]. cbn. rewrite fn_lookup_insert_ne; [done|]. intros <-.
  apply elem_of_cons in Hle as [[= ?]|[[= ?]|?%not_elem_of_nil]%elem_of_cons]; done.
Qed.
Lemma Inv_low c acts b : Inv c → Forall act_owned acts →
  Inv (dequeue EXECUTOR_LOW (set_low acts (set_event b c))).
Proof. intros [? ? ? [? _] ? ?] Ha. split; try done. by apply spawned_low. Qed.

Lemma Inv_thread c polls t rest : Inv c → active c = [] → thread c = t :: rest →
  Inv (run_thread polls t rest c).
Proof.
  intros [(k & Hk) _ _ [_ Hlow] Hcb Hsp] Hact Ht.
  pose proof (set_up_step k c t rest Hk Ht) as Hk'.
  unfold run_thread. fold (set_up t rest c).
  assert (Hbase : (∀ e p, t ≠ Spawn e p) → Inv (set_up t rest c)).
  { intros Hne. apply (Inv_in_thread (S k)); try done. by apply spawned_set_up. }
  destruct t as [| | | | |e p|e|]; try by apply Hbase.
  - cbv zeta. fold (queued e p (set_up (Spawn e p) rest c)).
    destruct (execs (queued e p (set_up (Spawn e p) rest c)) e) as [r|] eqn:Hr.
    + destruct (signal_mild (signal r) (queued e p (set_up (Spawn e p) rest c))) as [Hm Hcb'].
      pose proof Hm as (_ & _ & A & _ & L & _).
      apply (Inv_in_thread (S k)).
      * eapply at_step_mild; [|exact Hm]. exact Hk'.
      * by rewrite A.
      * by rewrite L.
      * intros j s. rewrite Hcb'. apply Hcb.
      * by apply (spawned_signal k).
    + exfalso. destruct Hk as (_ & Hd & Hx & _). rewrite Ht in Hd. symmetry in Hd.
      destruct (setup_step _ _ _ Hd) as (Hkt & _).
      pose proof (spawn_checked k) as Hok. unfold spawn_ok in Hok. rewrite Hkt, <-Hx in Hok.
      cbn in Hr. by rewrite Hr in Hok.
  - apply (Inv_low (set_up FirstPass rest c) _ (event c)); [by apply Hbase|].
    apply pass_owned. destruct Hk' as (Hlen & _ & Hx & _). rewrite Hx.
    pose proof (setup_holds _ Hlen) as Hok. by apply andb_true_iff in Hok as [_ ?].
Qed.

(** ** Every choice keeps the invariant *)
Lemma Inv_active c n frames b : Inv c → active c = (n, []) :: frames →
  Inv (set_event b (set_active frames c)).
Proof.
  intros [? Hs Hl [Ha ?] ? Hsp] Hf. rewrite Hf in *. split; cbn; try done.
  - by apply StronglySorted_inv in Hs as [? _].
  - by apply Forall_cons in Hl as [_ ?].
  - by apply Forall_cons in Ha as [_ ?].
  - intros l e p Hle Hn. destruct (Hsp l e p Hle Hn) as [?|[(a & w & Hin & Hw)|?]];
      [by left| |right; by right].
    rewrite Hf in Hin. apply elem_of_cons in Hin as [[= _ ->]|Hin]; [by apply not_elem_of_nil in Hw|].
    right. left. by exists a, w.
Qed.

Lemma Inv_pop c n a acts frames : Inv c → active c = (n, a :: acts) :: frames →
  Inv (ran (Step n a) (set_active ((n, acts) :: frames) c)) ∧ act_owned a.
Proof.
  intros [? Hs Hl [Ha ?] ? Hsp] Hf. rewrite Hf in *.
  apply Forall_cons in Ha as [[? ?]%Forall_cons ?]. split; [|done].
  apply StronglySorted_inv in Hs as [Hs Hhd]. apply Forall_cons in Hl as [? ?].
  split; cbn; try done; [by constructor|by constructor|split; [by constructor|done]|].
  intros l e p Hle Hn. unfold polled_in. cbn.
  destruct (Hsp l e p Hle Hn) as [?|[(b & w & Hin & Hw)|[w Hw]]]; [by left|right|right; right].
  - rewrite Hf in Hin. apply elem_of_cons in Hin as [[= -> ->]|Hin].
    + apply elem_of_cons in Hw as [<-|Hw].
      * right. exists w. apply elem_of_app. right. by left.
      * left. exists acts, w. split; [by left|done].
    + left. exists b, w. split; [by right|done].
  - exists w. apply elem_of_app. by left.
Qed.

Lemma low_pass_owned c polls : Inv c → Forall act_owned (pass c EXECUTOR_LOW polls).
Proof.
  intros [(k & Hlen & _ & Hx & _) _ _ _ _ _]. apply pass_owned. rewrite Hx.
  pose proof (setup_holds _ Hlen) as Hok. by apply andb_true_iff in Hok as [_ ?].
Qed.

Lemma prio_step_inv x c : Inv c → ∃ c', step x c = Some c' ∧ Inv c'.
Proof.
  intros I. destruct x as [n|polls fired]; cbn [step].
  { eexists. split; [done|]. eapply Inv_mild; [exact I| |exact (i_callbacks c I)].
    split_and!; try done. apply pend_same. }
  unfold cycle. destruct (urgent c) as [n|] eqn:Hu.
  - destruct (urgent_Some c n Hu) as (Hin & (He & _)%calls_spec & _).
    destruct (body_defined c n polls fired I Hin He) as (acts & Hb & Ha); rewrite Hb.
    eexists. split; [done|]. by apply (Inv_enter c n polls fired).
  - destruct (active c) as [|[n [|a acts]] frames] eqn:Hact.
    + destruct (thread c) as [|t rest] eqn:Ht.
      * destruct (low c) as [|a acts] eqn:Hlow.
        -- destruct (event c); [|by exists c]. eexists. split; [done|].
           apply (Inv_low c); [done|]. by apply low_pass_owned.
        -- eexists. split; [done|]. pose proof I as [? ? ? [? Hl] ? ?]. rewrite Hlow in Hl.
           apply Forall_cons in Hl as [Ha Hacts]. apply Inv_ran, Inv_act; [|done].
           by split; rewrite ?Hact, ?Ht.
      * eexists. split; [by destruct (low c)|]. by apply Inv_ran, Inv_thread.
    + eexists. split; [done|]. by eapply Inv_active.
    + destruct (Inv_pop c n a acts frames I Hact) as [I' Ha].
      eexists. split; [done|].
      eapply Inv_mild; [exact I'|apply mild_ran, run_act_mild|].
      apply run_act_callbacks; [done|exact (i_callbacks c I)].
Qed.

Lemma reset_inv : Inv reset.
Proof.
  apply (Inv_in_thread 0); try done.
  { split_and!; try done. cbn. lia. }
  intros l e p Hle Hn. destruct Hn.
  apply elem_of_cons in Hle as [[= -> -> ->]|[[= -> -> ->]|?%not_elem_of_nil]%elem_of_cons]; [..|done];
    apply (bool_decide_unpack _); vm_compute; done.
Qed.

Lemma prio_run_inv xs : ∀ c, Inv c → ∃ c', run xs c = Some c' ∧ Inv c'.
Proof.
  induction xs as [|x xs IH]; intros c I; [by exists c|]. cbn [run].
  destruct (prio_step_inv x c I) as (c1 & -> & I1). by apply IH.
Qed.

(** ** Preemption *)

(** A line that waits for its handler: what is active and less urgent has been interrupted
    by something at least as urgent. *)
Definition due (n : Z) (c : Cpu) : Prop :=
  enabled (nvic c n) = true ∧ pending (nvic c n) = true ∧
  ∃ hi lo, active c = hi ++ lo ∧ Forall (λ f, prio (nvic c f.1) ≤ prio (nvic c n)) hi ∧
    prio (nvic c n) < current (set_active lo c).
(** What runs is at least as urgent as the line. *)
Definition above (i : Z → Irq Fn) (n : Z) (r : Ran) : Prop :=
  match r with Entered m | Step m _ => prio (i m) ≤ prio (i n) | Thread => False end.

Lemma calls_due c n : calls c n = true → due n c.
Proof.
  intros (He & Hp & Hlt)%calls_spec. split; [done|]. split; [done|]. exists [], (active c). by split.
Qed.

Lemma current_same c c' frames : (∀ n, prio (nvic c' n) = prio (nvic c n)) →
  current (set_active frames c') = current (set_active frames c).
Proof. intros H. unfold current. cbn. destruct frames as [|[m a] fs]; [done|apply H]. Qed.

(** The lines only get more pending, and the frames of [hi'] are at least as urgent. *)
Lemma due_keep n c c' hi lo : due n c → same_lines (nvic c) (nvic c') → active c' = hi ++ lo →
  prio (nvic c n) < current (set_active lo c) →
  Forall (λ f, prio (nvic c f.1) ≤ prio (nvic c n)) hi → due n c'.
Proof.
  intros (He & Hp & _) Hs Ha Hlt Hhi.
  assert (Hprio : ∀ m, prio (nvic c' m) = prio (nvic c m)) by (intros m; by apply prio_same).
  destruct (unpend_fields _ _ (proj1 (Hs n))) as (_ & _ & He' & _).
  split; [congruence|]. split; [by apply (proj2 (Hs n))|]. exists hi, lo. split; [done|]. split.
  - eapply Forall_impl; [exact Hhi|]. intros f. by rewrite !Hprio.
  - by rewrite Hprio, (current_same c c').
Qed.

Lemma due_calls n c lo : enabled (nvic c n) = true → pending (nvic c n) = true → active c = lo →
  prio (nvic c n) < current (set_active lo c) → calls c n = true.
Proof.
  intros He Hp Ha Hlt. unfold calls. rewrite He, Hp. apply Z.ltb_lt.
  unfold current in *. cbn in Hlt. by rewrite Ha.
Qed.

Lemma due_step x c c' n : n ∈ lines → due n c → step x c = Some c' →
  ∃ l, log c' = log c ++ l ∧ ((∃ l2, l = Entered n :: l2) ∨
    due n c' ∧ Forall (above (nvic c) n) l ∧ ∀ m, prio (nvic c' m) = prio (nvic c m)).
Proof.
  intros Hin Hd Hs. pose proof Hd as (He & Hp & hi & lo & Ha & Hhi & Hlt).
  destruct x as [z|polls fired]; cbn [step] in Hs.
  { injection Hs as <-. exists []. rewrite app_nil_r. split; [done|right].
    split; [by eapply due_keep; [..|exact Hhi]; try done; apply pend_same|]. split; [done|].
    intros m. apply prio_same, pend_same. }
  unfold cycle in Hs. destruct (urgent c) as [m|] eqn:Hu.
  - destruct (body c m polls fired) as [acts|]; [|done]. injection Hs as <-.
    destruct (urgent_Some c m Hu) as (_ & Hm & Hbest).
    exists [Entered m]. split; [cbn; by rewrite (proj1 (proj2 (proj2 (proj2 (proj2 (proj2 (begun_fields m c)))))))|]. destruct (decide (m = n)) as [->|Hne]; [left; by eexists|right].
    destruct (calls_spec c m Hm) as (_ & _ & Hmlt).
    assert (Hle : prio (nvic c m) ≤ prio (nvic c n)).
    { destruct hi as [|[h a] hi]; [by apply Hbest; [|eapply due_calls]|].
      unfold current in Hmlt. rewrite Ha in Hmlt. apply Forall_cons in Hhi as [Hh _].
      cbn in Hmlt, Hh. lia. }
    pose proof (begun_fields m c) as (_ & BX & BA & BT & BL & BG & _).
    assert (Hun : ∀ j, unpend ((<[m := unpend (nvic c m)]> (nvic c)) j) = unpend (nvic c j)).
    { intros j. destruct (decide (m = j)) as [->|]; [by rewrite fn_lookup_insert|].
      by rewrite fn_lookup_insert_ne. }
    assert (Hprio : ∀ j, prio ((<[m := unpend (nvic c m)]> (nvic c)) j) = prio (nvic c j)).
    { intros j. by destruct (unpend_fields _ _ (Hun j)) as (_ & _ & _ & ?). }
    split; [|split; [by constructor|exact Hprio]].
    split; [cbn; by rewrite fn_lookup_insert_ne|]. split; [cbn; by rewrite fn_lookup_insert_ne|].
    exists ((m, acts) :: hi), lo. cbn. rewrite Ha. split; [done|]. split.
    + constructor; [cbn; by rewrite !Hprio|]. eapply Forall_impl; [exact Hhi|].
      intros f. by rewrite !Hprio.
    + rewrite Hprio. unfold current in *. cbn in *. destruct lo as [|[j a] lo]; [done|].
      by rewrite Hprio.
  - destruct hi as [|[h acts] hi].
    { pose proof (urgent_None c n Hu Hin) as Hc. by rewrite (due_calls n c lo) in Hc. }
    rewrite Ha in Hs. cbn in Hs. apply Forall_cons in Hhi as [Hh Hhi]. cbn in Hh.
    destruct acts as [|a acts]; injection Hs as <-.
    + exists []. rewrite app_nil_r. split; [done|right]. split; [|by split].
      by eapply (due_keep n c _ hi lo).
    + destruct (run_act_mild a (set_active ((h, acts) :: hi ++ lo) c)) as (S & _ & A & _ & _ & G & _).
      exists [Step h a]. split; [unfold ran; cbn [log]; by rewrite G|right].
      split; [|split; [by constructor|intros m; by apply prio_same]].
      eapply (due_keep n c _ ((h, acts) :: hi) lo); [done|exact S|exact A|done|by constructor].
Qed.

Lemma step_log x c c' : step x c = Some c' → ∃ l, log c' = log c ++ l.
Proof.
  assert (Hnil : ∀ c0 : Cpu, ∃ l, log c0 = log c0 ++ l) by (intros c0; exists []; by rewrite app_nil_r).
  destruct x as [n|polls fired]; cbn [step]; [intros [= <-]; apply (Hnil c)|]. unfold cycle.
  destruct (urgent c) as [n|].
  { destruct (body c n polls fired); [|done]. intros [= <-]. destruct (begun_fields n c) as (_ & _ & _ & _ & _ & G & _).
    exists [Entered n]. cbn. by rewrite G. }
  assert (Hact : ∀ a c0, log (run_act a c0) = log c0).
  { intros a c0. by destruct (run_act_mild a c0) as (_ & _ & _ & _ & _ & ? & _). }
  destruct (active c) as [|[n [|a acts]] frames].
  - destruct (thread c) as [|t rest].
    + destruct (low c) as [|a acts]; [destruct (event c); intros [= <-]; apply (Hnil c)|].
      intros [= <-]. unfold ran. cbn [log]. rewrite Hact. by eexists.
    + intros Hs. assert (E : c' = ran Thread (run_thread polls t rest c)) by (destruct (low c); by injection Hs).
      rewrite E. unfold ran. cbn [log]. exists [Thread]. f_equal. unfold run_thread.
      destruct t; try done. cbv zeta. destruct (execs _ executor) as [r|]; [|done].
      by destruct (signal_mild (signal r) (queued executor task (set_up (Spawn executor task) rest c)))
        as [(_ & _ & _ & _ & _ & ? & _) _].
  - intros [= <-]. apply (Hnil c).
  - intros [= <-]. unfold ran. cbn [log]. rewrite Hact. by eexists.
Qed.
Lemma run_log xs : ∀ c c', run xs c = Some c' → ∃ l, log c' = log c ++ l.
Proof.
  induction xs as [|x xs IH]; intros c c'; cbn [run].
  { intros [= <-]. exists []. by rewrite app_nil_r. }
  intros (c1 & H1 & H2)%bind_Some. destruct (step_log x c c1 H1) as (l1 & E1).
  destruct (IH c1 c' H2) as (l2 & ->). exists (l1 ++ l2). by rewrite E1, app_assoc.
Qed.

Lemma above_same i j n l : (∀ m, prio (j m) = prio (i m)) → Forall (above j n) l → Forall (above i n) l.
Proof.
  intros H Hl. eapply Forall_impl; [exact Hl|]. intros [m|m a|]; cbn; by rewrite ?H.
Qed.

Lemma due_run xs n : n ∈ lines → ∀ c c', due n c → run xs c = Some c' →
  ∃ l, log c' = log c ++ l ∧
    ((∃ l1 l2, l = l1 ++ Entered n :: l2 ∧ Forall (above (nvic c) n) l1) ∨
     due n c' ∧ Forall (above (nvic c) n) l).
Proof.
  intros Hin. induction xs as [|x xs IH]; intros c c' Hd; cbn [run].
  { intros [= <-]. exists []. rewrite app_nil_r. split; [done|right]. by split. }
  intros (c1 & H1 & H2)%bind_Some.
  destruct (due_step x c c1 n Hin Hd H1) as (l & Hl & [(l2 & ->)|(Hd1 & Ha & Hp)]).
  - destruct (run_log xs c1 c' H2) as (l' & ->). exists (Entered n :: l2 ++ l').
    rewrite Hl, <-app_assoc. split; [done|left]. by exists [], (l2 ++ l').
  - destruct (IH c1 c' Hd1 H2) as (l' & Hl' & Hc). exists (l ++ l').
    rewrite Hl', Hl, app_assoc. split; [done|].
    destruct Hc as [(l1 & l2 & -> & Hf)|[Hd' Hf]]; apply (above_same _ _ _ _ Hp) in Hf.
    + left. exists (l ++ l1), l2. rewrite <-app_assoc. split; [done|]. by apply Forall_app.
    + right. split; [done|]. by apply Forall_app.
Qed.

Lemma sorted_nodup c l :
  StronglySorted (λ f g : Z * list Act, prio (nvic c f.1) < prio (nvic c g.1)) l → NoDup (l.*1).
Proof.
  induction 1 as [|f l _ IH Hf]; cbn; constructor; [|done].
  intros (g & Hg & Hin)%list_elem_of_fmap. rewrite Forall_forall in Hf.
  specialize (Hf g Hin). rewrite Hg in Hf. lia.
Qed.

(** Once [start] is over, the executor has its first task and its line is enabled. *)
Definition started_ok (k : nat) : bool :=
  forallb (λ '(l, e, p), implb (bool_decide (StartEnd l e ∉ drop k main))
    (enabled (nvic_to k l) && (prio (nvic_to k l) <? 256) && bool_decide (Spawn e p ∉ drop k main)))
    irq_executors.
Lemma started_holds k l e p : (k ≤ length main)%nat → (l, e, p) ∈ irq_executors →
  StartEnd l e ∉ drop k main →
  enabled (nvic_to k l) = true ∧ prio (nvic_to k l) < 256 ∧ Spawn e p ∉ drop k main.
Proof.
  intros Hk Hle Hn.
  assert (H : forallb started_ok (seq 0 (S (length main))) = true) by (vm_compute; reflexivity).
  rewrite forallb_forall in H. specialize (H k ltac:(apply in_seq; lia)).
  unfold started_ok in H. rewrite forallb_forall in H.
  specialize (H (l, e, p) (proj1 (list_elem_of_In _ _) Hle)). cbn in H.
  rewrite (bool_decide_true _ Hn) in H. cbn in H. rewrite !andb_true_iff in H.
  destruct H as [[He Hp%Z.ltb_lt] Hs%bool_decide_eq_true]. done.
Qed.

Lemma start_runs c l e p : Inv c → (l, e, p) ∈ irq_executors → StartEnd l e ∉ thread c →
  urgent c = None → active c = [] → ∃ wakes, Step l (Poll p wakes) ∈ log c.
Proof.
  intros [(k & Hk & Hd & _ & Hn) _ _ _ _ Hsp] Hle Hnin Hu Ha. rewrite Hd in Hnin.
  destruct (started_holds k l e p Hk Hle Hnin) as (He & Hp & Hs). rewrite <-Hd in Hs.
  destruct (Hsp l e p Hle Hs) as [[Hpend _]|[(a & w & Hin & _)|?]]; [|rewrite Ha in Hin|done].
  2:{ by apply not_elem_of_nil in Hin. }
  exfalso.
  destruct (unpend_fields _ _ (Hn l)) as (_ & _ & He' & Hp').
  assert (Hin : l ∈ lines).
  { clear -Hle. apply elem_of_cons in Hle as [[= -> _ _]|[[= -> _ _]|?%not_elem_of_nil]%elem_of_cons];
      [..|done]; apply (bool_decide_unpack _); vm_compute; done. }
  pose proof (urgent_None c l Hu Hin) as Hc. unfold calls in Hc. rewrite He', He, Hpend in Hc.
  unfold current in Hc. rewrite Ha, Hp' in Hc. cbn in Hc. apply Z.ltb_ge in Hc. lia.
Qed.

(** ** Properties *)

(** C13: three executors at three priorities, from the reset and whatever the hardware does.
    The processor never calls a null handler.  No executor's [run_queued] is entered while
    it runs: the handlers that are active are of different lines.  When a line calls for
    its handler, nothing runs before it is entered but handlers at least as urgent --
    neither a poll of a less urgent executor, nor [main].  When [main] goes on after
    [start], the handler of the executor has polled the task that was spawned there.
    After the set-up the RTC comes before the executor of [run_high], and that before the
    one of [run_med]; and an alarm only ever signals the executor that owns it. *)
Theorem multiprio_spec xs c : run xs reset = Some c →
  (∀ x, is_Some (step x c)) ∧
  NoDup (active c).*1 ∧
  (∀ n ys c', n ∈ lines → calls c n = true → run ys c = Some c' →
     ∃ l, log c' = log c ++ l ∧
       ((∃ l1 l2, l = l1 ++ Entered n :: l2 ∧ Forall (above (nvic c) n) l1) ∨
        Forall (above (nvic c) n) l)) ∧
  (∀ l e p, (l, e, p) ∈ irq_executors → StartEnd l e ∉ thread c →
     urgent c = None → active c = [] → ∃ wakes, Step l (Poll p wakes) ∈ log c) ∧
  (thread c = [] → prio (nvic c RTC1) = 0 ∧ prio (nvic c SWI1_EGU1) = 192 ∧
     prio (nvic c SWI0_EGU0) = 224) ∧
  (∀ k s, callbacks c k = Some s → owner k s = true).
Proof.
  intros Hr. destruct (prio_run_inv xs reset reset_inv) as (c0 & Hr0 & I).
  rewrite Hr in Hr0. injection Hr0 as <-. split_and!.
  - intros x. destruct (prio_step_inv x c I) as (c' & -> & _). by eexists.
  - eapply sorted_nodup, I.
  - intros n ys c' Hn Hc Hys. destruct (due_run ys n Hn c c' (calls_due c n Hc) Hys)
      as (l & Hl & [H|[_ H]]); exists l; split; auto.
  - intros l e p. by apply start_runs.
  - intros Ht. destruct I as [(k & Hk & Hd & _ & Hn) _ _ _ _ _].
    assert (k = length main) as ->.
    { rewrite Ht in Hd. apply (f_equal length) in Hd. rewrite length_drop in Hd. cbn in Hd, Hk |- *. lia. }
    assert (Hp : ∀ n, prio (nvic c n) = prio (nvic_to (length main) n)).
    { intros n. by destruct (unpend_fields _ _ (Hn n)) as (_ & _ & _ & ?). }
    rewrite !Hp. vm_compute. done.
  - exact (i_callbacks c I).
Qed.

(** ** A concrete run

    The task of high priority is polled in its [start].  A medium computation (two polls)
    is interrupted by the RTC and then by the high priority's tick. *)
Definition go (n : nat) : list Choice := replicate n (Cycle [] []).
(** Another task of the executor of [run_med], which is woken. *)
Definition other_med : Z := 0x20000510.
Definition demo_setup : list Choice :=
  go 11 ++ go 6 ++ [Cycle [(run_med, []); (other_med, [])] []] ++ go 1.
Definition demo_tick : list Choice :=
  [Raise RTC1; Cycle [] [2%nat]] ++ go 2 ++ [Cycle [(run_high, [])] []] ++ go 3 ++ go 3.
Definition demo_c0 : Cpu := default reset (run (go 11) reset).
Definition demo_c1 : Cpu := default reset (run (demo_setup ++ [Raise RTC1]) reset).
Definition demo_c2 : Cpu := default reset (run (tail demo_tick) demo_c1).

Lemma multiprio_spec_witness :
  StartEnd SWI1_EGU1 EXECUTOR_HIGH ∉ thread demo_c0 ∧
  (∃ wakes, Step SWI1_EGU1 (Poll run_high wakes) ∈ log demo_c0) ∧
  (active demo_c1).*1 = [SWI0_EGU0] ∧ calls demo_c1 RTC1 = true ∧
  (∃ l, log demo_c2 = log demo_c1 ++ l ∧
     ((∃ l1 l2, l = l1 ++ Entered RTC1 :: l2 ∧ Forall (above (nvic demo_c1) RTC1) l1) ∨
      Forall (above (nvic demo_c1) RTC1) l)) ∧
  drop (length (log demo_c1)) (log demo_c2) =
    [Entered RTC1; Step RTC1 (TriggerAlarm 2); Entered SWI1_EGU1; Step SWI1_EGU1 (Poll run_high []);
     Step SWI1_EGU1 (SetCallback 2 (Pend SWI1_EGU1)); Step SWI0_EGU0 (Poll other_med []);
     Step SWI0_EGU0 (SetCallback 1 (Pend SWI0_EGU0))].
Proof.
  assert (H1 : run (demo_setup ++ [Raise RTC1]) reset = Some demo_c1) by (vm_compute; reflexivity).
  assert (H2 : run (tail demo_tick) demo_c1 = Some demo_c2) by (vm_compute; reflexivity).
  destruct (multiprio_spec (demo_setup ++ [Raise RTC1]) demo_c1 H1) as (_ & _ & H & _).
  assert (H0 : run (go 11) reset = Some demo_c0) by (vm_compute; reflexivity).
  destruct (multiprio_spec (go 11) demo_c0 H0) as (_ & _ & _ & Hpoll & _).
  assert (Hend : StartEnd SWI1_EGU1 EXECUTOR_HIGH ∉ thread demo_c0).
  { apply (bool_decide_unpack _). vm_compute. exact I. }
  split; [exact Hend|]. split.
  { apply (Hpoll SWI1_EGU1 EXECUTOR_HIGH run_high);
      [apply (bool_decide_unpack _); vm_compute; exact I|exact Hend|vm_compute; reflexivity..]. }
  split; [vm_compute; reflexivity|]. split; [vm_compute; reflexivity|]. split.
  - apply (H RTC1 (tail demo_tick) demo_c2); [|vm_compute; reflexivity|exact H2].
    apply (bool_decide_unpack _). vm_compute. exact I.
  - vm_compute. reflexivity.
Defined.
