(* ===== verification/Sleep.v ===== *)
(** * Sleep: a task that waits for a time is polled in time

    The executor of [Executor] with an alarm, as time goes by: it sleeps, the alarm's
    interrupt rings, it wakes, a pass polls what has expired and sets the alarm again.
    What it needs of the alarm is the class [TimedAlarmLaws]; the nRF's real-time counter
    ([RtcRun]) has the laws.  Passes take time and are run as a whole -- what happens to
    the queues meanwhile is [RunQueueConc]'s matter; interrupts and the clock go on. *)
From S2P Require Import Prelude Time Task RunQueue TimerQueue Executor ExecutorInv.
From S2P Require Import ExecutorProofs Bystander TimerProofs ExecutorThms.
Local Open Scope Z_scope.

(** ** The interface

    [elapse] is what happens at the device apart from its interrupt: a tick, or its use
    by others.  [handler] is that interrupt, and [set] a call of [Alarm::set_callback] and
    [Alarm::set]; both say whether the callback was run. *)
Class TimedAlarm (A : Type) : Type := {
  env : Type;
  time : A → Z;
  elapse : env → A → option A;
  handler : A → option (bool * A);
  set : Z → Z → A → option (bool * A);
  safe : Z → A → bool
}.

(** [armed ts]: the callback has yet to be run, and will be by [ts + delay]. *)
Class TimedAlarmLaws (A : Type) `{!TimedAlarm A} : Type := {
  delay : Z;
  ok : A → Prop;
  armed : Z → A → Prop;
  delay_nonneg : 0 ≤ delay;
  elapse_ok x a a' : ok a → elapse x a = Some a' → ok a' ∧ time a ≤ time a';
  handler_ok a b a' : ok a → handler a = Some (b, a') → ok a' ∧ time a' = time a;
  set_ok ctx ts a b a' : ok a → 0 ≤ ts < 2 ^ 64 → set ctx ts a = Some (b, a') →
    ok a' ∧ time a' = time a;
  set_defined ctx ts a : ok a → 0 ≤ ts < 2 ^ 64 → is_Some (set ctx ts a);
  set_armed ctx ts a a' : ok a → 0 ≤ ts < 2 ^ 64 → safe ts a = true →
    set ctx ts a = Some (false, a') → armed ts a';
  armed_elapse ts x a a' : ok a → armed ts a → elapse x a = Some a' → armed ts a';
  armed_handler ts a a' : ok a → armed ts a → handler a = Some (false, a') → armed ts a';
  armed_bound ts a : ok a → armed ts a → time a ≤ ts + delay
}.

(** ** The system *)
Section sleep.
Context {F U A : Type} `{!TimedAlarm A}.
Implicit Types w : World F U.
Context (fut_poll : F → U → Prog F (F * U * Poll unit)).
Context (D : gset ptr) (E : gset eid) (e : eid).
(** A pass begins within [start_time] ticks after the executor was rung, and takes
    [pass_time] ticks. *)
Context (start_time pass_time : Z).

(** [passing] is when the pass that is running began; [deadline] when the executor's next
    move is due. *)
Record Sys : Type := mkSys {
  world : World F U; dev : A; bell : bool; passing : option Z; deadline : option Z
}.
Definition ring (s : Sys) : Sys :=
  mkSys (world s) (dev s) true (passing s)
    (Some (default (time (dev s) + start_time) (deadline s))).
Definition set_dev (a : A) (s : Sys) : Sys :=
  mkSys (world s) a (bell s) (passing s) (deadline s).
Definition set_world w (s : Sys) : Sys := mkSys w (dev s) (bell s) (passing s) (deadline s).

(** The signal function of the executor was called between the two worlds. *)
Definition signalled w w' : bool :=
  match execs w !! e with
  | Some ex => existsb (λ ev, match ev with EvSignal c => c =? signal_ctx ex | _ => false end)
                 (drop (length (trace w)) (trace w'))
  | None => false
  end.
(** The alarm a pass has set at its end. *)
Definition alarm_of w : option (Z * Z) :=
  match last (trace w), last (removelast (trace w)) with
  | Some (EvSetAlarm _ ts), Some (EvSetCallback _ ctx) => Some (ctx, ts)
  | _, _ => None
  end.

Inductive SAct : Type :=
| Elapse (x : env)
| Interrupt
| Other (c : Call F)
| Begin
| Finish (clock : nat → Z).

Definition sstep (a : SAct) (s : Sys) : option Sys :=
  match a with
  | Elapse x =>
      d ← elapse x (dev s);
      if match deadline s with Some t => time d <=? t | None => true end
      then Some (set_dev d s) else None
  | Interrupt =>
      '(b, d) ← handler (dev s);
      Some (if b : bool then ring (set_dev d s) else set_dev d s)
  | Other c =>
      match passing s, c with
      | None, (CWake _ | CSpawn _ _ _) =>
          '(_, w) ← run_call fut_poll (λ _, time (dev s)) c (world s);
          Some (if signalled (world s) w then ring (set_world w s) else set_world w s)
      | _, _ => None
      end
  | Begin =>
      match passing s, bell s with
      | None, true =>
          let t := time (dev s) in Some (mkSys (world s) (dev s) false (Some t) (Some (t + pass_time)))
      | _, _ => None
      end
  | Finish clock =>
      b ← passing s;
      let t := time (dev s) in
      '(_, w) ← run_queued fut_poll clock e (world s);
      if (b <=? clock (reads (world s))) && (clock (reads (world s)) <=? t) then
        '(ctx, ts) ← alarm_of w;
        if fits 64 ts && safe ts (dev s) then
          '(fired, d) ← set ctx ts (dev s);
          let bell' := bell s || fired || signalled (world s) w in
          Some (mkSys w d bell' None (if bell' then Some (t + start_time) else None))
        else None
      else None
  end.
Fixpoint srun (acts : list SAct) (s : Sys) : option Sys :=
  match acts with [] => Some s | a :: acts' => s' ← sstep a s; srun acts' s' end.

(** Calls refer to existing tasks and executors. *)
Definition act_valid (a : SAct) : Prop :=
  match a with Other c => call_valid D E c | _ => True end.

(** Before anything has run, with the alarm set in the executor. *)
Definition boot_world (u : U) : World F U :=
  let w := boot D E u in
  with_execs (alter set_alarm e (execs w)) w.
Definition sys_boot (u : U) (d : A) : Sys := mkSys (boot_world u) d false None None.

(** ** A task that waits *)
(** What a pass does: it polls a task that waits, or its time has not come, it waits on,
    and the alarm is set for its time or before. *)
Definition has_alarm w : Prop := ∃ ex, execs w !! e = Some ex ∧ alarm ex = true.

Hypothesis Hvalid : ∀ fut u, prog_valid D E (fut_poll fut u).

Lemma pass_waiting clock w : good D E w → has_alarm w →
  ∃ w' ctx ts l, run_queued fut_poll clock e w = Some (tt, w') ∧ good D E w' ∧ has_alarm w' ∧
    alarm_of w' = Some (ctx, ts) ∧ polls (trace w') = polls (trace w) ++ l ∧
    (∀ p at_, Waiting e w' p at_ → ts ≤ Instant.as_ticks at_) ∧
    (∀ p at_, Waiting e w p at_ → at_ ≠ Instant.MAX → p ∉ l →
       clock (reads w) < Instant.as_ticks at_ ∧ Waiting e w' p at_).
Proof using Hvalid.
  intros [HS (rq & tq & I)] (ex & Hex & Hal).
  pose proof (wp_run_queued fut_poll clock D E Hvalid e ex w rq tq I HS Hex) as H.
  apply wp_run in H as ([] & w' & Hr & rq' & tq' & I' & HS' & X & Hp & Ha & Hw).
  destruct (Ha Hal) as (tr & r & Htr & Hearl).
  exists w', (signal_ctx ex), (Instant.as_ticks r), (live w (batch clock e ex w rq tq)).
  split_and!; [done|by split; eauto| | |done| |].
  - destruct (X e ex Hex) as (ex' & ? & _ & ?). exists ex'. split; congruence.
  - unfold alarm_of. rewrite Htr. change ([?a; ?b]) with ([a] ++ [b]).
    by rewrite app_assoc, last_snoc, removelast_last, last_snoc.
  - intros p at_ Hwait. apply (Waiting_tq e w' rq' tq') in Hwait as (Hin & t & Hpt & _ & <- & _); [|done].
    destruct Hearl as [Hle _]. specialize (Hle p Hin). unfold expiry in Hle. by rewrite Hpt in Hle.
  - intros p at_ Hwait Hmax Hn. pose proof Hwait as (t & Hpt & Hs & _).
    destruct (Hw Hal p at_) as [Hlt Hon]; [by apply (Waiting_tq e w rq tq)| |done|].
    { intros Hin. apply Hn. by apply (elem_of_live w _ p t Hpt). }
    split; [|by apply (Waiting_tq e w' rq' tq')].
    unfold Instant.leb in Hlt. by apply Z.leb_gt in Hlt.
Qed.

(** What a call from outside does to those that wait: nothing. *)
Lemma Waiting_insert w w' q t t' p at_ : heap w !! q = Some t →
  heap w' = <[q := t']> (heap w) →
  (p = q → (spawned t' = true ∧ executor (raw t') = Some e ∧ expires_at (raw t') = at_ ∧
              timer_queued_flag t' = true) ↔
           (spawned t = true ∧ executor (raw t) = Some e ∧ expires_at (raw t) = at_ ∧
              timer_queued_flag t = true)) →
  Waiting e w' p at_ ↔ Waiting e w p at_.
Proof.
  intros Hq Hh Hiff. unfold Waiting. rewrite Hh. destruct (decide (p = q)) as [->|Hne].
  - rewrite lookup_insert_eq, Hq. specialize (Hiff eq_refl).
    split; intros (t0 & [= <-] & ?); eexists; (split; [done|tauto]).
  - by rewrite lookup_insert_ne.
Qed.

Lemma Waiting_enqueued_at w e1 ex q t p at_ : heap w !! q = Some t →
  Waiting e (enqueued e1 ex q (mark_queued t) w) p at_ ↔ Waiting e w p at_.
Proof.
  intros Hq. eapply Waiting_insert; [done|reflexivity|]. intros _.
  destruct (mark_queued_flags t) as (H1 & _ & H3).
  change (spawned (upd_raw (set_run_next (run_queue ex)) (mark_queued t)))
    with (spawned (mark_queued t)).
  change (timer_queued_flag (upd_raw (set_run_next (run_queue ex)) (mark_queued t)))
    with (timer_queued_flag (mark_queued t)).
  by rewrite H1, H3.
Qed.

Definition outside (c : Call F) : Prop :=
  match c with CWake _ | CSpawn _ _ _ => True | _ => False end.

Lemma has_alarm_frame w w' : Frame [] w w' → has_alarm w → has_alarm w'.
Proof.
  intros Fr (ex & Hex & Hal). destruct (fr_exec _ _ _ Fr e ex Hex) as (ex' & ? & _ & ?).
  exists ex'. split; congruence.
Qed.

Lemma call_waiting clock c w : good D E w → has_alarm w → call_valid D E c → outside c →
  ∃ w', run_call fut_poll clock c w = Some (tt, w') ∧ good D E w' ∧ has_alarm w' ∧
    polls (trace w') = polls (trace w) ∧ ∀ p at_, Waiting e w' p at_ ↔ Waiting e w p at_.
Proof using Hvalid.
  intros Hg Ha Hc Ho. pose proof (wp_call fut_poll clock D E Hvalid c w Hg Hc) as Hgood.
  apply wp_run in Hgood as ([] & w' & Hr & Hg'). exists w'. split; [done|]. split; [done|].
  destruct Hg as [[HD HE] (rq & tq & I)].
  destruct c as [q|e' pool fut| | |]; try done; cbn [run_call] in Hr.
  - destruct (heap w !! q) as [t|] eqn:Hq.
    2:{ apply not_elem_of_dom in Hq. cbn in Hc. by rewrite HD in Hc. }
    pose proof (wp_wake q t w rq tq [] None I Hq) as H. unfold wake_task in Hr.
    apply wp_run in H as (u & w0 & Hr0 & rq' & _ & Fr & _ & Hcase). rewrite Hr in Hr0.
    injection Hr0 as <- <-. split_and!; [by eapply has_alarm_frame|apply Fr|].
    intros p at_. destruct (wakeable t); [|by destruct Hcase as [_ ->]].
    destruct Hcase as (e1 & ex & Hx & _ & _ & ->). by apply Waiting_enqueued_at.
  - destruct Hc as [He Hpool].
    assert (Hall : Forall (λ q, is_Some (heap w !! q)) pool).
    { eapply Forall_impl; [exact Hpool|]. intros q. rewrite HD. apply elem_of_dom. }
    pose proof (wp_spawn e' pool fut w rq tq [] None I Hall (HE e' He)) as H.
    apply wp_run in H as (r & w0 & Hr0 & Hcase).
    assert (w0 = w') as ->.
    { unfold mbind, M_bind in Hr, Hr0. destruct (Task_spawn_pool pool fut w) as [[tk w1]|]; [|done].
      rewrite Hr0 in Hr. by injection Hr. }
    destruct (first_free w pool) as [q|] eqn:Hff; [|destruct Hcase as [_ ->]; done].
    destruct Hcase as (t & ex & Hq & _ & _ & -> & _ & Fr & _).
    split_and!; [by eapply has_alarm_frame|apply Fr|]. intros p at_.
    eapply Waiting_insert; [exact Hq|reflexivity|]. intros _.
    destruct (first_free_Some w pool q Hff) as (_ & t0 & Hq0 & Hz).
    rewrite Hq in Hq0. injection Hq0 as <-. destruct (fresh_flags e' fut t Hz) as (_ & _ & H3 & H4 & _).
    change (timer_queued_flag (upd_raw (set_run_next (run_queue ex)) (fresh e' fut t)))
      with (timer_queued_flag (fresh e' fut t)).
    rewrite H3, H4. split; intros (? & ? & ? & ?); done.
Qed.

(** ** The invariant *)
Context `{!TimedAlarmLaws A}.
Hypothesis Htimes : 0 ≤ start_time ∧ 0 ≤ pass_time.

(** While the executor sleeps the alarm is armed for everyone who waits. *)
Definition covered (s : Sys) : Prop :=
  ∀ p at_, Waiting e (world s) p at_ → at_ ≠ Instant.MAX →
    ∃ ts, armed ts (dev s) ∧ ts ≤ Instant.as_ticks at_.
Definition timed (s : Sys) : Prop :=
  match passing s, bell s, deadline s with
  | Some b, _, Some d => d = b + pass_time ∧ b ≤ time (dev s) ≤ d
  | None, true, Some d => time (dev s) ≤ d ≤ time (dev s) + start_time
  | None, false, None => True
  | _, _, _ => False
  end.
Record SInv (s : Sys) : Prop := {
  si_good : good D E (world s);
  si_alarm : has_alarm (world s);
  si_ok : ok (dev s);
  si_timed : timed s;
  si_covered : passing s = None → bell s = false → covered s
}.

(** A task that has been waiting since [t0] for [at_] and has not been polled. *)
Definition latest (t0 at_ : Z) : Z := Z.max t0 at_ + delay + pass_time + start_time.
Definition in_time (t0 : Z) (p : ptr) (at_ : Instant.t) (s : Sys) : Prop :=
  Waiting e (world s) p at_ ∧
  match passing s, bell s with
  | Some b, _ => b ≤ latest t0 (Instant.as_ticks at_)
  | None, true => ∀ d, deadline s = Some d → d ≤ latest t0 (Instant.as_ticks at_)
  | None, false => ∃ ts, armed ts (dev s) ∧ ts ≤ Instant.as_ticks at_
  end.

Lemma in_time_bound t0 p at_ s : SInv s → in_time t0 p at_ s →
  time (dev s) ≤ latest t0 (Instant.as_ticks at_) + pass_time.
Proof using Htimes.
  intros [_ _ Hok Hm _] [_ Ht]. unfold timed in Hm. pose proof delay_nonneg.
  destruct (passing s) as [b|], (bell s), (deadline s) as [d|]; try done; try lia.
  - specialize (Ht d eq_refl). lia.
  - destruct Ht as (ts & Harm & Hle). pose proof (armed_bound ts _ Hok Harm). unfold latest. lia.
Qed.

Lemma in_time_start p at_ s : SInv s → at_ ≠ Instant.MAX → Waiting e (world s) p at_ →
  in_time (time (dev s)) p at_ s.
Proof using Htimes.
  intros [_ _ Hok Hm Hc] Hmax Hw. split; [done|]. unfold timed in Hm. pose proof delay_nonneg.
  unfold latest. destruct (passing s) as [b|], (bell s), (deadline s) as [d|]; try done; try lia.
  - intros ? [= <-]. lia.
  - by apply (Hc eq_refl eq_refl p).
Qed.

(** *** Ringing *)
Lemma timed_ring d s : timed s → time d = time (dev s) → timed (ring (set_dev d s)).
Proof using Htimes.
  unfold timed. cbn. intros Ht ->. destruct (passing s), (bell s), (deadline s); simpl; try done; lia.
Qed.

Lemma in_time_ring t0 p at_ d s : SInv s → in_time t0 p at_ s → time d = time (dev s) →
  in_time t0 p at_ (ring (set_dev d s)).
Proof using Htimes.
  intros [_ _ Hok Hm _] [Hw Ht] Hd. split; [done|]. unfold timed in Hm. cbn.
  destruct (passing s) as [b|]; [done|]. intros d' [= <-].
  destruct (bell s), (deadline s) as [d0|]; try done; simpl; [by apply Ht|].
  destruct Ht as (ts & Harm & Hle). pose proof (armed_bound ts _ Hok Harm). unfold latest. lia.
Qed.

Lemma SInv_ring d s : SInv s → ok d → time d = time (dev s) → SInv (ring (set_dev d s)).
Proof using Htimes.
  intros [Hg Ha Hok Hm Hc] Hd Ht. split; try done. by apply timed_ring.
Qed.

(** *** The steps *)
Lemma elapse_step x s s' : SInv s → sstep (Elapse x) s = Some s' →
  SInv s' ∧ world s' = world s ∧ ∀ t0 p at_, in_time t0 p at_ s → in_time t0 p at_ s'.
Proof using Htimes.
  intros [Hg Ha Hok Hm Hc]. cbn [sstep]. intros (d & Hd & Hs)%bind_Some.
  destruct (match deadline s with Some t => time d <=? t | None => true end) eqn:Hle; [|done].
  injection Hs as <-. destruct (elapse_ok x _ d Hok Hd) as [Hok' Ht]. split_and!; [|done|].
  - split; try done.
    + unfold timed in *. cbn. destruct (passing s), (bell s), (deadline s); try done; lia.
    + cbn. intros Hp Hb p at_ Hw Hmax. destruct (Hc Hp Hb p at_ Hw Hmax) as (ts & Harm & ?).
      exists ts. split; [|done]. exact (armed_elapse ts x _ d Hok Harm Hd).
  - intros t0 p at_ [Hw Hi]. split; [done|]. cbn. destruct (passing s); [done|].
    destruct (bell s); [done|]. destruct Hi as (ts & Harm & ?). exists ts.
    split; [|done]. exact (armed_elapse ts x _ d Hok Harm Hd).
Qed.

Lemma interrupt_step s s' : SInv s → sstep Interrupt s = Some s' →
  SInv s' ∧ world s' = world s ∧ ∀ t0 p at_, in_time t0 p at_ s → in_time t0 p at_ s'.
Proof using Htimes.
  intros I. cbn [sstep]. intros ([b d] & Hd & Hs)%bind_Some. injection Hs as <-.
  pose proof I as [Hg Ha Hok Hm Hc]. destruct (handler_ok _ b d Hok Hd) as [Hok' Ht]. destruct b.
  - split_and!; [by apply SInv_ring|done|]. intros t0 p at_ Hi. by apply in_time_ring.
  - split_and!; [|done|].
    + split; try done.
      * unfold timed in *. cbn. by rewrite Ht.
      * cbn. intros Hp Hb p at_ Hw Hmax. destruct (Hc Hp Hb p at_ Hw Hmax) as (ts & Harm & ?).
        exists ts. split; [|done]. exact (armed_handler ts _ d Hok Harm Hd).
    + intros t0 p at_ [Hw Hi]. split; [done|]. cbn. destruct (passing s); [done|].
      destruct (bell s); [done|]. destruct Hi as (ts & Harm & ?). exists ts.
      split; [|done]. exact (armed_handler ts _ d Hok Harm Hd).
Qed.

Lemma other_step c s s' : SInv s → call_valid D E c → sstep (Other c) s = Some s' →
  SInv s' ∧ polls (trace (world s')) = polls (trace (world s)) ∧
  ∀ t0 p at_, in_time t0 p at_ s → in_time t0 p at_ s'.
Proof using Hvalid Htimes.
  intros I Hc Hs. pose proof I as [Hg Ha Hok Hm Hcov]. cbn [sstep] in Hs.
  assert (Ho : outside c ∧ passing s = None ∧
    ('(_, w) ← run_call fut_poll (λ _, time (dev s)) c (world s);
     Some (if signalled (world s) w then ring (set_world w s) else set_world w s)) = Some s').
  { destruct (passing s); [done|]. by destruct c. }
  destruct Ho as (Ho & Hp & Hs'). clear Hs.
  destruct (call_waiting (λ _, time (dev s)) c (world s) Hg Ha Hc Ho) as (w & Hr & Hg' & Ha' & Hpl & Hw).
  rewrite Hr in Hs'. cbn [mbind option_bind] in Hs'. injection Hs' as <-.
  assert (I' : SInv (set_world w s)).
  { split; try done. cbn. intros _ Hb p at_ Hwt Hmax. apply (Hcov Hp Hb p); [by apply Hw|done]. }
  assert (Hi' : ∀ t0 p at_, in_time t0 p at_ s → in_time t0 p at_ (set_world w s)).
  { intros t0 p at_ [Hwt Hi]. split; [by apply Hw|done]. }
  destruct (signalled (world s) w); [|done]. split_and!; [|done|].
  - by apply (SInv_ring (dev s) (set_world w s)).
  - intros t0 p at_ Hi. apply (in_time_ring t0 p at_ (dev s) (set_world w s)); auto.
Qed.

Lemma begin_step s s' : SInv s → sstep Begin s = Some s' →
  SInv s' ∧ world s' = world s ∧ ∀ t0 p at_, in_time t0 p at_ s → in_time t0 p at_ s'.
Proof using Htimes.
  intros [Hg Ha Hok Hm Hc]. cbn [sstep]. unfold timed in Hm.
  destruct (passing s) as [|] eqn:Hp; [done|]. destruct (bell s) eqn:Hb; [|done].
  destruct (deadline s) as [d|] eqn:Hd; [|done]. intros [= <-]. split_and!; [|done|].
  - split; try done. unfold timed. cbn. lia.
  - intros t0 p at_ [Hw Hi]. split; [done|]. cbn. rewrite Hp, Hb, Hd in Hi.
    specialize (Hi d eq_refl). lia.
Qed.

(** A pass polls a task that waits, or its time has not come; a task that waits when the
    pass ends, and whose time had not come when it began, is still in time. *)
Lemma finish_step clock s s' : SInv s → sstep (Finish clock) s = Some s' →
  SInv s' ∧ run_queued fut_poll clock e (world s) = Some (tt, world s') ∧
  ∃ l, polls (trace (world s')) = polls (trace (world s)) ++ l ∧
    (∀ p at_, Waiting e (world s) p at_ → at_ ≠ Instant.MAX → p ∉ l →
       clock (reads (world s)) < Instant.as_ticks at_ ∧ Waiting e (world s') p at_) ∧
    ∀ t0 p at_, in_time t0 p at_ s → clock (reads (world s)) < Instant.as_ticks at_ →
      Waiting e (world s') p at_ → in_time t0 p at_ s'.
Proof using Hvalid Htimes.
  intros [Hg Ha Hok Hm Hc]. cbn [sstep]. unfold timed in Hm. pose proof delay_nonneg as Hdel.
  destruct (passing s) as [b|] eqn:Hp; [|done]. destruct (deadline s) as [dl|] eqn:Hdl; [|done].
  cbn [mbind option_bind].
  destruct (pass_waiting clock (world s) Hg Ha) as
    (w & ctx & ts & l & Hr & Hg' & Ha' & Hal & Hpl & Hcov & Hwait). rewrite Hr.
  cbn [mbind option_bind]. rewrite Hal. cbn [mbind option_bind].
  destruct (_ && _) eqn:Hclk; [|done]. apply andb_true_iff in Hclk as [Hc1%Z.leb_le Hc2%Z.leb_le].
  destruct (fits 64 ts && safe ts (dev s)) eqn:Hsafe; [|done].
  apply andb_true_iff in Hsafe as [Hfit%fits_spec Hsafe].
  intros ([fired d] & Hset & Hs)%bind_Some. injection Hs as <-.
  destruct (set_ok ctx ts _ fired d Hok Hfit Hset) as [Hok' Ht].
  set (bell' := bell s || fired || signalled (world s) w).
  assert (Harm : bell' = false → armed ts d).
  { intros [[_ ->]%orb_false_iff _]%orb_false_iff. exact (set_armed ctx ts _ d Hok Hfit Hsafe Hset). }
  split; [|split; [done|exists l; split_and!; [done|exact Hwait|]]].
  - split; try done; [|].
    + unfold timed. cbn. rewrite Ht. destruct bell'; lia.
    + cbn. intros _ Hb p at_ Hw _. exists ts. split; [by apply Harm|by eapply Hcov].
  - intros t0 p at_ [Hw Hi] Hlt Hw'. split; [done|]. cbn.
    destruct bell' eqn:Hb'.
    + intros d' [= <-]. unfold latest. lia.
    + exists ts. split; [by apply Harm|by eapply Hcov].
Qed.

Lemma finish_defined s b clock : SInv s → passing s = Some b →
  b ≤ clock (reads (world s)) ≤ time (dev s) →
  ∃ w ctx ts, run_queued fut_poll clock e (world s) = Some (tt, w) ∧ alarm_of w = Some (ctx, ts) ∧
    (fits 64 ts = true → safe ts (dev s) = true → is_Some (sstep (Finish clock) s)).
Proof using Hvalid.
  intros [Hg Ha Hok _ _] Hp Hclk.
  destruct (pass_waiting clock (world s) Hg Ha) as (w & ctx & ts & l & Hr & _ & _ & Hal & _).
  exists w, ctx, ts. split_and!; [done|done|]. intros Hf Hs. cbn [sstep]. rewrite Hp, Hr.
  cbn [mbind option_bind]. rewrite !(proj2 (Z.leb_le _ _)) by lia. cbn [andb]. rewrite Hal.
  cbn [mbind option_bind]. rewrite Hf, Hs. cbn [andb].
  apply fits_spec in Hf. by destruct (set_defined ctx ts (dev s) Hok Hf) as [[fired d] ->].
Qed.

(** ** Runs *)
Lemma sstep_inv a s s' : SInv s → act_valid a → sstep a s = Some s' →
  SInv s' ∧ ∃ l, polls (trace (world s')) = polls (trace (world s)) ++ l ∧
    ∀ t0 p at_, at_ ≠ Instant.MAX → in_time t0 p at_ s → p ∈ l ∨ in_time t0 p at_ s'.
Proof using Hvalid Htimes.
  intros I Ha Hs. destruct a as [x| |c| |clock].
  - destruct (elapse_step x s s' I Hs) as (I' & -> & Hi). split; [done|]. exists [].
    rewrite app_nil_r. auto.
  - destruct (interrupt_step s s' I Hs) as (I' & -> & Hi). split; [done|]. exists [].
    rewrite app_nil_r. auto.
  - destruct (other_step c s s' I Ha Hs) as (I' & -> & Hi). split; [done|]. exists [].
    rewrite app_nil_r. auto.
  - destruct (begin_step s s' I Hs) as (I' & -> & Hi). split; [done|]. exists [].
    rewrite app_nil_r. auto.
  - destruct (finish_step clock s s' I Hs) as (I' & _ & l & Hl & Hwait & Hi). split; [done|].
    exists l. split; [done|]. intros t0 p at_ Hmax Ht.
    destruct (decide (p ∈ l)) as [|Hn]; [by left|right].
    destruct (Hwait p at_ (proj1 Ht) Hmax Hn). by apply Hi.
Qed.

Lemma srun_inv acts : ∀ s s', SInv s → Forall act_valid acts → srun acts s = Some s' →
  SInv s' ∧ ∃ l, polls (trace (world s')) = polls (trace (world s)) ++ l ∧
    ∀ t0 p at_, at_ ≠ Instant.MAX → in_time t0 p at_ s → p ∈ l ∨ in_time t0 p at_ s'.
Proof using Hvalid Htimes.
  induction acts as [|a acts IH]; intros s s' I Ha; cbn [srun].
  { intros [= <-]. split; [done|]. exists []. rewrite app_nil_r. auto. }
  apply Forall_cons in Ha as [Ha Has]. intros (s1 & H1 & H2)%bind_Some.
  destruct (sstep_inv a s s1 I Ha H1) as (I1 & l1 & E1 & W1).
  destruct (IH s1 s' I1 Has H2) as (I2 & l2 & E2 & W2). split; [done|].
  exists (l1 ++ l2). rewrite E2, E1, app_assoc. split; [done|]. intros t0 p at_ Hmax Hi.
  rewrite elem_of_app. destruct (W1 t0 p at_ Hmax Hi) as [?|Hi1]; [auto|].
  destruct (W2 t0 p at_ Hmax Hi1); auto.
Qed.

Lemma boot_inv u d : e ∈ E → ok d → SInv (sys_boot u d).
Proof.
  intros He Hok. assert (Hgood : good D E (boot_world u)).
  { destruct (boot_good (F := F) D E u) as [[HD HE] (rq & tq & I)]. destruct (HE e He) as [ex Hex].
    assert (Hal : alter set_alarm e (execs (boot D E u : World F U)) =
      <[e := set_alarm ex]> (execs (boot D E u : World F U))).
    { apply map_eq. intros e'. destruct (decide (e' = e)) as [->|Hne].
      - by rewrite lookup_alter_eq, lookup_insert_eq, Hex.
      - by rewrite lookup_alter_ne, lookup_insert_ne. }
    split.
    - exact (in_scope_insert D E _ (boot_world u) e ex (set_alarm ex) (conj HD HE) Hex eq_refl Hal).
    - exists rq, tq.
      exact (Inv_exec_update _ (boot_world u) rq tq [] None e ex (set_alarm ex) I Hex
               eq_refl eq_refl eq_refl Hal). }
  split; try done.
  - exists (set_alarm (Executor_new 0)). split; [|done]. unfold boot_world. simpl.
    rewrite lookup_alter_eq. apply fmap_Some. exists (Executor_new 0).
    by rewrite lookup_gset_to_gmap_Some.
  - intros _ _ p at_ (t & Hp & Hs & _). cbn in Hp.
    apply lookup_gset_to_gmap_Some in Hp as [_ <-]. done.
Qed.
End sleep.
