(* ===== verification/SleepRtc.v ===== *)
(** * SleepRtc: a task that sleeps on an nRF

    The real-time counter of [RtcRun] as the alarm of the executor of [Sleep]: [n] is the
    alarm the executor has been given, the other alarms have other owners, who set them as
    they like.  Then what [Sleep] comes to: a task that waits is polled in time. *)
From S2P Require Import Prelude Time Task TimerQueue Executor ExecutorInv ExecutorProofs ExecutorThms.
From S2P Require Import NrfRtc RtcRun Sleep.
Local Open Scope Z_scope.

Section rtc.
Context {P : Profile} (Hrelease : overflow_checks = false).
Context (latency : Z) (Hlatency : 0 ≤ latency ≤ 2 ^ 22 - 3) (n : nat) (Hn : (n < 3)%nat).

(** The callback of the alarm: what the executor last gave it. *)
Definition callback_of (m : Timed) : option (Z * Z) := alarms (rtc m) !! n ≫= callback.

Definition rtc_elapse (x : list bool + nat * Z) (m : Timed) : option Timed :=
  match x with
  | inl hits => rtc_tick latency hits m
  | inr (k, ts) =>
      if bool_decide (k < 3)%nat && bool_decide (k ≠ n) && fits 64 ts
      then snd <$> rtc_set latency k ts m else None
  end.
Definition rtc_handler (m : Timed) : option (bool * Timed) :=
  '(l, m') ← rtc_irq latency m;
  Some (bool_decide (n ∈ l) && bool_decide (is_Some (callback_of m)), m').
(** [Alarm::set_callback] and [Alarm::set]; the function is the executor's. *)
Definition with_callback (ctx : Z) (m : Timed) : Timed :=
  mkTimed (RtcRun.time m) (set_callback_cell n (0, ctx) (rtc m)) (written m) (due m).
Definition rtc_alarm_set (ctx ts : Z) (m : Timed) : option (bool * Timed) :=
  match set_alarm_callback n (0, ctx) (rtc m) with
  | Done _ => rtc_set latency n ts (with_callback ctx m)
  | Panic => None
  end.

Instance rtc_timed : TimedAlarm Timed := {
  env := list bool + nat * Z;
  time := RtcRun.time;
  elapse := rtc_elapse;
  handler := rtc_handler;
  set := rtc_alarm_set;
  safe := set_safe latency
}.

Definition rtc_armed (ts : Z) (m : Timed) : Prop := Waits latency n ts m ∧ is_Some (callback_of m).

Lemma with_callback_ok ctx m : TOk latency m → TOk latency (with_callback ctx m).
Proof.
  intros [A1 A2 A3 A4 A5 A6 A7 A8 A9 A10 A11 A12]. split; try done.
  - destruct A3 as (? & ? & ?). split_and!; try done. cbn. by rewrite length_alter.
  - cbn. apply Forall_alter; [done|]. by intros a _ Ha.
Qed.

Lemma callback_with ctx m : TOk latency m → callback_of (with_callback ctx m) = Some (0, ctx).
Proof using Hn.
  intros O. destruct (alarm_some _ n (ok_shape _ m O) Hn) as [a Ha].
  unfold callback_of. cbn. by rewrite list_lookup_alter_eq, Ha.
Qed.

Lemma rtc_elapse_spec x m m' : TOk latency m → rtc_elapse x m = Some m' →
  TOk latency m' ∧ RtcRun.time m ≤ RtcRun.time m' ∧ callback_of m' = callback_of m ∧
  ∀ ts, Waits latency n ts m → Waits latency n ts m'.
Proof using Hlatency Hn.
  intros O. destruct x as [hits|[k ts]]; cbn [rtc_elapse].
  - intros Hm. destruct (tick_ok latency Hlatency hits m m' O Hm) as [O' Ht].
    split_and!; [done|lia| |].
    + unfold rtc_tick in Hm. destruct (_ || _); [done|]. by injection Hm as <-.
    + intros ts W. exact (waits_tick latency n ts hits m m' O Hn W Hm).
  - destruct (_ && _) eqn:Hg; [|done]. apply andb_true_iff in Hg as [Hg Hts%fits_spec].
    apply andb_true_iff in Hg as [Hk%bool_decide_eq_true Hne%bool_decide_eq_true].
    intros ([b m1] & Hm & ->)%fmap_Some.
    destruct (set_run latency k ts m b m1 O Hk Hts Hm) as (_ & H & Ht & _). cbn [snd].
    split_and!; [by eapply RtcRun.set_ok|lia| |].
    + unfold callback_of. by destruct (st_others _ _ _ _ _ H n) as [-> _].
    + intros ts' W. exact (waits_other latency n ts' k ts b m m1 O Hn Hk Hne Hts W Hm).
Qed.

Lemma rtc_handler_spec b m m' : TOk latency m → rtc_handler m = Some (b, m') →
  TOk latency m' ∧ RtcRun.time m' = RtcRun.time m ∧ callback_of m' = callback_of m ∧
  ∀ ts, b = false → rtc_armed ts m → Waits latency n ts m'.
Proof using Hrelease Hlatency Hn.
  intros O. unfold rtc_handler. intros ([l m1] & Hm & Hs)%bind_Some. injection Hs as <- <-.
  destruct (irq_handled Hrelease latency m l m1 O Hm) as (_ & _ & H & Ht & _).
  split_and!; [by eapply irq_ok|done| |].
  - unfold callback_of. destruct (alarm_some _ n (ok_shape _ m O) Hn) as [a Ha].
    rewrite (h_alarm _ _ H n a Ha), Ha. by destruct (event n _).
  - intros ts Hb [W Hc]. rewrite (bool_decide_true _ Hc), andb_true_r in Hb.
    apply bool_decide_eq_false in Hb.
    by destruct (waits_irq Hrelease latency Hlatency n ts l m m1 O Hn W Hm).
Qed.

Lemma rtc_alarm_set_spec ctx ts b m m' : TOk latency m → 0 ≤ ts < 2 ^ 64 →
  rtc_alarm_set ctx ts m = Some (b, m') →
  rtc_set latency n ts (with_callback ctx m) = Some (b, m').
Proof using Hn.
  intros O Hts. unfold rtc_alarm_set, set_alarm_callback.
  by destruct (alarm_some _ n (ok_shape _ m O) Hn) as [a ->].
Qed.

Lemma rtc_set_armed ctx ts m m' : TOk latency m → 0 ≤ ts < 2 ^ 64 → set_safe latency ts m = true →
  rtc_alarm_set ctx ts m = Some (false, m') → rtc_armed ts m'.
Proof using Hlatency Hn.
  intros O Hts Hsafe Hm. apply (rtc_alarm_set_spec ctx ts false m m' O Hts) in Hm.
  pose proof (with_callback_ok ctx m O) as O'.
  destruct (waits_set latency Hlatency n ts false _ m' O' Hn Hts Hsafe Hm) as [_ W].
  split; [exact W|]. destruct (set_run latency n ts _ false m' O' Hn Hts Hm) as (_ & H & _).
  pose proof (callback_with ctx m O) as Hc. unfold callback_of in *.
  destruct (alarm_some _ n (ok_shape _ _ O') Hn) as [a Ha].
  rewrite (st_alarm _ _ _ _ _ H a Ha). rewrite Ha in Hc. by eexists.
Qed.

Lemma rtc_set_kept ctx ts m b m' : TOk latency m → 0 ≤ ts < 2 ^ 64 →
  rtc_alarm_set ctx ts m = Some (b, m') → TOk latency m' ∧ RtcRun.time m' = RtcRun.time m.
Proof using Hlatency Hn.
  intros O Hts Hm. apply (rtc_alarm_set_spec ctx ts b m m' O Hts) in Hm.
  pose proof (with_callback_ok ctx m O) as O'.
  destruct (set_run latency n ts _ b m' O' Hn Hts Hm) as (_ & _ & Ht & _).
  split; [|exact Ht]. exact (RtcRun.set_ok latency Hlatency n ts _ b m' O' Hn Hts Hm).
Qed.

Lemma rtc_set_defined ctx ts m : TOk latency m → 0 ≤ ts < 2 ^ 64 →
  is_Some (rtc_alarm_set ctx ts m).
Proof using Hn.
  intros O Hts. unfold rtc_alarm_set, set_alarm_callback.
  destruct (alarm_some _ n (ok_shape _ m O) Hn) as [a ->]. cbn.
  apply RtcRun.set_defined; [by apply with_callback_ok|done..].
Qed.

Lemma latency_nonneg : 0 ≤ latency + 2.
Proof using Hlatency. clear -Hlatency. lia. Qed.

#[refine] Instance rtc_laws : TimedAlarmLaws Timed := {
  delay := latency + 2;
  ok := TOk latency;
  armed := rtc_armed;
  delay_nonneg := latency_nonneg;
  Sleep.set_ok := rtc_set_kept;
  Sleep.set_defined := rtc_set_defined;
  Sleep.set_armed := rtc_set_armed
}.
Proof.
  - intros x m m' O Hm. by destruct (rtc_elapse_spec x m m' O Hm) as (? & ? & _).
  - intros m b m' O Hm. by destruct (rtc_handler_spec b m m' O Hm) as (? & ? & _).
  - intros ts x m m' O [W Hc] Hm. destruct (rtc_elapse_spec x m m' O Hm) as (_ & _ & E & HW).
    split; [by apply HW|by rewrite E].
  - intros ts m m' O A Hm. destruct (rtc_handler_spec false m m' O Hm) as (_ & _ & E & HW).
    split; [by apply HW|]. rewrite E. apply A.
  - intros ts m O [W _]. pose proof (waits_bound latency Hlatency n ts m O W). cbn. lia.
Defined.
End rtc.

Section properties.
Context {F U A : Type} `{!TimedAlarm A} `{!TimedAlarmLaws A}.
Context (fut_poll : F → U → Prog F (F * U * Poll unit)).
Context (D : gset ptr) (E : gset eid) (e : eid) (start_time pass_time : Z).
Hypothesis Hvalid : ∀ fut u, prog_valid D E (fut_poll fut u).
Hypothesis Htimes : 0 ≤ start_time ∧ 0 ≤ pass_time.

(** ** Properties *)

(** C10: A task waits for a time in the executor's timer queue; until it is polled, the time is
    at most that time (or when the task was first seen waiting, if that is later), plus
    what the alarm is late by, the start of a pass and twice its length: once for the pass
    that runs when the alarm rings, once for the one that polls the task.  Whatever
    happens meanwhile: interrupts that come early or late or are others', tasks woken and
    spawned by others, passes that poll other tasks or this one's neighbours and set the
    alarm again.  The assumption is that passes set the alarm safely ([safe]: the nRF's
    counter has times for which setting an alarm loses it).  And the executor can always
    move on: a pass that is due can begin, and one that runs ends, with its alarm set. *)
Theorem sleeper_polled_in_time u d acts0 acts1 s0 s1 p at_ l :
  e ∈ E → ok d → Forall (act_valid D E) acts0 → Forall (act_valid D E) acts1 →
  srun fut_poll e start_time pass_time acts0 (sys_boot D E e u d) = Some s0 →
  srun fut_poll e start_time pass_time acts1 s0 = Some s1 →
  Waiting e (world s0) p at_ → at_ ≠ Instant.MAX →
  polls (trace (world s1)) = polls (trace (world s0)) ++ l → p ∉ l →
  Waiting e (world s1) p at_ ∧
  time (dev s1) ≤ Z.max (time (dev s0)) (Instant.as_ticks at_) + delay + start_time + 2 * pass_time ∧
  (passing s1 = None → bell s1 = true → is_Some (sstep fut_poll e start_time pass_time Begin s1)) ∧
  (∀ b clock, passing s1 = Some b → b ≤ clock (reads (world s1)) ≤ time (dev s1) →
     ∃ w ctx ts, run_queued fut_poll clock e (world s1) = Some (tt, w) ∧
       alarm_of w = Some (ctx, ts) ∧
       (fits 64 ts = true → safe ts (dev s1) = true →
        is_Some (sstep fut_poll e start_time pass_time (Finish clock) s1))).
Proof using Hvalid Htimes.
  intros He Hok Ha0 Ha1 Hr0 Hr1 Hw Hmax Hl Hp.
  pose proof (boot_inv (F := F) D E e start_time pass_time u d He Hok) as I.
  destruct (srun_inv fut_poll D E e start_time pass_time Hvalid Htimes acts0 _ s0 I Ha0 Hr0) as [I0 _].
  destruct (srun_inv fut_poll D E e start_time pass_time Hvalid Htimes acts1 s0 s1 I0 Ha1 Hr1)
    as (I1 & l' & Hl' & Hi).
  rewrite Hl' in Hl. apply app_inv_head in Hl as ->.
  pose proof (in_time_start D E e start_time pass_time Htimes p at_ s0 I0 Hmax Hw) as Hs.
  destruct (Hi _ p at_ Hmax Hs) as [?|Hin]; [done|].
  pose proof (in_time_bound D E e start_time pass_time Htimes _ p at_ s1 I1 Hin) as Hb.
  unfold latest in Hb. split_and!; [apply Hin|lia| |].
  - intros Hps Hbell. cbn [sstep]. by rewrite Hps, Hbell.
  - intros b clock. exact (finish_defined fut_poll D E e start_time pass_time Hvalid s1 b clock I1).
Qed.
End properties.

(** ** A concrete run

    The task of [ExecutorThms.demo_poll] is spawned at time 0, polled, and waits for tick
    10.  The alarm rings then, and a pass begins that polls it. *)
Definition demo_latency : Z := 10.
#[local] Instance demo_profile : Profile := false.
#[local] Instance demo_timed : TimedAlarm Timed := rtc_timed demo_latency 0.
#[local] Instance demo_laws : TimedAlarmLaws Timed :=
  rtc_laws (P := false) eq_refl demo_latency ltac:(unfold demo_latency; lia) 0 ltac:(lia).
Definition demo_run := srun (A := Timed) demo_poll 1%positive 2 3.
Definition demo_acts0 : list (SAct (F := nat) (A := Timed)) :=
  [Other (CSpawn 1%positive [1; 2]%positive 2%nat); Begin; Elapse (inl []); Finish (λ _, 0)].
Definition demo_acts1 : list (SAct (F := nat) (A := Timed)) :=
  replicate 9 (Elapse (inl [])) ++ [Interrupt; Begin; Elapse (inl [])].
Definition demo_boot : Sys (F := nat) (U := unit) (A := Timed) := sys_boot demo_D demo_E 1%positive tt demo_start.
Definition demo_s0 : Sys (F := nat) (U := unit) (A := Timed) := default demo_boot (demo_run demo_acts0 demo_boot).
Definition demo_s1 : Sys (F := nat) (U := unit) (A := Timed) := default demo_boot (demo_run demo_acts1 demo_s0).
Definition demo_s2 : Sys (F := nat) (U := unit) (A := Timed) := default demo_boot (demo_run [Finish (λ _, 10)] demo_s1).

Lemma default_run {B} (o : option B) d : is_Some o → o = Some (default d o).
Proof. by intros [x ->]. Qed.

Lemma sleeper_polled_in_time_witness :
  Waiting 1%positive (world demo_s0) 1%positive (Instant.mk 10) ∧
  time (dev demo_s1) = 11 ∧ passing demo_s1 = Some 10 ∧
  Waiting 1%positive (world demo_s1) 1%positive (Instant.mk 10) ∧
  time (dev demo_s1) ≤ Z.max 1 10 + (demo_latency + 2) + 2 + 2 * 3 ∧
  polls (trace (world demo_s2)) = polls (trace (world demo_s1)) ++ [1%positive].
Proof.
  assert (Hw : Waiting 1%positive (world demo_s0) 1%positive (Instant.mk 10)).
  { exists (default Task_new (heap (world demo_s0) !! 1%positive)). by vm_compute. }
  assert (H0 : demo_run demo_acts0 demo_boot = Some demo_s0).
  { apply default_run. vm_compute. by eexists. }
  assert (H1 : demo_run demo_acts1 demo_s0 = Some demo_s1).
  { apply default_run. vm_compute. by eexists. }
  assert (Ha0 : Forall (act_valid (A := Timed) demo_D demo_E) demo_acts0).
  { repeat constructor; apply (bool_decide_unpack _); by vm_compute. }
  assert (Ha1 : Forall (act_valid (A := Timed) demo_D demo_E) demo_acts1) by by repeat constructor.
  assert (Ht : time (dev demo_s0) = 1) by by vm_compute.
  destruct (sleeper_polled_in_time demo_poll demo_D demo_E 1%positive 2 3 demo_valid
    ltac:(lia) tt demo_start demo_acts0 demo_acts1 demo_s0 demo_s1 1%positive
    (Instant.mk 10) []) as (Hw1 & Hb & _); [..|split_and!].
  - by vm_compute.
  - exact demo_start_ok.
  - exact Ha0.
  - exact Ha1.
  - exact H0.
  - exact H1.
  - exact Hw.
  - by vm_compute.
  - by vm_compute.
  - apply not_elem_of_nil.
  - exact Hw.
  - by vm_compute.
  - by vm_compute.
  - exact Hw1.
  - revert Hb. rewrite Ht. generalize (time (dev demo_s1)). intros t Hb. exact Hb.
  - by vm_compute.
Defined.
