(* ===== verification/Await.v ===== *)
(** * Await: a task that awaits a timer goes on in time

    [Sleep] shows that a task that waits for a time is polled; here the poll is that of a
    future at [Timer::at(t).await], and the code after the [await] runs in time.  How far
    the futures have got is measured by the state they share: [progress] counts what the
    code after the [await] does, and nothing takes it back.  A poll that comes too early
    leaves the task waiting as before, so that neither a neighbour that is always ready nor
    one that keeps waking the task can put it off. *)
From S2P Require Import Prelude Time Task RunQueue TimerQueue Executor ExecutorInv.
From S2P Require Import ExecutorProofs Bystander TimerProofs ExecutorThms Timer Sleep SleepRtc.
Local Open Scope Z_scope.

(** Every result of the program satisfies [Q]. *)
Fixpoint returns {F A} (Q : A → Prop) (prog : Prog F A) : Prop :=
  match prog with
  | PRet a => Q a
  | PWake _ k => returns Q k
  | PNow k => ∀ i, returns Q (k i)
  | PRegisterTimer _ k => returns Q k
  | PSpawn _ _ _ k => ∀ b, returns Q (k b)
  end.

Lemma returns_mono {F A} (Q R : A → Prop) (prog : Prog F A) :
  (∀ a, Q a → R a) → returns Q prog → returns R prog.
Proof. intros H. induction prog; cbn; auto. Qed.

Section await.
Context {F U : Type}.
Implicit Types w : World F U.
Context (fut_poll : F → U → Prog F (F * U * Poll unit)) (progress : U → nat).

Definition no_less (u : U) (r : F * U * Poll unit) : Prop := (progress u ≤ progress r.1.2)%nat.
Definition more (u : U) (r : F * U * Poll unit) : Prop := (progress u < progress r.1.2)%nat.

(** [timer.await]: the states [k] of a future are those in which it awaits a timer, and
    [rest] is the code after it. *)
Definition awaits (k : Timer.t → F) (rest : U → Prog F (F * U * Poll unit)) : Prop :=
  ∀ tm u, fut_poll (k tm) u = PBind (Timer.poll tm) (λ '(tm', r),
    match r with Ready _ => rest u | Pending => PRet (k tm', u, Pending) end).
(** Waiting for [at_]: the timer has been polled once. *)
Definition suspended (k : Timer.t → F) (at_ : Instant.t) : F := k (Timer.mk at_ true).

Lemma interp_returns {A} (Q : A → Prop) clock p prog w a w' :
  returns Q prog → interp clock p prog w = Some (a, w') → Q a.
Proof.
  revert w. induction prog as [b|t k IH|k IH|i k IH|e pool fut k IH]; intros w;
    cbn [returns interp]; unfold mbind, M_bind.
  - by intros ? [= <- _].
  - destruct (wake_task t w) as [[? w1]|]; [|done]. apply IH.
  - intros Hk. by apply IH.
  - destruct (register_timer i p w) as [[? w1]|]; [|done]. apply IH.
  - destruct (Task_spawn_pool pool fut w) as [[tok w1]|]; [|done].
    destruct (Spawner_spawn e tok w1) as [[r w2]|]; [|done]. intros Hk. by apply IH.
Qed.

Lemma awaits_returns k rest tm u : awaits k rest → returns (more u) (rest u) →
  returns (no_less u) (fut_poll (k tm) u).
Proof.
  intros Hf Hr. rewrite Hf. unfold Timer.poll. destruct (Timer.yielded_once tm); cbn.
  - intros i. destruct (Instant.leb _ i); cbn; [|unfold no_less; cbn; lia].
    eapply returns_mono; [|exact Hr]. unfold more, no_less. intros r. lia.
  - unfold no_less. cbn. lia.
Qed.

(** ** A visit *)
Hypothesis Hmono : ∀ fut u, returns (no_less u) (fut_poll fut u).

Lemma Task_poll_grows clock q w w' : Task_poll fut_poll clock q w = Some (tt, w') →
  (reads w ≤ reads w')%nat ∧ (progress (user w) ≤ progress (user w'))%nat.
Proof using Hmono.
  intros ([] & w1 & H1 & (t & w2 & H2 & H3)%M_bind_inv)%M_bind_inv.
  destruct (calm_emit _ _ _ _ H1) as [R1 U1]. destruct (calm_deref _ _ _ _ H2) as [R2 U2].
  destruct (future t) as [fut|]; [|done].
  apply M_bind_inv in H3 as (u & w3 & [= <- <-] & (r & w4 & Hi & H4)%M_bind_inv).
  destruct (calm_interp clock q _ _ _ _ Hi) as [R4 _].
  pose proof (interp_returns _ _ _ _ _ _ _ (Hmono fut (user w2)) Hi) as Hp.
  destruct r as [[f' u'] res]. apply M_bind_inv in H4 as ([] & w5 & [= <-] & H5).
  assert (C : Calm (with_user u' w4) w').
  { revert H5. destruct res as [[]|]; [|by apply calm_deref_mut].
    intros ([] & w6 & H5 & H6)%M_bind_inv.
    eapply Calm_trans; by eapply calm_deref_mut. }
  destruct C as [R5 U5]. rewrite U5. cbn in R5 |- *. unfold no_less in Hp. cbn in Hp.
  rewrite <-U1, <-U2. split; [lia|done].
Qed.

Lemma run_task_grows clock e q w w' : run_task fut_poll clock e q w = Some (tt, w') →
  (reads w ≤ reads w')%nat ∧ (progress (user w) ≤ progress (user w'))%nat.
Proof using Hmono.
  intros ([] & w1 & H1 & (t & w2 & H2 & ([] & w3 & H3 & H4)%M_bind_inv)%M_bind_inv)%M_bind_inv.
  destruct (calm_deref_mut _ _ _ _ _ H1) as [R1 U1].
  destruct (calm_deref _ _ _ _ H2) as [R2 U2].
  destruct (calm_deref_mut _ _ _ _ _ H3) as [R3 U3].
  rewrite <-U1, <-U2, <-U3. revert H4. destruct (negb _).
  { intros [= <-]. split; [lia|done]. }
  intros ([] & w4 & H4 & H5)%M_bind_inv.
  destruct (Task_poll_grows clock q w3 w4 H4) as [R4 P4].
  destruct (calm_update _ _ _ _ _ H5) as [R5 U5]. rewrite U5. split; [lia|done].
Qed.

Context (k : Timer.t → F) (at_ : Instant.t) (rest : U → Prog F (F * U * Poll unit)).
#[local] Abbreviation f := (suspended k at_).
Hypothesis Hawaits : awaits k rest.
Hypothesis Hrest : ∀ u, returns (more u) (rest u).
Hypothesis Hmax : Instant.as_ticks at_ < Instant.as_ticks Instant.MAX.

Lemma not_max : at_ ≠ Instant.MAX.
Proof using Hmax. clear -Hmax. intros ->. lia. Qed.

(** A task that is visited too early waits as before. *)
Definition early e p w : Prop := Waiting e w p at_ ∧ (heap w !! p ≫= future) = Some f.

Lemma deref_mut_inv q g t w w' : heap w !! q = Some t → deref_mut q g w = Some (tt, w') →
  w' = with_heap (<[q := g t]> (heap w)) w.
Proof. intros Hq. unfold deref_mut. rewrite Hq. by intros [= <-]. Qed.
Lemma deref_inv q (t t' : Task F) w w' : heap w !! q = Some t → deref q w = Some (t', w') →
  t' = t ∧ w' = w.
Proof. intros Hq. unfold deref. rewrite Hq. by intros [= <- <-]. Qed.

(** The future at its [await]: it goes on, or it registers its time again. *)
Lemma interp_await clock p t w u r w' : heap w !! p = Some t →
  interp clock p (fut_poll f u) w = Some (r, w') →
  (Instant.as_ticks at_ ≤ clock (reads w) ∧ ∃ w1, interp clock p (rest u) w1 = Some (r, w')) ∨
  (clock (reads w) < Instant.as_ticks at_ ∧ r = (f, u, Pending) ∧
    heap w' = <[p := registered at_ t]> (heap w) ∧ execs w' = execs w).
Proof using Hawaits.
  intros Hp. unfold suspended. rewrite Hawaits. cbn. intros (now & w1 & [= <- <-] & H)%M_bind_inv.
  unfold Instant.leb, Instant.as_ticks in *. cbn in H.
  destruct (Z.leb_spec (Instant.ticks at_) (clock (reads w))) as [Hle|Hlt]; cbn in H.
  - left. split; [done|]. eauto.
  - right. apply M_bind_inv in H as ([] & w2 & H2 & [= <- <-]).
    rewrite (register_timer_run at_ p t) in H2 by done. injection H2 as <-. done.
Qed.

Lemma Task_poll_await clock p t w w' : heap w !! p = Some t → future t = Some f →
  Task_poll fut_poll clock p w = Some (tt, w') →
  (progress (user w) < progress (user w'))%nat ∨
  (clock (reads w) < Instant.as_ticks at_ ∧
   heap w' !! p = Some (mkTask (raw (registered at_ t)) (Some f))).
Proof using Hawaits Hrest.
  intros Hp Hf ([] & w1 & [= <-] & (t' & w2 & H1 & H)%M_bind_inv)%M_bind_inv.
  apply (deref_inv p t) in H1 as [-> ->]; [|done]. rewrite Hf in H.
  apply M_bind_inv in H as (u & w1 & [= <- <-] & (r & w1 & Hi & H)%M_bind_inv). cbn in Hi.
  destruct (interp_await clock p t (emitted (EvPoll p) w) _ r w1 Hp Hi)
    as [(_ & w2 & Hr)|(Hlt & -> & Hh & _)].
  - left. pose proof (interp_returns _ _ _ _ _ _ _ (Hrest (user w)) Hr) as Hm.
    destruct r as [[f' u'] res]. apply M_bind_inv in H as ([] & w3 & [= <-] & H).
    assert (C : Calm (with_user u' w1) w').
    { revert H. destruct res as [[]|]; [|by apply calm_deref_mut].
      intros ([] & w6 & H5 & H6)%M_bind_inv. eapply Calm_trans; by eapply calm_deref_mut. }
    destruct C as [_ ->]. exact Hm.
  - right. split; [exact Hlt|]. apply M_bind_inv in H as ([] & w3 & [= <-] & H).
    apply (deref_mut_inv p _ (registered at_ t)) in H as ->; cbn; rewrite Hh; apply lookup_insert_eq.
Qed.

(** [TimerQueue::update] of a task with a time leaves it waiting. *)
Lemma update_waits e p t w w' : heap w !! p = Some t → spawned t = true →
  executor (raw t) = Some e → future t = Some f → expires_at (raw t) = at_ →
  TimerQueue_update e p w = Some (tt, w') → early e p w'.
Proof using Hmax.
  intros Hp Hs Hx Hf He. pose proof not_max as Hne. unfold TimerQueue_update.
  intros (t0 & w0 & H0 & H)%M_bind_inv. apply (deref_inv p t) in H0 as [-> ->]; [|done].
  rewrite He, bool_decide_true in H by done. cbv zeta in H.
  apply M_bind_inv in H as ([] & w1 & H1 & H). apply (deref_mut_inv p _ t) in H1; [|done].
  destruct (or_timer_flags t) as (S1 & _ & T1).
  set (t1 := upd_raw (set_state (fetch_or STATE_TIMER_QUEUED)) t) in *.
  assert (Hp1 : heap w1 !! p = Some t1) by (subst w1; apply lookup_insert_eq).
  assert (Hgoal : ∀ w2 t2, heap w2 !! p = Some t2 → spawned t2 = spawned t1 →
    timer_queued_flag t2 = timer_queued_flag t1 → executor (raw t2) = Some e →
    expires_at (raw t2) = at_ → future t2 = Some f → early e p w2).
  { intros w2 t2 Hp2 ? ? ? ? ?. split; [|by rewrite Hp2]. exists t2. split_and!; congruence. }
  destruct (negb _).
  - apply M_bind_inv in H as (ex & w2 & H2 & H). unfold deref_exec in H2.
    destruct (execs w1 !! e) as [ex0|]; [|done]. injection H2 as <- <-.
    apply M_bind_inv in H as ([] & w2 & H2 & H). apply (deref_mut_inv p _ t1) in H2; [|done].
    unfold deref_exec_mut in H. destruct (execs w2 !! e); [|done]. injection H as <-.
    eapply (Hgoal _ (upd_raw (set_timer_next (timer_queue ex0)) t1)); try done.
    subst w2. apply lookup_insert_eq.
  - injection H as <-. by eapply (Hgoal _ t1).
Qed.

Lemma min_max : Instant.min Instant.MAX at_ = at_.
Proof using Hmax.
  unfold Instant.min, Instant.leb. pose proof Hmax as H. unfold Instant.as_ticks in H.
  destruct (Z.leb_spec (Instant.ticks Instant.MAX) (Instant.ticks at_)); [lia|done].
Qed.

Lemma run_task_await clock e p t w w' : heap w !! p = Some t → spawned t = true →
  executor (raw t) = Some e → future t = Some f →
  run_task fut_poll clock e p w = Some (tt, w') →
  (progress (user w) < progress (user w'))%nat ∨
  (clock (reads w) < Instant.as_ticks at_ ∧ early e p w').
Proof using Hawaits Hrest Hmax.
  intros Hp Hs Hx Hf.
  intros ([] & w1 & H1 & (t2 & w2 & H2 & ([] & w3 & H3 & H)%M_bind_inv)%M_bind_inv)%M_bind_inv.
  apply (deref_mut_inv p _ t) in H1; [|done].
  assert (Hp1 : heap w1 !! p = Some (upd_raw (set_expires Instant.MAX) t))
    by (subst w1; apply lookup_insert_eq).
  apply (deref_inv p _ _ _ _ Hp1) in H2 as [-> ->].
  apply (deref_mut_inv p _ _ _ _ Hp1) in H3. fold (visited t) in H3.
  assert (Hp3 : heap w3 !! p = Some (visited t)) by (subst w3; apply lookup_insert_eq).
  assert (Hw : reads w3 = reads w ∧ user w3 = user w) by (by subst w3 w1).
  cbn in H. fold (spawned t) in H. rewrite Hs in H. cbn in H.
  apply M_bind_inv in H as ([] & w4 & Hpoll & Hupd).
  destruct Hw as [Hr Hu]. rewrite <-Hr, <-Hu.
  destruct (Task_poll_await clock p (visited t) w3 w4 Hp3 Hf Hpoll)
    as [Hlt|[Hlt Hp4]].
  - left. by destruct (calm_update _ _ _ _ _ Hupd) as [_ ->].
  - right. split; [done|]. eapply (update_waits e p _ w4 w' Hp4); try done.
    + change (spawned (visited t) = true). by rewrite visited_flags.
    + cbn. apply min_max.
Qed.

(** ** A pass *)
Context (D : gset ptr) (E : gset eid).
Hypothesis Hvalid : ∀ fut u, prog_valid D E (fut_poll fut u).

Definition monotone (clock : nat → Z) : Prop := ∀ i j, (i ≤ j)%nat → clock i ≤ clock j.

Lemma pass_grows clock e w w' : good D E w → has_alarm e w →
  run_queued fut_poll clock e w = Some (tt, w') →
  (progress (user w) ≤ progress (user w'))%nat.
Proof using Hmono Hvalid.
  intros [HS (rq & tq & I)] (ex & Hex & Hal) Hrun.
  pose proof (wp_pass fut_poll clock D E Hvalid e ex w rq tq
    (λ _ w1, progress (user w) ≤ progress (user w1))%nat I HS Hex) as H.
  apply wp_run in H as ([] & w1 & Hr1 & _ & Hm).
  - rewrite Hrun in Hr1. injection Hr1 as <-.
    by destruct (Hm Hal) as (w2 & Hle & _ & [_ ->] & _).
  - intros w0 w1 x _ _ [_ Hu]. cbn. by rewrite Hu.
  - intros l q w1 w2 _ Hle Hq. destruct (run_task_grows clock e q w1 w2 Hq). lia.
Qed.

(** In the middle of the pass that began in [w], the tasks of [l] having been visited. *)
Definition midway clock e p w (l : list ptr) w1 : Prop :=
  (reads w ≤ reads w1)%nat ∧ (progress (user w) ≤ progress (user w1))%nat ∧
  ((progress (user w) < progress (user w1))%nat ∨
   ∃ t, heap w1 !! p = Some t ∧ spawned t = true ∧ executor (raw t) = Some e ∧ future t = Some f ∧
     (p ∈ l → clock (reads w) < Instant.as_ticks at_ ∧ early e p w1)).

Lemma early_task e p w : early e p w → ∃ t, heap w !! p = Some t ∧
  spawned t = true ∧ executor (raw t) = Some e ∧ future t = Some f.
Proof.
  intros [(t & Hp & Hs & Hx & _) Hf]. rewrite Hp in Hf. by exists t.
Qed.

Lemma early_keeps e p w w' : early e p w → Keeps p w w' → early e p w'.
Proof.
  intros [(t & Hp & Hs & Hx & He & Ht) Hf] K. rewrite Hp in Hf. cbn in Hf.
  destruct (K t Hp Hs) as (t' & Hp' & Hw). destruct (Hw Hs) as (? & ? & ? & ? & ?).
  split; [exists t'; split_and!; congruence|]. rewrite Hp'. cbn. congruence.
Qed.

Lemma midway_visit clock e p w l q w1 w2 :
  monotone clock → midway clock e p w l w1 →
  run_task fut_poll clock e q w1 = Some (tt, w2) → midway clock e p w (l ++ [q]) w2.
Proof using Hawaits Hrest Hmax Hmono.
  intros Hclk (Hr & Hle & Hcase) Hrun.
  destruct (run_task_grows clock e q w1 w2 Hrun) as [R2 P2].
  split; [lia|]. split; [lia|]. destruct Hcase as [?|(t & Hp & Hs & Hx & Hf & Hv)]; [left; lia|].
  destruct (decide (q = p)) as [->|Hne].
  - destruct (run_task_await clock e p t w1 w2 Hp Hs Hx Hf Hrun)
      as [?|[Hlt He]]; [left; lia|right].
    destruct (early_task e p w2 He) as (t2 & ? & ? & ? & ?). exists t2.
    split_and!; [done..|]. intros _. split; [|done].
    pose proof (Hclk (reads w) (reads w1) Hr). lia.
  - right. pose proof (keeps_run_task p clock fut_poll e q Hne w1 tt w2 Hrun) as K.
    destruct (K t Hp Hs) as (t2 & Hp2 & Hw). destruct (Hw Hs) as (? & ? & _ & _ & ?).
    exists t2. split_and!; [done|done|congruence|congruence|].
    rewrite elem_of_app, list_elem_of_singleton. intros [Hin| ->]; [|done].
    destruct (Hv Hin) as [? He]. split; [done|]. by eapply early_keeps.
Qed.

Lemma pass_await clock e w p w' : good D E w → has_alarm e w →
  monotone clock → early e p w → run_queued fut_poll clock e w = Some (tt, w') →
  (progress (user w) < progress (user w'))%nat ∨
  clock (reads w) < Instant.as_ticks at_ ∧ early e p w'.
Proof using Hawaits Hrest Hmax Hmono Hvalid.
  intros [HS (rq & tq & I)] (ex & Hex & Hal) Hclk He Hrun.
  pose proof not_max as Hne.
  pose proof (wp_pass fut_poll clock D E Hvalid e ex w rq tq (midway clock e p w) I HS Hex) as H.
  apply wp_run in H as ([] & w1 & Hr1 & (rq' & tq' & I' & _ & _ & _ & _ & Hw) & Hm).
  - rewrite Hrun in Hr1. injection Hr1 as <-.
    destruct (Hm Hal) as (w2 & (_ & Hle & Hcase) & Q & [_ Hu] & Hkeep). rewrite Hu.
    destruct Hcase as [?|(t & Hp & Hs & Hx & Hf & Hv)]; [by left|right].
    destruct (qu_task _ _ Q p t Hp) as (t' & Hp' & _ & _ & _ & Hf').
    assert (Hfut : (heap w' !! p ≫= future) = Some f) by (rewrite Hp'; cbn; congruence).
    destruct (decide (p ∈ batch clock e ex w rq tq)) as [Hin|Hn].
    + destruct (Hv Hin) as [? [He2 _]]. split; [done|]. split; [by apply Hkeep|done].
    + destruct (Hw Hal p at_) as [Hlt Hon]; [by apply (Waiting_tq e w rq tq), He|done|done|].
      unfold Instant.leb in Hlt. apply Z.leb_gt in Hlt. split; [exact Hlt|].
      split; [by apply (Waiting_tq e w' rq' tq')|done].
  - intros w0 w2 x Hh Q [Hr Hu]. split; [exact Hr|]. cbn. rewrite Hu. split; [done|right].
    destruct (early_task e p w He) as (t & Hp & Hs & Hx & Hf). rewrite <-Hh in Hp.
    destruct (qu_task _ _ Q p t Hp) as (t' & Hp' & ? & ? & _ & ?). exists t'.
    split_and!; try congruence. by intros ?%not_elem_of_nil.
  - intros l q w2 w3 _ Hmid Hq. by eapply midway_visit.
Qed.

(** ** As time goes by *)
Context {A : Type} `{!TimedAlarm A} `{!TimedAlarmLaws A}.
Context (e : eid) (start_time pass_time : Z).
Hypothesis Htimes : 0 ≤ start_time ∧ 0 ≤ pass_time.
Implicit Types s : Sys (F := F) (U := U) (A := A).
Implicit Types a : SAct (F := F) (A := A).

(** The readings of the clock during a pass follow one another. *)
Definition act_timed a : Prop := match a with Finish clock => monotone clock | _ => True end.
Definition count s : nat := progress (user (world s)).
(** The task is at its [await], and has been since [t0]. *)
Definition sleeping t0 p s : Prop :=
  in_time e start_time pass_time t0 p at_ s ∧ (heap (world s) !! p ≫= future) = Some f.

Lemma call_kept p c clock w w' : outside c → run_call fut_poll clock c w = Some (tt, w') →
  Calm w w' ∧ Keeps p w w'.
Proof.
  destruct c as [q|e' pool fut| | |]; try done; intros _; cbn [run_call]; intros H.
  - split; [by eapply calm_wake|by eapply keeps_wake].
  - split.
    + apply M_bind_inv in H as (tk & w1 & H1 & (r & w2 & H2 & [= <-])%M_bind_inv).
      eapply Calm_trans; [by eapply calm_spawn_pool|by eapply calm_Spawner_spawn].
    + eapply keeps_spawn; [|exact H]. intros r. apply keeps_ret.
Qed.

Lemma other_run c s s' : sstep fut_poll e start_time pass_time (Other c) s = Some s' →
  outside c ∧ run_call fut_poll (λ _, time (dev s)) c (world s) = Some (tt, world s').
Proof.
  cbn [sstep]. destruct (passing s); [done|]. destruct c; try done;
  (intros ([[] w] & Hr & Hs)%bind_Some; split; [done|]; rewrite Hr; by destruct (signalled _ _ _); injection Hs as <-).
Qed.

Lemma step_await p act s s' : SInv D E e start_time pass_time s → act_valid D E act →
  act_timed act → sstep fut_poll e start_time pass_time act s = Some s' →
  (count s ≤ count s')%nat ∧
  ∀ t0, sleeping t0 p s → (count s < count s')%nat ∨ sleeping t0 p s'.
Proof using All.
  intros I Hv Ht Hs. unfold count, sleeping. destruct act as [x| |c| |clock].
  - destruct (elapse_step fut_poll D E e start_time pass_time Htimes x s s' I Hs) as (_ & -> & Hi).
    split; [done|]. intros t0 [? ?]. right. split; [by apply Hi|done].
  - destruct (interrupt_step fut_poll D E e start_time pass_time Htimes s s' I Hs) as (_ & -> & Hi).
    split; [done|]. intros t0 [? ?]. right. split; [by apply Hi|done].
  - destruct (other_step fut_poll D E e start_time pass_time Hvalid Htimes c s s' I Hv Hs)
      as (_ & _ & Hi).
    destruct (other_run c s s' Hs) as [Ho Hr].
    destruct (call_kept p c _ _ _ Ho Hr) as [[_ ->] K]. split; [done|].
    intros t0 [Hin Hf]. right. split; [by apply Hi|].
    by apply (early_keeps e p (world s) (world s') (conj (proj1 Hin) Hf) K).
  - destruct (begin_step fut_poll D E e start_time pass_time Htimes s s' I Hs) as (_ & -> & Hi).
    split; [done|]. intros t0 [? ?]. right. split; [by apply Hi|done].
  - destruct (finish_step fut_poll D E e start_time pass_time Hvalid Htimes clock s s' I Hs)
      as (_ & Hr & l & _ & _ & Hi).
    pose proof I as [Hg Ha _ _ _]. split; [exact (pass_grows clock e _ _ Hg Ha Hr)|].
    intros t0 [Hin Hf].
    destruct (pass_await clock e (world s) p (world s') Hg Ha Ht
      (conj (proj1 Hin) Hf) Hr) as [?|[Hlt [Hw Hf']]]; [by left|right].
    split; [by apply Hi|done].
Qed.

Lemma run_await p acts : ∀ s s', SInv D E e start_time pass_time s → Forall (act_valid D E) acts →
  Forall act_timed acts → srun fut_poll e start_time pass_time acts s = Some s' →
  SInv D E e start_time pass_time s' ∧ (count s ≤ count s')%nat ∧
  ∀ t0, sleeping t0 p s → (count s < count s')%nat ∨ sleeping t0 p s'.
Proof using All.
  induction acts as [|act acts IH]; intros s s' I Ha Ht; cbn [srun].
  { intros [= <-]. auto. }
  apply Forall_cons in Ha as [Ha Has]. apply Forall_cons in Ht as [Ht Hts].
  intros (s1 & H1 & H2)%bind_Some.
  destruct (sstep_inv fut_poll D E e start_time pass_time Hvalid Htimes act s s1 I Ha H1) as [I1 _].
  destruct (step_await p act s s1 I Ha Ht H1) as [C1 W1].
  destruct (IH s1 s' I1 Has Hts H2) as (I2 & C2 & W2). split; [done|]. split; [lia|].
  intros t0 Hs. destruct (W1 t0 Hs) as [?|Hs1]; [left; lia|].
  destruct (W2 t0 Hs1); [left; lia|by right].
Qed.

Lemma await_in_time p acts s s' : SInv D E e start_time pass_time s → Forall (act_valid D E) acts →
  Forall act_timed acts → srun fut_poll e start_time pass_time acts s = Some s' →
  Waiting e (world s) p at_ → (heap (world s) !! p ≫= future) = Some f →
  (count s < count s')%nat ∨ Waiting e (world s') p at_ ∧ (heap (world s') !! p ≫= future) = Some f ∧
  time (dev s') ≤ Z.max (time (dev s)) (Instant.as_ticks at_) + delay + start_time + 2 * pass_time.
Proof using All.
  intros I Ha Ht Hr Hw Hf. destruct (run_await p acts s s' I Ha Ht Hr) as (I' & _ & Hs).
  pose proof (in_time_start D E e start_time pass_time Htimes p at_ s I (not_max) Hw) as Hi.
  destruct (Hs _ (conj Hi Hf)) as [?|[Hi' Hf']]; [by left|right].
  pose proof (in_time_bound D E e start_time pass_time Htimes _ p at_ s' I' Hi') as Hb.
  unfold latest in Hb. split; [apply Hi'|]. split; [exact Hf'|lia].
Qed.
End await.

Section properties.
Context {F U A : Type} `{!TimedAlarm A} `{!TimedAlarmLaws A}.
Context (fut_poll : F → U → Prog F (F * U * Poll unit)) (progress : U → nat).
Context (D : gset ptr) (E : gset eid) (e : eid) (start_time pass_time : Z).
Hypothesis Hmono : ∀ fut u, returns (no_less progress u) (fut_poll fut u).
Hypothesis Hvalid : ∀ fut u, prog_valid D E (fut_poll fut u).
Hypothesis Htimes : 0 ≤ start_time ∧ 0 ≤ pass_time.
Context (k : Timer.t → F) (at_ : Instant.t) (rest : U → Prog F (F * U * Poll unit)).
Hypothesis Hawaits : awaits fut_poll k rest.
Hypothesis Hrest : ∀ u, returns (more progress u) (rest u).
Hypothesis Hmax : Instant.as_ticks at_ < Instant.as_ticks Instant.MAX.

(** C11: A task is at [Timer::at(at_).await].  Unless the code after the [await] has run, it is
    still there, waiting, and the time is at most [at_] (or when it was first seen there, if
    that is later), plus what the alarm is late by, the start of a pass and twice its
    length.  That code has an effect on the state the futures share that can be counted and
    that nothing takes back; the readings of the clock in a pass do not go backwards.
    Whatever else happens meanwhile: the task is woken and polled early any number of times,
    other tasks run, wake each other and themselves, spawn and end, interrupts come early
    and late. *)
Theorem timer_completes_in_time u d acts0 acts1 s0 s1 p :
  e ∈ E → ok d → Forall (act_valid D E) acts0 → Forall (act_valid D E) acts1 →
  Forall act_timed acts1 →
  srun fut_poll e start_time pass_time acts0 (sys_boot D E e u d) = Some s0 →
  srun fut_poll e start_time pass_time acts1 s0 = Some s1 →
  Waiting e (world s0) p at_ → (heap (world s0) !! p ≫= future) = Some (suspended k at_) →
  (progress (user (world s0)) < progress (user (world s1)))%nat ∨
  Waiting e (world s1) p at_ ∧ (heap (world s1) !! p ≫= future) = Some (suspended k at_) ∧
  time (dev s1) ≤ Z.max (time (dev s0)) (Instant.as_ticks at_) + delay + start_time + 2 * pass_time.
Proof using All.
  intros He Hok Ha0 Ha1 Ht1 Hr0 Hr1 Hw Hf.
  pose proof (boot_inv (F := F) D E e start_time pass_time u d He Hok) as I.
  destruct (srun_inv fut_poll D E e start_time pass_time Hvalid Htimes acts0 _ s0 I Ha0 Hr0) as [I0 _].
  exact (await_in_time fut_poll progress Hmono k at_ rest Hawaits Hrest Hmax D E Hvalid e
    start_time pass_time Htimes p acts1 s0 s1 I0 Ha1 Ht1 Hr1 Hw Hf).
Qed.
End properties.

(** ** A concrete run

    The future of [async { Timer::at(10).await; hits += 1; }], on the nRF's counter: it
    waits for tick 10, is woken and polled too early at tick 4, and gets on at tick 11. *)
#[local] Existing Instances demo_timed demo_laws.
Definition nap : Timer.t := Timer.at_ (Instant.mk 10).
Definition nap_poll (tm : Timer.t) (hits : nat) : Prog Timer.t (Timer.t * nat * Poll unit) :=
  PBind (Timer.poll tm) (λ '(tm', r),
    match r with Ready _ => PRet (nap, S hits, Ready tt) | Pending => PRet (tm', hits, Pending) end).

Lemma nap_no_less tm hits : returns (no_less id hits) (nap_poll tm hits).
Proof.
  unfold nap_poll, Timer.poll. destruct (Timer.yielded_once tm); cbn.
  - intros i. destruct (Instant.leb _ i); cbn; unfold no_less; cbn; lia.
  - unfold no_less. cbn. lia.
Qed.
Lemma nap_valid tm hits : prog_valid demo_D demo_E (nap_poll tm hits).
Proof.
  unfold nap_poll, Timer.poll. destruct (Timer.yielded_once tm); cbn; constructor.
  - intros i. destruct (Instant.leb _ i); cbn; repeat constructor.
  - constructor.
Qed.

Lemma nap_awaits : awaits nap_poll id (λ hits, PRet (nap, S hits, Ready tt)).
Proof. intros tm u. reflexivity. Qed.
Lemma nap_rest hits : returns (F := Timer.t) (more id hits) (PRet (nap, S hits, Ready tt)).
Proof. unfold more. cbn. lia. Qed.

Definition nap_acts0 : list (SAct (F := Timer.t) (A := RtcRun.Timed)) :=
  [Other (CSpawn 1%positive [1]%positive nap); Begin; Elapse (inl []); Finish (λ _, 0)].
Definition nap_early : list (SAct (F := Timer.t) (A := RtcRun.Timed)) :=
  replicate 3 (Elapse (inl [])) ++ [Other (CWake 1%positive); Begin; Finish (λ _, 4)].
Definition nap_acts1 : list (SAct (F := Timer.t) (A := RtcRun.Timed)) :=
  nap_early ++ replicate 6 (Elapse (inl [])) ++ [Interrupt; Begin; Elapse (inl [])].
Definition nap_run := srun (A := RtcRun.Timed) nap_poll 1%positive 2 3.
Definition nap_boot : Sys (F := Timer.t) (U := nat) (A := RtcRun.Timed) :=
  sys_boot demo_D demo_E 1%positive 0%nat RtcRun.demo_start.
Definition nap_s0 : Sys (F := Timer.t) (U := nat) (A := RtcRun.Timed) :=
  default nap_boot (nap_run nap_acts0 nap_boot).
Definition nap_s1 : Sys (F := Timer.t) (U := nat) (A := RtcRun.Timed) :=
  default nap_boot (nap_run nap_acts1 nap_s0).
Definition nap_s2 : Sys (F := Timer.t) (U := nat) (A := RtcRun.Timed) :=
  default nap_boot (nap_run [Finish (λ _, 10)] nap_s1).

Lemma timer_completes_in_time_witness :
  time (dev nap_s1) = 11 ∧ user (world nap_s1) = 0%nat ∧ user (world nap_s2) = 1%nat ∧
  polls (trace (world nap_s2)) = [1; 1; 1]%positive ∧
  Waiting 1%positive (world nap_s1) 1%positive (Instant.mk 10) ∧
  time (dev nap_s1) ≤ Z.max 1 10 + (demo_latency + 2) + 2 + 2 * 3.
Proof.
  assert (H0 : nap_run nap_acts0 nap_boot = Some nap_s0).
  { apply default_run. vm_compute. by eexists. }
  assert (H1 : nap_run nap_acts1 nap_s0 = Some nap_s1).
  { apply default_run. vm_compute. by eexists. }
  assert (Hw : Waiting 1%positive (world nap_s0) 1%positive (Instant.mk 10)).
  { exists (default Task_new (heap (world nap_s0) !! 1%positive)). vm_compute. repeat split. }
  assert (Hu : user (world nap_s1) = user (world nap_s0)) by by vm_compute.
  assert (Ht : time (dev nap_s0) = 1) by by vm_compute.
  destruct (timer_completes_in_time nap_poll id demo_D demo_E 1%positive 2 3 nap_no_less
    nap_valid ltac:(lia) id (Instant.mk 10) (λ hits, PRet (nap, S hits, Ready tt))
    nap_awaits nap_rest ltac:(reflexivity) 0%nat RtcRun.demo_start
    nap_acts0 nap_acts1 nap_s0 nap_s1 1%positive) as [Hlt|(Hw1 & _ & Hb)].
  - by vm_compute.
  - exact RtcRun.demo_start_ok.
  - repeat constructor; apply (bool_decide_unpack _); by vm_compute.
  - repeat constructor; apply (bool_decide_unpack _); by vm_compute.
  - unfold nap_acts1, nap_early. cbn. repeat apply Forall_cons_2; done || apply Forall_nil_2.
  - exact H0.
  - exact H1.
  - exact Hw.
  - by vm_compute.
  - exfalso. unfold id in Hlt. rewrite Hu in Hlt. lia.
  - split_and!; [by vm_compute..|exact Hw1|].
    revert Hb. rewrite Ht. generalize (time (dev nap_s1)). intros t Hb. exact Hb.
Defined.
