(* ===== verification/Fairness.v ===== *)
(** * Fairness: a task that sleeps among two that never rest

    [embassy-nrf-examples/src/bin/executor_fairness_test.rs]: [run1] sleeps half a second at
    a time, [run2] awaits timers that have always expired, [run3] wakes itself whenever it
    is polled.  The futures are those of the file; [run1] is not starved. *)
From S2P Require Import Prelude Time Task RunQueue TimerQueue Executor ExecutorInv.
From S2P Require Import ExecutorProofs TimerProofs ExecutorThms Timer Sleep SleepRtc Await.
Local Open Scope Z_scope.

(** ** The futures *)

(** [None] before the first poll, then the timer awaited.  [Panicked] is a task whose
    [unwrap!] or arithmetic has panicked; [OutOfFuel] is not reached ([loops_end]). *)
Inductive Fut : Type :=
| Main
| Run1 (awaiting : option Timer.t)
| Run2 (awaiting : option Timer.t)
| Run3
| Panicked
| OutOfFuel.

(** The tasks' memory, and what they share: the number of times [run1] has logged. *)
Definition run1_pool : list ptr := [1%positive].
Definition run2_pool : list ptr := [2%positive].
Definition run3_task : ptr := 3%positive.
Definition main_task : ptr := 4%positive.
Definition the_executor : eid := 1%positive.
Abbreviation Result := (Fut * nat * Poll unit)%type.

(** [timer.await], and then the next round of the loop. *)
Definition await_timer (k : Timer.t → Fut) (rest : nat → Prog Fut Result) (tm : Timer.t)
    (dings : nat) : Prog Fut Result :=
  PBind (Timer.poll tm) (λ '(tm', r),
    match r with Ready _ => rest dings | Pending => PRet (k tm', dings, Pending) end).

(** The loops; a new timer is not ready, so that one round is run per poll. *)
Fixpoint run1_loop (fuel : nat) (dings : nat) : Prog Fut Result :=
  match fuel with
  | O => PRet (OutOfFuel, dings, Pending)
  | S n =>
      PNow (λ now,
        match Timer.after now (Duration.from_ticks 16000) with
        | Panic => PRet (Panicked, S dings, Pending)
        | Done tm => await_timer (λ tm, Run1 (Some tm)) (run1_loop n) tm (S dings)
        end)
  end.
Fixpoint run2_loop (fuel : nat) (dings : nat) : Prog Fut Result :=
  match fuel with
  | O => PRet (OutOfFuel, dings, Pending)
  | S n =>
      await_timer (λ tm, Run2 (Some tm)) (run2_loop n) (Timer.at_ (Instant.from_ticks 0)) dings
  end.

Definition run1 (awaiting : option Timer.t) : nat → Prog Fut Result :=
  match awaiting with
  | None => run1_loop 1
  | Some tm => await_timer (λ tm, Run1 (Some tm)) (run1_loop 1) tm
  end.
Definition run2 (awaiting : option Timer.t) : nat → Prog Fut Result :=
  match awaiting with
  | None => run2_loop 1
  | Some tm => await_timer (λ tm, Run2 (Some tm)) (run2_loop 1) tm
  end.
Definition run3 (dings : nat) : Prog Fut Result := PWake run3_task (PRet (Run3, dings, Pending)).

(** [main]: three tasks are spawned. *)
Definition unwrap_spawn (pool : list ptr) (fut : Fut) (k : nat → Prog Fut Result) (dings : nat)
    : Prog Fut Result :=
  PSpawn the_executor pool fut (λ ok,
    if ok : bool then k dings else PRet (Panicked, dings, Pending)).
Definition main : nat → Prog Fut Result :=
  unwrap_spawn run1_pool (Run1 None) (unwrap_spawn run2_pool (Run2 None)
    (unwrap_spawn [run3_task] Run3 (λ dings, PRet (Main, dings, Ready tt)))).

Definition fut_poll (f : Fut) : nat → Prog Fut Result :=
  match f with
  | Main => main
  | Run1 o => run1 o
  | Run2 o => run2 o
  | Run3 => run3
  | Panicked => λ dings, PRet (Panicked, dings, Pending)
  | OutOfFuel => λ dings, PRet (OutOfFuel, dings, Pending)
  end.

Definition tasks : gset ptr := {[1; 2; 3; 4]}%positive.
Definition executors : gset eid := {[the_executor]}.

(** ** Lemmas *)

(** What a timer's [await] does is what the rest does, or it is pending. *)
Lemma await_returns (Q : Result → Prop) k rest tm dings : returns Q (rest dings) →
  Q (k (Timer.mk (Timer.expires_at tm) true), dings, Pending) →
  returns Q (await_timer k rest tm dings).
Proof.
  intros Hr Hp. unfold await_timer, Timer.poll. destruct tm as [at_ []]; cbn; [|done].
  intros i. by destruct (Instant.leb _ i).
Qed.
(** A timer that has not been polled is pending. *)
Lemma await_new (Q : Result → Prop) k rest at_ dings : Q (k (Timer.mk at_ true), dings, Pending) →
  returns Q (await_timer k rest (Timer.mk at_ false) dings).
Proof. done. Qed.

(** The loops end after one round, and [run1] logs in each. *)
Lemma loops_end n dings :
  returns (λ r, r.1.1 ≠ OutOfFuel ∧ r.1.2 = S dings) (run1_loop (S n) dings) ∧
  returns (λ r, r.1.1 ≠ OutOfFuel ∧ r.1.2 = dings) (run2_loop (S n) dings).
Proof.
  split; cbn [run1_loop run2_loop].
  - intros now. unfold Timer.after. destruct (Instant.add _ _) as [at_|]; cbn; done.
  - by apply await_new.
Qed.

Lemma polls_no_less f dings : returns (no_less id dings) (fut_poll f dings).
Proof.
  assert (H1 : returns (no_less id dings) (run1_loop 1 dings)).
  { eapply returns_mono; [|apply (loops_end 0 dings)]. unfold no_less, id. intros r [_ ->]. lia. }
  assert (H2 : returns (no_less id dings) (run2_loop 1 dings)).
  { eapply returns_mono; [|apply (loops_end 0 dings)]. unfold no_less, id. intros r [_ ->]. lia. }
  destruct f as [|[tm|]|[tm|]| | |]; cbn [fut_poll run1 run2];
    try (apply await_returns; [done|]); try done; unfold no_less; cbn; try lia.
  intros [] ; cbn; [|lia]. intros []; cbn; [|lia]. intros []; cbn; lia.
Qed.

Lemma await_valid k rest tm dings : prog_valid tasks executors (rest dings) →
  prog_valid tasks executors (await_timer k rest tm dings).
Proof.
  intros Hr. unfold await_timer, Timer.poll. destruct tm as [at_ []]; cbn.
  - constructor. intros i. destruct (Instant.leb _ i); cbn; [done|]. repeat constructor.
  - repeat constructor.
Qed.
Lemma spawn_valid pool f k dings : Forall (λ p, p ∈ tasks) pool →
  prog_valid tasks executors (k dings) →
  prog_valid tasks executors (unwrap_spawn pool f k dings).
Proof. intros Hp Hk. constructor; [set_solver|done|]. intros []; [done|constructor]. Qed.

Lemma polls_valid f dings : prog_valid tasks executors (fut_poll f dings).
Proof.
  assert (H1 : ∀ n dings, prog_valid tasks executors (run1_loop n dings)).
  { induction n as [|n IH]; intros d; cbn [run1_loop]; [constructor|]. constructor. intros now.
    destruct (Timer.after _ _); [by apply await_valid|constructor]. }
  assert (H2 : ∀ n dings, prog_valid tasks executors (run2_loop n dings)).
  { induction n as [|n IH]; intros d; cbn [run2_loop]; [constructor|]. by apply await_valid. }
  destruct f as [|[tm|]|[tm|]| | |]; cbn [fut_poll run1 run2]; try by apply await_valid.
  - repeat (apply spawn_valid; [repeat constructor; set_solver|]). constructor.
  - apply H1.
  - apply H2.
  - constructor; [set_solver|constructor].
  - constructor.
  - constructor.
Qed.

(** [run1] and [run2] at their [await]. *)
Lemma run1_awaits : awaits fut_poll (λ tm, Run1 (Some tm)) (run1_loop 1).
Proof. by intros tm dings. Qed.
Lemma run1_goes_on dings : returns (more id dings) (run1_loop 1 dings).
Proof.
  eapply returns_mono; [|apply (loops_end 0 dings)]. unfold more, id. intros r [_ ->]. lia.
Qed.

(** ** Properties *)
Section properties.
Context {A : Type} `{!TimedAlarm A} `{!TimedAlarmLaws A} (start_time pass_time : Z).
Hypothesis Htimes : 0 ≤ start_time ∧ 0 ≤ pass_time.

(** C12: [run1] is not starved: while it sleeps, with [run2] and [run3] never at rest, it logs
    again, or the time is at most that it sleeps for, plus what the alarm is late by, the
    start of a pass and twice its length. *)
Theorem run1_not_starved d acts0 acts1 s0 s1 at_ :
  ok d → Forall (act_valid tasks executors) acts0 → Forall (act_valid tasks executors) acts1 →
  Forall act_timed acts1 → Instant.as_ticks at_ < Instant.as_ticks Instant.MAX →
  srun fut_poll the_executor start_time pass_time acts0
    (sys_boot tasks executors the_executor 0%nat d) = Some s0 →
  srun fut_poll the_executor start_time pass_time acts1 s0 = Some s1 →
  Waiting the_executor (world s0) 1%positive at_ →
  (heap (world s0) !! 1%positive ≫= future) = Some (Run1 (Some (Timer.mk at_ true))) →
  (user (world s0) < user (world s1))%nat ∨
  Waiting the_executor (world s1) 1%positive at_ ∧
  time (dev s1) ≤ Z.max (time (dev s0)) (Instant.as_ticks at_) + delay + start_time + 2 * pass_time.
Proof using Htimes.
  intros Hok Ha0 Ha1 Ht1 Hmax Hr0 Hr1 Hw Hf.
  pose proof (boot_inv (F := Fut) tasks executors the_executor start_time pass_time 0%nat d
    ltac:(set_solver) Hok) as I.
  destruct (srun_inv fut_poll tasks executors the_executor start_time pass_time polls_valid Htimes
    acts0 _ s0 I Ha0 Hr0) as [I0 _].
  destruct (await_in_time fut_poll id polls_no_less (λ tm, Run1 (Some tm)) at_ (run1_loop 1)
    run1_awaits run1_goes_on Hmax tasks executors polls_valid the_executor start_time pass_time
    Htimes 1%positive acts1 s0 s1 I0 Ha1 Ht1 Hr1 Hw Hf) as [?|(? & _ & ?)]; [by left|by right].
Qed.
End properties.

(** ** A concrete run

    The program on the nRF's counter: [main] is polled, then the three tasks; [run2] and
    [run3] are polled in every pass after that; [run1] is woken too early once. *)
#[local] Existing Instances demo_timed demo_laws.
Definition Step : Type := SAct (F := Fut) (A := RtcRun.Timed).
Definition a_pass (now : Z) : list Step := [Begin; Elapse (inl []); Finish (λ _, now)].
Definition fair_acts0 : list Step :=
  Other (CSpawn the_executor [main_task] Main) :: a_pass 0 ++ a_pass 1.
Definition fair_acts1 : list Step :=
  a_pass 2 ++ a_pass 3 ++ [Other (CWake 1%positive)] ++ a_pass 4.
Definition Fair : Type := Sys (F := Fut) (U := nat) (A := RtcRun.Timed).
Definition fair_run : list Step → Fair → option Fair := srun fut_poll the_executor 2 3.
Definition fair_boot : Fair := sys_boot tasks executors the_executor 0%nat RtcRun.demo_start.
Definition fair_s0 : Fair := default fair_boot (fair_run fair_acts0 fair_boot).
Definition fair_s1 : Fair := default fair_boot (fair_run fair_acts1 fair_s0).

Lemma run1_not_starved_witness :
  user (world fair_s0) = 1%nat ∧ user (world fair_s1) = 1%nat ∧ time (dev fair_s1) = 5 ∧
  polls (trace (world fair_s1)) = [4; 3; 2; 1; 2; 3; 2; 3; 2; 1; 3]%positive ∧
  Waiting the_executor (world fair_s1) 1%positive (Instant.mk 16001) ∧
  time (dev fair_s1) ≤ Z.max 2 16001 + (demo_latency + 2) + 2 + 2 * 3.
Proof.
  assert (H0 : fair_run fair_acts0 fair_boot = Some fair_s0).
  { apply default_run. vm_compute. by eexists. }
  assert (H1 : fair_run fair_acts1 fair_s0 = Some fair_s1).
  { apply default_run. vm_compute. by eexists. }
  assert (Hw : Waiting 1%positive (world fair_s0) 1%positive (Instant.mk 16001)).
  { exists (default Task_new (heap (world fair_s0) !! 1%positive)). vm_compute. repeat split. }
  assert (Hu : user (world fair_s1) = user (world fair_s0)) by (vm_compute; reflexivity).
  assert (Ht : time (dev fair_s0) = 2) by (vm_compute; reflexivity).
  destruct (run1_not_starved 2 3 ltac:(lia) RtcRun.demo_start fair_acts0 fair_acts1 fair_s0
    fair_s1 (Instant.mk 16001)) as [Hlt|(Hw1 & Hb)].
  - exact RtcRun.demo_start_ok.
  - repeat constructor; apply (bool_decide_unpack _); by vm_compute.
  - repeat constructor; apply (bool_decide_unpack _); by vm_compute.
  - unfold fair_acts1, a_pass. cbn. repeat apply Forall_cons_2; done || apply Forall_nil_2.
  - reflexivity.
  - exact H0.
  - exact H1.
  - exact Hw.
  - vm_compute. reflexivity.
  - exfalso. rewrite Hu in Hlt. lia.
  - split_and!; [vm_compute; reflexivity..|exact Hw1|].
    revert Hb. rewrite Ht. generalize (time (dev fair_s1)). intros t Hb. exact Hb.
Defined.
