(* ===== verification/SleepStm32.v ===== *)
(** * SleepStm32: a task that sleeps on an STM32

    The timers of [Stm32Run] as the alarm of the executor of [Sleep]: they have the laws
    for a delay of a turn of the counter, and there is no time for which setting an alarm
    would lose it.  The clock of the executor's passes is taken to be right, which that of
    [Stm32Rtc] is but for the moment in which the middle of its range is not counted yet
    ([stm32_clock_falls_back]). *)
From S2P Require Import Prelude Time Stm32Rtc Stm32Run Sleep.
Local Open Scope Z_scope.

Section stm32.
Context {P : Profile} (Hrelease : overflow_checks = false).
Context (last : nat) (Hlast : (1 ≤ last ≤ 3)%nat) (latency : Z) (Hlatency : 0 ≤ latency ≤ 2 ^ 14).
Context (n : nat) (Hn : (1 ≤ n ≤ last)%nat).

(** The callback of the alarm: what the executor last gave it. *)
Definition callback_of (m : Timed) : option (Z * Z) := callback (alarm_at n (rtc_of m)).

Definition stm32_elapse (x : unit + nat * Z) (m : Timed) : option Timed :=
  match x with
  | inl _ => tim_tick last latency m
  | inr (k, ts) =>
      if bool_decide (1 ≤ k ≤ last)%nat && bool_decide (k ≠ n) && fits 64 ts
      then snd <$> tim_set last latency k ts m else None
  end.
Definition stm32_handler (m : Timed) : option (bool * Timed) :=
  '(l, m') ← tim_irq last latency m;
  Some (bool_decide (n ∈ l) && bool_decide (is_Some (callback_of m)), m').
(** [Alarm::set_callback] and [Alarm::set]; the function is the executor's. *)
Definition with_callback (ctx : Z) (m : Timed) : Timed :=
  match set_alarm_callback n (0, ctx) (rtc_of m) with
  | Done s => mkTimed (Stm32Run.time m) s (due m)
  | Panic => m
  end.
Definition stm32_alarm_set (ctx ts : Z) (m : Timed) : option (bool * Timed) :=
  tim_set last latency n ts (with_callback ctx m).

Instance stm32_timed : TimedAlarm Timed := {
  env := unit + nat * Z;
  time := Stm32Run.time;
  elapse := stm32_elapse;
  handler := stm32_handler;
  set := stm32_alarm_set;
  safe _ _ := true
}.

Definition stm32_armed (ts : Z) (m : Timed) : Prop :=
  Waits last latency n ts m ∧ is_Some (callback_of m).

Lemma with_callback_run ctx m : TimOk last latency m → with_callback ctx m =
  mkTimed (Stm32Run.time m) (mkRTC (Stm32Rtc.rtc (rtc_of m)) (period (rtc_of m))
    (alter (λ a, mkAlarm (timestamp a) (Some (0, ctx))) (n - 1)%nat (alarms (rtc_of m)))) (due m).
Proof using Hn Hlast.
  intros O. unfold with_callback, set_alarm_callback.
  rewrite (tim_alarm_some last Hlast n (rtc_of m)); [done|apply O|lia].
Qed.

Lemma tim_with_callback_ok ctx m : TimOk last latency m → TimOk last latency (with_callback ctx m).
Proof using Hn Hlast.
  intros O. rewrite with_callback_run by done.
  destruct O as [A1 A2 A3 A4 A5 A6 A7 A8 A9 A10 A11 A12 A13]. split; try done.
  - destruct A3. split; [cbn; by rewrite length_alter|done].
  - cbn. apply Forall_alter; [done|]. by intros a _ Ha.
Qed.

Lemma tim_callback_with ctx m : TimOk last latency m → callback_of (with_callback ctx m) = Some (0, ctx).
Proof using Hn Hlast.
  intros O. rewrite with_callback_run by done. unfold callback_of, alarm_at.
  cbn [rtc_of alarms]. rewrite list_lookup_alter_eq.
  rewrite (tim_alarm_some last Hlast n (rtc_of m)); [done|apply O|lia].
Qed.

Lemma stm32_elapse_spec x m m' : TimOk last latency m → stm32_elapse x m = Some m' →
  TimOk last latency m' ∧ Stm32Run.time m ≤ Stm32Run.time m' ∧ callback_of m' = callback_of m ∧
  ∀ ts, Waits last latency n ts m → Waits last latency n ts m'.
Proof using All.
  intros O. destruct x as [u|[k ts]]; cbn [stm32_elapse].
  - intros Hm. destruct (tim_tick_ok Hrelease last Hlast latency Hlatency m m' O Hm) as [O' Ht].
    split_and!; [done|lia| |].
    + unfold tim_tick in Hm. destruct (_ || _); [done|]. by injection Hm as <-.
    + intros ts W. exact (tim_waits_tick Hrelease last Hlast latency Hlatency n ts m m' O Hn W Hm).
  - destruct (_ && _) eqn:Hg; [|done]. apply andb_true_iff in Hg as [Hg Hts%fits_spec].
    apply andb_true_iff in Hg as [Hk%bool_decide_eq_true Hne%bool_decide_eq_true].
    intros ([b m1] & Hm & ->)%fmap_Some.
    destruct (tim_set_run Hrelease last Hlast latency Hlatency k ts m b m1 O Hk Hts Hm) as (_ & H & Ht & _).
    cbn [snd]. split_and!; [|lia| |].
    + exact (tim_set_ok Hrelease last Hlast latency Hlatency k ts m b m1 O Hk Hts Hm).
    + unfold callback_of. by rewrite (st_other_alarms _ _ _ _ _ H) by (done || lia).
    + intros ts' W. exact (tim_waits_other Hrelease last Hlast latency Hlatency n ts' k ts b m m1 O Hn Hk
        Hne Hts W Hm).
Qed.

Lemma stm32_handler_spec b m m' : TimOk last latency m → stm32_handler m = Some (b, m') →
  TimOk last latency m' ∧ Stm32Run.time m' = Stm32Run.time m ∧ callback_of m' = callback_of m ∧
  ∀ ts, b = false → stm32_armed ts m → Waits last latency n ts m'.
Proof using All.
  intros O. unfold stm32_handler. intros ([l m1] & Hm & Hs)%bind_Some. injection Hs as <- <-.
  destruct (tim_irq_handled Hrelease last Hlast latency Hlatency m l m1 O Hm) as (_ & _ & H & Ht & _).
  split_and!; [exact (tim_irq_ok Hrelease last Hlast latency Hlatency m l m1 O Hm)|done| |].
  - unfold callback_of. rewrite (h_alarm _ _ _ H) by lia. by destruct (status _ _ _).
  - intros ts Hb [W Hc]. rewrite (bool_decide_true _ Hc), andb_true_r in Hb.
    apply bool_decide_eq_false in Hb.
    by destruct (tim_waits_irq Hrelease last Hlast latency Hlatency n ts l m m1 O Hn W Hm).
Qed.

Lemma stm32_set_armed ctx ts m m' : TimOk last latency m → 0 ≤ ts < 2 ^ 64 → true = true →
  stm32_alarm_set ctx ts m = Some (false, m') → stm32_armed ts m'.
Proof using All.
  intros O Hts _ Hm. pose proof (tim_with_callback_ok ctx m O) as O'.
  destruct (tim_waits_set Hrelease last Hlast latency Hlatency n ts false _ m' O' Hn Hts Hm) as [_ W].
  split; [exact W|].
  destruct (tim_set_run Hrelease last Hlast latency Hlatency n ts _ false m' O' Hn Hts Hm) as (_ & H & _).
  pose proof (tim_callback_with ctx m O) as Hc. unfold callback_of in *.
  rewrite (st_alarm _ _ _ _ _ H). cbn [callback]. rewrite Hc. by eexists.
Qed.

Lemma stm32_set_kept ctx ts m b m' : TimOk last latency m → 0 ≤ ts < 2 ^ 64 →
  stm32_alarm_set ctx ts m = Some (b, m') →
  TimOk last latency m' ∧ Stm32Run.time m' = Stm32Run.time m.
Proof using All.
  intros O Hts Hm. pose proof (tim_with_callback_ok ctx m O) as O'.
  destruct (tim_set_run Hrelease last Hlast latency Hlatency n ts _ b m' O' Hn Hts Hm) as (_ & _ & Ht & _).
  split; [exact (tim_set_ok Hrelease last Hlast latency Hlatency n ts _ b m' O' Hn Hts Hm)|].
  rewrite Ht. by rewrite with_callback_run.
Qed.

Lemma stm32_set_defined ctx ts m : TimOk last latency m → 0 ≤ ts < 2 ^ 64 →
  is_Some (stm32_alarm_set ctx ts m).
Proof using All.
  intros O Hts. apply (tim_set_defined Hrelease last Hlast latency Hlatency); [|done..].
  by apply tim_with_callback_ok.
Qed.

Lemma turn_nonneg : 0 ≤ 2 + 2 ^ 16 + latency.
Proof using Hlatency. clear -Hlatency. lia. Qed.

#[refine] Instance stm32_laws : TimedAlarmLaws Timed := {
  delay := 2 + 2 ^ 16 + latency;
  ok := TimOk last latency;
  armed := stm32_armed;
  delay_nonneg := turn_nonneg;
  Sleep.set_ok := stm32_set_kept;
  Sleep.set_defined := stm32_set_defined;
  Sleep.set_armed := stm32_set_armed
}.
Proof.
  - intros x m m' O Hm. by destruct (stm32_elapse_spec x m m' O Hm) as (? & ? & _).
  - intros m b m' O Hm. by destruct (stm32_handler_spec b m m' O Hm) as (? & ? & _).
  - intros ts x m m' O [W Hc] Hm. destruct (stm32_elapse_spec x m m' O Hm) as (_ & _ & E & HW).
    split; [by apply HW|by rewrite E].
  - intros ts m m' O A Hm. destruct (stm32_handler_spec false m m' O Hm) as (_ & _ & E & HW).
    split; [by apply HW|]. rewrite E. apply A.
  - intros ts m O [W _].
    pose proof (tim_waits_bound Hrelease last Hlast latency Hlatency n ts m O W). cbn. lia.
Defined.
End stm32.
