(* ===== verification/System.v ===== *)
(** * System: the clocks of the nRF52

    [embassy-nrf/src/system.rs]: the configuration and [configure], which starts the
    crystal of the high-frequency clock if it is asked for, selects the source of the
    low-frequency clock and starts it, and spins on the events of both ([Lag]). *)
From S2P Require Import Prelude Lag.

(** ** Configuration *)
Inductive HfclkSource : Set := Internal | HfExternalXtal.
Inductive LfclkSource : Set :=
| InternalRC
| Synthesized
| ExternalXtal
| ExternalLowSwing
| ExternalFullSwing.

Record Config : Type := mkConfig { hfclk_source : HfclkSource; lfclk_source : LfclkSource }.
Definition Config_default : Config := mkConfig Internal InternalRC.

(** ** The CLOCK peripheral *)

(** LFCLKSRC: the fields, with the names of the register library's variants. *)
Inductive Src : Set := rc | xtal | synth.
Record Lfclksrc : Set := mkLfclksrc { src : Src; external : bool; bypass : bool }.
(** What [write] starts from. *)
Definition lfclksrc_reset : Lfclksrc := mkLfclksrc rc false false.
Definition w_src (s : Src) (w : Lfclksrc) : Lfclksrc := mkLfclksrc s (external w) (bypass w).
Definition w_external (b : bool) (w : Lfclksrc) : Lfclksrc := mkLfclksrc (src w) b (bypass w).
Definition w_bypass (b : bool) (w : Lfclksrc) : Lfclksrc := mkLfclksrc (src w) (external w) b.

(** One clock: its STARTED event, the start under way (the looks it still takes, and the
    source), and the source it runs from. *)
Record Starter (A : Type) : Type := mkStarter {
  event : bool; starting : option (nat * A); running : option A
}.
Arguments mkStarter {A} _ _ _.
Arguments event {A} _.
Arguments starting {A} _.
Arguments running {A} _.

Section starter.
Context {A : Type}.
Implicit Types c : Starter A.
Definition write_event (b : bool) c : Starter A := mkStarter b (starting c) (running c).
Definition task_start (n : nat) (a : A) c : Starter A :=
  mkStarter (event c) (Some (n, a)) (running c).
Definition starter_tick c : Starter A :=
  match starting c with
  | Some (S n, a) => mkStarter (event c) (Some (n, a)) (running c)
  | Some (O, a) => mkStarter true None (Some a)
  | None => c
  end.
End starter.

Record Clock : Type := mkClock {
  hfclk : Starter unit; lfclk : Starter Lfclksrc; lfclksrc : Lfclksrc
}.
Definition set_hf (h : Starter unit) (c : Clock) : Clock := mkClock h (lfclk c) (lfclksrc c).
Definition set_lf (l : Starter Lfclksrc) (c : Clock) : Clock := mkClock (hfclk c) l (lfclksrc c).
Definition write_lfclksrc (s : Lfclksrc) (c : Clock) : Clock := mkClock (hfclk c) (lfclk c) s.
Definition clock_tick (c : Clock) : Clock :=
  mkClock (starter_tick (hfclk c)) (starter_tick (lfclk c)) (lfclksrc c).

(** ** [configure]

    [hf_time] and [lf_time] are the looks a start takes. *)
Definition lfclksrc_of (s : LfclkSource) : Lfclksrc :=
  let w := lfclksrc_reset in
  match s with
  | InternalRC => w_src rc w
  | Synthesized => w_src synth w
  | ExternalXtal => w_src xtal w
  | ExternalLowSwing => w_bypass false (w_external true (w_src xtal w))
  | ExternalFullSwing => w_bypass true (w_external true (w_src xtal w))
  end.

Section configure.
Context (hf_time : nat) (lf_time : Lfclksrc → nat).

Definition start_hfclk (fuel : nat) (source : HfclkSource) (c : Clock) : option Clock :=
  match source with
  | Internal => Some c
  | HfExternalXtal =>
      let c := set_hf (write_event false (hfclk c)) c in
      let c := set_hf (task_start hf_time tt (hfclk c)) c in
      wait_until clock_tick (λ c, event (hfclk c)) fuel c
  end.
Definition start_lfclk (fuel : nat) (source : LfclkSource) (c : Clock) : option Clock :=
  let c := write_lfclksrc (lfclksrc_of source) c in
  let c := set_lf (write_event false (lfclk c)) c in
  let c := set_lf (task_start (lf_time (lfclksrc c)) (lfclksrc c) (lfclk c)) c in
  wait_until clock_tick (λ c, event (lfclk c)) fuel c.
Definition configure (fuel : nat) (config : Config) (c : Clock) : option Clock :=
  c ← start_hfclk fuel (hfclk_source config) c;
  start_lfclk fuel (lfclk_source config) c.

(** ** Lemmas *)

Lemma clock_parts n c : ticks clock_tick n c =
  mkClock (ticks starter_tick n (hfclk c)) (ticks starter_tick n (lfclk c)) (lfclksrc c).
Proof. revert c. induction n as [|n IH]; intros []; [done|]. simpl. by rewrite IH. Qed.

Lemma starter_idle {A} n (s : Starter A) : starting s = None → ticks starter_tick n s = s.
Proof.
  intros H. induction n as [|n IH]; [done|]. simpl. unfold starter_tick at 2. by rewrite H.
Qed.

(** A start whose event was cleared first: the event says that it is over. *)
Lemma started {A} n t (a : A) r :
  ticks starter_tick n (mkStarter false (Some (t, a)) r) =
    if (n <=? t)%nat then mkStarter false (Some ((t - n)%nat, a)) r
    else mkStarter true None (Some a).
Proof.
  revert t. induction n as [|n IH]; intros t; [by rewrite Nat.sub_0_r|]. simpl.
  destruct t as [|t]; unfold starter_tick at 2; simpl; [by apply starter_idle|apply IH].
Qed.

Lemma wait_started {A} (part : Clock → Starter A) fuel t a r c :
  (∀ n c, part (ticks clock_tick n c) = ticks starter_tick n (part c)) →
  part c = mkStarter false (Some (t, a)) r → (S t < fuel)%nat →
  ∃ n, wait_until clock_tick (λ c, event (part c)) fuel c = Some (ticks clock_tick n c) ∧
    part (ticks clock_tick n c) = mkStarter true None (Some a).
Proof.
  intros Hp Hc Hf.
  destruct (wait_until_ends clock_tick (λ c, event (part c)) (S t) fuel c) as (n & _ & Hw & Hd);
    [|done|].
  - rewrite Hp, Hc, started. by rewrite (proj2 (Nat.leb_gt _ _)) by lia.
  - exists n. split; [done|]. rewrite Hp, Hc, started in *. by case_match.
Qed.

Lemma start_hfclk_ends fuel source c : (S hf_time < fuel)%nat →
  ∃ c', start_hfclk fuel source c = Some c' ∧
    match source with
    | HfExternalXtal => hfclk c' = mkStarter true None (Some tt)
    | Internal => c' = c
    end.
Proof.
  intros Hf. destruct source; [by exists c|]. unfold start_hfclk.
  edestruct (wait_started hfclk fuel hf_time tt) as (n & Hw & Hn); cycle 3.
  - eexists. split; [exact Hw|exact Hn].
  - intros n c0. by rewrite clock_parts.
  - done.
  - done.
Qed.

Lemma start_lfclk_ends fuel source c : (S (lf_time (lfclksrc_of source)) < fuel)%nat →
  ∃ n c', start_lfclk fuel source c = Some c' ∧
    lfclk c' = mkStarter true None (Some (lfclksrc_of source)) ∧
    lfclksrc c' = lfclksrc_of source ∧ hfclk c' = ticks starter_tick n (hfclk c).
Proof.
  intros Hf. unfold start_lfclk.
  edestruct (wait_started lfclk fuel) as (n & Hw & Hn); cycle 3.
  - exists n. eexists. split; [exact Hw|]. split; [exact Hn|]. by rewrite clock_parts.
  - intros n c0. by rewrite clock_parts.
  - done.
  - done.
Qed.

(** ** Properties *)

(** [configure] returns, whatever the clocks were doing and whatever events were left
    from before, and when it does the clocks run: the crystal if it was asked for, and
    the low-frequency clock from the source of the configuration.  Without the crystal
    the high-frequency clock is left as it was. *)
Theorem nrf_configure_spec fuel config c :
  (S hf_time < fuel)%nat → (∀ s, S (lf_time s) < fuel)%nat →
  ∃ c', configure fuel config c = Some c' ∧
    running (lfclk c') = Some (lfclksrc_of (lfclk_source config)) ∧ starting (lfclk c') = None ∧
    lfclksrc c' = lfclksrc_of (lfclk_source config) ∧
    match hfclk_source config with
    | HfExternalXtal => running (hfclk c') = Some tt ∧ starting (hfclk c') = None
    | Internal => starting (hfclk c) = None → hfclk c' = hfclk c
    end.
Proof.
  intros Hh Hl. unfold configure.
  destruct (start_hfclk_ends fuel (hfclk_source config) c Hh) as (c1 & -> & H1).
  destruct (start_lfclk_ends fuel (lfclk_source config) c1 (Hl _)) as (n & c2 & Hc2 & L & S2 & H2).
  exists c2. split; [exact Hc2|]. rewrite L. split_and!; [done..|].
  destruct (hfclk_source config).
  - subst c1. rewrite H2. apply starter_idle.
  - by rewrite H2, H1, starter_idle.
Qed.
End configure.

Lemma nrf_configure_spec_witness :
  let c := mkClock (mkStarter true None None) (mkStarter true (Some (2%nat, lfclksrc_reset)) None)
             lfclksrc_reset in
  ∃ c', configure 12 (λ _, 20%nat) 25 (mkConfig HfExternalXtal ExternalLowSwing) c = Some c' ∧
    running (lfclk c') = Some (mkLfclksrc xtal true false) ∧ running (hfclk c') = Some tt.
Proof.
  intros c.
  destruct (nrf_configure_spec 12 (λ _, 20%nat) 25 (mkConfig HfExternalXtal ExternalLowSwing) c)
    as (c' & Hc & Hr & _ & _ & Hh & _); [lia|intros; lia|].
  exists c'. split; [exact Hc|split; [exact Hr|exact Hh]].
Defined.
