(* ===== verification/Macros.v ===== *)
(** * Macros: the code that [task], [main] and the interrupt macros emit

    [embassy-macros/src/lib.rs] and its [chip] modules.  What a macro looks at of the
    function it is given is a record; its output is a record of the parts of the code it
    emits, and the meaning of that code is given by the definitions of this library:
    which items and parameters its names refer to, and what it does when it runs. *)
From S2P Require Import Prelude Interrupt Time Task Executor ExecutorInv ExecutorProofs ExecutorThms.
From stdpp Require Import strings.
Local Open Scope string_scope.
Local Open Scope list_scope.

(** ** What the macros read of a function

    [Ty] and [Block] are the types and bodies, which they pass on. *)
Section syntax.
Context {Ty Block : Type}.

Inductive Pat : Type :=
| PatIdent (by_ref mutability : bool) (ident : string)
| PatOther.
Inductive FnArg : Type :=
| Receiver
| Typed (pat : Pat) (ty : Ty).
Record ItemFn : Type := mkItemFn {
  vis : string; asyncness : bool; ident : string; generics : list string;
  inputs : list FnArg; block : Block
}.
Definition set_ident (i : string) (f : ItemFn) : ItemFn :=
  mkItemFn (vis f) (asyncness f) i (generics f) (inputs f) (block f).

(** ** [task] *)
Record MacroArgs : Type := mkMacroArgs { pool_size : option nat; send : bool }.

(** The parts of the emitted code: the outer function's visibility, name and arguments;
    whether its future is [Send]; the function inside of it; the size of its pool; and
    the arguments of the call in the closure. *)
Record TaskItem : Type := mkTaskItem {
  t_vis : string; t_name : string; t_args : list FnArg; t_send : bool;
  t_fn : ItemFn; t_pool : nat; t_call : list string
}.

(** The loop over the arguments: the errors, the names, and the arguments without [mut]. *)
Definition task_arg (a : FnArg) : list string * list string * FnArg :=
  match a with
  | Receiver => (["task functions must not have receiver arguments"], [], a)
  | Typed (PatIdent r m i) t => ([], [i], Typed (PatIdent r false i) t)
  | Typed PatOther _ =>
      (["pattern matching in task arguments is not yet supporteds"], [], a)
  end.
Fixpoint task_args (l : list FnArg) : list string * list string * list FnArg :=
  match l with
  | [] => ([], [], [])
  | a :: l' =>
      let '(e, n, a') := task_arg a in
      let '(es, ns, l'') := task_args l' in (e ++ es, n ++ ns, a' :: l'')
  end.

(** The errors it emits, or the code. *)
Definition task (macro_args : MacroArgs) (task_fn : ItemFn) : list string + TaskItem :=
  let pool := default 1%nat (pool_size macro_args) in
  let e1 := if asyncness task_fn then [] else ["task functions must be async"] in
  let e2 := if bool_decide (generics task_fn = []) then []
            else ["task functions must not be generic"] in
  let e3 := if (pool <? 1)%nat then ["pool_size must be 1 or greater"] else [] in
  let '(e4, arg_names, args) := task_args (inputs task_fn) in
  match e1 ++ e2 ++ e3 ++ e4 with
  | [] =>
      inr (mkTaskItem (vis task_fn) (ident task_fn) args (send macro_args)
             (set_ident "task" task_fn) pool arg_names)
  | errors => inl errors
  end.

(** *** What the names of the emitted code mean

    The emitted function has a block with the items [task], [NEW_TASK] and [POOL]; a name
    is looked up in the block's items, then among the parameters, then outside. *)
Inductive Binding : Type := Item (x : string) | Param (n : nat) | Outer (x : string).
Definition param_name (a : FnArg) : option string :=
  match a with Typed (PatIdent _ _ i) _ => Some i | _ => None end.
Definition block_items : list string := ["task"; "NEW_TASK"; "POOL"].
Definition find_param (args : list FnArg) (x : string) : option nat :=
  fst <$> list_find (λ a, param_name a = Some x) args.
Definition resolve (args : list FnArg) (x : string) : Binding :=
  if decide (x ∈ block_items) then Item x
  else match find_param args x with Some n => Param n | None => Outer x end.

(** The call [task(#arg_names)]: the function called, and its arguments. *)
Definition call_target (t : TaskItem) : Binding := resolve (t_args t) "task".
Definition call_args (t : TaskItem) : list Binding := resolve (t_args t) <$> t_call t.

(** ** [main]

    One argument; the body goes into a task of its own, whose expansion follows. *)
Definition main (main_fn : ItemFn) : list string + ItemFn :=
  let e1 := if asyncness main_fn then [] else ["task functions must be async"] in
  let e2 := if bool_decide (generics main_fn = []) then []
            else ["main function must not be generic"] in
  let e3 := if (length (inputs main_fn) =? 1)%nat then []
            else ["main function must have one argument"] in
  match e1 ++ e2 ++ e3 with
  | [] => inr (mkItemFn "" true "__embassy_main" [] (inputs main_fn) (block main_fn))
  | errors => inl errors
  end.
Definition main_task (main_fn : ItemFn) : list string + TaskItem :=
  match main main_fn with
  | inr f => task (mkMacroArgs None false) f
  | inl errors => inl errors
  end.

(** ** Lemmas *)

Definition is_ident (a : FnArg) : bool := if param_name a is Some _ then true else false.

Lemma task_args_ok l : (task_args l).1.1 = [] ↔ Forall (λ a, is_ident a = true) l.
Proof.
  induction l as [|a l IH]; [by split|]. simpl. rewrite Forall_cons, <-IH.
  destruct (task_args l) as [[es ns] l']. destruct a as [|[r m i|] t]; simpl; intuition done.
Qed.

(** Without an error, the call has the name of every parameter, in order. *)
Lemma task_args_names l : Forall (λ a, is_ident a = true) l →
  (task_args l).1.2 = omap param_name l ∧ length (task_args l).1.2 = length l ∧
  (param_name <$> (task_args l).2) = (param_name <$> l).
Proof.
  induction 1 as [|a l Ha _ IH]; [done|]. simpl.
  destruct (task_args l) as [[es ns] l']. destruct a as [|[r m i|] t]; simpl in *; try done.
  destruct IH as (E1 & E2 & E3). split_and!; [by f_equal..|by apply (f_equal (cons (Some i)))].
Qed.

Lemma find_param_nodup args n x :
  NoDup (omap param_name args) → (param_name <$> args) !! n = Some (Some x) →
  find_param args x = Some n.
Proof.
  intros Hnd Hn. unfold find_param. apply list_lookup_fmap_Some in Hn as (a & Hx & Ha).
  symmetry in Hx. assert (Hf : list_find (λ a, param_name a = Some x) args = Some (n, a));
    [|by rewrite Hf].
  apply list_find_Some. split_and!; [done|done|]. intros j b Hb Hj Hbx.
  clear Block. revert n j Hnd Ha Hb Hj.
  induction args as [|c args IH]; intros n j Hnd Ha Hb Hj; [done|].
  destruct n as [|n]; [lia|]. simpl in Ha. destruct j as [|j].
  - simpl in Hb. injection Hb as ->. simpl in Hnd. rewrite Hbx in Hnd.
    apply NoDup_cons in Hnd as [Hni _]. apply Hni, list_elem_of_omap. exists a.
    split; [by eapply list_elem_of_lookup_2|done].
  - apply (IH n j); try done; [|lia]. simpl in Hnd.
    destruct (param_name c); [by apply NoDup_cons in Hnd as []|done].
Qed.

(** The names of a list of plain parameters. *)
Lemma params_named (l : list FnArg) (names : list string) :
  (param_name <$> l) = (Some <$> names) → omap param_name l = names.
Proof.
  revert names. induction l as [|a l IH]; intros [|x names] H; try done.
  simpl in *. injection H as -> H. f_equal. by apply IH.
Qed.
Lemma idents_named (l : list FnArg) : Forall (λ a, is_ident a = true) l →
  (param_name <$> l) = (Some <$> omap param_name l).
Proof.
  induction 1 as [|a l Ha _ IH]; [done|]. unfold is_ident in Ha. simpl.
  destruct (param_name a); [|done]. cbn [omap list_omap fmap list_fmap]. by f_equal.
Qed.

(** Names that no item hides refer to the parameters, in their order. *)
Lemma resolve_params (l : list FnArg) (names : list string) :
  (param_name <$> l) = (Some <$> names) → NoDup names →
  Forall (λ x, x ∉ block_items) names → (resolve l <$> names) = (Param <$> seq 0 (length names)).
Proof.
  intros Hl Hnd Hf. apply list_eq. intros i. rewrite !list_lookup_fmap.
  destruct (names !! i) as [x|] eqn:Hi; simpl.
  - rewrite lookup_seq_lt by by apply lookup_lt_Some in Hi. simpl. f_equal. unfold resolve.
    rewrite decide_False by exact (Forall_lookup_1 _ _ _ _ Hf Hi).
    rewrite (find_param_nodup l i x); [done| |].
    + by rewrite (params_named _ _ Hl).
    + rewrite Hl, list_lookup_fmap, Hi. done.
  - rewrite lookup_seq_ge; [done|]. by apply lookup_ge_None in Hi.
Qed.
End syntax.
Arguments FnArg Ty : clear implicits.
Arguments ItemFn Ty Block : clear implicits.
Arguments TaskItem Ty Block : clear implicits.

(** ** What the emitted code does when it runs *)
Section run.
Context {F U : Type} {Ty Block : Type}.
Implicit Types w : World F U.

(** [static POOL: [Task<F>; #pool_size] = [NEW_TASK; #pool_size]]. *)
Definition NEW_TASK : Task F := Task_new.
Definition static_pool (t : TaskItem Ty Block) w (POOL : list ptr) : Prop :=
  length POOL = t_pool t ∧ NoDup POOL ∧ Forall (λ p, heap w !! p = Some NEW_TASK) POOL.

(** [spawner.spawn(name(...))]: the emitted function, and what it gives to the executor. *)
Definition spawn_call (e : eid) (POOL : list ptr) (fut : F) : M F U (Result unit SpawnError) :=
  token ← Task_spawn_pool POOL fut; Spawner_spawn e token.
Fixpoint spawn_calls (e : eid) (POOL : list ptr) (futs : list F)
    : M F U (list (Result unit SpawnError)) :=
  match futs with
  | [] => mret []
  | fut :: futs' =>
      r ← spawn_call e POOL fut;
      rs ← spawn_calls e POOL futs';
      mret (r :: rs)
  end.

(** The closure [main] gives to [Executor::run]: the spawn is unwrapped. *)
Definition main_init (e : eid) (POOL : list ptr) (fut : F) : M F U (outcome unit) :=
  r ← spawn_call e POOL fut;
  mret (match r with Ok u => Done u | Err _ => Panic end).

(** The tasks of a pool that are free. *)
Definition is_free w (p : ptr) : Prop :=
  match heap w !! p with Some t => state (raw t) = 0%Z | None => False end.
#[local] Instance is_free_dec w p : Decision (is_free w p).
Proof. unfold is_free. destruct (heap w !! p); apply _. Defined.
Definition free_tasks w (pool : list ptr) : list ptr := filter (is_free w) pool.

Lemma first_free_head w pool : first_free w pool = head (free_tasks w pool).
Proof.
  unfold first_free, free_tasks. induction pool as [|p pool IH]; [done|].
  rewrite filter_cons. cbn [find]. case_decide as Hp; unfold is_free in Hp.
  - destruct (heap w !! p); [|done]. by rewrite (proj2 (Z.eqb_eq _ _) Hp).
  - destruct (heap w !! p); [|exact IH]. by rewrite (proj2 (Z.eqb_neq _ _) Hp).
Qed.

(** A spawn takes the first free task, and only that one. *)
Lemma free_tasks_spawned w w' pool p t :
  NoDup pool → first_free w pool = Some p → heap w' = <[p := t]> (heap w) →
  state (raw t) ≠ 0%Z → free_tasks w' pool = tail (free_tasks w pool).
Proof.
  rewrite first_free_head. unfold free_tasks. intros Hnd Hff Hw' Ht.
  assert (Hq : ∀ q, q ≠ p → is_free w' q ↔ is_free w q).
  { intros q Hq. unfold is_free. by rewrite Hw', lookup_insert_ne. }
  assert (Hp : ¬ is_free w' p) by (unfold is_free; by rewrite Hw', lookup_insert_eq).
  induction pool as [|q pool IH]; [done|]. rewrite !filter_cons in *.
  apply NoDup_cons in Hnd as [Hni Hnd]. destruct (decide (is_free w q)) as [Hf|Hf].
  - simpl in Hff. injection Hff as ->. rewrite decide_False by done. simpl.
    clear IH Hnd. induction pool as [|r pool IH]; [done|].
    apply not_elem_of_cons in Hni as [Hne Hni]. rewrite !filter_cons, IH by done.
    destruct (decide (is_free w r)) as [Hr|Hr].
    + rewrite decide_True by by apply Hq. done.
    + rewrite decide_False by by rewrite Hq. done.
  - assert (q ≠ p).
    { intros ->. apply Hf. assert (Hin : p ∈ filter (is_free w) pool).
      { destruct (filter (is_free w) pool); [done|]. injection Hff as ->. by left. }
      by apply list_elem_of_filter in Hin as []. }
    rewrite decide_False by by rewrite Hq. by apply IH.
Qed.

(** What a spawn needs of the memory, and keeps. *)
Definition spawnable w (e : eid) (pool : list ptr) : Prop :=
  (∃ rq tq, Inv w rq tq [] None) ∧ Forall (λ p, is_Some (heap w !! p)) pool ∧
  is_Some (execs w !! e).

Lemma wp_spawn_call e pool fut w :
  NoDup pool → spawnable w e pool →
  wp (spawn_call e pool fut) w (λ r w', spawnable w' e pool ∧
    free_tasks w' pool = tail (free_tasks w pool) ∧
    r = match free_tasks w pool with [] => Err Busy | _ => Ok tt end).
Proof.
  intros Hnd ((rq & tq & I) & Hpool & He).
  eapply wp_mono; [by eapply (wp_spawn e pool fut w rq tq [] None)|]. intros r w' Hr.
  destruct (first_free w pool) as [p|] eqn:Hff.
  - destruct Hr as (t & ex & Hp & Hex & -> & -> & I' & _).
    destruct (first_free_Some w pool p Hff) as (_ & t0 & Ht0 & Hs). simplify_eq.
    assert (Hfree : free_tasks (enqueued e ex p (ExecutorProofs.fresh e fut t) w) pool = tail (free_tasks w pool)).
    { eapply free_tasks_spawned; [done..|]. simpl. done. }
    split_and!; [|exact Hfree|].
    + split; [by eauto|]. split.
      * eapply Forall_impl; [exact Hpool|]. intros q [u Hq]. simpl.
        rewrite lookup_insert. case_decide; by eexists.
      * simpl. rewrite lookup_insert_eq. by eexists.
    + rewrite first_free_head in Hff. by destruct (free_tasks w pool).
  - destruct Hr as [-> ->]. rewrite first_free_head in Hff.
    assert (Hnil : free_tasks w pool = []) by by destruct (free_tasks w pool).
    rewrite Hnil. split_and!; [|done|done]. split_and!; [by eauto|done|done].
Qed.

Lemma wp_spawn_calls e pool futs : ∀ w, NoDup pool → spawnable w e pool →
  wp (spawn_calls e pool futs) w (λ rs w',
    spawnable w' e pool ∧ let n := length (free_tasks w pool) in
    rs = replicate (min n (length futs)) (Ok tt) ++ replicate (length futs - n) (Err Busy)).
Proof.
  induction futs as [|fut futs IH]; intros w Hnd Hs; simpl.
  { apply wp_ret. split; [done|]. by rewrite Nat.min_0_r. }
  apply wp_bind. eapply wp_mono; [by apply wp_spawn_call|]. intros r w1 (H1 & Hf & Hr).
  apply wp_bind. eapply wp_mono; [by apply IH|]. intros rs w2 (H2 & Hrs).
  apply wp_ret. split; [done|]. rewrite Hf in Hrs. subst r.
  destruct (free_tasks w pool) as [|p l]; cbn [tail length] in *; subst rs.
  - by rewrite Nat.sub_0_r.
  - done.
Qed.
End run.

(** ** Properties of [task] and [main] *)

Section macros.
Context {Ty Block : Type}.

(** C15: [task] accepts a function exactly when it is async, has no generics, a pool of at
    least one, and only plain names as arguments.  What it emits has the function's
    name, a pool of the size asked for, and calls the function it was given with the
    parameters in their order -- if none of them is called [task], [NEW_TASK] or
    [POOL]: such a parameter is hidden by the item of that name, and the emitted code
    does not type. *)
Theorem task_expansion (args : MacroArgs) (f : ItemFn Ty Block) :
  ((∃ t, task args f = inr t) ↔
    asyncness f = true ∧ generics f = [] ∧ (1 ≤ default 1 (pool_size args))%nat ∧
    Forall (λ a, is_ident a = true) (inputs f)) ∧
  ∀ t, task args f = inr t →
    t_name t = ident f ∧ t_pool t = default 1%nat (pool_size args) ∧ t_send t = send args ∧
    t_fn t = set_ident "task" f ∧ call_target t = Item "task" ∧
    (NoDup (omap param_name (inputs f)) →
     Forall (λ x, x ∉ block_items) (omap param_name (inputs f)) →
     call_args t = Param <$> seq 0 (length (inputs f))) ∧
    (∀ x, x ∈ block_items → x ∈ omap param_name (inputs f) → Item x ∈ call_args t).
Proof.
  unfold task. set (n := default 1%nat (pool_size args)).
  pose proof (task_args_ok (inputs f)) as Hok. pose proof (task_args_names (inputs f)) as Hnames.
  destruct (task_args (inputs f)) as [[e4 names] args']. simpl in Hok, Hnames. split.
  - rewrite <-Hok. destruct (asyncness f); simpl; [|by split; [intros []|intros []]].
    case_bool_decide; simpl; [|by split; [intros []|intros (_ & ? & _)]].
    destruct (Nat.ltb_spec n 1) as [Hn|Hn]; simpl; [by split; [intros []|intros (_ & _ & ? & _); lia]|].
    destruct e4; [|by split; [intros []|intros (_ & _ & _ & ?)]].
    split; [by intros _|intros _; by eexists].
  - intros t Ht. destruct (app _ _) as [|? ?] eqn:He; [|done]. injection Ht as <-.
    apply app_eq_nil in He as [_ (_ & (_ & ->)%app_eq_nil)%app_eq_nil].
    destruct (Hnames (proj1 Hok eq_refl)) as (-> & Hlen & Hargs). split_and!; try done.
    + intros Hnd Hf. unfold call_args. simpl. rewrite <-Hlen. apply resolve_params; [|done..].
      rewrite Hargs. apply idents_named. by apply Hok.
    + intros x Hx Hin. unfold call_args. simpl. apply list_elem_of_fmap. exists x.
      split; [|done]. unfold resolve. by rewrite decide_True.
Qed.
End macros.

Section running.
Context {F U : Type} {Ty Block : Type}.
Implicit Types w : World F U.

Lemma static_pool_free (t : TaskItem Ty Block) w POOL : static_pool t w POOL →
  free_tasks w POOL = POOL ∧ Forall (λ p, is_Some (heap w !! p)) POOL.
Proof.
  intros (_ & _ & Hf). split; [|eapply Forall_impl; [exact Hf|]; by intros p ->].
  induction Hf as [|p POOL Hp Hf IH]; [done|]. unfold free_tasks in *.
  rewrite filter_cons, decide_True, IH; [done|]. unfold is_free. by rewrite Hp.
Qed.

(** A task with a pool of [n] can be spawned [n] times, whatever is spawned with it; the
    next spawn, with none of the tasks finished, is [Busy]. *)
Theorem task_pool_capacity (t : TaskItem Ty Block) w rq tq e POOL (futs : list F) :
  Inv w rq tq [] None → is_Some (execs w !! e) → static_pool t w POOL →
  ∃ w', spawn_calls e POOL futs w =
    Some (replicate (min (t_pool t) (length futs)) (Ok tt) ++
          replicate (length futs - t_pool t) (Err Busy), w').
Proof.
  intros I He Hs. destruct (static_pool_free t w POOL Hs) as (Hfree & Hsome).
  destruct Hs as (Hlen & Hnd & _).
  assert (H : spawnable w e POOL) by (split_and!; eauto).
  pose proof (wp_spawn_calls e POOL futs w Hnd H) as Hwp.
  apply wp_run in Hwp as (rs & w' & Hr & _ & Hrs). exists w'. by rewrite Hr, Hrs, Hfree, Hlen.
Qed.

(** C14: [main] accepts an async function without generics and with one plain argument; the
    task it makes of it is spawned before the executor runs, without panicking, and the
    executor's first pass polls it. *)
Theorem main_starts (fut_poll : F → U → Prog F (F * U * Poll unit)) clock D E
    (f : ItemFn Ty Block) w e p fut :
  ((∃ t, main_task f = inr t) ↔ asyncness f = true ∧ generics f = [] ∧
    length (inputs f) = 1%nat ∧ Forall (λ a, is_ident a = true) (inputs f)) ∧
  ∀ t, main_task f = inr t →
    (∀ fut u, prog_valid D E (fut_poll fut u)) →
    good D E w → e ∈ E → static_pool t w [p] →
    ∃ w1 w2 visited, main_init e [p] fut w = Some (Done tt, w1) ∧
      run_queued fut_poll clock e w1 = Some (tt, w2) ∧
      polls (trace w2) = polls (trace w) ++ visited ∧ p ∈ visited.
Proof.
  split.
  - unfold main_task, main, task. destruct (asyncness f); simpl; [|by split; [intros []|intros []]].
    case_bool_decide; simpl; [|by split; [intros []|intros (_ & ? & _)]].
    destruct (Nat.eqb_spec (length (inputs f)) 1) as [Hn|Hn]; simpl;
      [|by split; [intros []|intros (_ & _ & ? & _)]].
    rewrite <-task_args_ok. destruct (task_args (inputs f)) as [[e4 names] args']. simpl.
    destruct e4; [|by split; [intros []|intros (_ & _ & _ & ?)]].
    split; [by intros _|intros _; by eexists].
  - intros t _ Hv [HS (rq & tq & I)] He Hs.
    destruct Hs as (_ & _ & Hp%Forall_cons); destruct Hp as [Hp _].
    destruct (proj2 HS e He) as [ex Hex].
    assert (Hsp : wp (spawn_call e [p] fut) w (λ r w1, r = Ok tt ∧
      w1 = enqueued e ex p (ExecutorProofs.fresh e fut NEW_TASK) w ∧
      Inv w1 (push rq e p) tq [] None ∧ Frame [] w w1)).
    { eapply wp_mono.
      - eapply (wp_spawn e [p] fut w rq tq [] None); [done|by repeat constructor|done].
      - assert (Hff : first_free w [p] = Some p) by (unfold first_free; cbn; by rewrite Hp).
        rewrite Hff. intros r w1 (t0 & ex0 & Hp0 & Hex0 & -> & -> & I1 & Fr & _). by simplify_eq. }
    apply wp_run in Hsp as (r & w1 & Hr & -> & Hw1 & I1 & Fr).
    destruct (fr_exec _ _ _ Fr e ex Hex) as (ex1 & Hex1 & _ & _).
    pose proof (wp_run_queued fut_poll clock D E Hv e ex1 w1 _ tq I1
      (in_scope_frame D E [] w w1 HS Fr) Hex1) as H.
    apply wp_run in H as ([] & w2 & Hr2 & _ & _ & _ & _ & _ & Hpolls & _).
    exists w1, w2, (live w1 (batch clock e ex1 w1 (push rq e p) tq)). split_and!.
    + unfold main_init, mbind, M_bind. by rewrite Hr.
    + done.
    + by rewrite Hpolls, (fr_polls _ _ _ Fr).
    + eapply elem_of_live; [rewrite Hw1; apply lookup_insert_eq|]. split; [|done].
      apply elem_of_batch, elem_of_push. by left.
Qed.
End running.

(** ** [interrupt_declare] and [interrupt_take]

    A program with its uses of the two macros.  The first emits the handler cell under a
    symbol made of the interrupt's name; the second emits the trampoline under the
    interrupt's own name, which the vector table refers to, reads the cell by its symbol,
    and has a flag of its own. *)
Module Interrupts.
Definition name_handler (name : string) : string := "__EMBASSY_" +:+ name +:+ "_HANDLER".
Record Program : Type := mkProgram { declares : list string; takes : list string }.

Definition exports (p : Program) : list string := (name_handler <$> declares p) ++ takes p.
Definition imports (p : Program) : list string := name_handler <$> takes p.
(** [interrupt::#name] is the type that is declared; no symbol is defined twice. *)
Definition compiles (p : Program) : Prop := takes p ⊆ declares p.
Definition links (p : Program) : Prop := NoDup (exports p).

(** The places where the macro is used run in any order, any number of times: the
    interrupts handed out, or the panic of the second run of one. *)
Fixpoint run_takes (sites : list string) (taken : list bool) (run : list nat)
    : outcome (list string) :=
  match run with
  | [] => Done []
  | i :: run' =>
      match sites !! i, taken !! i with
      | Some name, Some b =>
          b' ← interrupt_take b;
          names ← run_takes sites (<[i := b']> taken) run';
          Done (name :: names)
      | _, _ => run_takes sites taken run'
      end
  end.
Definition run_program (p : Program) (run : list nat) : outcome (list string) :=
  run_takes (takes p) (replicate (length (takes p)) false) run.

Lemma append_inj_suffix (s a b : string) : a +:+ s = b +:+ s → a = b.
Proof.
  assert (Hl : ∀ a b : string, String.length (a +:+ b) = (String.length a + String.length b)%nat).
  { clear. intros a b. induction a as [|c a IH]; [done|]. simpl. by f_equal. }
  revert b. induction a as [|c a IH]; intros [|d b] H; try done.
  - apply (f_equal String.length) in H. rewrite !Hl in H. simpl in H. lia.
  - apply (f_equal String.length) in H. rewrite !Hl in H. simpl in H. lia.
  - simpl in H. injection H as -> H. by rewrite (IH b).
Qed.

Lemma name_handler_inj a b : name_handler a = name_handler b → a = b.
Proof. intros [= H]. exact (append_inj_suffix "_HANDLER" a b H). Qed.

Lemma run_takes_once sites : ∀ run taken names, NoDup sites →
  run_takes sites taken run = Done names →
  NoDup names ∧ (∀ x, x ∈ names → ∃ i, i ∈ run ∧ sites !! i = Some x ∧ taken !! i = Some false).
Proof.
  induction run as [|i run IH]; intros taken names Hnd; simpl.
  { intros [= <-]. split; [constructor|]. by intros x ?%not_elem_of_nil. }
  destruct (sites !! i) as [name|] eqn:Hi; [destruct (taken !! i) as [[]|] eqn:Ht|]; try done.
  - simpl. intros (names' & Hr & [= <-])%bind_Done.
    destruct (IH _ _ Hnd Hr) as (Hnd' & Hin). split.
    + apply NoDup_cons. split; [|done]. intros (j & _ & Hj & Htj)%Hin.
      rewrite (NoDup_lookup _ _ _ _ Hnd Hj Hi), list_lookup_insert_eq in Htj; [done|].
      by eapply lookup_lt_Some.
    + intros x [->|(j & Hj & Hx & Htj)%Hin]%elem_of_cons; [exists i; by repeat constructor|].
      exists j. split; [by right|]. split; [done|].
      destruct (decide (i = j)) as [<-|]; [|by rewrite list_lookup_insert_ne in Htj].
      rewrite list_lookup_insert_eq in Htj; [done|]. by eapply lookup_lt_Some.
  - intros Hr. destruct (IH _ _ Hnd Hr) as (? & Hin). split; [done|].
    intros x (j & Hj & ?)%Hin. exists j. split; [by right|done].
  - intros Hr. destruct (IH _ _ Hnd Hr) as (? & Hin). split; [done|].
    intros x (j & Hj & ?)%Hin. exists j. split; [by right|done].
Qed.

(** In a program that compiles and links, an interrupt is handed out at most once, from
    however many places and however often they run: a second use of [take!] for it does
    not link, and a second run of the same one panics.  Every trampoline finds its cell,
    and it is the cell of the type it hands out. *)
Theorem interrupt_taken_once p run names :
  compiles p → links p → run_program p run = Done names →
  NoDup names ∧ (∀ x, x ∈ names → x ∈ takes p ∧ x ∈ declares p) ∧
  (∀ x, x ∈ imports p → x ∈ exports p) ∧
  ∀ x y, x ∈ takes p → y ∈ declares p → name_handler x = name_handler y → x = y.
Proof.
  intros Hc Hl Hr. apply NoDup_app in Hl as (_ & _ & Hnd).
  destruct (run_takes_once _ _ _ _ Hnd Hr) as (Hn & Hin).
  assert (Ht : ∀ x, x ∈ names → x ∈ takes p).
  { intros x (i & _ & Hi & _)%Hin. by eapply list_elem_of_lookup_2. }
  split_and!; [done| | |].
  - intros x Hx. split; [by apply Ht|]. by apply Hc, Ht.
  - intros x (y & -> & Hy)%list_elem_of_fmap. apply elem_of_app. left.
    apply list_elem_of_fmap. exists y. split; [done|]. by apply Hc.
  - intros x y _ _. apply name_handler_inj.
Qed.

(** What the two panics and the linker rule out. *)
Lemma take_site_twice sites taken i name : sites !! i = Some name → (i < length taken)%nat →
  run_takes sites taken [i; i] = Panic.
Proof.
  intros Hi Hlt. simpl. rewrite Hi.
  destruct (lookup_lt_is_Some_2 taken i Hlt) as [[] Ht]; rewrite Ht; [done|]. simpl.
  by rewrite list_lookup_insert_eq.
Qed.

Lemma interrupt_taken_once_witness :
  let p := mkProgram ["RTC1"; "SPIM3"] ["SPIM3"; "RTC1"] in
  run_program p [1; 0]%nat = Done ["RTC1"; "SPIM3"] ∧ NoDup ["RTC1"; "SPIM3"] ∧
  run_program p [1; 0; 1]%nat = Panic.
Proof.
  intros p. split; [reflexivity|split; [|reflexivity]].
  apply (interrupt_taken_once p [1; 0]%nat ["RTC1"; "SPIM3"]).
  - apply (bool_decide_unpack _). vm_compute. exact I.
  - apply (bool_decide_unpack _). vm_compute. exact I.
  - reflexivity.
Defined.
End Interrupts.

(** ** Witnesses *)
Definition demo_fn : ItemFn unit unit :=
  mkItemFn "pub" true "blink" [] [Typed (PatIdent false true "led") tt;
    Typed (PatIdent false false "period") tt] tt.
Definition demo_item : TaskItem unit unit :=
  mkTaskItem "pub" "blink" [Typed (PatIdent false false "led") tt;
    Typed (PatIdent false false "period") tt] false (set_ident "task" demo_fn) 2 ["led"; "period"].

Lemma task_pool_capacity_witness :
  let w := boot {[1; 2]}%positive {[1]}%positive tt : World nat unit in
  task (mkMacroArgs (Some 2%nat) false) demo_fn = inr demo_item ∧
  ∃ w', spawn_calls 1%positive [1; 2]%positive [10; 11; 12]%nat w =
    Some ([Ok tt; Ok tt; Err Busy], w').
Proof.
  intros w. split; [reflexivity|].
  destruct (boot_good (F := nat) {[1; 2]}%positive {[1]}%positive tt) as [_ (rq & tq & I)].
  apply (task_pool_capacity demo_item w rq tq 1%positive [1; 2]%positive [10; 11; 12]%nat I).
  - vm_compute. by eexists.
  - split_and!; [reflexivity|apply (bool_decide_unpack _); vm_compute; reflexivity|].
    repeat constructor.
Defined.

Lemma task_expansion_witness :
  task (mkMacroArgs (Some 2%nat) false) demo_fn = inr demo_item ∧
  call_args demo_item = [Param 0; Param 1].
Proof.
  split; [reflexivity|].
  apply (proj2 (task_expansion (mkMacroArgs (Some 2%nat) false) demo_fn) demo_item).
  - reflexivity.
  - apply (bool_decide_unpack _). vm_compute. exact I.
  - apply (bool_decide_unpack _). vm_compute. exact I.
Defined.

Definition demo_main : ItemFn unit unit :=
  mkItemFn "" true "main" [] [Typed (PatIdent false false "spawner") tt] tt.
Definition idle_poll (f : nat) (u : unit) : Prog nat (nat * unit * Poll unit) := PRet (f, u, Pending).

Lemma main_starts_witness :
  let w := boot {[1%positive]} {[1%positive]} tt : World nat unit in
  ∃ w1 w2 visited, main_init 1%positive [1%positive] 7%nat w = Some (Done tt, w1) ∧
    run_queued idle_poll (λ _, 0%Z) 1%positive w1 = Some (tt, w2) ∧
    polls (trace w2) = polls (trace w) ++ visited ∧ 1%positive ∈ visited.
Proof.
  intros w.
  apply (proj2 (main_starts idle_poll (λ _, 0%Z) {[1%positive]} {[1%positive]} demo_main w
    1%positive 1%positive 7%nat)
    (mkTaskItem "" "__embassy_main" [Typed (PatIdent false false "spawner") tt] false
       (mkItemFn "" true "task" [] [Typed (PatIdent false false "spawner") tt] tt) 1 ["spawner"])).
  - reflexivity.
  - intros. constructor.
  - apply boot_good.
  - by apply elem_of_singleton.
  - split_and!; [reflexivity|apply NoDup_singleton|by repeat constructor].
Defined.
