(* ===== verification/EasyDma.v ===== *)
(** * EasyDma: what the nRF drivers with DMA share

    The constants of [embassy-nrf/src/lib.rs] and its check that a slice is in RAM;
    and the way [spim.rs], [saadc.rs] and [qspi.rs] wait for the end of a transfer: a
    poll that looks at an event and, if it has not occurred, sends the peripheral's
    interrupt to the task with [Interrupt.wake_on_interrupt]. *)
From S2P Require Import Prelude Interrupt.
Local Open Scope Z_scope.

(** ** Memory *)
Inductive Chip : Set := C52810 | C52811 | C52832 | C52833 | C52840.

Definition EASY_DMA_SIZE (c : Chip) : Z :=
  match c with C52810 | C52811 | C52832 => 255 | C52833 | C52840 => 65535 end.
Definition SRAM_LOWER : Z := 0x20000000.
Definition SRAM_UPPER : Z := 0x30000000.

Section ram.
Context {P : Profile}.

(** A slice is its address and its length; the sum is only taken for an address that
    is high enough. *)
Definition slice_in_ram (ptr len : Z) : outcome bool :=
  if SRAM_LOWER <=? ptr then
    e ← arith 32 (ptr + len); Done (e <? SRAM_UPPER)
  else Done false.

Definition slice_in_ram_or {E} (ptr len : Z) (err : E) : outcome (Result unit E) :=
  if len =? 0 then Done (Ok tt)
  else b ← slice_in_ram ptr len; Done (if b : bool then Ok tt else Err err).

Lemma slice_in_ram_spec ptr len : 0 ≤ ptr → 0 ≤ len → ptr + len < 2 ^ 32 →
  slice_in_ram ptr len = Done ((SRAM_LOWER <=? ptr) && (ptr + len <? SRAM_UPPER)).
Proof.
  intros Hp Hl Hs. unfold slice_in_ram. destruct (SRAM_LOWER <=? ptr); [|done].
  by rewrite arith_fits by lia.
Qed.
End ram.

(** ** Waiting for an event

    The event register of the peripheral, its bit in INTEN, and the interrupt line. *)
Record Ev : Type := mkEv { occurred : bool; inten : bool; line : Irq Fn }.

(** [events_end.reset()] and [intenset], before a transfer is started. *)
Definition begin_event (e : Ev) : Ev := mkEv false true (line e).

(** The poll in its two steps: the check, and arming the interrupt. *)
Definition event_check (e : Ev) : Poll unit * Ev :=
  if occurred e then (Ready tt, mkEv false (inten e) (line e)) else (Pending, e).
Definition event_arm (task : Z) (e : Ev) : Ev :=
  mkEv (occurred e) (inten e) (wake_on_interrupt task (line e)).
Definition event_poll (task : Z) (e : Ev) : Poll unit * Ev :=
  match event_check e with
  | (Ready u, e') => (Ready u, e')
  | (Pending, e') => (Pending, event_arm task e')
  end.

(** The hardware: a pending interrupt is taken as soon as it is enabled; the event
    raises it if INTEN says so. *)
Definition deliver (e : Ev) : list Z * Ev :=
  if enabled (line e) && pending (line e) then
    let '(ws, i) := raise (line e) in (ws, mkEv (occurred e) (inten e) i)
  else ([], e).
Definition hw_event (e : Ev) : list Z * Ev :=
  let e1 := mkEv true (inten e) (line e) in
  if inten e then deliver (mkEv true (inten e) (pend (line e))) else ([], e1).

(** The task that waits is woken at the event, wherever it falls. *)
Definition armed (task : Z) (e : Ev) : Prop :=
  enabled (line e) = true ∧ func (line e) = Some irq_wake_handler ∧ ctx (line e) = task ∧
  inten e = true.

Lemma event_armed task e : inten e = true → armed task (event_arm task e).
Proof. done. Qed.

Lemma deliver_armed task e : task ≠ 0 → armed task e → pending (line e) = true →
  ∃ e', deliver e = ([task], e') ∧ occurred e' = occurred e ∧ enabled (line e') = false.
Proof.
  intros Ht (He & Hf & Hc & Hi) Hp. unfold deliver. rewrite He, Hp. simpl.
  unfold raise, trampoline. simpl. rewrite He. simpl. rewrite Hf. simpl.
  rewrite Hc, (proj2 (Z.eqb_neq _ _) Ht). by eexists.
Qed.

(** A poll that finds the event is ready and takes it; one that does not is pending, and
    the task is woken by the event, whether it falls between the check and the arming
    or after the poll. *)
Lemma event_no_lost_wake task e : task ≠ 0 → inten e = true →
  (occurred e = true → ∃ e', event_poll task e = (Ready tt, e') ∧ occurred e' = false) ∧
  (occurred e = false →
   fst (event_poll task e) = Pending ∧
   (∃ e', hw_event (snd (event_poll task e)) = ([task], e') ∧
      fst (event_poll task e') = Ready tt) ∧
   (enabled (line e) = false →
    let '(ws1, e1) := hw_event (snd (event_check e)) in
    let '(ws2, e2) := deliver (event_arm task e1) in
    ws1 = [] ∧ ws2 = [task] ∧ fst (event_poll task e2) = Ready tt)).
Proof.
  intros Ht Hi. unfold event_poll, event_check. split; intros Ho; rewrite Ho; [by eexists|].
  split_and!; [done| |].
  - cbn [snd]. unfold hw_event. cbn [inten event_arm]. rewrite Hi.
    destruct (deliver_armed task (mkEv true true (pend (line (event_arm task e)))) Ht)
      as (e' & -> & Ho' & _); [done|done|].
    exists e'. split; [done|]. by rewrite Ho'.
  - intros Hen. cbn [snd]. set (e1 := mkEv true (inten e) (pend (line e))).
    assert (E1 : hw_event e = ([], e1)).
    { unfold hw_event, deliver. rewrite Hi. simpl. rewrite Hen. unfold e1. by rewrite Hi. }
    rewrite E1.
    destruct (deliver_armed task (event_arm task e1) Ht) as (e' & -> & Ho' & _); [done|done|].
    split_and!; [done|done|]. by rewrite Ho'.
Qed.

(** A poll again, while the interrupt is armed by one before: an event between its check
    and its arming has already woken the task. *)
Lemma event_repoll task e : task ≠ 0 → armed task e → occurred e = false →
  pending (line e) = false →
  let '(ws1, e1) := hw_event (snd (event_check e)) in
  let '(ws2, e2) := deliver (event_arm task e1) in
  ws1 = [task] ∧ ws2 = [] ∧ fst (event_poll task e2) = Ready tt.
Proof.
  intros Ht Ha Ho Hp. unfold event_check. rewrite Ho. cbn [snd]. destruct (id Ha) as (He & Hf & Hc & Hi).
  unfold hw_event. rewrite Hi. unfold deliver at 1. cbn [line pend enabled pending]. rewrite He. simpl.
  unfold raise, trampoline. simpl. rewrite He. simpl. rewrite Hf. simpl.
  rewrite Hc, (proj2 (Z.eqb_neq _ _) Ht). simpl. by split_and!.
Qed.

(** The state of the interrupt when a poll begins: masked, or armed by an earlier poll
    of the same task. *)
Definition poll_state (task : Z) (e : Ev) : Prop :=
  enabled (line e) = false ∨ armed task e ∧ pending (line e) = false.

Lemma event_window task e : task ≠ 0 → inten e = true → occurred e = false → poll_state task e →
  let '(ws1, e1) := hw_event (snd (event_check e)) in
  let '(ws2, e2) := deliver (event_arm task e1) in
  ws1 ++ ws2 = [task] ∧ fst (event_poll task e2) = Ready tt.
Proof.
  intros Ht Hi Ho [Hd|[Ha Hp]].
  - destruct (event_no_lost_wake task e Ht Hi) as [_ H].
    destruct (H Ho) as (_ & _ & H'). specialize (H' Hd). clear H. revert H'.
    destruct (hw_event (snd (event_check e))) as [ws1 e1], (deliver _) as [ws2 e2].
    by intros (-> & -> & ?).
  - pose proof (event_repoll task e Ht Ha Ho Hp) as H. revert H.
    destruct (hw_event (snd (event_check e))) as [ws1 e1], (deliver _) as [ws2 e2].
    by intros (-> & -> & ?).
Qed.

(** An operation masks nothing, so its first poll finds the interrupt as the one before
    left it: masked.  A poll and the event lead from such a state to another. *)
Lemma poll_state_kept task e : task ≠ 0 → inten e = true → poll_state task e →
  poll_state task (snd (hw_event e)) ∧ poll_state task (snd (deliver (snd (event_poll task e)))).
Proof.
  intros Ht Hi H. assert (Hr : ∀ i, enabled (line i) = true → func (line i) = Some irq_wake_handler →
    enabled (snd (raise (line i))) = false).
  { intros i He Hf. unfold raise, trampoline. simpl. rewrite He. simpl. by rewrite Hf. }
  split.
  - unfold hw_event. rewrite Hi. destruct H as [Hd|[(He & Hf & _) _]].
    + left. unfold deliver. simpl. by rewrite Hd.
    + left. unfold deliver. simpl. rewrite He. simpl.
      specialize (Hr (mkEv true true (pend (line e))) He Hf). simpl in Hr.
      by destruct (raise (pend (line e))).
  - unfold event_poll, event_check. destruct (occurred e).
    + cbn [snd]. unfold deliver. simpl. destruct H as [Hd|[Ha Hp]].
      * left. by rewrite Hd.
      * right. rewrite Hp, andb_false_r. by split.
    + cbn [snd]. unfold deliver. destruct (pending (line (event_arm task e))) eqn:Hp; simpl in *.
      * left. specialize (Hr (event_arm task e) eq_refl eq_refl).
        by destruct (raise (line (event_arm task e))).
      * right. split; [by split_and!|exact Hp].
Qed.
