(* ===== verification/LevelIrq.v ===== *)
(** * LevelIrq: interrupts that stay asserted

    A device asserts its interrupt for as long as a flag of its own is set, and the
    interrupt controller looks at it all the time.  [settle] is that look; an
    [InterruptFuture] on such a line is [armed] until the flag is set, and masked by its
    handler from then on.  The drivers of [embassy-stm32] are built on this. *)
From S2P Require Import Prelude Interrupt.
Local Open Scope Z_scope.

(** A device with its interrupt. *)
Record Dev (D : Type) : Type := mkDev { dev : D; line : Irq Fn }.
Arguments mkDev {D} _ _.
Arguments dev {D} _.
Arguments line {D} _.

Section level.
Context {D : Type} (asserted : D → bool).

Definition set_dev (d : D) (s : Dev D) : Dev D := mkDev d (line s).
Definition set_line (i : Irq Fn) (s : Dev D) : Dev D := mkDev (dev s) i.

(** The tasks woken. *)
Definition settle (s : Dev D) : list Z * Dev D :=
  if asserted (dev s) then let '(ws, i) := raise (line s) in (ws, set_line i s) else ([], s).

(** The hardware changes the device, step by step. *)
Fixpoint changes (fs : list (D → D)) (s : Dev D) : list Z * Dev D :=
  match fs with
  | [] => ([], s)
  | f :: fs' =>
      let '(w1, s1) := settle (set_dev (f (dev s)) s) in
      let '(w2, s2) := changes fs' s1 in (w1 ++ w2, s2)
  end.
(** The flag is set at some point on the way. *)
Fixpoint hits (fs : list (D → D)) (d : D) : bool :=
  match fs with [] => false | f :: fs' => asserted (f d) || hits fs' (f d) end.
Definition after (fs : list (D → D)) (d : D) : D := foldl (λ d f, f d) d fs.

(** No event yet, the handler in place; or the handler has masked the line. *)
Definition armed (s : Dev D) : Prop :=
  asserted (dev s) = false ∧ enabled (line s) = true ∧ func (line s) = Some irq_wake_handler.
Definition either (b : bool) (s : Dev D) : Prop :=
  if b then enabled (line s) = false else armed s.

Lemma settle_dev s : dev (snd (settle s)) = dev s.
Proof. unfold settle. case_match; [|done]. by destruct (raise _). Qed.

Lemma settle_masked s : enabled (line s) = false →
  fst (settle s) = [] ∧ enabled (line (snd (settle s))) = false.
Proof.
  intros He. unfold settle. case_match; [|done]. by rewrite raise_masked.
Qed.

Lemma settle_armed s : armed s → settle s = ([], s).
Proof. intros [Hp _]. unfold settle. by rewrite Hp. Qed.

Lemma settle_asserted s : asserted (dev s) = true → enabled (line s) = true →
  func (line s) = Some irq_wake_handler →
  ∃ i, settle s = (if ctx (line s) =? 0 then [] else [ctx (line s)], set_line i s) ∧
    enabled i = false.
Proof.
  intros Hp He Hf. unfold settle. rewrite Hp.
  destruct (raises_armed 1 (line s) He Hf) as [[_ ?]|(_ & i & Hr & Hi & _)]; [done|].
  simpl in Hr. destruct (raise (line s)) as [ws i1]. rewrite app_nil_r in Hr.
  injection Hr as -> ->. eauto.
Qed.

Lemma settle_either b s : either b s → either b (snd (settle s)).
Proof.
  destruct b; simpl; intros Hs; [by apply settle_masked|by rewrite settle_armed].
Qed.

Lemma changes_dev fs : ∀ s, dev (snd (changes fs s)) = after fs (dev s).
Proof.
  induction fs as [|f fs IH]; intros s; [done|]. cbn [changes].
  pose proof (settle_dev (set_dev (f (dev s)) s)) as Hs. destruct (settle _) as [w1 s1].
  specialize (IH s1). destruct (changes fs s1) as [w2 s2]. cbn [snd] in *. by rewrite IH, Hs.
Qed.

Lemma changes_masked fs : ∀ s, enabled (line s) = false →
  fst (changes fs s) = [] ∧ enabled (line (snd (changes fs s))) = false.
Proof.
  induction fs as [|f fs IH]; intros s He; [done|]. cbn [changes].
  destruct (settle_masked (set_dev (f (dev s)) s) He) as [H1 H2].
  destruct (settle _) as [w1 s1]. destruct (IH s1 H2) as [H3 H4].
  destruct (changes fs s1) as [w2 s2]. simpl in *. by subst.
Qed.

(** The first time the flag is set wakes the task that is registered, and no other. *)
Lemma changes_armed fs : ∀ s, armed s →
  let '(ws, s') := changes fs s in
  if hits fs (dev s)
  then enabled (line s') = false ∧ ws = (if ctx (line s) =? 0 then [] else [ctx (line s)])
  else armed s' ∧ ws = [] ∧ ctx (line s') = ctx (line s).
Proof.
  induction fs as [|f fs IH]; intros s (Hp & He & Hf); [done|]. cbn [changes hits].
  set (s0 := set_dev (f (dev s)) s) in *.
  destruct (asserted (f (dev s))) eqn:Ha; simpl.
  - destruct (settle_asserted s0 Ha He Hf) as (i & -> & Hi).
    destruct (changes_masked fs (set_line i s0) Hi) as [H1 H2].
    destruct (changes fs _) as [w2 s2]. simpl in *. subst w2. by rewrite app_nil_r.
  - rewrite (settle_armed s0) by done. specialize (IH s0 ltac:(by split_and!)).
    destruct (changes fs s0) as [w2 s2]. exact IH.
Qed.

Lemma changes_either fs b s : either b s → either (b || hits fs (dev s)) (snd (changes fs s)).
Proof.
  destruct b; simpl; intros Hs; [by apply changes_masked|].
  pose proof (changes_armed fs s Hs) as Hd. destruct (changes fs s) as [ws s'].
  destruct (hits _ _); simpl; naive_solver.
Qed.

(** A new [InterruptFuture]: masked at once if the flag is still set. *)
Definition new_future (s : Dev D) : Dev D := set_line (InterruptFuture_new (line s)) s.
Lemma new_either s : either (asserted (dev s)) (snd (settle (new_future s))).
Proof.
  destruct (asserted (dev s)) eqn:Hp; simpl.
  - by destruct (settle_asserted (new_future s) Hp eq_refl eq_refl) as (i & -> & Hi).
  - by rewrite settle_armed.
Qed.
End level.

(** The two steps of the poll of an [InterruptFuture], and its drop. *)
Definition future_ctx {D} (task : Z) (s : Dev D) : Dev D :=
  set_line (InterruptFuture_poll_ctx task (line s)) s.
Definition future_check {D} (s : Dev D) : Poll unit := InterruptFuture_poll_check (line s).
Definition future_drop {D} (s : Dev D) : Dev D := set_line (InterruptFuture_drop (line s)) s.

Lemma future_ctx_either {D} (asserted : D → bool) b task s :
  either asserted b s → either asserted b (future_ctx task s).
Proof. by destruct b. Qed.
Lemma future_check_either {D} (asserted : D → bool) b s : either asserted b s →
  future_check s = if b then Ready tt else Pending.
Proof.
  unfold future_check, InterruptFuture_poll_check, is_enabled.
  destruct b; simpl; [by intros ->|by intros (_ & -> & _)].
Qed.
