(* ===== verification/Exti.v ===== *)
(** * Exti: waiting for a pin on the STM32

    [embassy-stm32/src/exti.rs].  A wait clears the pending bit of the pin's EXTI line
    when it is called; its future, when it is first polled, makes an [InterruptFuture],
    selects the edge, and waits.  The line is that of the chip's HAL, an instance of
    [ExtiLine]; it asserts the interrupt for as long as its pending bit is set. *)
From S2P Require Import Prelude Interrupt LevelIrq.
Local Open Scope Z_scope.

Inductive EdgeOption : Set := Rising | Falling | RisingFalling.

(** The edge from one level to the next is one of those selected. *)
Definition matches (e : EdgeOption) (from to : bool) : bool :=
  match e with
  | Rising => negb from && to
  | Falling => from && negb to
  | RisingFalling => xorb from to
  end.

(** ** The interface to the HAL: [Instance] and its pin

    [drive b] is the hardware: the level at the pin becomes [b]. *)
Class ExtiLine (L : Type) : Type := {
  level : L → bool;
  pending_bit : L → bool;
  trigger : L → option EdgeOption;
  clear_pending_bit : L → L;
  trigger_edge : EdgeOption → L → L;
  drive : bool → L → L;
  clear_spec : ∀ l, level (clear_pending_bit l) = level l ∧
    pending_bit (clear_pending_bit l) = false ∧ trigger (clear_pending_bit l) = trigger l;
  trigger_spec : ∀ e l, level (trigger_edge e l) = level l ∧
    pending_bit (trigger_edge e l) = pending_bit l ∧ trigger (trigger_edge e l) = Some e;
  drive_spec : ∀ b l, level (drive b l) = b ∧ trigger (drive b l) = trigger l ∧
    pending_bit (drive b l) = pending_bit l ||
      match trigger l with Some e => matches e (level l) b | None => false end
}.

Section exti.
Context {L : Type} `{ExtiLine L}.

(** The pin with its line, and the interrupt: an [ExtiPin]. *)
#[local] Abbreviation ExtiPin := (Dev L).
#[local] Abbreviation pin := (@dev L).
#[local] Abbreviation interrupt := (@line L).
#[local] Abbreviation settle := (LevelIrq.settle (@pending_bit L _)).
#[local] Abbreviation changes := (LevelIrq.changes (@pending_bit L _)).
#[local] Abbreviation armed := (LevelIrq.armed (@pending_bit L _)).
#[local] Abbreviation either := (LevelIrq.either (@pending_bit L _)).

(** The level at the pin takes the values given. *)
Definition drives (bs : list bool) : ExtiPin → list Z * ExtiPin := changes (drive <$> bs).

(** ** The waits *)

(** [is_high].  *)
Definition is_state (state : bool) (l : L) : bool :=
  state && level l || negb state && negb (level l).
Definition edge_of (state : bool) : EdgeOption := if state then Rising else Falling.

(** The call, and the steps of the future: making the [InterruptFuture]; selecting the
    edge; for a level, looking at it; and the two of the [InterruptFuture]'s poll. *)
Definition wait_call (s : ExtiPin) : ExtiPin := set_dev (clear_pending_bit (pin s)) s.
Definition wait_new (s : ExtiPin) : ExtiPin := new_future s.
Definition wait_trigger (e : EdgeOption) (s : ExtiPin) : ExtiPin :=
  set_dev (trigger_edge e (pin s)) s.
Definition wait_poll_ctx (task : Z) (s : ExtiPin) : ExtiPin :=
  future_ctx task s.
Definition wait_poll_check (s : ExtiPin) : Poll unit := future_check s.
(** After the await the [InterruptFuture] is dropped. *)
Definition wait_end (s : ExtiPin) : ExtiPin :=
  let s1 := future_drop s in set_dev (clear_pending_bit (pin s1)) s1.
Definition wait_return (s : ExtiPin) : ExtiPin := future_drop s.

(** The call and the first poll, with the pin changing in between: [d0] between the two,
    [d1] to [d4] between the steps.  The result of the poll, and the state. *)
Definition wait_for_edge (e : EdgeOption) (task : Z) (d0 d1 d2 d3 : list bool) (s : ExtiPin)
    : Poll unit * ExtiPin :=
  let '(_, s) := drives d0 (snd (settle (wait_call s))) in
  let '(_, s) := drives d1 (snd (settle (wait_new s))) in
  let '(_, s) := drives d2 (snd (settle (wait_trigger e s))) in
  let '(_, s) := drives d3 (snd (settle (wait_poll_ctx task s))) in
  match wait_poll_check s with
  | Ready _ => (Ready tt, wait_end s)
  | Pending => (Pending, s)
  end.
Definition wait_for_state (state : bool) (task : Z) (d0 d1 d2 d3 : list bool) (s : ExtiPin)
    : Poll unit * ExtiPin :=
  let '(_, s) := drives d0 (snd (settle (wait_call s))) in
  let '(_, s) := drives d1 (snd (settle (wait_new s))) in
  let '(_, s) := drives d2 (snd (settle (wait_trigger (edge_of state) s))) in
  if is_state state (pin s) then (Ready tt, wait_return s)
  else
    let '(_, s) := drives d3 (snd (settle (wait_poll_ctx task s))) in
    match wait_poll_check s with
    | Ready _ => (Ready tt, wait_end s)
    | Pending => (Pending, s)
    end.
Definition wait_for_high := wait_for_state true.
Definition wait_for_low := wait_for_state false.
Definition wait_for_rising_edge := wait_for_edge Rising.
Definition wait_for_falling_edge := wait_for_edge Falling.
Definition wait_for_any_edge := wait_for_edge RisingFalling.

(** Some selected edge is among the changes of the level. *)
Fixpoint seen (t : option EdgeOption) (from : bool) (bs : list bool) : bool :=
  match bs with
  | [] => false
  | b :: bs' => match t with Some e => matches e from b | None => false end || seen t b bs'
  end.

(** ** Proofs *)

(** The last level. *)
Definition final (bs : list bool) (l : bool) : bool := foldl (λ _ b, b) l bs.

Lemma after_drive bs : ∀ l, let l' := after (drive <$> bs) l in
  trigger l' = trigger l ∧ level l' = final bs (level l) ∧
  pending_bit l' = pending_bit l || seen (trigger l) (level l) bs.
Proof.
  induction bs as [|b bs IH]; intros l; [by simpl; rewrite orb_false_r|].
  destruct (IH (drive b l)) as (H1 & H2 & H3), (drive_spec b l) as (E1 & E2 & E3).
  change (after (drive <$> b :: bs) l) with (after (drive <$> bs) (drive b l)).
  cbv zeta. rewrite H1, H2, H3, E1, E2, E3. simpl. by rewrite orb_assoc.
Qed.
Lemma hits_drive bs : ∀ l, pending_bit l = false →
  hits pending_bit (drive <$> bs) l = seen (trigger l) (level l) bs.
Proof.
  induction bs as [|b bs IH]; intros l Hl; [done|]. destruct (drive_spec b l) as (E1 & E2 & E3).
  rewrite Hl in E3. simpl in *. destruct (match trigger l with Some e => _ | None => _ end) eqn:Hm;
    rewrite E3; simpl; [done|]. by rewrite IH, E1, E2.
Qed.

Lemma drives_pin bs s : let l := pin s in let l' := pin (snd (drives bs s)) in
  trigger l' = trigger l ∧ level l' = final bs (level l) ∧
  pending_bit l' = pending_bit l || seen (trigger l) (level l) bs.
Proof. unfold drives. rewrite changes_dev. apply after_drive. Qed.

Lemma drives_armed bs s : armed s →
  let '(ws, s') := drives bs s in
  if seen (trigger (pin s)) (level (pin s)) bs
  then enabled (interrupt s') = false ∧
       ws = (if ctx (interrupt s) =? 0 then [] else [ctx (interrupt s)])
  else armed s' ∧ ws = [] ∧ ctx (interrupt s') = ctx (interrupt s).
Proof.
  intros Ha. rewrite <-hits_drive by apply Ha. by apply changes_armed.
Qed.
Lemma drives_either bs b s : either b s →
  either (b || seen (trigger (pin s)) (level (pin s)) bs) (snd (drives bs s)).
Proof.
  intros Hs. pose proof (changes_either _ (drive <$> bs) b s Hs) as Hc. destruct b; [done|].
  simpl in *. by rewrite hits_drive in Hc by apply Hs.
Qed.

Lemma final_app a b l : final (a ++ b) l = final b (final a l).
Proof. apply foldl_app. Qed.
Lemma seen_app t a b : ∀ l, seen t l (a ++ b) = seen t l a || seen t (final a l) b.
Proof.
  induction a as [|x a IH]; intros l; [done|]. simpl. rewrite IH. apply orb_assoc.
Qed.

(** The state before the last look of a poll. *)
Lemma wait_steps e task d0 d1 d2 d3 s :
  let s1 := snd (drives d0 (snd (settle (wait_call s)))) in
  let s2 := snd (drives d1 (snd (settle (wait_new s1)))) in
  let s3 := snd (drives d2 (snd (settle (wait_trigger e s2)))) in
  let s4 := snd (drives d3 (snd (settle (wait_poll_ctx task s3)))) in
  let l := level (pin s) in
  let b3 := seen (trigger (pin s)) l (d0 ++ d1) || seen (Some e) (final (d0 ++ d1) l) d2 in
  either b3 s3 ∧ trigger (pin s3) = Some e ∧ level (pin s3) = final (d0 ++ d1 ++ d2) l ∧
  either (b3 || seen (Some e) (final (d0 ++ d1 ++ d2) l) d3) s4 ∧ trigger (pin s4) = Some e ∧
  level (pin s4) = final (d0 ++ d1 ++ d2 ++ d3) l ∧
  (armed s4 → ctx (interrupt s4) = task).
Proof.
  intros s1 s2 s3 s4 l b3.
  destruct (clear_spec (pin s)) as (C1 & C2 & C3).
  destruct (drives_pin d0 (snd (settle (wait_call s)))) as (T1 & L1 & P1).
  fold s1 in T1, L1, P1. rewrite !settle_dev in T1, L1, P1. simpl in T1, L1, P1.
  rewrite C1, C2, C3 in *. simpl in P1. fold l in L1, P1.
  pose proof (new_either pending_bit s1) as E2. rewrite P1 in E2. apply (drives_either d1) in E2. fold s2 in E2.
  rewrite settle_dev in E2. simpl in E2. rewrite T1, L1, <-seen_app in E2.
  destruct (drives_pin d1 (snd (settle (wait_new s1)))) as (T2 & L2 & _). fold s2 in T2, L2.
  rewrite !settle_dev in T2, L2. simpl in T2, L2. rewrite T1 in T2. rewrite L1 in L2.
  destruct (trigger_spec e (pin s2)) as (G1 & G2 & G3).
  assert (E3 : either (seen (trigger (pin s)) l (d0 ++ d1)) (wait_trigger e s2)).
  { destruct (seen _ l (d0 ++ d1)); [done|]. destruct E2 as (H1 & H2 & H3).
    split; [|done]. simpl. by rewrite G2. }
  apply settle_either, (drives_either d2) in E3. fold s3 in E3. rewrite settle_dev in E3.
  simpl in E3. rewrite G1, G3, L2, <-final_app in E3. fold b3 in E3.
  destruct (drives_pin d2 (snd (settle (wait_trigger e s2)))) as (T3 & L3 & _). fold s3 in T3, L3.
  rewrite !settle_dev in T3, L3. simpl in T3, L3. rewrite G3 in T3. rewrite G1, L2 in L3.
  rewrite <-!final_app in L3.
  assert (E4 : either b3 (wait_poll_ctx task s3)) by (by destruct b3).
  apply settle_either, (drives_either d3) in E4. fold s4 in E4. rewrite settle_dev in E4.
  simpl in E4. rewrite T3, L3 in E4.
  destruct (drives_pin d3 (snd (settle (wait_poll_ctx task s3)))) as (T4 & L4 & _).
  fold s4 in T4, L4. rewrite !settle_dev in T4, L4. simpl in T4, L4. rewrite T3 in T4.
  rewrite L3, <-final_app, <-!app_assoc in L4.
  split_and!; try done. intros Ha. destruct b3 eqn:Hb3; simpl in E4.
  { destruct Ha as (_ & He & _). congruence. }
  pose proof (drives_armed d3 (wait_poll_ctx task s3)) as Hd. simpl in Hd.
  assert (Es : settle (wait_poll_ctx task s3) = ([], wait_poll_ctx task s3)) by (by apply settle_armed).
  unfold s4 in *. rewrite Es in *. simpl snd in *. specialize (Hd E3). clear - Hd Ha.
  destruct (drives d3 _) as [ws s5]. destruct (seen (trigger _) _ d3); [|by destruct Hd as (_ & _ & ?)].
  destruct Ha as (_ & He & _), Hd as [Hd _]. simpl in *. congruence.
Qed.

Lemma is_state_spec state l : is_state state l = eqb (level l) state.
Proof. unfold is_state. by destruct state, (level l). Qed.
Lemma seen_level state bs : ∀ l, l ≠ state →
  seen (Some (edge_of state)) l bs = false → final bs l ≠ state.
Proof.
  induction bs as [|b bs IH]; intros l Hl; [done|]. simpl.
  intros [Hm Hs]%orb_false_iff. apply IH; [|done]. by destruct state, l, b.
Qed.

(** ** Theorems *)

(** C37: A wait for an edge loses none: a poll is ready exactly when the selected edge has
    occurred since the edge was selected, or, before that, an edge that was selected
    for the wait before; when it is pending, the first selected edge wakes the task,
    and the poll after it is ready.  When it is ready the pending bit has been cleared
    and the line is masked and has no handler. *)
Theorem exti_edge_not_lost e task d0 d1 d2 d3 d4 s : task ≠ 0 →
  let l := level (pin s) in
  let '(r, s') := wait_for_edge e task d0 d1 d2 d3 s in
  if seen (trigger (pin s)) l (d0 ++ d1) || seen (Some e) (final (d0 ++ d1) l) (d2 ++ d3)
  then r = Ready tt ∧ pending_bit (pin s') = false ∧ enabled (interrupt s') = false ∧
       func (interrupt s') = None
  else r = Pending ∧
       let '(ws, s'') := drives d4 s' in
       if seen (Some e) (level (pin s')) d4
       then ws = [task] ∧ wait_poll_check s'' = Ready tt
       else ws = [] ∧ wait_poll_check s'' = Pending.
Proof.
  intros Ht l. unfold wait_for_edge.
  pose proof (wait_steps e task d0 d1 d2 d3 s) as W. cbv zeta in W. revert W.
  destruct (drives d0 _) as [w1 s1]. cbn [snd]. destruct (drives d1 _) as [w2 s2]. cbn [snd].
  destruct (drives d2 _) as [w3 s3]. cbn [snd]. destruct (drives d3 _) as [w4 s4]. cbn [snd].
  intros (_ & _ & _ & E4 & T4 & _ & Hctx). fold l in E4.
  rewrite (seen_app (Some e) d2 d3), <-final_app, <-app_assoc, orb_assoc. unfold wait_poll_check, future_check, InterruptFuture_poll_check, is_enabled.
  destruct (_ || seen (Some e) _ d3) eqn:Hb; simpl in E4.
  - rewrite E4. split; [done|]. destruct (clear_spec (pin s4)) as (_ & C & _).
    split; [exact C|done].
  - pose proof (drives_armed d4 s4 E4) as Hd. destruct E4 as (H1 & H2 & H3). rewrite H2.
    split; [done|]. destruct (drives d4 s4) as [ws s5]. rewrite T4 in Hd.
    destruct (seen _ _ d4).
    + destruct Hd as [-> ->]. rewrite Hctx by done. by rewrite (proj2 (Z.eqb_neq _ _) Ht).
    + destruct Hd as ((_ & -> & _) & -> & _). done.
Qed.

(** A wait for a level does not sleep through it: a poll is ready if the pin has the
    level when it is looked at; when it is pending, then, however the pin changes, as
    long as the task has not been woken and the next poll is not ready, the pin does not
    have the level. *)
Theorem exti_level_not_missed state task d0 d1 d2 d3 d4 s : task ≠ 0 →
  let '(r, s') := wait_for_state state task d0 d1 d2 d3 s in
  (final (d0 ++ d1 ++ d2) (level (pin s)) = state → r = Ready tt) ∧
  (r = Pending →
   let '(ws, s'') := drives d4 s' in
   (level (pin s'') = state ∨ ws ≠ [] → ws = [task] ∧ wait_poll_check s'' = Ready tt) ∧
   (ws = [] → wait_poll_check s'' = Pending ∧ level (pin s'') ≠ state)).
Proof.
  intros Ht. unfold wait_for_state.
  pose proof (wait_steps (edge_of state) task d0 d1 d2 d3 s) as W. cbv zeta in W. revert W.
  destruct (drives d0 _) as [w1 s1]. cbn [snd]. destruct (drives d1 _) as [w2 s2]. cbn [snd].
  destruct (drives d2 _) as [w3 s3]. cbn [snd]. destruct (drives d3 _) as [w4 s4]. cbn [snd].
  intros (_ & _ & L3 & E4 & T4 & L4 & Hctx). rewrite is_state_spec, L3.
  destruct (eqb _ state) eqn:Hst; [by split|].
  apply eqb_false_iff in Hst. unfold wait_poll_check, future_check, InterruptFuture_poll_check, is_enabled.
  destruct (enabled (interrupt s4)) eqn:Hen; [|by split].
  split; [done|]. intros _. destruct (_ || seen _ _ d3) eqn:Hb; simpl in E4; [congruence|].
  apply orb_false_iff in Hb as [_ Hs3].
  assert (Hl4 : level (pin s4) ≠ state).
  { rewrite L4, !app_assoc, final_app, <-!app_assoc. by apply seen_level. }
  pose proof (drives_armed d4 s4 E4) as Hd. destruct (drives_pin d4 s4) as (_ & L5 & _).
  specialize (Hctx E4). destruct (drives d4 s4) as [ws s5]. cbn [snd] in L5. rewrite T4, Hctx in Hd.
  destruct (seen _ (level (pin s4)) d4) eqn:Hs4.
  - destruct Hd as [-> ->]. by rewrite (proj2 (Z.eqb_neq _ _) Ht).
  - destruct Hd as ((_ & -> & _) & -> & _).
    assert (level (pin s5) ≠ state) by (rewrite L5; by apply seen_level).
    split; [by intros [|]|done].
Qed.
End exti.

(** ** Witnesses

    A line as the interface describes it. *)
Record Line : Type := mkLine { l_level : bool; l_pending : bool; l_trigger : option EdgeOption }.
#[export] Instance Line_exti : ExtiLine Line.
Proof.
  refine {|
    level := l_level; pending_bit := l_pending; trigger := l_trigger;
    clear_pending_bit l := mkLine (l_level l) false (l_trigger l);
    trigger_edge e l := mkLine (l_level l) (l_pending l) (Some e);
    drive b l := mkLine b (l_pending l ||
      match l_trigger l with Some e => matches e (l_level l) b | None => false end) (l_trigger l)
  |}; done.
Defined.

Lemma exti_edge_not_lost_witness :
  let s := mkDev (mkLine false false None) Irq_new in
  fst (wait_for_edge Rising 64 [true; false] [] [] [] s) = Pending ∧
  fst (drives [true] (snd (wait_for_edge Rising 64 [true; false] [] [] [] s))) = [64] ∧
  fst (wait_for_edge Rising 64 [] [] [true] [false] s) = Ready tt ∧
  (** a falling edge of a wait before *)
  fst (wait_for_edge Rising 64 [false] [] [] [] (mkDev (mkLine true false (Some Falling)) Irq_new))
    = Ready tt.
Proof.
  intros s.
  pose proof (exti_edge_not_lost Rising 64 [true; false] [] [] [] [true] s ltac:(lia)) as H1.
  pose proof (exti_edge_not_lost Rising 64 [] [] [true] [false] [] s ltac:(lia)) as H2.
  pose proof (exti_edge_not_lost Rising 64 [false] [] [] [] []
    (mkDev (mkLine true false (Some Falling)) Irq_new) ltac:(lia)) as H3.
  split; [exact (proj1 H1)|]. split; [exact (proj1 (proj2 H1))|].
  split; [exact (proj1 H2)|exact (proj1 H3)].
Defined.

Lemma exti_level_not_missed_witness :
  let s := mkDev (mkLine false false None) Irq_new in
  fst (wait_for_state true 64 [] [] [true] [] s) = Ready tt ∧
  fst (drives [false; true; false] (snd (wait_for_state true 64 [] [] [] [] s))) = [64].
Proof.
  intros s. split.
  - exact (proj1 (exti_level_not_missed true 64 [] [] [true] [] [] s ltac:(lia)) eq_refl).
  - refine (proj1 (proj1 (proj2 (exti_level_not_missed true 64 [] [] [] [] [false; true; false] s
      ltac:(lia)) eq_refl) _)). right. vm_compute. discriminate.
Defined.
