(* ===== verification/ExtiHal.v ===== *)
(** * ExtiHal: the EXTI lines of the HALs

    [embassy-stm32/src/exti.rs], the rest: [ExtiPin::new], the operations of the pin it
    hands on, and the two implementations the macro [exti!] has of [Instance], one on
    stm32f4xx-hal and one on stm32l0xx-hal.  Each makes the pin an [ExtiLine] of [Exti]. *)
From S2P Require Import Prelude Interrupt LevelIrq Exti.
Local Open Scope Z_scope.

(** ** The registers of a line, as its pin sees them

    The level at the pin; the pending bit; the mask; the selection of edges; and whether
    SYSCFG connects the line to the port of this pin. *)
Record LineRegs : Set := mkLineRegs {
  lr_level : bool; pr : bool; imr : bool; rtsr : bool; ftsr : bool; source : bool
}.
(** An edge at the pin sets the pending bit of a line that is connected to it. *)
Definition selected (r : LineRegs) (from to : bool) : bool :=
  source r && (rtsr r && negb from && to || ftsr r && from && negb to).
Definition hw_drive (b : bool) (r : LineRegs) : LineRegs :=
  mkLineRegs b (pr r || selected r (lr_level r) b) (imr r) (rtsr r) (ftsr r) (source r).

(** The two bits that select an edge. *)
Definition rising (e : EdgeOption) : bool := match e with Falling => false | _ => true end.
Definition falling (e : EdgeOption) : bool := match e with Rising => false | _ => true end.
Definition edge_selected (rise fall : bool) : option EdgeOption :=
  match rise, fall with
  | true, true => Some RisingFalling
  | true, false => Some Rising
  | false, true => Some Falling
  | false, false => None
  end.

(** ** stm32f4xx-hal

    Its [ExtiPin], with what its documentation says of the line. *)
Class HalF4 (L : Type) : Type := {
  f4_regs : L → LineRegs;
  Edge : Set; FALLING : Edge; RISING : Edge; RISING_FALLING : Edge;
  make_interrupt_source : L → L;
  clear_interrupt_pending_bit : L → L;
  trigger_on_edge : Edge → L → L;
  enable_interrupt : L → L;
  f4_drive : bool → L → L
}.
Class HalF4Laws (L : Type) `{!HalF4 L} : Type := {
  edges : Edge → EdgeOption;
  edges_spec : edges FALLING = Falling ∧ edges RISING = Rising ∧ edges RISING_FALLING = RisingFalling;
  make_interrupt_source_spec : ∀ l, let r := f4_regs l in
    f4_regs (make_interrupt_source l) = mkLineRegs (lr_level r) (pr r) (imr r) (rtsr r) (ftsr r) true;
  clear_interrupt_pending_bit_spec : ∀ l, let r := f4_regs l in
    f4_regs (clear_interrupt_pending_bit l) =
      mkLineRegs (lr_level r) false (imr r) (rtsr r) (ftsr r) (source r);
  trigger_on_edge_spec : ∀ e l, let r := f4_regs l in
    f4_regs (trigger_on_edge e l) =
      mkLineRegs (lr_level r) (pr r) (imr r) (rising (edges e)) (falling (edges e)) (source r);
  enable_interrupt_spec : ∀ l, let r := f4_regs l in
    f4_regs (enable_interrupt l) = mkLineRegs (lr_level r) (pr r) true (rtsr r) (ftsr r) (source r);
  f4_drive_spec : ∀ b l, f4_regs (f4_drive b l) = hw_drive b (f4_regs l)
}.

Section f4.
Context {L : Type} `{!HalF4 L}.
Definition f4_make_source (self : L) : L := make_interrupt_source self.
Definition f4_clear_pending_bit (self : L) : L := clear_interrupt_pending_bit self.
Definition f4_trigger_edge (edge : EdgeOption) (self : L) : L :=
  let edge := match edge with
              | Falling => FALLING
              | Rising => RISING
              | RisingFalling => RISING_FALLING
              end in
  enable_interrupt (trigger_on_edge edge self).
End f4.

(** ** stm32l0xx-hal

    [Exti::unpend] and [listen_gpio] take the number of the line, the latter with the
    port. *)
Class HalL0 (L : Type) : Type := {
  l0_regs : L → LineRegs;
  GpioLine : Set; from_raw_line : Z → option GpioLine; pin_number : L → Z;
  Port : Set; port : L → Port;
  TriggerEdge : Set; TFalling : TriggerEdge; TRising : TriggerEdge; TBoth : TriggerEdge;
  unpend : GpioLine → L → L;
  listen_gpio : Port → GpioLine → TriggerEdge → L → L;
  l0_drive : bool → L → L
}.
(** A pin has one of the sixteen lines. *)
Class HalL0Laws (L : Type) `{!HalL0 L} : Type := {
  trigger_edges : TriggerEdge → EdgeOption;
  trigger_edges_spec : trigger_edges TFalling = Falling ∧ trigger_edges TRising = Rising ∧
    trigger_edges TBoth = RisingFalling;
  line_of : ∀ l, ∃ g, from_raw_line (pin_number l) = Some g;
  unpend_spec : ∀ l g, from_raw_line (pin_number l) = Some g → let r := l0_regs l in
    l0_regs (unpend g l) = mkLineRegs (lr_level r) false (imr r) (rtsr r) (ftsr r) (source r);
  listen_gpio_spec : ∀ l g e, from_raw_line (pin_number l) = Some g → let r := l0_regs l in
    l0_regs (listen_gpio (port l) g e l) =
      mkLineRegs (lr_level r) (pr r) true (rising (trigger_edges e)) (falling (trigger_edges e)) true;
  l0_drive_spec : ∀ b l, l0_regs (l0_drive b l) = hw_drive b (l0_regs l)
}.

Section l0.
Context {L : Type} `{!HalL0 L}.
Definition l0_make_source (self : L) : L := self.
Definition l0_clear_pending_bit (self : L) : outcome L :=
  line ← expect (from_raw_line (pin_number self)); Done (unpend line self).
Definition l0_trigger_edge (edge : EdgeOption) (self : L) : outcome L :=
  let edge := match edge with
              | Falling => TFalling
              | Rising => TRising
              | RisingFalling => TBoth
              end in
  line ← expect (from_raw_line (pin_number self));
  Done (listen_gpio (port self) line edge self).
End l0.

(** ** [ExtiPin]

    [ExtiPin::new], in a critical section. *)
Definition ExtiPin_new {L} (make_source : L → L) (pin : L) (interrupt : Irq Fn) : Dev L :=
  mkDev (make_source pin) interrupt.

(** The operations of the pin, of the crate embedded-hal, whose results it hands on. *)
Section digital.
Context {L E : Type}.
Definition on_pin {R} (f : L → R * L) (self : Dev L) : R * Dev L :=
  let '(r, p) := f (dev self) in (r, mkDev p (line self)).
Context (pin_set_low pin_set_high pin_toggle : L → Result unit E * L).
Context (pin_is_set_low pin_is_set_high pin_is_high pin_is_low : L → Result bool E).
Definition ExtiPin_set_low (self : Dev L) : Result unit E * Dev L := on_pin pin_set_low self.
Definition ExtiPin_set_high (self : Dev L) : Result unit E * Dev L := on_pin pin_set_high self.
Definition ExtiPin_toggle (self : Dev L) : Result unit E * Dev L := on_pin pin_toggle self.
Definition ExtiPin_is_set_low (self : Dev L) : Result bool E := pin_is_set_low (dev self).
Definition ExtiPin_is_set_high (self : Dev L) : Result bool E := pin_is_set_high (dev self).
Definition ExtiPin_is_high (self : Dev L) : Result bool E := pin_is_high (dev self).
Definition ExtiPin_is_low (self : Dev L) : Result bool E := pin_is_low (dev self).
End digital.

(** ** The lines are those of [Exti]

    A line is usable if nothing is pending or selected while it is masked, and if it is
    connected, or is connected when an edge is selected ([late]). *)
Definition usable (late : bool) (r : LineRegs) : bool :=
  (imr r || negb (pr r) && negb (rtsr r) && negb (ftsr r)) && (source r || late).
(** The interrupt is asserted. *)
Definition asserted (r : LineRegs) : bool := pr r && imr r.
Definition trigger_of (r : LineRegs) : option EdgeOption :=
  if source r then edge_selected (rtsr r) (ftsr r) else None.

(** What the operations do to the registers. *)
Definition cleared (r : LineRegs) : LineRegs :=
  mkLineRegs (lr_level r) false (imr r) (rtsr r) (ftsr r) (source r).
Definition triggered (e : EdgeOption) (r : LineRegs) : LineRegs :=
  mkLineRegs (lr_level r) (pr r) true (rising e) (falling e) true.

Ltac bits := repeat match goal with b : bool |- _ => destruct b end; try discriminate; auto.
Lemma usable_cleared late r : usable late r = true → usable late (cleared r) = true.
Proof. destruct r. unfold usable, cleared. cbn. bits. Qed.
Lemma usable_driven late b r : usable late r = true → usable late (hw_drive b r) = true.
Proof. destruct r. unfold usable, hw_drive, selected. cbn. bits. Qed.
Lemma triggered_spec late e r : usable late r = true →
  asserted (triggered e r) = asserted r ∧ trigger_of (triggered e r) = Some e.
Proof. destruct r. unfold usable, asserted. cbn. destruct e; bits. Qed.
Lemma driven_spec late b r : usable late r = true →
  trigger_of (hw_drive b r) = trigger_of r ∧
  asserted (hw_drive b r) =
    asserted r || match trigger_of r with Some e => matches e (lr_level r) b | None => false end.
Proof.
  destruct r. unfold usable, asserted, trigger_of, hw_drive, selected, edge_selected, matches.
  cbn. bits.
Qed.

Section usable.
Context {L : Type} (regs : L → LineRegs) (late : bool).
Context (clear : L → L) (trig : EdgeOption → L → L) (drv : bool → L → L).
Hypothesis clear_regs : ∀ l, regs (clear l) = cleared (regs l).
Hypothesis trig_regs : ∀ e l, usable late (regs l) = true → regs (trig e l) = triggered e (regs l).
Hypothesis drv_regs : ∀ b l, regs (drv b l) = hw_drive b (regs l).

Record UsableLine : Type := mkUsable { hal : L; is_usable : usable late (regs hal) = true }.

Lemma usable_clear l : usable late (regs l) = true → usable late (regs (clear l)) = true.
Proof using clear_regs. rewrite clear_regs. apply usable_cleared. Qed.
Lemma usable_trig e l : usable late (regs l) = true → usable late (regs (trig e l)) = true.
Proof using trig_regs. intros H. by rewrite trig_regs. Qed.
Lemma usable_drive b l : usable late (regs l) = true → usable late (regs (drv b l)) = true.
Proof using drv_regs. rewrite drv_regs. apply usable_driven. Qed.

Definition usable_exti_line : ExtiLine UsableLine.
Proof using clear_regs trig_regs drv_regs.
  refine {|
    level l := lr_level (regs (hal l)); pending_bit l := asserted (regs (hal l));
    trigger l := trigger_of (regs (hal l));
    clear_pending_bit l := mkUsable (clear (hal l)) (usable_clear _ (is_usable l));
    trigger_edge e l := mkUsable (trig e (hal l)) (usable_trig e _ (is_usable l));
    drive b l := mkUsable (drv b (hal l)) (usable_drive b _ (is_usable l))
  |}.
  - intros [l Hu]. cbn [hal]. by rewrite clear_regs.
  - intros e [l Hu]. cbn [hal]. rewrite trig_regs by done. split; [done|].
    by apply (triggered_spec late).
  - intros b [l Hu]. cbn [hal]. rewrite drv_regs. split; [done|]. by apply (driven_spec late).
Defined.
End usable.

(** The lines of the two HALs. *)
Section instances.
Context {L : Type}.

Lemma f4_trigger_regs `{!HalF4 L, !HalF4Laws L} e l : usable false (f4_regs l) = true →
  f4_regs (f4_trigger_edge e l) = triggered e (f4_regs l).
Proof.
  intros Hu. assert (Hs : source (f4_regs l) = true).
  { unfold usable in Hu. by apply andb_true_iff in Hu as [_ Hu]; rewrite orb_false_r in Hu. }
  unfold f4_trigger_edge. rewrite enable_interrupt_spec, trigger_on_edge_spec. cbn. rewrite Hs.
  destruct edges_spec as (E1 & E2 & E3). destruct e; by rewrite ?E1, ?E2, ?E3.
Qed.
#[export] Instance f4_exti_line `{!HalF4 L, !HalF4Laws L} : ExtiLine (UsableLine f4_regs false) :=
  usable_exti_line f4_regs false f4_clear_pending_bit f4_trigger_edge f4_drive
    clear_interrupt_pending_bit_spec f4_trigger_regs f4_drive_spec.

(** Neither operation of the other panics. *)
Definition or_panic (o : outcome L) (l : L) : L := match o with Done l' => l' | Panic => l end.
Definition l0_clear `{!HalL0 L} (l : L) : L := or_panic (l0_clear_pending_bit l) l.
Definition l0_trigger `{!HalL0 L} (e : EdgeOption) (l : L) : L := or_panic (l0_trigger_edge e l) l.
Lemma l0_clear_run `{!HalL0 L, !HalL0Laws L} l : ∃ l', l0_clear_pending_bit l = Done l' ∧
  l0_clear l = l' ∧ l0_regs l' = cleared (l0_regs l).
Proof.
  unfold l0_clear, l0_clear_pending_bit. destruct (line_of l) as [g Hg]. rewrite Hg.
  eexists. split; [done|]. split; [done|]. by apply unpend_spec.
Qed.
Lemma l0_trigger_run `{!HalL0 L, !HalL0Laws L} e l : ∃ l', l0_trigger_edge e l = Done l' ∧
  l0_trigger e l = l' ∧ l0_regs l' = triggered e (l0_regs l).
Proof.
  unfold l0_trigger, l0_trigger_edge. destruct (line_of l) as [g Hg]. rewrite Hg.
  eexists. split; [done|]. split; [done|]. rewrite listen_gpio_spec by done.
  destruct trigger_edges_spec as (E1 & E2 & E3). destruct e; by rewrite ?E1, ?E2, ?E3.
Qed.
Lemma l0_clear_regs `{!HalL0 L, !HalL0Laws L} l : l0_regs (l0_clear l) = cleared (l0_regs l).
Proof. destruct (l0_clear_run l) as (l' & _ & -> & ?). done. Qed.
Lemma l0_trigger_regs `{!HalL0 L, !HalL0Laws L} e l :
  l0_regs (l0_trigger e l) = triggered e (l0_regs l).
Proof. destruct (l0_trigger_run e l) as (l' & _ & -> & ?). done. Qed.
#[export] Instance l0_exti_line `{!HalL0 L, !HalL0Laws L} : ExtiLine (UsableLine l0_regs true) :=
  usable_exti_line l0_regs true l0_clear l0_trigger l0_drive
    l0_clear_regs (λ e l _, l0_trigger_regs e l) l0_drive_spec.
End instances.

(** A line after a reset: masked, nothing selected. *)
Definition at_reset (r : LineRegs) : Prop :=
  pr r = false ∧ imr r = false ∧ rtsr r = false ∧ ftsr r = false.

(** What [ExtiPin::new] makes of a pin whose line was not used since the reset is usable:
    on an F4 since it connects the line to the pin's port, on an L0, where [make_source]
    does nothing, since selecting an edge connects it; nothing is pending and no edge is
    selected.  On an F4 a pin whose line is not connected never gets an event, whatever is
    selected. *)
Theorem exti_pin_new_usable {L M : Type} `{!HalF4 L, !HalF4Laws L} `{!HalL0 M, !HalL0Laws M}
    (pin : L) (pin' : M) irq :
  at_reset (f4_regs pin) → at_reset (l0_regs pin') →
  (let r := f4_regs (dev (ExtiPin_new f4_make_source pin irq)) in
   usable false r = true ∧ asserted r = false ∧ trigger_of r = None) ∧
  (let r := l0_regs (dev (ExtiPin_new l0_make_source pin' irq)) in
   usable true r = true ∧ asserted r = false ∧ trigger_of r = None) ∧
  (source (f4_regs pin) = false → ∀ e b,
     pr (f4_regs (f4_drive b (f4_trigger_edge e pin))) = false).
Proof.
  intros (P1 & I1 & R1 & F1) (P2 & I2 & R2 & F2). unfold ExtiPin_new. cbn [dev].
  split; [|split].
  - cbv zeta. unfold f4_make_source. rewrite make_interrupt_source_spec. unfold usable, asserted, trigger_of.
    cbn. by rewrite P1, I1, R1, F1.
  - change (l0_make_source pin') with pin'. revert P2 I2 R2 F2. destruct (l0_regs pin') as [v p m rt ft c].
    unfold usable, asserted, trigger_of. cbn. intros -> -> -> ->.
    by destruct c.
  - intros Hs e b. unfold f4_trigger_edge.
    rewrite f4_drive_spec, enable_interrupt_spec, trigger_on_edge_spec. cbn.
    unfold selected. cbn. by rewrite P1, Hs.
Qed.

(** ** Witness

    HALs whose pin is the registers of its line. *)
#[export] Instance regs_f4 : HalF4 LineRegs := {|
  f4_regs r := r; Edge := EdgeOption; FALLING := Falling; RISING := Rising;
  RISING_FALLING := RisingFalling;
  make_interrupt_source r := mkLineRegs (lr_level r) (pr r) (imr r) (rtsr r) (ftsr r) true;
  clear_interrupt_pending_bit := cleared;
  trigger_on_edge e r :=
    mkLineRegs (lr_level r) (pr r) (imr r) (rising e) (falling e) (source r);
  enable_interrupt r := mkLineRegs (lr_level r) (pr r) true (rtsr r) (ftsr r) (source r);
  f4_drive := hw_drive
|}.
#[export] Instance regs_f4_laws : HalF4Laws LineRegs.
Proof. by refine {| edges e := e |}. Defined.
#[export] Instance regs_l0 : HalL0 LineRegs := {|
  l0_regs r := r; GpioLine := Z;
  from_raw_line n := if (0 <=? n) && (n <? 16) then Some n else None; pin_number _ := 3;
  Port := unit; port _ := tt; TriggerEdge := EdgeOption; TFalling := Falling; TRising := Rising;
  TBoth := RisingFalling; unpend _ := cleared; listen_gpio _ _ := triggered; l0_drive := hw_drive
|}.
#[export] Instance regs_l0_laws : HalL0Laws LineRegs.
Proof. refine {| trigger_edges e := e |}; try done. intros l. by exists 3. Defined.

Lemma exti_pin_new_usable_witness :
  let r := mkLineRegs true false false false false false in
  usable false (dev (ExtiPin_new f4_make_source r Irq_new)) = true ∧
  usable true (dev (ExtiPin_new l0_make_source r Irq_new)) = true ∧
  pr (f4_drive false (f4_trigger_edge Falling r)) = false.
Proof.
  intros r. assert (F : at_reset (f4_regs r)) by done.
  assert (R : at_reset (l0_regs r)) by done.
  destruct (exti_pin_new_usable (L := LineRegs) (M := LineRegs) r r Irq_new F R) as ((H1 & _) & (H2 & _) & H3).
  split; [exact H1|]. split; [exact H2|]. exact (H3 eq_refl Falling false).
Defined.
