(* ===== verification/Can.v ===== *)
(** * Can: CAN frames on the STM32

    [embassy-stm32/src/can.rs]: sending a frame and waiting for the transmit interrupt,
    and receiving one in a loop around an [InterruptFuture].  The controller is that of
    the bxcan library, an instance of [BxCan]; both its interrupts stay asserted, as in
    [LevelIrq]: the transmit one while a mailbox reports a request as completed, the
    receive one while the FIFO has a frame. *)
From S2P Require Import Prelude Interrupt LevelIrq.
Local Open Scope Z_scope.

(** ** The interface to bxcan

    [transmit] is [None] when it would block; what it displaces is not used. *)
Inductive RxResult (F : Type) : Type := Frame (f : F) | WouldBlock | Overrun.
Arguments Frame {F} f.
Arguments WouldBlock {F}.
Arguments Overrun {F}.

Class BxCan (D F : Type) : Type := {
  transmit : F → D → option D;
  receive : D → RxResult F * D;
  request_completed : D → bool;
  fifo : D → list F;
  overrun : D → bool;
  receive_spec : ∀ d, let '(r, d') := receive d in
    if overrun d then r = Overrun ∧ overrun d' = false ∧ fifo d' = fifo d
    else overrun d' = false ∧
      match fifo d with [] => r = WouldBlock ∧ fifo d' = [] | f :: q => r = Frame f ∧ fifo d' = q end
}.

Section can.
Context {D F : Type} `{BxCan D F}.

(** FIFO0_MESSAGE_PENDING. *)
Definition message_pending (d : D) : bool := match fifo d with [] => false | _ => true end.

(** ** [transmit]

    The first poll up to the await, and the polls of the [InterruptFuture]; the unwrap
    panics.  [h1] and [h2] are what the hardware does before and after the request. *)
Definition transmit_begin (f : F) (h1 h2 : list (D → D)) (s : Dev D) : outcome (Dev D) :=
  let s1 := snd (settle request_completed (new_future s)) in
  let s2 := snd (changes request_completed h1 s1) in
  match transmit f (dev s2) with
  | None => Panic
  | Some d => Done (snd (changes request_completed h2 (snd (settle request_completed (set_dev d s2)))))
  end.
Definition transmit_poll (task : Z) (s : Dev D) : Poll unit * Dev D :=
  let s1 := future_ctx task s in
  match future_check s1 with
  | Ready _ => (Ready tt, future_drop s1)
  | Pending => (Pending, s1)
  end.

(** ** [receive]

    One poll: [None] when the fuel is over.  Each time around, a new [InterruptFuture] is
    made before the FIFO is looked at; [hs] is what the hardware does in the rounds,
    between the two and before the await is polled. *)
Fixpoint receive_poll (fuel : nat) (task : Z) (hs : list (list (D → D) * list (D → D)))
    (s : Dev D) : option (Poll F * Dev D) :=
  match fuel with
  | O => None
  | S n =>
      let '(ha, hb) := hd ([], []) hs in
      let s1 := snd (changes message_pending ha (snd (settle message_pending (new_future s)))) in
      let '(r, d) := receive (dev s1) in
      let s2 := snd (settle message_pending (set_dev d s1)) in
      match r with
      | Frame f => Some (Ready f, future_drop s2)
      | _ =>
          let s3 := future_ctx task (snd (changes message_pending hb s2)) in
          match future_check s3 with
          | Ready _ => receive_poll n task (tl hs) (future_drop s3)
          | Pending => Some (Pending, s3)
          end
      end
  end.

(** ** Theorems *)

(** [transmit] waits for the end of a request: with no request reported as completed when
    it starts and while it asks, and a mailbox that is free, its poll is pending until
    one is reported, which wakes the task.  But a completed request that is still
    reported, as bxcan leaves it until it is cleared, makes it return at its first
    poll, whatever happens to its own frame; and with no free mailbox it panics. *)
Theorem can_transmit_waits task f h1 h2 h3 s d : task ≠ 0 →
  transmit f (after h1 (dev s)) = Some d →
  ∃ s1, transmit_begin f h1 h2 s = Done s1 ∧
  let '(r, s2) := transmit_poll task s1 in
  if request_completed (dev s) || hits request_completed h1 (dev s) || request_completed d ||
     hits request_completed h2 d
  then r = Ready tt
  else r = Pending ∧
    let '(ws, s3) := changes request_completed h3 s2 in
    if hits request_completed h3 (dev s2) then ws = [task] ∧ future_check s3 = Ready tt
    else ws = [] ∧ future_check s3 = Pending.
Proof.
  intros Ht Htr. unfold transmit_begin.
  pose proof (new_either request_completed s) as E1.
  assert (D1 : dev (snd (settle request_completed (new_future s))) = dev s) by (by rewrite settle_dev).
  set (s1 := snd (settle request_completed (new_future s))) in *.
  apply (changes_either _ h1) in E1. rewrite D1 in E1.
  pose proof (changes_dev request_completed h1 s1) as D2. rewrite D1 in D2.
  set (s2 := snd (changes request_completed h1 s1)) in *. rewrite D2, Htr. eexists. split; [done|].
  set (b2 := request_completed (dev s) || hits request_completed h1 (dev s)) in *.
  assert (E3 : either request_completed (b2 || request_completed d)
    (snd (settle request_completed (set_dev d s2)))).
  { destruct b2; simpl; [by apply settle_masked|]. destruct E1 as (_ & He & Hf).
    destruct (request_completed d) eqn:Hd; simpl.
    - by destruct (settle_asserted request_completed (set_dev d s2) Hd He Hf) as (i & -> & Hi).
    - by rewrite settle_armed. }
  assert (D3 : dev (snd (settle request_completed (set_dev d s2))) = d) by (by rewrite settle_dev).
  set (s3 := snd (settle request_completed (set_dev d s2))) in *.
  apply (changes_either _ h2) in E3. rewrite D3 in E3.
  set (s4 := snd (changes request_completed h2 s3)) in *. unfold transmit_poll.
  apply (future_ctx_either _ _ task) in E3.
  rewrite (future_check_either _ _ _ E3). destruct (_ || hits request_completed h2 d); [done|].
  split; [done|]. pose proof (changes_armed _ h3 (future_ctx task s4) E3) as Hc.
  destruct (changes _ h3 _) as [ws s5]. unfold future_check, InterruptFuture_poll_check, is_enabled.
  destruct (hits _ h3 _).
  - destruct Hc as [-> ->]. simpl. by rewrite (proj2 (Z.eqb_neq _ _) Ht).
  - by destruct Hc as ((_ & -> & _) & -> & _).
Qed.

(** A frame in the FIFO is received within two rounds: the first may end in the report
    of an overrun. *)
Lemma receive_some task s f q : fifo (dev s) = f :: q →
  ∃ s', receive_poll 2 task [] s = Some (Ready f, s') ∧ fifo (dev s') = q.
Proof.
  intros Hq. cbn [receive_poll hd changes snd].
  assert (Hp : message_pending (dev s) = true) by (unfold message_pending; by rewrite Hq).
  pose proof (new_either message_pending s) as E. rewrite Hp in E. cbn [either] in E.
  rewrite settle_dev. cbn [dev new_future set_line].
  set (s1 := snd (settle message_pending (new_future s))) in *.
  pose proof (receive_spec (dev s)) as R. destruct (receive (dev s)) as [r d].
  destruct (overrun (dev s)).
  - destruct R as (-> & Ho & Hf).
    destruct (settle_masked message_pending (set_dev d s1) E) as [_ E2].
    assert (Dd : dev (snd (settle message_pending (set_dev d s1))) = d) by (by rewrite settle_dev).
    set (s2 := snd (settle message_pending (set_dev d s1))) in *.
    unfold future_check, InterruptFuture_poll_check, is_enabled.
    cbn [line future_ctx set_line InterruptFuture_poll_ctx set_handler_context enabled].
    rewrite E2. cbn [tl hd changes snd].
    rewrite settle_dev. cbn [dev new_future future_drop future_ctx set_line]. rewrite Dd.
    pose proof (receive_spec d) as R. destruct (receive d) as [r d'].
    rewrite Ho, Hf, Hq in R. destruct R as (_ & -> & Hf'). eexists. split; [done|].
    cbn [dev future_drop set_line]. by rewrite settle_dev.
  - rewrite Hq in R. destruct R as (_ & -> & Hf). eexists. split; [done|].
    cbn [dev future_drop set_line]. by rewrite settle_dev.
Qed.

(** Without one the poll is pending, with the future armed for the task. *)
Lemma receive_none n task s : fifo (dev s) = [] →
  ∃ s', receive_poll (S n) task [] s = Some (Pending, s') ∧
    armed message_pending s' ∧ ctx (line s') = task.
Proof.
  intros Hq. cbn [receive_poll hd changes snd].
  assert (Hp : message_pending (dev s) = false) by (unfold message_pending; by rewrite Hq).
  pose proof (new_either message_pending s) as E. rewrite Hp in E.
  rewrite settle_dev. cbn [dev new_future set_line].
  set (s1 := snd (settle message_pending (new_future s))) in *.
  pose proof (receive_spec (dev s)) as R. destruct (receive (dev s)) as [r d].
  assert (Hd : fifo d = [] ∧ ∀ f, r ≠ Frame f).
  { destruct (overrun (dev s)); [destruct R as (-> & _ & ->)|rewrite Hq in R; destruct R as (_ & -> & ->)];
      done. }
  destruct Hd as [Hd Hr].
  assert (Ea : armed message_pending (set_dev d s1)).
  { destruct E as (_ & ? & ?). split_and!; try done. unfold message_pending. cbn. by rewrite Hd. }
  rewrite (settle_armed _ _ Ea). cbn [snd].
  assert (Ea' : armed message_pending (future_ctx task (set_dev d s1)))
    by (by apply (future_ctx_either message_pending false)).
  rewrite (future_check_either _ false _ Ea').
  exists (future_ctx task (set_dev d s1)).
  split; [by destruct r as [f| |]; [destruct (Hr f)|..]|done].
Qed.

(** ** Frames that arrive during the poll *)

(** Steps of the hardware that put the frames given into the FIFO; other flags may
    change as they like. *)
Definition appends (h : D → D) (fs : list F) : Prop := ∀ d, fifo (h d) = fifo d ++ fs.
(** In each round, between making the future and looking, and between looking and the
    poll; and all of them in their order. *)
Definition round_appends (h : list (D → D) * list (D → D)) (a : list (list F) * list (list F)) : Prop :=
  Forall2 appends h.1 a.1 ∧ Forall2 appends h.2 a.2.
Definition arrivals (l : list (list (list F) * list (list F))) : list F :=
  concat ((λ a, concat a.1 ++ concat a.2) <$> l).

Lemma after_appends hs l : Forall2 appends hs l → ∀ d, fifo (after hs d) = fifo d ++ concat l.
Proof.
  induction 1 as [|h fs hs l Hh Hl IH]; intros d; [by rewrite app_nil_r|].
  change (after (h :: hs) d) with (after hs (h d)). cbn [concat]. by rewrite IH, Hh, <-app_assoc.
Qed.

Lemma pending_false d : message_pending d = false ↔ fifo d = [].
Proof. unfold message_pending. by destruct (fifo d). Qed.

(** One look at the FIFO takes its first frame, or changes nothing in it. *)
Lemma receive_cases d : let '(r, d') := receive d in
  match r with Frame f => fifo d = f :: fifo d' | _ => fifo d' = fifo d end.
Proof.
  pose proof (receive_spec d) as R. destruct (receive d) as [r d'].
  destruct (overrun d); [by destruct R as (-> & _ & ->)|]. destruct R as [_ R].
  destruct (fifo d); destruct R as [-> ->]; done.
Qed.

(** A round that received nothing is pending only with an empty FIFO, and is then armed
    for the task. *)
Lemma receive_round task ha hb s r d :
  let s1 := snd (changes message_pending ha (snd (settle message_pending (new_future s)))) in
  receive (dev s1) = (r, d) → (∀ f, r ≠ Frame f) →
  let s2 := snd (settle message_pending (set_dev d s1)) in
  let s3 := future_ctx task (snd (changes message_pending hb s2)) in
  dev s3 = after hb d ∧ ctx (line s3) = task ∧
  (future_check s3 = Pending → armed message_pending s3).
Proof.
  intros s1 Hr Hn s2 s3.
  assert (D3 : dev s3 = after hb d).
  { unfold s3, s2. cbn [dev future_ctx set_line]. by rewrite changes_dev, settle_dev. }
  split_and!; [done..|].
  set (b := message_pending (dev s) || hits message_pending ha (dev s)).
  assert (E1 : either message_pending b s1).
  { pose proof (changes_either _ ha _ _ (new_either message_pending s)) as E.
    by rewrite settle_dev in E. }
  assert (E2 : either message_pending b s2).
  { apply settle_either. destruct b; [done|]. destruct E1 as (Hp & ? & ?). split_and!; [|done..].
    pose proof (receive_cases (dev s1)) as R. rewrite Hr in R. rewrite pending_false in *.
    cbn [dev set_dev]. by destruct r as [f| |]; [destruct (Hn f)|rewrite R..]. }
  pose proof (future_ctx_either _ _ task _ (changes_either message_pending hb _ _ E2)) as E3.
  fold s3 in E3. rewrite (future_check_either _ _ _ E3). by destruct (b || _).
Qed.

(** A round as a whole: it receives; or it goes on with what has arrived, pending or
    with another round. *)
Lemma receive_poll_round n task ha hb hs la lb s : round_appends (ha, hb) (la, lb) →
  (∃ f s', receive_poll (S n) task ((ha, hb) :: hs) s = Some (Ready f, s') ∧
     f :: fifo (dev s') = fifo (dev s) ++ concat la) ∨
  ∃ s3, fifo (dev s3) = fifo (dev s) ++ concat la ++ concat lb ∧ ctx (line s3) = task ∧
    (armed message_pending s3 ∧
       receive_poll (S n) task ((ha, hb) :: hs) s = Some (Pending, s3) ∨
     receive_poll (S n) task ((ha, hb) :: hs) s = receive_poll n task hs (future_drop s3)).
Proof.
  intros [Ha Hb]. cbn [fst snd] in Ha, Hb. cbn [receive_poll hd tl].
  pose proof (receive_round task ha hb s) as Hround. cbv zeta in Hround.
  assert (D1 : dev (snd (changes message_pending ha (snd (settle message_pending (new_future s)))))
    = after ha (dev s)) by (by rewrite changes_dev, settle_dev).
  set (s1 := snd (changes message_pending ha _)) in *.
  pose proof (receive_cases (dev s1)) as R. destruct (receive (dev s1)) as [r d] eqn:Hr.
  rewrite D1, (after_appends _ _ Ha) in R. clearbody s1.
  assert (Hcase : (∃ f, r = Frame f) ∨ ∀ f, r ≠ Frame f) by (destruct r; naive_solver).
  destruct Hcase as [[f ->]|Hn].
  { left. eexists f, _. split; [done|]. cbn [dev future_drop set_line]. by rewrite settle_dev. }
  right. destruct (Hround _ _ eq_refl Hn) as (D3 & Hc & Hp). clear Hround.
  set (s3 := future_ctx task _) in *. exists s3. split; [|split; [done|]].
  - rewrite D3, (after_appends _ _ Hb), app_assoc. f_equal.
    by destruct r as [f| |]; [destruct (Hn f)|..].
  - destruct r as [f| |]; [by destruct (Hn f)|..]; (destruct (future_check s3) as [[]|] eqn:Hfc;
      [by right|left; split; [by apply Hp|done]]).
Qed.

(** The next frame wakes the task, and its poll receives it. *)
Lemma receive_next task s h f : task ≠ 0 → armed message_pending s → ctx (line s) = task →
  appends h [f] →
  ∃ s'' s3, changes message_pending [h] s = ([task], s'') ∧
    receive_poll 2 task [] s'' = Some (Ready f, s3) ∧ fifo (dev s3) = [].
Proof.
  intros Ht Ea Hctx Hh. pose proof (changes_armed _ [h] _ Ea) as Hc.
  assert (Hf : fifo (h (dev s)) = [f]) by (rewrite Hh, (proj1 (pending_false _) (proj1 Ea)); done).
  pose proof (changes_dev message_pending [h] s) as Hdev.
  assert (Hi : hits message_pending [h] (dev s) = true).
  { cbn [hits]. unfold message_pending at 1. by rewrite Hf. }
  rewrite Hi, Hctx, (proj2 (Z.eqb_neq _ _) Ht) in Hc.
  destruct (changes _ [h] _) as [ws s'']. destruct Hc as [_ ->].
  destruct (receive_some task s'' f []) as (s3 & H3 & H4); [cbn [snd] in Hdev; by rewrite Hdev|].
  eauto.
Qed.

(** No frame is lost, invented or overtaken, whatever arrives while a poll of
    [receive] runs, with overruns or not: the poll returns; when it is ready, the frame
    and those left in the FIFO are those that were there, followed by some that have
    arrived; when it is pending, no frame is there, and the next one to arrive wakes the
    task and is the result of the next poll. *)
Theorem can_receive_no_loss task hs l s : task ≠ 0 → Forall2 round_appends hs l →
  ∃ r s', receive_poll (length hs + 2) task hs s = Some (r, s') ∧
  match r with
  | Ready f => ∃ l', l' `prefix_of` arrivals l ∧ f :: fifo (dev s') = fifo (dev s) ++ l'
  | Pending => fifo (dev s) = [] ∧ fifo (dev s') = [] ∧
      ∀ h f, appends h [f] →
        ∃ s'' s3, changes message_pending [h] s' = ([task], s'') ∧
          receive_poll 2 task [] s'' = Some (Ready f, s3) ∧ fifo (dev s3) = []
  end.
Proof.
  intros Ht Hl. revert s. induction Hl as [|[ha hb] [la lb] hs l Ha Hl IH]; intros s.
  - cbn [length Nat.add]. destruct (fifo (dev s)) as [|f q] eqn:Hq.
    + destruct (receive_none 1 task s Hq) as (s' & Hr & Ea & Hc). exists Pending, s'.
      split_and!; eauto using receive_next. by apply pending_false, Ea.
    + destruct (receive_some task s f q Hq) as (s' & Hr & Hq'). exists (Ready f), s'.
      split; [done|]. exists []. split; [apply prefix_nil|]. by rewrite Hq', app_nil_r.
  - cbn [length Nat.add].
    destruct (receive_poll_round (length hs + 2) task ha hb hs la lb s Ha)
      as [(f & s' & -> & Hf)|(s3 & Hf & Hc & [[Ea ->]| ->])].
    + exists (Ready f), s'. split; [done|]. exists (concat la). split; [|done].
      unfold arrivals. cbn. rewrite <-app_assoc. by apply prefix_app_r.
    + exists Pending, s3. split; [done|].
      assert (H0 : fifo (dev s3) = []) by (by apply pending_false, Ea).
      rewrite H0 in Hf. symmetry in Hf. apply app_nil in Hf as [Hf _]. eauto using receive_next.
    + destruct (IH (future_drop s3)) as (r' & s' & -> & Hs'). exists r', s'. split; [done|].
      change (dev (future_drop s3)) with (dev s3) in Hs'. rewrite Hf in Hs'. destruct r' as [f|].
      * destruct Hs' as (l' & Hpre & Hs'). exists (concat la ++ concat lb ++ l').
        rewrite <-!app_assoc in Hs'. split; [|done]. unfold arrivals. cbn.
        rewrite <-app_assoc. by do 2 apply prefix_app.
      * destruct Hs' as (H1 & H2 & H3). by apply app_nil in H1 as [H1 _].
Qed.
End can.

(** ** A controller

    Three mailboxes and a FIFO of three frames, as the interface describes it. *)
Record Bx : Type := mkBx { queued : list Z; rqcp : bool; rx_fifo : list Z; fovr : bool }.
#[export] Instance Bx_can : BxCan Bx Z.
Proof.
  refine {|
    transmit f d :=
      if (length (queued d) <? 3)%nat then Some (mkBx (queued d ++ [f]) (rqcp d) (rx_fifo d) (fovr d))
      else None;
    receive d :=
      if fovr d then (Overrun, mkBx (queued d) (rqcp d) (rx_fifo d) false)
      else match rx_fifo d with
           | [] => (WouldBlock, d)
           | f :: q => (Frame f, mkBx (queued d) (rqcp d) q false)
           end;
    request_completed := rqcp; fifo := rx_fifo; overrun := fovr
  |}.
  intros d. destruct (fovr d) eqn:Ho; [done|]. destruct (rx_fifo d) eqn:Hf; simpl; by rewrite ?Ho, ?Hf.
Defined.

Lemma can_transmit_waits_witness :
  let sent d := mkBx (tl (queued d)) true (rx_fifo d) (fovr d) in
  (∃ s1, transmit_begin 5 [] [] (mkDev (mkBx [] false [] false) Irq_new) = Done s1 ∧
     fst (transmit_poll 64 s1) = Pending ∧
     fst (changes rqcp [sent] (snd (transmit_poll 64 s1))) = [64]) ∧
  ∃ s1, transmit_begin 6 [] [] (mkDev (mkBx [] true [] false) Irq_new) = Done s1 ∧
    fst (transmit_poll 64 s1) = Ready tt ∧ queued (dev s1) = [6].
Proof.
  intros sent. split.
  - destruct (can_transmit_waits (H:=Bx_can) 64 5 [] [] [sent] (mkDev (mkBx [] false [] false) Irq_new) (mkBx [5] false [] false)
      ltac:(lia) eq_refl) as (s1 & E & H). exists s1. injection E as <-.
    split; [reflexivity|]. split; [exact (proj1 H)|exact (proj1 (proj2 H))].
  - destruct (can_transmit_waits (H:=Bx_can) 64 6 [] [] [] (mkDev (mkBx [] true [] false) Irq_new) (mkBx [6] true [] false)
      ltac:(lia) eq_refl) as (s1 & E & H). exists s1. injection E as <-.
    split; [reflexivity|]. split; [exact H|reflexivity].
Defined.

Lemma can_receive_no_loss_witness :
  let arrives d := mkBx (queued d) (rqcp d) (rx_fifo d ++ [9]) (fovr d) in
  ∃ r s', receive_poll 3 64 [([], [arrives])] (mkDev (mkBx [] false [] true) Irq_new) = Some (r, s') ∧
    match r with
    | Ready f => ∃ l', l' `prefix_of` [9] ∧ f :: rx_fifo (dev s') = l'
    | Pending => False
    end.
Proof.
  intros arrives.
  destruct (can_receive_no_loss (H:=Bx_can) 64 [([], [arrives])] [([], [[9]])]
    (mkDev (mkBx [] false [] true) Irq_new) ltac:(lia)) as (r & s' & E & Hr).
  { constructor; [|constructor]. split; [constructor|]. constructor; [|constructor]. intros d. reflexivity. }
  assert (V : option_map fst (receive_poll 3 64 [([], [arrives])]
    (mkDev (mkBx [] false [] true) Irq_new)) = Some (Ready 9)) by (vm_compute; reflexivity).
  cbn [length Nat.add] in E. exists r, s'. split; [exact E|]. unfold arrives in *. rewrite E in V.
  injection V as ->. exact Hr.
Defined.
