(* ===== verification/Serial.v ===== *)
(** * Serial: DMA transfers on the STM32F4

    [embassy-stm32/src/f4/serial.rs].  A future takes the streams and the peripheral out
    of the driver, and puts them back when it completes; [read_until_idle] waits for the
    end of the transfer or an idle line, with two [InterruptFuture]s.  A stream asserts
    its interrupt while its transfer-complete flag is set, the peripheral while its idle
    flag is ([LevelIrq]); the transfers are those of the chip's HAL: [init] clears the
    flag and writes the count, [start] enables the stream, [free] disables it. *)
From S2P Require Import Prelude Interrupt LevelIrq.
Local Open Scope Z_scope.

(** A stream, and the peripheral. *)
Record Stream : Type := mkStream { tc : bool; ndtr : Z; en : bool }.
Record Usart : Type := mkUsart { idle : bool; idleie : bool }.
Definition usart_asserted (u : Usart) : bool := idle u && idleie u.

(** [Serial]: what is there to take, and the three lines with their devices. *)
Record Serial : Type := mkSerial {
  tx_stream : option unit; rx_stream : option unit; usart : option unit;
  tx : Dev Stream; rx : Dev Stream; us : Dev Usart
}.
Definition Serial_new (t r : Stream) (u : Usart) (tx_int rx_int usart_int : Irq Fn) : Serial :=
  mkSerial (Some tt) (Some tt) (Some tt) (mkDev t tx_int) (mkDev r rx_int) (mkDev u usart_int).

Definition set_rx (d : Dev Stream) (s : Serial) : Serial :=
  mkSerial (tx_stream s) (rx_stream s) (usart s) (tx s) d (us s).
Definition set_tx (d : Dev Stream) (s : Serial) : Serial :=
  mkSerial (tx_stream s) (rx_stream s) (usart s) d (rx s) (us s).
Definition set_us (d : Dev Usart) (s : Serial) : Serial :=
  mkSerial (tx_stream s) (rx_stream s) (usart s) (tx s) (rx s) d.

(** [take().unwrap()] and [replace]. *)
Definition take_rx (s : Serial) : outcome Serial :=
  _ ← expect (rx_stream s); _ ← expect (usart s);
  Done (mkSerial (tx_stream s) None None (tx s) (rx s) (us s)).
Definition take_tx (s : Serial) : outcome Serial :=
  _ ← expect (tx_stream s); _ ← expect (usart s);
  Done (mkSerial None (rx_stream s) None (tx s) (rx s) (us s)).
Definition replace_rx (s : Serial) : Serial :=
  mkSerial (tx_stream s) (Some tt) (Some tt) (tx s) (rx s) (us s).
Definition replace_tx (s : Serial) : Serial :=
  mkSerial (Some tt) (rx_stream s) (Some tt) (tx s) (rx s) (us s).

(** The HAL's transfer. *)
Definition transfer_init (len : Z) (d : Stream) : Stream := mkStream false len false.
Definition transfer_start (d : Stream) : Stream := mkStream (tc d) (ndtr d) true.
Definition transfer_free (d : Stream) : Stream := mkStream (tc d) (ndtr d) false.
(** A change by the driver, and the interrupt controller's look at it. *)
Definition upd {D} (asserted : D → bool) (f : D → D) (x : Dev D) : Dev D :=
  snd (changes asserted [f] x).

(** ** [read] and [write]: up to the await, and the polls *)
Definition begin_transfer (len : Z) (x : Dev Stream) : Dev Stream :=
  let x := upd tc (transfer_init len) x in
  let x := snd (settle tc (new_future x)) in
  upd tc transfer_start x.
Definition read_begin (len : Z) (s : Serial) : outcome Serial :=
  s ← take_rx s; Done (set_rx (begin_transfer len (rx s)) s).
Definition write_begin (len : Z) (s : Serial) : outcome Serial :=
  s ← take_tx s; Done (set_tx (begin_transfer len (tx s)) s).
Definition end_transfer (x : Dev Stream) : Dev Stream := upd tc transfer_free (future_drop x).
Definition read_poll (task : Z) (s : Serial) : Poll unit * Serial :=
  let x := future_ctx task (rx s) in
  match future_check x with
  | Ready _ => (Ready tt, replace_rx (set_rx (end_transfer x) s))
  | Pending => (Pending, set_rx x s)
  end.
Definition write_poll (task : Z) (s : Serial) : Poll unit * Serial :=
  let x := future_ctx task (tx s) in
  match future_check x with
  | Ready _ => (Ready tt, replace_tx (set_tx (end_transfer x) s))
  | Pending => (Pending, set_tx x s)
  end.

(** ** [read_until_idle]: the state also has the count at the start *)
Definition read_until_idle_begin (len : Z) (s : Serial) : outcome (Z * Serial) :=
  s ← take_rx s;
  let s := set_us (upd usart_asserted (λ u, mkUsart (idle u) true) (us s)) s in
  let s := set_us (upd usart_asserted (λ u, mkUsart false (idleie u)) (us s)) s in
  let s := set_rx (upd tc (transfer_init len) (rx s)) s in
  let total_bytes := ndtr (dev (rx s)) in
  let s := set_rx (snd (settle tc (new_future (rx s)))) s in
  let s := set_us (snd (settle usart_asserted (new_future (us s)))) s in
  Done (total_bytes, set_rx (upd tc transfer_start (rx s)) s).
(** [select] polls the first future, then the second one; both are dropped at the end. *)
Definition read_until_idle_poll (task total_bytes : Z) (s : Serial) : Poll Z * Serial :=
  let finish (s : Serial) :=
    let s := set_us (future_drop (us s)) s in
    let s := set_rx (upd tc transfer_free (future_drop (rx s))) s in
    let remaining_bytes := ndtr (dev (rx s)) in
    let s := set_us (upd usart_asserted (λ u, mkUsart (idle u) false) (us s)) s in
    (Ready (total_bytes - remaining_bytes), replace_rx s) in
  let s := set_rx (future_ctx task (rx s)) s in
  match future_check (rx s) with
  | Ready _ => finish s
  | Pending =>
      let s := set_us (future_ctx task (us s)) s in
      match future_check (us s) with
      | Ready _ => finish s
      | Pending => (Pending, s)
      end
  end.

(** A future that is dropped before it is ready leaves the driver without what it took;
    the [InterruptFuture]s and the HAL's transfer are dropped. *)
Definition read_drop (s : Serial) : Serial :=
  set_us (future_drop (us s)) (set_rx (end_transfer (rx s)) s).
Definition write_drop (s : Serial) : Serial := set_tx (end_transfer (tx s)) s.

(** ** The hardware *)
Definition hw_byte (d : Stream) : Stream :=
  if en d && (0 <? ndtr d) then mkStream (tc d || (ndtr d =? 1)) (ndtr d - 1) (en d) else d.
Definition hw_idle (u : Usart) : Usart := mkUsart true (idleie u).
Inductive HEvent : Set := EByte | EIdle.
Fixpoint hw_run (es : list HEvent) (s : Serial) : list Z * Serial :=
  match es with
  | [] => ([], s)
  | e :: es' =>
      let '(w1, s1) :=
        match e with
        | EByte => let '(ws, x) := changes tc [hw_byte] (rx s) in (ws, set_rx x s)
        | EIdle => let '(ws, x) := changes usart_asserted [hw_idle] (us s) in (ws, set_us x s)
        end in
      let '(w2, s2) := hw_run es' s1 in (w1 ++ w2, s2)
  end.

(** ** Proofs *)

Fixpoint bytes (es : list HEvent) : nat :=
  match es with [] => 0 | EByte :: es' => S (bytes es') | EIdle :: es' => bytes es' end.
Fixpoint idles (es : list HEvent) : nat :=
  match es with [] => 0 | EIdle :: es' => S (idles es') | EByte :: es' => idles es' end.

Lemma changes_cons {D} (asserted : D → bool) f fs x :
  changes asserted (f :: fs) x =
    let '(w1, x1) := changes asserted [f] x in
    let '(w2, x2) := changes asserted fs x1 in (w1 ++ w2, x2).
Proof.
  cbn [changes]. destruct (settle _ _) as [w1 x1]. rewrite app_nil_r.
  by destruct (changes asserted fs x1).
Qed.

(** The two lines do not disturb one another. *)
Lemma hw_run_split es : ∀ s,
  let '(ws, s') := hw_run es s in
  let '(w1, x) := changes tc (replicate (bytes es) hw_byte) (rx s) in
  let '(w2, y) := changes usart_asserted (replicate (idles es) hw_idle) (us s) in
  rx s' = x ∧ us s' = y ∧ ∀ t, t ∈ ws ↔ t ∈ w1 ∨ t ∈ w2.
Proof.
  induction es as [|e es IH]; intros s; [by cbn; set_solver|].
  destruct e; cbn [hw_run bytes idles replicate].
  - rewrite (changes_cons _ _ (replicate _ _)). destruct (changes tc [hw_byte] (rx s)) as [w0 x0].
    specialize (IH (set_rx x0 s)). cbn [rx us set_rx] in IH. revert IH.
    destruct (hw_run es _) as [ws s']. destruct (changes tc _ x0) as [w1 x].
    destruct (changes usart_asserted _ (us s)) as [w2 y]. intros (-> & -> & Hw).
    split_and!; [done..|]. intros t. rewrite !elem_of_app, Hw. tauto.
  - rewrite (changes_cons _ _ (replicate _ _)). destruct (changes usart_asserted [hw_idle] (us s)) as [w0 x0].
    specialize (IH (set_us x0 s)). cbn [rx us set_us] in IH. revert IH.
    destruct (hw_run es _) as [ws s']. destruct (changes usart_asserted _ x0) as [w2 y].
    destruct (changes tc _ (rx s)) as [w1 x]. intros (-> & -> & Hw).
    split_and!; [done..|]. intros t. rewrite !elem_of_app, Hw. tauto.
Qed.

Lemma after_bytes n : ∀ d, en d = true → 0 ≤ ndtr d →
  en (after (replicate n hw_byte) d) = true ∧
  ndtr (after (replicate n hw_byte) d) = Z.max 0 (ndtr d - Z.of_nat n).
Proof.
  induction n as [|n IH]; intros d He Hn; [simpl; split; [done|lia]|].
  change (after (replicate (S n) hw_byte) d) with (after (replicate n hw_byte) (hw_byte d)).
  assert (E : en (hw_byte d) = true ∧ ndtr (hw_byte d) = Z.max 0 (ndtr d - 1)).
  { unfold hw_byte. rewrite He. destruct (Z.ltb_spec 0 (ndtr d)); simpl; split; try done; lia. }
  destruct E as [E1 E2]. destruct (IH (hw_byte d) E1 ltac:(lia)) as [-> ->]. rewrite E2.
  split; [done|lia].
Qed.
Lemma hits_bytes n : ∀ d, en d = true → tc d = false → 0 < ndtr d →
  hits tc (replicate n hw_byte) d = (ndtr d <=? Z.of_nat n).
Proof.
  induction n as [|n IH]; intros d He Ht Hn; [simpl; symmetry; apply Z.leb_gt; lia|].
  cbn [replicate hits]. unfold hw_byte at 1 3. rewrite He, (proj2 (Z.ltb_lt 0 (ndtr d)) Hn), Ht.
  cbn [andb orb tc]. destruct (Z.eqb_spec (ndtr d) 1) as [E|E]; simpl.
  - symmetry. apply Z.leb_le. lia.
  - rewrite IH by (simpl; try done; lia). cbn [ndtr]. destruct (Z.leb_spec (ndtr d - 1) (Z.of_nat n));
      symmetry; [apply Z.leb_le|apply Z.leb_gt]; lia.
Qed.
Lemma hits_idles n u : idleie u = true →
  hits usart_asserted (replicate n hw_idle) u = (0 <? n)%nat.
Proof.
  intros Hi. destruct n; [done|]. simpl. unfold usart_asserted at 1. simpl. by rewrite Hi.
Qed.

Lemma take_None s : usart s = None → take_rx (read_drop s) = Panic ∧ take_tx (read_drop s) = Panic.
Proof.
  intros Hu. unfold take_rx, take_tx, read_drop. cbn [rx_stream tx_stream usart set_us set_rx].
  rewrite Hu. by destruct (rx_stream s), (tx_stream s).
Qed.

(** A transfer that was begun: armed, the stream enabled with its count. *)
Definition begun (len : Z) (x : Dev Stream) : Prop :=
  armed tc x ∧ en (dev x) = true ∧ ndtr (dev x) = len.
Lemma begin_spec len x : begun len (begin_transfer len x).
Proof.
  unfold begin_transfer. set (x1 := upd tc (transfer_init len) x).
  assert (D1 : dev x1 = mkStream false len false) by (unfold x1, upd; by rewrite changes_dev).
  pose proof (new_either tc x1) as E. rewrite D1 in E. cbn [tc] in E.
  assert (D2 : dev (snd (settle tc (new_future x1))) = mkStream false len false)
    by (by rewrite settle_dev).
  apply (changes_either tc [transfer_start]) in E. rewrite D2 in E. simpl in E.
  unfold upd. split; [exact E|]. rewrite changes_dev, D2. done.
Qed.

(** After some bytes, the line of a transfer that was begun and polled by [task]. *)
Lemma begun_bytes task len x n : task ≠ 0 → 0 < len → begun len x →
  let '(w, x') := changes tc (replicate n hw_byte) (future_ctx task x) in
  future_check (future_ctx task x') = (if len <=? Z.of_nat n then Ready tt else Pending) ∧
  w = (if len <=? Z.of_nat n then [task] else []) ∧
  ndtr (dev x') = Z.max 0 (len - Z.of_nat n).
Proof.
  intros Ht Hl (Ha & He & Hn).
  assert (Hc : armed tc (future_ctx task x)) by (by apply (future_ctx_either tc false)).
  assert (D : dev (future_ctx task x) = dev x) by done.
  pose proof (changes_armed tc (replicate n hw_byte) _ Hc) as H1.
  pose proof (changes_dev tc (replicate n hw_byte) (future_ctx task x)) as H2.
  rewrite D in H1, H2. rewrite hits_bytes in H1; [|done|apply Ha|by rewrite Hn].
  rewrite Hn in H1. destruct (after_bytes n (dev x) He ltac:(lia)) as [_ Hnd]. rewrite Hn in Hnd.
  revert H1 H2. destruct (changes _ _ _) as [w x']. cbn [snd]. intros H1 H2.
  change (ctx (line (future_ctx task x))) with task in H1.
  unfold future_check, InterruptFuture_poll_check, is_enabled. cbn.
  destruct (len <=? Z.of_nat n).
  - destruct H1 as [-> ->]. rewrite (proj2 (Z.eqb_neq _ _) Ht), H2. done.
  - destruct H1 as ((_ & -> & _) & -> & _). by rewrite H2.
Qed.

Lemma armed_idles task y n : task ≠ 0 → armed usart_asserted y → idleie (dev y) = true →
  let '(w, y') := changes usart_asserted (replicate n hw_idle) (future_ctx task y) in
  future_check (future_ctx task y') = (if (0 <? n)%nat then Ready tt else Pending) ∧
  w = (if (0 <? n)%nat then [task] else []).
Proof.
  intros Ht Ha Hi.
  assert (Hc : armed usart_asserted (future_ctx task y)) by exact (future_ctx_either usart_asserted false task _ Ha).
  pose proof (changes_armed usart_asserted (replicate n hw_idle) _ Hc) as H1.
  rewrite hits_idles in H1 by done. revert H1.
  destruct (changes _ _ _) as [w y']. intros H1.
  change (ctx (line (future_ctx task y))) with task in H1.
  unfold future_check, InterruptFuture_poll_check, is_enabled.
  cbn [line future_ctx set_line InterruptFuture_poll_ctx set_handler_context enabled].
  destruct (0 <? n)%nat.
  - destruct H1 as [-> ->]. by rewrite (proj2 (Z.eqb_neq _ _) Ht).
  - by destruct H1 as ((_ & -> & _) & -> & _).
Qed.

Lemma idle_begin_spec len s : rx_stream s = Some tt → usart s = Some tt →
  ∃ s0, read_until_idle_begin len s = Done (len, s0) ∧ begun len (rx s0) ∧
    armed usart_asserted (us s0) ∧ idleie (dev (us s0)) = true.
Proof.
  intros Hr Hu. unfold read_until_idle_begin, take_rx. rewrite Hr, Hu. cbn [mbind outcome_bind expect].
  set (y0 := upd usart_asserted (λ u, mkUsart (idle u) true) _).
  cbn [rx us set_rx set_us].
  set (y1 := upd usart_asserted (λ u, mkUsart false (idleie u)) y0).
  assert (Y1 : dev y1 = mkUsart false true).
  { unfold y1, y0, upd. rewrite !changes_dev. done. }
  set (x1 := upd tc (transfer_init len) (rx s)).
  assert (D1 : dev x1 = mkStream false len false) by (unfold x1, upd; by rewrite changes_dev).
  rewrite D1. eexists. split; [done|]. cbn [rx us set_rx set_us]. split; [|split].
  - exact (begin_spec len (rx s)).
  - pose proof (new_either usart_asserted y1) as E. by rewrite Y1 in E.
  - rewrite settle_dev. change (idleie (dev y1) = true). by rewrite Y1.
Qed.

(** ** Theorems *)

(** [read_until_idle] is pending until the buffer is full or the line is idle, whichever
    the hardware does first and in any order; then the task has been woken, the next
    poll returns the number of bytes received, and the driver has its parts again. *)
Theorem serial_read_until_idle task len s es : task ≠ 0 → 0 < len →
  rx_stream s = Some tt → usart s = Some tt →
  ∃ s0, read_until_idle_begin len s = Done (len, s0) ∧
  let '(r1, s1) := read_until_idle_poll task len s0 in r1 = Pending ∧
  let '(ws, s2) := hw_run es s1 in
  let '(r2, s3) := read_until_idle_poll task len s2 in
  let n := Z.of_nat (bytes es) in
  if (len <=? n) || (0 <? idles es)%nat
  then task ∈ ws ∧ r2 = Ready (Z.min len n) ∧ rx_stream s3 = Some tt ∧ usart s3 = Some tt
  else ws = [] ∧ r2 = Pending.
Proof.
  intros Ht Hl Hr Hu. destruct (idle_begin_spec len s Hr Hu) as (s0 & -> & Hb & Ha & Hi).
  exists s0. split; [done|].
  assert (Hp1 : read_until_idle_poll task len s0 =
    (Pending, set_us (future_ctx task (us s0)) (set_rx (future_ctx task (rx s0)) s0))).
  { unfold read_until_idle_poll. cbn [rx us set_rx set_us].
    rewrite (future_check_either tc false _ (future_ctx_either tc false task _ (proj1 Hb))).
    by rewrite (future_check_either usart_asserted false _ (future_ctx_either usart_asserted false task _ Ha)). }
  rewrite Hp1. split; [done|].
  pose proof (hw_run_split es (set_us (future_ctx task (us s0)) (set_rx (future_ctx task (rx s0)) s0))) as H.
  pose proof (begun_bytes task len (rx s0) (bytes es) Ht Hl Hb) as Hx.
  pose proof (armed_idles task (us s0) (idles es) Ht Ha Hi) as Hy.
  cbn [rx us set_us set_rx] in H. revert H Hx Hy. destruct (hw_run es _) as [ws s2].
  destruct (changes tc _ _) as [w1 x]. destruct (changes usart_asserted _ _) as [w2 y].
  intros (E1 & E2 & Hw) (Cx & -> & Nx) (Cy & ->). unfold read_until_idle_poll. cbn [rx us set_rx set_us].
  rewrite E1, E2, Cx, Cy.
  destruct (Z.leb_spec len (Z.of_nat (bytes es))), (Nat.ltb_spec 0 (idles es)); cbn [orb];
    cbn [rx us set_rx set_us replace_rx rx_stream usart]; unfold upd;
    rewrite ?changes_dev; cbn [after foldl transfer_free ndtr future_drop dev set_line future_ctx];
    rewrite ?Nx.
  1-3: split; [apply Hw; set_solver|split; [f_equal; lia|done]].
  split; [|done]. apply elem_of_nil_inv. intros t Hin. apply Hw in Hin. set_solver.
Qed.

(** [read] and [write] are pending until the transfer is complete; then the task has been
    woken, the next poll is ready and the driver has its parts again.  But the future of
    any of the three that is dropped while it is pending keeps them: every later call
    on what it took panics at its first poll. *)
Theorem serial_drop_loses_parts task len len' s es : task ≠ 0 → 0 < len →
  rx_stream s = Some tt → usart s = Some tt →
  ∃ s0, read_begin len s = Done s0 ∧
  let '(r1, s1) := read_poll task s0 in r1 = Pending ∧
  (let '(ws, s2) := hw_run es s1 in
   let '(r2, s3) := read_poll task s2 in
   if len <=? Z.of_nat (bytes es)
   then task ∈ ws ∧ r2 = Ready tt ∧ rx_stream s3 = Some tt ∧ usart s3 = Some tt
   else r2 = Pending) ∧
  let s4 := read_drop (snd (hw_run es s1)) in
  read_begin len' s4 = Panic ∧ write_begin len' s4 = Panic ∧ read_until_idle_begin len' s4 = Panic.
Proof.
  intros Ht Hl Hr Hu. unfold read_begin at 1, take_rx. rewrite Hr, Hu. cbn [mbind outcome_bind expect].
  eexists. split; [done|]. set (s0 := set_rx _ _).
  assert (Hb : begun len (rx s0)) by apply begin_spec.
  assert (Hp1 : read_poll task s0 = (Pending, set_rx (future_ctx task (rx s0)) s0)).
  { unfold read_poll. by rewrite (future_check_either tc false _ (future_ctx_either tc false task _ (proj1 Hb))). }
  rewrite Hp1. split; [done|].
  assert (Hopt : ∀ es s, rx_stream s = None → usart s = None →
    rx_stream (snd (hw_run es s)) = None ∧ usart (snd (hw_run es s)) = None).
  { clear. induction es as [|e es IH]; intros s H1 H2; [done|]. cbn [hw_run].
    destruct e; [destruct (changes tc _ _) as [w x]|destruct (changes usart_asserted _ _) as [w x]];
      [specialize (IH (set_rx x s) H1 H2)|specialize (IH (set_us x s) H1 H2)];
      by destruct (hw_run es _). }
  destruct (Hopt es (set_rx (future_ctx task (rx s0)) s0) eq_refl eq_refl) as [O1 O2].
  split.
  - pose proof (hw_run_split es (set_rx (future_ctx task (rx s0)) s0)) as H.
    pose proof (begun_bytes task len (rx s0) (bytes es) Ht Hl Hb) as Hx.
    cbn [rx us set_us set_rx] in H. revert H Hx. destruct (hw_run es _) as [ws s2].
    destruct (changes tc _ _) as [w1 x]. destruct (changes usart_asserted _ _) as [w2 y].
    intros (E1 & E2 & Hw) (Cx & -> & Nx). unfold read_poll. rewrite E1, Cx.
    destruct (len <=? _); [|done]. split; [apply Hw; set_solver|done].
  - cbv zeta. unfold read_begin, write_begin, read_until_idle_begin.
    by rewrite (proj1 (take_None _ O2)), (proj2 (take_None _ O2)).
Qed.

(** ** Witnesses *)
Definition Serial_reset : Serial :=
  Serial_new (mkStream false 0 false) (mkStream false 0 false) (mkUsart false false)
    Irq_new Irq_new Irq_new.

Lemma serial_read_until_idle_witness :
  ∃ s0, read_until_idle_begin 8 Serial_reset = Done (8, s0) ∧
    fst (read_until_idle_poll 64 8 (snd (hw_run [EByte; EByte; EIdle]
      (snd (read_until_idle_poll 64 8 s0))))) = Ready 2.
Proof.
  destruct (serial_read_until_idle 64 8 Serial_reset [EByte; EByte; EIdle] ltac:(lia) ltac:(lia)
    eq_refl eq_refl) as (s0 & E & H). exists s0. split; [exact E|].
  destruct (read_until_idle_poll 64 8 s0) as [r1 s1]. destruct H as [_ H]. cbn [snd].
  destruct (hw_run _ s1) as [ws s2]. cbn [snd]. destruct (read_until_idle_poll 64 8 s2) as [r2 s3].
  exact (proj1 (proj2 H)).
Defined.

Lemma serial_drop_loses_parts_witness :
  ∃ s0, read_begin 8 Serial_reset = Done s0 ∧
    read_begin 4 (read_drop (snd (read_poll 64 s0))) = Panic.
Proof.
  destruct (serial_drop_loses_parts 64 8 4 Serial_reset [] ltac:(lia) ltac:(lia)
    eq_refl eq_refl) as (s0 & E & H). exists s0. split; [exact E|].
  destruct (read_poll 64 s0) as [r1 s1]. exact (proj1 (proj2 (proj2 H))).
Defined.
