(* ===== verification/Stm32Tables.v ===== *)
(** * Stm32Tables: what the chips of embassy-stm32 have

    Which interrupts and pins each chip has: the
    declarations of src/embassy-stm32/src/interrupt.rs and the tables of exti.rs,
    can.rs, f4/serial.rs and rtc.rs, each with the chips (the features of the crate)
    it is compiled for.  A table names an interrupt as [interrupt::X]; the crate
    compiles for a chip only if [declare!(X)] is there.  The theorems compare the two
    and check the pin tables against the lines of the interrupt controller. *)
From S2P Require Import Prelude.
From stdpp Require Import strings.
Local Open Scope string_scope.

(** The features of the crate that select a chip. *)
Inductive Chip : Set :=
| F401 | F405 | F407 | F410 | F411 | F412 | F413 | F415 | F417 | F423 | F427 | F429 | F437 | F439 | F446 |
  F469 | F479 | L0x1 | L0x2 | L0x3.
#[export] Instance Chip_eq_dec : EqDecision Chip.
Proof. solve_decision. Defined.

(** The two lists of features the [cfg(any(...))] attributes repeat. *)
Definition f4 : list Chip :=
  [F401; F405; F407; F410; F411; F412; F413; F415; F417; F423; F427; F429; F437; F439; F446;
   F469; F479].
Definition l0 : list Chip := [L0x1; L0x2; L0x3].
Definition all_chips : list Chip := f4 ++ l0.

(** ** [declare!] of interrupt.rs, one module [irqs] per chip *)

Definition irqs_F401 : list string :=
  ["PVD"; "TAMP_STAMP"; "RTC_WKUP"; "FLASH"; "RCC"; "EXTI0"; "EXTI1"; "EXTI2"; "EXTI3";
   "EXTI4"; "DMA1_STREAM0"; "DMA1_STREAM1"; "DMA1_STREAM2"; "DMA1_STREAM3"; "DMA1_STREAM4";
   "DMA1_STREAM5"; "DMA1_STREAM6"; "ADC"; "EXTI9_5"; "TIM1_BRK_TIM9"; "TIM1_UP_TIM10";
   "TIM1_TRG_COM_TIM11"; "TIM1_CC"; "TIM2"; "TIM3"; "TIM4"; "I2C1_EV"; "I2C1_ER"; "I2C2_EV";
   "I2C2_ER"; "SPI1"; "SPI2"; "USART1"; "USART2"; "EXTI15_10"; "RTC_ALARM"; "OTG_FS_WKUP";
   "DMA1_STREAM7"; "SDIO"; "TIM5"; "SPI3"; "DMA2_STREAM0"; "DMA2_STREAM1"; "DMA2_STREAM2";
   "DMA2_STREAM3"; "DMA2_STREAM4"; "OTG_FS"; "DMA2_STREAM5"; "DMA2_STREAM6"; "DMA2_STREAM7";
   "USART6"; "I2C3_EV"; "I2C3_ER"; "FPU"; "SPI4"].
Definition irqs_F405 : list string :=
  ["WWDG"; "PVD"; "TAMP_STAMP"; "RTC_WKUP"; "RCC"; "EXTI0"; "EXTI1"; "EXTI2"; "EXTI3"; "EXTI4";
   "DMA1_STREAM0"; "DMA1_STREAM1"; "DMA1_STREAM2"; "DMA1_STREAM3"; "DMA1_STREAM4";
   "DMA1_STREAM5"; "DMA1_STREAM6"; "ADC"; "CAN1_TX"; "CAN1_RX0"; "CAN1_RX1"; "CAN1_SCE";
   "EXTI9_5"; "TIM1_BRK_TIM9"; "TIM1_UP_TIM10"; "TIM1_TRG_COM_TIM11"; "TIM1_CC"; "TIM2";
   "TIM3"; "TIM4"; "I2C1_EV"; "I2C1_ER"; "I2C2_EV"; "I2C2_ER"; "SPI1"; "SPI2"; "USART1";
   "USART2"; "USART3"; "EXTI15_10"; "RTC_ALARM"; "OTG_FS_WKUP"; "TIM8_BRK_TIM12";
   "TIM8_UP_TIM13"; "TIM8_TRG_COM_TIM14"; "TIM8_CC"; "DMA1_STREAM7"; "SDIO"; "TIM5"; "SPI3";
   "UART4"; "UART5"; "TIM6_DAC"; "TIM7"; "DMA2_STREAM0"; "DMA2_STREAM1"; "DMA2_STREAM2";
   "DMA2_STREAM3"; "DMA2_STREAM4"; "ETH"; "ETH_WKUP"; "CAN2_TX"; "CAN2_RX0"; "CAN2_RX1";
   "CAN2_SCE"; "OTG_FS"; "DMA2_STREAM5"; "DMA2_STREAM6"; "DMA2_STREAM7"; "USART6"; "I2C3_EV";
   "I2C3_ER"; "OTG_HS_EP1_OUT"; "OTG_HS_EP1_IN"; "OTG_HS_WKUP"; "OTG_HS"; "DCMI"; "CRYP";
   "HASH_RNG"; "FPU"].
Definition irqs_F407 : list string :=
  ["WWDG"; "PVD"; "TAMP_STAMP"; "RTC_WKUP"; "RCC"; "EXTI0"; "EXTI1"; "EXTI2"; "EXTI3"; "EXTI4";
   "DMA1_STREAM0"; "DMA1_STREAM1"; "DMA1_STREAM2"; "DMA1_STREAM3"; "DMA1_STREAM4";
   "DMA1_STREAM5"; "DMA1_STREAM6"; "ADC"; "CAN1_TX"; "CAN1_RX0"; "CAN1_RX1"; "CAN1_SCE";
   "EXTI9_5"; "TIM1_BRK_TIM9"; "TIM1_UP_TIM10"; "TIM1_TRG_COM_TIM11"; "TIM1_CC"; "TIM2";
   "TIM3"; "TIM4"; "I2C1_EV"; "I2C1_ER"; "I2C2_EV"; "I2C2_ER"; "SPI1"; "SPI2"; "USART1";
   "USART2"; "USART3"; "EXTI15_10"; "RTC_ALARM"; "OTG_FS_WKUP"; "TIM8_BRK_TIM12";
   "TIM8_UP_TIM13"; "TIM8_TRG_COM_TIM14"; "TIM8_CC"; "DMA1_STREAM7"; "FSMC"; "SDIO"; "TIM5";
   "SPI3"; "UART4"; "UART5"; "TIM6_DAC"; "TIM7"; "DMA2_STREAM0"; "DMA2_STREAM1";
   "DMA2_STREAM2"; "DMA2_STREAM3"; "DMA2_STREAM4"; "ETH"; "ETH_WKUP"; "CAN2_TX"; "CAN2_RX0";
   "CAN2_RX1"; "CAN2_SCE"; "OTG_FS"; "DMA2_STREAM5"; "DMA2_STREAM6"; "DMA2_STREAM7"; "USART6";
   "I2C3_EV"; "I2C3_ER"; "OTG_HS_EP1_OUT"; "OTG_HS_EP1_IN"; "OTG_HS_WKUP"; "OTG_HS"; "DCMI";
   "CRYP"; "HASH_RNG"; "FPU"; "LCD_TFT"; "LCD_TFT_1"].
Definition irqs_F410 : list string :=
  ["WWDG"; "PVD"; "TAMP_STAMP"; "RTC_WKUP"; "FLASH"; "RCC"; "EXTI0"; "EXTI1"; "EXTI2"; "EXTI3";
   "EXTI4"; "DMA1_STREAM0"; "DMA1_STREAM1"; "DMA1_STREAM2"; "DMA1_STREAM3"; "DMA1_STREAM4";
   "DMA1_STREAM5"; "DMA1_STREAM6"; "ADC"; "EXTI9_5"; "TIM1_BRK_TIM9"; "PWM1_UP";
   "TIM1_TRG_COM_TIM11"; "TIM1_CC"; "I2C1_EV"; "I2C1_ER"; "I2C2_EV"; "I2C2_ER"; "SPI1"; "SPI2";
   "USART1"; "USART2"; "EXTI15_10"; "RTC_ALARM"; "DMA1_STREAM7"; "TIM5"; "TIM6_DAC1";
   "DMA2_STREAM0"; "DMA2_STREAM1"; "DMA2_STREAM2"; "DMA2_STREAM3"; "DMA2_STREAM4"; "EXTI19";
   "DMA2_STREAM5"; "DMA2_STREAM6"; "DMA2_STREAM7"; "USART6"; "EXTI20"; "RNG"; "FPU"; "SPI5";
   "I2C4_EV"; "I2C4_ER"; "LPTIM1"].
Definition irqs_F411 : list string :=
  ["WWDG"; "PVD"; "TAMP_STAMP"; "RTC_WKUP"; "FLASH"; "RCC"; "EXTI0"; "EXTI1"; "EXTI2"; "EXTI3";
   "EXTI4"; "DMA1_STREAM0"; "DMA1_STREAM1"; "DMA1_STREAM2"; "DMA1_STREAM3"; "DMA1_STREAM4";
   "DMA1_STREAM5"; "DMA1_STREAM6"; "ADC"; "EXTI9_5"; "TIM1_BRK_TIM9"; "TIM1_UP_TIM10";
   "TIM1_TRG_COM_TIM11"; "TIM1_CC"; "TIM2"; "TIM3"; "TIM4"; "I2C1_EV"; "I2C1_ER"; "I2C2_EV";
   "I2C2_ER"; "SPI1"; "SPI2"; "USART1"; "USART2"; "EXTI15_10"; "RTC_ALARM"; "OTG_FS_WKUP";
   "DMA1_STREAM7"; "SDIO"; "TIM5"; "SPI3"; "DMA2_STREAM0"; "DMA2_STREAM1"; "DMA2_STREAM2";
   "DMA2_STREAM3"; "DMA2_STREAM4"; "OTG_FS"; "DMA2_STREAM5"; "DMA2_STREAM6"; "DMA2_STREAM7";
   "USART6"; "I2C3_EV"; "I2C3_ER"; "FPU"; "SPI4"; "SPI5"].
Definition irqs_F412 : list string :=
  ["WWDG"; "PVD"; "TAMP_STAMP"; "RTC_WKUP"; "FLASH"; "RCC"; "EXTI0"; "EXTI1"; "EXTI2"; "EXTI3";
   "EXTI4"; "DMA1_STREAM0"; "DMA1_STREAM1"; "DMA1_STREAM2"; "DMA1_STREAM3"; "DMA1_STREAM4";
   "DMA1_STREAM5"; "DMA1_STREAM6"; "ADC"; "CAN1_TX"; "CAN1_RX0"; "CAN1_RX1"; "CAN1_SCE";
   "EXTI9_5"; "TIM1_BRK_TIM9"; "TIM1_UP_TIM10"; "TIM1_TRG_COM_TIM11"; "TIM1_CC"; "TIM2";
   "TIM3"; "TIM4"; "I2C1_EV"; "I2C1_ER"; "I2C2_EV"; "I2C2_ER"; "SPI1"; "SPI2"; "USART1";
   "USART2"; "USART3"; "EXTI15_10"; "RTC_ALARM"; "OTG_FS_WKUP"; "TIM12"; "TIM13"; "TIM14";
   "TIM8_CC"; "DMA1_STREAM7"; "FSMC"; "SDIO"; "TIM5"; "SPI3"; "TIM6_DACUNDER"; "TIM7";
   "DMA2_STREAM0"; "DMA2_STREAM1"; "DMA2_STREAM2"; "DMA2_STREAM3"; "DMA2_STREAM4";
   "DFSDM1_FLT0"; "DFSDM1_FLT1"; "CAN2_TX"; "CAN2_RX0"; "CAN2_RX1"; "CAN2_SCE"; "OTG_FS";
   "DMA2_STREAM5"; "DMA2_STREAM6"; "DMA2_STREAM7"; "USART6"; "I2C3_EV"; "I2C3_ER"; "HASH_RNG";
   "FPU"; "SPI4"; "SPI5"; "QUAD_SPI"; "I2CFMP1_EVENT"; "I2CFMP1_ERROR"].
Definition irqs_F413 : list string :=
  ["PVD"; "TAMP_STAMP"; "RTC_WKUP"; "FLASH"; "RCC"; "EXTI0"; "EXTI1"; "EXTI2"; "EXTI3";
   "EXTI4"; "DMA1_STREAM0"; "DMA1_STREAM1"; "DMA1_STREAM2"; "DMA1_STREAM3"; "DMA1_STREAM4";
   "DMA1_STREAM5"; "DMA1_STREAM6"; "ADC"; "CAN1_TX"; "CAN1_RX0"; "CAN1_RX1"; "CAN1_SCE";
   "EXTI9_5"; "TIM1_BRK_TIM9"; "TIM1_UP_TIM10"; "TIM1_TRG_COM_TIM11"; "TIM1_CC"; "TIM2";
   "TIM3"; "TIM4"; "I2C1_EVT"; "I2C1_ERR"; "I2C2_EVT"; "I2C2_ERR"; "SPI1"; "SPI2"; "USART1";
   "USART2"; "USART3"; "EXTI15_10"; "EXTI17_RTC_ALARM"; "TIM8_BRK_TIM12"; "TIM8_UP_TIM13";
   "TIM8_TRG_COM_TIM14"; "TIM8_CC"; "DMA1_STREAM7"; "FSMC"; "SDIO"; "TIM5"; "SPI3"; "USART4";
   "UART5"; "TIM6_GLB_IT_DAC1_DAC2"; "TIM7"; "DMA2_STREAM0"; "DMA2_STREAM1"; "DMA2_STREAM2";
   "DMA2_STREAM3"; "DMA2_STREAM4"; "DFSDM1_FLT0"; "DFSDM1_FLT1"; "CAN2_TX"; "CAN2_RX0";
   "CAN2_RX1"; "CAN2_SCE"; "OTG_FS"; "DMA2_STREAM5"; "DMA2_STREAM6"; "DMA2_STREAM7"; "USART6";
   "I2C3_EV"; "I2C3_ER"; "CAN3_TX"; "CAN3_RX0"; "CAN3_RX1"; "CAN3_SCE"; "CRYPTO"; "RNG"; "FPU";
   "USART7"; "USART8"; "SPI4"; "SPI5"; "SAI1"; "UART9"; "UART10"; "QUADSPI"; "I2CFMP1EVENT";
   "I2CFMP1ERROR"; "LPTIM1_OR_IT_EIT_23"; "DFSDM2_FILTER1"; "DFSDM2_FILTER2"; "DFSDM2_FILTER3";
   "DFSDM2_FILTER4"].
Definition irqs_F427 : list string :=
  ["WWDG"; "PVD"; "TAMP_STAMP"; "RTC_WKUP"; "FLASH"; "RCC"; "EXTI0"; "EXTI1"; "EXTI2"; "EXTI3";
   "EXTI4"; "DMA1_STREAM0"; "DMA1_STREAM1"; "DMA1_STREAM2"; "DMA1_STREAM3"; "DMA1_STREAM4";
   "DMA1_STREAM5"; "DMA1_STREAM6"; "ADC"; "CAN1_TX"; "CAN1_RX0"; "CAN1_RX1"; "CAN1_SCE";
   "EXTI9_5"; "TIM1_BRK_TIM9"; "TIM1_UP_TIM10"; "TIM1_TRG_COM_TIM11"; "TIM1_CC"; "TIM2";
   "TIM3"; "TIM4"; "I2C1_EV"; "I2C1_ER"; "I2C2_EV"; "I2C2_ER"; "SPI1"; "SPI2"; "USART1";
   "USART2"; "USART3"; "EXTI15_10"; "RTC_ALARM"; "OTG_FS_WKUP"; "TIM8_BRK_TIM12";
   "TIM8_UP_TIM13"; "TIM8_TRG_COM_TIM14"; "TIM8_CC"; "DMA1_STREAM7"; "FMC"; "SDIO"; "TIM5";
   "SPI3"; "UART4"; "UART5"; "TIM6_DAC"; "TIM7"; "DMA2_STREAM0"; "DMA2_STREAM1";
   "DMA2_STREAM2"; "DMA2_STREAM3"; "DMA2_STREAM4"; "ETH"; "ETH_WKUP"; "CAN2_TX"; "CAN2_RX0";
   "CAN2_RX1"; "CAN2_SCE"; "OTG_FS"; "DMA2_STREAM5"; "DMA2_STREAM6"; "DMA2_STREAM7"; "USART6";
   "I2C3_EV"; "I2C3_ER"; "OTG_HS_EP1_OUT"; "OTG_HS_EP1_IN"; "OTG_HS_WKUP"; "OTG_HS"; "DCMI";
   "CRYP"; "HASH_RNG"; "FPU"; "UART7"; "UART8"; "SPI4"; "SPI5"; "SPI6"; "LCD_TFT"; "LCD_TFT_1"].
Definition irqs_F429 : list string :=
  ["WWDG"; "PVD"; "TAMP_STAMP"; "RTC_WKUP"; "FLASH"; "RCC"; "EXTI0"; "EXTI1"; "EXTI2"; "EXTI3";
   "EXTI4"; "DMA1_STREAM0"; "DMA1_STREAM1"; "DMA1_STREAM2"; "DMA1_STREAM3"; "DMA1_STREAM4";
   "DMA1_STREAM5"; "DMA1_STREAM6"; "ADC"; "CAN1_TX"; "CAN1_RX0"; "CAN1_RX1"; "CAN1_SCE";
   "EXTI9_5"; "TIM1_BRK_TIM9"; "TIM1_UP_TIM10"; "TIM1_TRG_COM_TIM11"; "TIM1_CC"; "TIM2";
   "TIM3"; "TIM4"; "I2C1_EV"; "I2C1_ER"; "I2C2_EV"; "I2C2_ER"; "SPI1"; "SPI2"; "USART1";
   "USART2"; "USART3"; "EXTI15_10"; "RTC_ALARM"; "OTG_FS_WKUP"; "TIM8_BRK_TIM12";
   "TIM8_UP_TIM13"; "TIM8_TRG_COM_TIM14"; "TIM8_CC"; "DMA1_STREAM7"; "FMC"; "SDIO"; "TIM5";
   "SPI3"; "UART4"; "UART5"; "TIM6_DAC"; "TIM7"; "DMA2_STREAM0"; "DMA2_STREAM1";
   "DMA2_STREAM2"; "DMA2_STREAM3"; "DMA2_STREAM4"; "ETH"; "ETH_WKUP"; "CAN2_TX"; "CAN2_RX0";
   "CAN2_RX1"; "CAN2_SCE"; "OTG_FS"; "DMA2_STREAM5"; "DMA2_STREAM6"; "DMA2_STREAM7"; "USART6";
   "I2C3_EV"; "I2C3_ER"; "OTG_HS_EP1_OUT"; "OTG_HS_EP1_IN"; "OTG_HS_WKUP"; "OTG_HS"; "DCMI";
   "CRYP"; "HASH_RNG"; "FPU"; "UART7"; "UART8"; "SPI4"; "SPI5"; "SPI6"; "SAI1"; "LCD_TFT";
   "LCD_TFT_1"; "DMA2D"].
Definition irqs_F446 : list string :=
  ["WWDG"; "TAMP_STAMP"; "RTC_WKUP"; "FLASH"; "RCC"; "EXTI0"; "EXTI1"; "EXTI2"; "EXTI3";
   "EXTI4"; "DMA1_STREAM0"; "DMA1_STREAM1"; "DMA1_STREAM2"; "DMA1_STREAM3"; "DMA1_STREAM4";
   "DMA1_STREAM5"; "DMA1_STREAM6"; "ADC"; "CAN1_TX"; "CAN1_RX0"; "CAN1_RX1"; "CAN1_SCE";
   "EXTI9_5"; "TIM1_BRK_TIM9"; "TIM1_UP_TIM10"; "TIM1_TRG_COM_TIM11"; "TIM1_CC"; "TIM2";
   "TIM3"; "TIM4"; "I2C1_EV"; "I2C1_ER"; "I2C2_EV"; "I2C2_ER"; "SPI1"; "SPI2"; "USART1";
   "USART2"; "USART3"; "EXTI15_10"; "RTC_ALARM"; "OTG_FS_WKUP"; "TIM8_BRK_TIM12";
   "TIM8_UP_TIM13"; "TIM8_TRG_COM_TIM14"; "TIM8_CC"; "DMA1_STREAM7"; "FMC"; "TIM5"; "SPI3";
   "UART4"; "UART5"; "TIM6_DAC"; "TIM7"; "DMA2_STREAM0"; "DMA2_STREAM1"; "DMA2_STREAM2";
   "DMA2_STREAM3"; "DMA2_STREAM4"; "ETH"; "ETH_WKUP"; "CAN2_TX"; "CAN2_RX0"; "CAN2_RX1";
   "CAN2_SCE"; "OTG_FS"; "DMA2_STREAM5"; "DMA2_STREAM6"; "DMA2_STREAM7"; "USART6"; "I2C3_EV";
   "I2C3_ER"; "DCMI"; "FPU"; "UART7"; "UART8"; "SPI4"; "LCD_TFT"; "LCD_TFT_1"].
Definition irqs_F469 : list string :=
  ["WWDG"; "PVD"; "TAMP_STAMP"; "RTC_WKUP"; "FLASH"; "RCC"; "EXTI0"; "EXTI1"; "EXTI2"; "EXTI3";
   "EXTI4"; "DMA1_STREAM0"; "DMA1_STREAM1"; "DMA1_STREAM2"; "DMA1_STREAM3"; "DMA1_STREAM4";
   "DMA1_STREAM5"; "DMA1_STREAM6"; "ADC"; "CAN1_TX"; "CAN1_RX0"; "CAN1_RX1"; "CAN1_SCE";
   "EXTI9_5"; "TIM1_BRK_TIM9"; "TIM1_UP_TIM10"; "TIM1_TRG_COM_TIM11"; "TIM1_CC"; "TIM2";
   "TIM3"; "TIM4"; "I2C1_EV"; "I2C1_ER"; "I2C2_EV"; "I2C2_ER"; "SPI1"; "SPI2"; "USART1";
   "USART2"; "USART3"; "EXTI15_10"; "RTC_ALARM"; "OTG_FS_WKUP"; "TIM8_BRK_TIM12";
   "TIM8_UP_TIM13"; "TIM8_TRG_COM_TIM14"; "TIM8_CC"; "DMA1_STREAM7"; "FMC"; "SDIO"; "TIM5";
   "SPI3"; "UART4"; "UART5"; "TIM6_DAC"; "TIM7"; "DMA2_STREAM0"; "DMA2_STREAM1";
   "DMA2_STREAM2"; "DMA2_STREAM3"; "DMA2_STREAM4"; "ETH"; "ETH_WKUP"; "CAN2_TX"; "CAN2_RX0";
   "CAN2_RX1"; "CAN2_SCE"; "OTG_FS"; "DMA2_STREAM5"; "DMA2_STREAM6"; "DMA2_STREAM7"; "USART6";
   "I2C3_EV"; "I2C3_ER"; "OTG_HS_EP1_OUT"; "OTG_HS_EP1_IN"; "OTG_HS_WKUP"; "OTG_HS"; "DCMI";
   "CRYP"; "HASH_RNG"; "FPU"; "UART7"; "UART8"; "SPI4"; "SPI5"; "SPI6"; "SAI1"; "LCD_TFT";
   "LCD_TFT_1"; "DMA2D"; "QUADSPI"; "DSIHOST"].
Definition irqs_L0x1 : list string :=
  ["WWDG"; "PVD"; "RTC"; "FLASH"; "RCC"; "EXTI0_1"; "EXTI2_3"; "EXTI4_15"; "DMA1_CHANNEL1";
   "DMA1_CHANNEL2_3"; "DMA1_CHANNEL4_7"; "ADC_COMP"; "LPTIM1"; "USART4_USART5"; "TIM2"; "TIM3";
   "TIM6"; "TIM7"; "TIM21"; "I2C3"; "TIM22"; "I2C1"; "I2C2"; "SPI1"; "SPI2"; "USART1";
   "USART2"; "AES_RNG_LPUART1"].
Definition irqs_L0x2 : list string :=
  ["WWDG"; "PVD"; "RTC"; "RCC"; "EXTI0_1"; "EXTI2_3"; "EXTI4_15"; "TSC"; "DMA1_CHANNEL1";
   "DMA1_CHANNEL2_3"; "DMA1_CHANNEL4_7"; "ADC_COMP"; "LPTIM1"; "USART4_USART5"; "TIM2"; "TIM3";
   "TIM6_DAC"; "TIM7"; "TIM21"; "I2C3"; "TIM22"; "I2C1"; "I2C2"; "SPI1"; "SPI2"; "USART1";
   "USART2"; "AES_RNG_LPUART1"; "USB"].
Definition irqs_L0x3 : list string :=
  ["WWDG"; "PVD"; "RTC"; "RCC"; "EXTI0_1"; "EXTI2_3"; "EXTI4_15"; "TSC"; "DMA1_CHANNEL1";
   "DMA1_CHANNEL2_3"; "DMA1_CHANNEL4_7"; "ADC_COMP"; "LPTIM1"; "USART4_USART5"; "TIM2"; "TIM3";
   "TIM6_DAC"; "TIM7"; "TIM21"; "I2C3"; "TIM22"; "I2C1"; "I2C2"; "SPI1"; "SPI2"; "USART1";
   "USART2"; "AES_RNG_LPUART1"; "LCD"; "USB"].

(** The module [irqs] of a chip, if it has one. *)
Definition irqs (c : Chip) : option (list string) :=
  match c with
  | F401 => Some irqs_F401
  | F405 => Some irqs_F405
  | F407 => Some irqs_F407
  | F410 => Some irqs_F410
  | F411 => Some irqs_F411
  | F412 => Some irqs_F412
  | F413 => Some irqs_F413
  | F427 => Some irqs_F427
  | F429 => Some irqs_F429
  | F446 => Some irqs_F446
  | F469 => Some irqs_F469
  | L0x1 => Some irqs_L0x1
  | L0x2 => Some irqs_L0x2
  | L0x3 => Some irqs_L0x3
  | _ => None
  end.
Definition declared (c : Chip) : list string := default [] (irqs c).

(** ** [exti!]: the interrupt of each pin

    A block is compiled for the chips of its attribute; an entry [INT => PIN] gives the
    pin the type [interrupt::INT]. *)
Record Pin : Set := mkPin { pin_port : string; pin_number : nat }.
#[export] Instance Pin_eq_dec : EqDecision Pin.
Proof. solve_decision. Defined.

Record Exti : Set := mkExti { set : string; chips : list Chip; entries : list (string * Pin) }.
#[local] Notation "i ⇒ p" := (i, p) (at level 60, no associativity).

#[local] Abbreviation PA := (mkPin "A").
#[local] Abbreviation PB := (mkPin "B").
#[local] Abbreviation PC := (mkPin "C").
#[local] Abbreviation PD := (mkPin "D").
#[local] Abbreviation PE := (mkPin "E").
#[local] Abbreviation PF := (mkPin "F").
#[local] Abbreviation PG := (mkPin "G").
#[local] Abbreviation PH := (mkPin "H").
#[local] Abbreviation PI := (mkPin "I").
#[local] Abbreviation PJ := (mkPin "J").
#[local] Abbreviation PK := (mkPin "K").

Definition exti_gpioa : Exti := mkExti "gpioa" f4
  ["EXTI0" ⇒ PA 0; "EXTI1" ⇒ PA 1; "EXTI2" ⇒ PA 2; "EXTI3" ⇒ PA 3; "EXTI4" ⇒ PA 4;
   "EXTI9_5" ⇒ PA 5; "EXTI9_5" ⇒ PA 6; "EXTI9_5" ⇒ PA 7; "EXTI9_5" ⇒ PA 8; "EXTI9_5" ⇒ PA 9;
   "EXTI15_10" ⇒ PA 10; "EXTI15_10" ⇒ PA 11; "EXTI15_10" ⇒ PA 12; "EXTI15_10" ⇒ PA 13;
   "EXTI15_10" ⇒ PA 14; "EXTI15_10" ⇒ PA 15].
Definition exti_gpiob : Exti := mkExti "gpiob" f4
  ["EXTI0" ⇒ PB 0; "EXTI1" ⇒ PB 1; "EXTI2" ⇒ PB 2; "EXTI3" ⇒ PB 3; "EXTI4" ⇒ PB 4;
   "EXTI9_5" ⇒ PB 5; "EXTI9_5" ⇒ PB 6; "EXTI9_5" ⇒ PB 7; "EXTI9_5" ⇒ PB 8; "EXTI9_5" ⇒ PB 9;
   "EXTI15_10" ⇒ PB 10; "EXTI15_10" ⇒ PB 11; "EXTI15_10" ⇒ PB 12; "EXTI15_10" ⇒ PB 13;
   "EXTI15_10" ⇒ PB 14; "EXTI15_10" ⇒ PB 15].
Definition exti_gpioc : Exti := mkExti "gpioc" f4
  ["EXTI0" ⇒ PC 0; "EXTI1" ⇒ PC 1; "EXTI2" ⇒ PC 2; "EXTI3" ⇒ PC 3; "EXTI4" ⇒ PC 4;
   "EXTI9_5" ⇒ PC 5; "EXTI9_5" ⇒ PC 6; "EXTI9_5" ⇒ PC 7; "EXTI9_5" ⇒ PC 8; "EXTI9_5" ⇒ PC 9;
   "EXTI15_10" ⇒ PC 10; "EXTI15_10" ⇒ PC 11; "EXTI15_10" ⇒ PC 12; "EXTI15_10" ⇒ PC 13;
   "EXTI15_10" ⇒ PC 14; "EXTI15_10" ⇒ PC 15].
Definition exti_gpiod : Exti := mkExti "gpiod" [F401; F405; F407; F411; F412; F413; F415; F417; F423; F427; F429; F437; F439; F446; F469; F479]
  ["EXTI0" ⇒ PD 0; "EXTI1" ⇒ PD 1; "EXTI2" ⇒ PD 2; "EXTI3" ⇒ PD 3; "EXTI4" ⇒ PD 4;
   "EXTI9_5" ⇒ PD 5; "EXTI9_5" ⇒ PD 6; "EXTI9_5" ⇒ PD 7; "EXTI9_5" ⇒ PD 8; "EXTI9_5" ⇒ PD 9;
   "EXTI15_10" ⇒ PD 10; "EXTI15_10" ⇒ PD 11; "EXTI15_10" ⇒ PD 12; "EXTI15_10" ⇒ PD 13;
   "EXTI15_10" ⇒ PD 14; "EXTI15_10" ⇒ PD 15].
Definition exti_gpioe : Exti := mkExti "gpioe" [F401; F405; F407; F411; F412; F413; F415; F417; F423; F427; F429; F437; F439; F446; F469; F479]
  ["EXTI0" ⇒ PE 0; "EXTI1" ⇒ PE 1; "EXTI2" ⇒ PE 2; "EXTI3" ⇒ PE 3; "EXTI4" ⇒ PE 4;
   "EXTI9_5" ⇒ PE 5; "EXTI9_5" ⇒ PE 6; "EXTI9_5" ⇒ PE 7; "EXTI9_5" ⇒ PE 8; "EXTI9_5" ⇒ PE 9;
   "EXTI15_10" ⇒ PE 10; "EXTI15_10" ⇒ PE 11; "EXTI15_10" ⇒ PE 12; "EXTI15_10" ⇒ PE 13;
   "EXTI15_10" ⇒ PE 14; "EXTI15_10" ⇒ PE 15].
Definition exti_gpiof : Exti := mkExti "gpiof" [F405; F407; F412; F413; F415; F417; F423; F427; F429; F437; F439; F446; F469; F479]
  ["EXTI0" ⇒ PF 0; "EXTI1" ⇒ PF 1; "EXTI2" ⇒ PF 2; "EXTI3" ⇒ PF 3; "EXTI4" ⇒ PF 4;
   "EXTI9_5" ⇒ PF 5; "EXTI9_5" ⇒ PF 6; "EXTI9_5" ⇒ PF 7; "EXTI9_5" ⇒ PF 8; "EXTI9_5" ⇒ PF 9;
   "EXTI15_10" ⇒ PF 10; "EXTI15_10" ⇒ PF 11; "EXTI15_10" ⇒ PF 12; "EXTI15_10" ⇒ PF 13;
   "EXTI15_10" ⇒ PF 14; "EXTI15_10" ⇒ PF 15].
Definition exti_gpiog : Exti := mkExti "gpiog" [F405; F407; F412; F413; F415; F417; F423; F427; F429; F437; F439; F446; F469; F479]
  ["EXTI0" ⇒ PG 0; "EXTI1" ⇒ PG 1; "EXTI2" ⇒ PG 2; "EXTI3" ⇒ PG 3; "EXTI4" ⇒ PG 4;
   "EXTI9_5" ⇒ PG 5; "EXTI9_5" ⇒ PG 6; "EXTI9_5" ⇒ PG 7; "EXTI9_5" ⇒ PG 8; "EXTI9_5" ⇒ PG 9;
   "EXTI15_10" ⇒ PG 10; "EXTI15_10" ⇒ PG 11; "EXTI15_10" ⇒ PG 12; "EXTI15_10" ⇒ PG 13;
   "EXTI15_10" ⇒ PG 14; "EXTI15_10" ⇒ PG 15].
Definition exti_gpioh : Exti := mkExti "gpioh" [F405; F407; F410; F411; F412; F413; F415; F417; F423; F427; F429; F437; F439; F446; F469; F479]
  ["EXTI0" ⇒ PH 0; "EXTI1" ⇒ PH 1; "EXTI2" ⇒ PH 2; "EXTI3" ⇒ PH 3; "EXTI4" ⇒ PH 4;
   "EXTI9_5" ⇒ PH 5; "EXTI9_5" ⇒ PH 6; "EXTI9_5" ⇒ PH 7; "EXTI9_5" ⇒ PH 8; "EXTI9_5" ⇒ PH 9;
   "EXTI15_10" ⇒ PH 10; "EXTI15_10" ⇒ PH 11; "EXTI15_10" ⇒ PH 12; "EXTI15_10" ⇒ PH 13;
   "EXTI15_10" ⇒ PH 14; "EXTI15_10" ⇒ PH 15].
Definition exti_gpioh_f401 : Exti := mkExti "gpioh" [F401]
  ["EXTI0" ⇒ PH 0; "EXTI1" ⇒ PH 1].
Definition exti_gpioi : Exti := mkExti "gpioi" [F405; F407; F415; F417; F427; F429; F437; F439; F469; F479]
  ["EXTI0" ⇒ PI 0; "EXTI1" ⇒ PI 1; "EXTI2" ⇒ PI 2; "EXTI3" ⇒ PI 3; "EXTI4" ⇒ PI 4;
   "EXTI9_5" ⇒ PI 5; "EXTI9_5" ⇒ PI 6; "EXTI9_5" ⇒ PI 7; "EXTI9_5" ⇒ PI 8; "EXTI9_5" ⇒ PI 9;
   "EXTI15_10" ⇒ PI 10; "EXTI15_10" ⇒ PI 11; "EXTI15_10" ⇒ PI 12; "EXTI15_10" ⇒ PI 13;
   "EXTI15_10" ⇒ PI 14; "EXTI15_10" ⇒ PI 15].
Definition exti_gpioj : Exti := mkExti "gpioj" [F427; F429; F437; F439; F469; F479]
  ["EXTI0" ⇒ PJ 0; "EXTI1" ⇒ PJ 1; "EXTI2" ⇒ PJ 2; "EXTI3" ⇒ PJ 3; "EXTI4" ⇒ PJ 4;
   "EXTI9_5" ⇒ PJ 5; "EXTI9_5" ⇒ PJ 6; "EXTI9_5" ⇒ PJ 7; "EXTI9_5" ⇒ PJ 8; "EXTI9_5" ⇒ PJ 9;
   "EXTI15_10" ⇒ PJ 10; "EXTI15_10" ⇒ PJ 11; "EXTI15_10" ⇒ PJ 12; "EXTI15_10" ⇒ PJ 13;
   "EXTI15_10" ⇒ PJ 14; "EXTI15_10" ⇒ PJ 15].
Definition exti_gpiok : Exti := mkExti "gpiok" [F427; F429; F437; F439; F469; F479]
  ["EXTI0" ⇒ PK 0; "EXTI1" ⇒ PK 1; "EXTI2" ⇒ PK 2; "EXTI3" ⇒ PK 3; "EXTI4" ⇒ PK 4;
   "EXTI9_5" ⇒ PK 5; "EXTI9_5" ⇒ PK 6; "EXTI9_5" ⇒ PK 7].
Definition exti_gpioa_l0 : Exti := mkExti "gpioa" l0
  ["EXTI0_1" ⇒ PA 0; "EXTI0_1" ⇒ PA 1; "EXTI2_3" ⇒ PA 2; "EXTI2_3" ⇒ PA 3; "EXTI4_15" ⇒ PA 4;
   "EXTI4_15" ⇒ PA 5; "EXTI4_15" ⇒ PA 6; "EXTI4_15" ⇒ PA 7; "EXTI4_15" ⇒ PA 8;
   "EXTI4_15" ⇒ PA 9; "EXTI4_15" ⇒ PA 10; "EXTI4_15" ⇒ PA 11; "EXTI4_15" ⇒ PA 12;
   "EXTI4_15" ⇒ PA 13; "EXTI4_15" ⇒ PA 14; "EXTI4_15" ⇒ PA 15].
Definition exti_gpiob_l0 : Exti := mkExti "gpiob" l0
  ["EXTI0_1" ⇒ PB 0; "EXTI0_1" ⇒ PB 1; "EXTI2_3" ⇒ PB 2; "EXTI2_3" ⇒ PB 3; "EXTI4_15" ⇒ PB 4;
   "EXTI4_15" ⇒ PB 5; "EXTI4_15" ⇒ PB 6; "EXTI4_15" ⇒ PB 7; "EXTI4_15" ⇒ PB 8;
   "EXTI4_15" ⇒ PB 9; "EXTI4_15" ⇒ PB 10; "EXTI4_15" ⇒ PB 11; "EXTI4_15" ⇒ PB 12;
   "EXTI4_15" ⇒ PB 13; "EXTI4_15" ⇒ PB 14; "EXTI4_15" ⇒ PB 15].
Definition exti_gpioc_l0 : Exti := mkExti "gpioc" l0
  ["EXTI0_1" ⇒ PC 0; "EXTI0_1" ⇒ PC 1; "EXTI2_3" ⇒ PC 2; "EXTI2_3" ⇒ PC 3; "EXTI4_15" ⇒ PC 4;
   "EXTI4_15" ⇒ PC 5; "EXTI4_15" ⇒ PC 6; "EXTI4_15" ⇒ PC 7; "EXTI4_15" ⇒ PC 8;
   "EXTI4_15" ⇒ PC 9; "EXTI4_15" ⇒ PC 10; "EXTI4_15" ⇒ PC 11; "EXTI4_15" ⇒ PC 12;
   "EXTI4_15" ⇒ PC 13; "EXTI4_15" ⇒ PC 14; "EXTI4_15" ⇒ PC 15].
Definition exti_gpiod_l0 : Exti := mkExti "gpiod" l0
  ["EXTI0_1" ⇒ PD 0; "EXTI0_1" ⇒ PD 1; "EXTI2_3" ⇒ PD 2; "EXTI2_3" ⇒ PD 3; "EXTI4_15" ⇒ PD 4;
   "EXTI4_15" ⇒ PD 5; "EXTI4_15" ⇒ PD 6; "EXTI4_15" ⇒ PD 7; "EXTI4_15" ⇒ PD 8;
   "EXTI4_15" ⇒ PD 9; "EXTI4_15" ⇒ PD 10; "EXTI4_15" ⇒ PD 11; "EXTI4_15" ⇒ PD 12;
   "EXTI4_15" ⇒ PD 13; "EXTI4_15" ⇒ PD 14; "EXTI4_15" ⇒ PD 15].
Definition exti_gpioe_l0 : Exti := mkExti "gpioe" l0
  ["EXTI0_1" ⇒ PE 0; "EXTI0_1" ⇒ PE 1; "EXTI2_3" ⇒ PE 2; "EXTI2_3" ⇒ PE 3; "EXTI4_15" ⇒ PE 4;
   "EXTI4_15" ⇒ PE 5; "EXTI4_15" ⇒ PE 6; "EXTI4_15" ⇒ PE 7; "EXTI4_15" ⇒ PE 8;
   "EXTI4_15" ⇒ PE 9; "EXTI4_15" ⇒ PE 10; "EXTI4_15" ⇒ PE 11; "EXTI4_15" ⇒ PE 12;
   "EXTI4_15" ⇒ PE 13; "EXTI4_15" ⇒ PE 14; "EXTI4_15" ⇒ PE 15].
Definition exti_gpioh_l0 : Exti := mkExti "gpioh" l0
  ["EXTI0_1" ⇒ PH 0; "EXTI0_1" ⇒ PH 1; "EXTI4_15" ⇒ PH 9; "EXTI4_15" ⇒ PH 10].
Definition exti_blocks : list Exti :=
  [exti_gpioa; exti_gpiob; exti_gpioc; exti_gpiod; exti_gpioe; exti_gpiof; exti_gpiog;
   exti_gpioh; exti_gpioh_f401; exti_gpioi; exti_gpioj; exti_gpiok; exti_gpioa_l0;
   exti_gpiob_l0; exti_gpioc_l0; exti_gpiod_l0; exti_gpioe_l0; exti_gpioh_l0].

(** The tables a chip is compiled with. *)
Definition exti_for (c : Chip) : list Exti := filter (λ b, c ∈ chips b) exti_blocks.
Definition exti_table (c : Chip) : list (string * Pin) := exti_for c ≫= entries.

(** ** [dma!], [usart!], [can!], [impl_timer!], [USBInterrupt]

    Which of them a chip is compiled with is said by lib.rs, below. *)
Definition dma : list (string * (string * nat)) :=
  ["DMA2_STREAM0" ⇒ ("DMA2", 0); "DMA2_STREAM1" ⇒ ("DMA2", 1); "DMA2_STREAM2" ⇒ ("DMA2", 2);
   "DMA2_STREAM3" ⇒ ("DMA2", 3); "DMA2_STREAM4" ⇒ ("DMA2", 4); "DMA2_STREAM5" ⇒ ("DMA2", 5);
   "DMA2_STREAM6" ⇒ ("DMA2", 6); "DMA2_STREAM7" ⇒ ("DMA2", 7); "DMA1_STREAM0" ⇒ ("DMA1", 0);
   "DMA1_STREAM1" ⇒ ("DMA1", 1); "DMA1_STREAM2" ⇒ ("DMA1", 2); "DMA1_STREAM3" ⇒ ("DMA1", 3);
   "DMA1_STREAM4" ⇒ ("DMA1", 4); "DMA1_STREAM5" ⇒ ("DMA1", 5); "DMA1_STREAM6" ⇒ ("DMA1", 6)].
Definition usart_F401 : list Chip * list string :=
  ([F401; F410; F411], ["USART1"; "USART2"; "USART6"]).
Definition usart_F405 : list Chip * list string :=
  ([F405; F407], ["USART1"; "USART2"; "USART3"; "USART6"; "UART4"; "UART5"]).
Definition usart_F412 : list Chip * list string :=
  ([F412], ["USART1"; "USART2"; "USART3"; "USART6"]).
Definition usart_F413 : list Chip * list string :=
  ([F413], ["USART1"; "USART2"; "USART3"; "USART6"; "USART7"; "USART8"; "UART5"; "UART9"; "UART10"]).
Definition usart_F427 : list Chip * list string :=
  ([F427; F429; F446; F469], ["USART1"; "USART2"; "USART3"; "USART6"; "UART4"; "UART5"]).
Definition usarts (c : Chip) : list string :=
  filter (λ b, c ∈ b.1) [usart_F401; usart_F405; usart_F412; usart_F413; usart_F427] ≫= snd.

(** The transmit and receive interrupts of a controller. *)
Definition can : list (string * (string * string)) :=
  ["CAN1" ⇒ ("CAN1_TX", "CAN1_RX0"); "CAN2" ⇒ ("CAN2_TX", "CAN2_RX0")].

(** Timer, interrupt, and the chips it is left out for. *)
Definition timers : list (string * string * list Chip) :=
  [("TIM2", "TIM2", [F410]); ("TIM3", "TIM3", [F410]); ("TIM4", "TIM4", [F410]);
   ("TIM5", "TIM5", []); ("TIM9", "TIM1_BRK_TIM9", []);
   ("TIM12", "TIM8_BRK_TIM12", [F401; F410; F411])].
Definition timer_irqs (c : Chip) : list string :=
  (λ t, t.1.2) <$> filter (λ t, c ∉ t.2) timers.

Definition is_f4 (c : Chip) : bool := bool_decide (c ∈ f4).

(** lib.rs: the chips for which stm32f4xx_hal is re-exported as [hal], which every module
    imports from, and those that have can.rs, rtc.rs and the re-export of serial.rs. *)
Definition hal_f4 : list Chip :=
  [F401; F405; F407; F412; F413; F415; F417; F423; F427; F429; F437; F439; F446; F469; F479].
Definition mod_can : list Chip :=
  [F401; F405; F407; F412; F413; F415; F417; F423; F427; F429; F437; F439; F446; F469; F479].
Definition mod_rtc : list Chip :=
  [F401; F405; F407; F412; F413; F415; F417; F423; F427; F429; F437; F439; F446; F469; F479].
Definition use_serial : list Chip :=
  [F401; F405; F407; F412; F413; F415; F417; F423; F427; F429; F437; F439; F446; F469; F479].
Definition has_hal (c : Chip) : bool := bool_decide (c ∈ (hal_f4 ++ l0)%list).

(** Every interrupt the crate names when it is compiled for [c]. *)
Definition used (c : Chip) : list string :=
  (fst <$> exti_table c)
  ++ (if is_f4 c then (fst <$> dma) ++ usarts c ++ ["OTG_FS"] else [])
  ++ (if decide (c ∈ mod_can) then can ≫= λ x, [x.2.1; x.2.2] else [])
  ++ (if decide (c ∈ mod_rtc) then timer_irqs c else []).
Definition missing (c : Chip) : list string := filter (λ i, i ∉ declared c) (used c).

(** ** [std_peripherals!] of lib.rs *)

Definition peripherals_F446 : list string :=
  ["DCMI"; "FMC"; "DBGMCU"; "DMA2"; "DMA1"; "GPIOH"; "GPIOG"; "GPIOF"; "GPIOE"; "GPIOD";
   "GPIOC"; "GPIOB"; "GPIOA"; "SYSCFG"; "SPI1"; "SPI2"; "SPI3"; "SPI4"; "ADC1"; "ADC2"; "ADC3";
   "USART6"; "USART1"; "USART2"; "USART3"; "DAC"; "I2C3"; "I2C2"; "I2C1"; "IWDG"; "WWDG";
   "RTC"; "UART4"; "UART5"; "ADC_COMMON"; "TIM1"; "TIM2"; "TIM8"; "TIM4"; "TIM5"; "TIM9";
   "TIM12"; "TIM10"; "TIM13"; "TIM14"; "TIM11"; "TIM6"; "TIM7"; "CRC"; "OTG_FS_GLOBAL";
   "OTG_FS_HOST"; "OTG_FS_DEVICE"; "OTG_FS_PWRCLK"; "CAN1"; "CAN2"; "FLASH"; "EXTI";
   "OTG_HS_GLOBAL"; "OTG_HS_HOST"; "OTG_HS_DEVICE"; "OTG_HS_PWRCLK"; "SAI1"; "SAI2"; "PWR";
   "QUADSPI"; "SPDIFRX"; "HDMI_CEC"; "FPU"; "STK"; "NVIC_STIR"; "FPU_CPACR"; "SCB_ACTRL"].
Definition peripherals_F405 : list string :=
  ["RNG"; "DCMI"; "FSMC"; "DBGMCU"; "DMA2"; "DMA1"; "GPIOI"; "GPIOH"; "GPIOG"; "GPIOF";
   "GPIOE"; "GPIOD"; "GPIOC"; "GPIOJ"; "GPIOK"; "GPIOB"; "GPIOA"; "SYSCFG"; "SPI1"; "SPI2";
   "SPI3"; "I2S2EXT"; "I2S3EXT"; "SPI4"; "SPI5"; "SPI6"; "SDIO"; "ADC1"; "ADC2"; "ADC3";
   "USART6"; "USART1"; "USART2"; "USART3"; "DAC"; "PWR"; "I2C3"; "I2C2"; "I2C1"; "IWDG";
   "WWDG"; "RTC"; "UART4"; "UART5"; "UART7"; "UART8"; "ADC_COMMON"; "TIM1"; "TIM8"; "TIM2";
   "TIM4"; "TIM5"; "TIM9"; "TIM12"; "TIM10"; "TIM13"; "TIM14"; "TIM11"; "TIM6"; "TIM7";
   "ETHERNET_MAC"; "ETHERNET_MMC"; "ETHERNET_PTP"; "ETHERNET_DMA"; "CRC"; "OTG_FS_GLOBAL";
   "OTG_FS_HOST"; "OTG_FS_DEVICE"; "OTG_FS_PWRCLK"; "CAN1"; "CAN2"; "FLASH"; "EXTI";
   "OTG_HS_GLOBAL"; "OTG_HS_HOST"; "OTG_HS_DEVICE"; "OTG_HS_PWRCLK"; "SAI1"; "LTDC"; "HASH";
   "CRYP"; "FPU"; "STK"; "NVIC_STIR"; "FPU_CPACR"; "SCB_ACTRL"].

(** The struct [Peripherals], which other chips do not have. *)
Definition peripherals (c : Chip) : option (list string) :=
  match c with F446 => Some peripherals_F446 | F405 => Some peripherals_F405 | _ => None end.
(** The peripherals the drivers are implemented for. *)
Definition driven (c : Chip) : list string :=
  ((λ x, x.2.1) <$> dma) ++ usarts c
  ++ (if decide (c ∈ mod_can) then can.*1 else [])
  ++ (if decide (c ∈ mod_rtc) then (λ t, t.1.1) <$> filter (λ t, c ∉ t.2) timers else []).
(** What [embassy::main] takes out of the register library's peripherals. *)
Definition main_takes : list string := ["RCC"; "TIM3"].


(** ** What the tables mean

    The lines of the external interrupt controller each vector serves, from the
    vector tables of the reference manuals of both families. *)
Definition vector_lines (irq : string) : list nat :=
  if decide (irq = "EXTI0") then [0]
  else if decide (irq = "EXTI1") then [1]
  else if decide (irq = "EXTI2") then [2]
  else if decide (irq = "EXTI3") then [3]
  else if decide (irq = "EXTI4") then [4]
  else if decide (irq = "EXTI9_5") then seq 5 5
  else if decide (irq = "EXTI15_10") then seq 10 6
  else if decide (irq = "EXTI0_1") then [0; 1]
  else if decide (irq = "EXTI2_3") then [2; 3]
  else if decide (irq = "EXTI4_15") then seq 4 12
  else [].

(** The module of a port: the pins of port "A" are in [gpio::gpioa]. *)
Definition port_sets : list (string * string) :=
  [("A", "gpioa"); ("B", "gpiob"); ("C", "gpioc"); ("D", "gpiod"); ("E", "gpioe");
   ("F", "gpiof"); ("G", "gpiog"); ("H", "gpioh"); ("I", "gpioi"); ("J", "gpioj");
   ("K", "gpiok")].

(** A block is right when each pin is one of its port and the vector serves the line
    of the pin: pin [n] of any port is on line [n]. *)
Definition block_ok (b : Exti) : Prop :=
  Forall (λ e, (pin_port e.2, set b) ∈ port_sets ∧ pin_number e.2 ∈ vector_lines e.1)
    (entries b).

#[export] Instance block_ok_dec b : Decision (block_ok b).
Proof. unfold block_ok. apply _. Defined.

(** Two vectors of a chip serve different lines. *)
Definition vectors (c : Chip) : list string :=
  if is_f4 c then ["EXTI0"; "EXTI1"; "EXTI2"; "EXTI3"; "EXTI4"; "EXTI9_5"; "EXTI15_10"]
  else ["EXTI0_1"; "EXTI2_3"; "EXTI4_15"].

Lemma vector_of_line c : NoDup (vectors c ≫= vector_lines).
Proof. destruct c; apply (bool_decide_unpack _); vm_compute; exact I. Qed.

Lemma exti_blocks_ok : Forall block_ok exti_blocks.
Proof. apply (bool_decide_unpack _). vm_compute. exact I. Qed.

Lemma exti_table_vectors c : Forall (λ e, e.1 ∈ vectors c) (exti_table c).
Proof. destruct c; apply (bool_decide_unpack _); vm_compute; exact I. Qed.

Lemma exti_table_entry c e :
  e ∈ exti_table c → e.1 ∈ vectors c ∧ pin_number e.2 ∈ vector_lines e.1.
Proof.
  intros He. split; [exact (proj1 (Forall_forall _ _) (exti_table_vectors c) _ He)|].
  apply list_elem_of_bind in He as (b & He & Hb). apply list_elem_of_filter in Hb as [_ Hb].
  pose proof (proj1 (Forall_forall _ _) exti_blocks_ok _ Hb) as Hok.
  apply (proj1 (Forall_forall _ _) Hok _ He).
Qed.

(** In a list of lists without duplicates, an element is in one of them only. *)
Lemma NoDup_bind_inj {A B} (f : A → list B) l x y b :
  NoDup (l ≫= f) → x ∈ l → y ∈ l → b ∈ f x → b ∈ f y → x = y.
Proof.
  induction l as [|z l IH]; cbn [mbind list_bind]; intros Hn Hx Hy Bx By; [set_solver|].
  apply NoDup_app in Hn as (_ & Hd & Hn).
  assert (Hr : ∀ w, w ∈ l → b ∈ f w → b ∈ l ≫= f)
    by (intros w ??; apply list_elem_of_bind; eauto).
  apply elem_of_cons in Hx as [->|Hx], Hy as [->|Hy]; eauto; exfalso; eapply Hd; eauto.
Qed.

(** Interrupts of a chip that are named and not declared, spelled out. *)
Definition undeclared (c : Chip) : list string :=
  match c with
  | F401 => ["CAN1_TX"; "CAN1_RX0"; "CAN2_TX"; "CAN2_RX0"]
  | F410 => ["OTG_FS"]
  | F412 => ["TIM8_BRK_TIM12"]
  | F415 | F417 | F423 | F437 | F439 | F479 => used c
  | _ => []
  end.

(** Every interrupt the crate names exists, no interrupt is declared twice, and the HAL
    is there, on the chips of which it builds a driver: F405, F407, F413, F427, F429,
    F446, F469 and the three L0.  On the others the crate does not compile: it names
    the interrupts of CAN on F401, which has no CAN controller; the USB interrupt on
    F410; the vector of timer 12 on F412, which is declared as TIM12; and on the six
    chips that have no list of interrupts, all of them.  On F410 and F411 [hal] is not
    re-exported. *)
Theorem interrupts_declared c :
  NoDup (declared c) ∧ missing c = undeclared c
  ∧ (has_hal c = false ↔ c ∈ [F410; F411])
  ∧ (missing c = [] ∧ has_hal c = true ↔
     c ∈ [F405; F407; F413; F427; F429; F446; F469; L0x1; L0x2; L0x3]).
Proof.
  split; [|split; [|split]].
  - destruct c; apply (bool_decide_unpack _); vm_compute; exact I.
  - destruct c; vm_compute; reflexivity.
  - rewrite <-(bool_decide_eq_true (c ∈ _)). destruct c; vm_compute; done.
  - rewrite <-!(bool_decide_eq_true (missing c = [])), <-(bool_decide_eq_true (c ∈ _)).
    destruct c; vm_compute; intuition done.
Qed.

(** The two chips that have [Peripherals] list nothing twice, and everything the drivers
    are implemented for but the timer [main] keeps for the clock; neither the timer nor
    the clock control it takes is handed out again. *)
Theorem stm32_peripherals_exclusive c l :
  peripherals c = Some l →
  NoDup l ∧ (∀ p, p ∈ driven c → p ∈ l ∨ p ∈ main_takes) ∧ (∀ p, p ∈ main_takes → p ∉ l).
Proof.
  intros H.
  assert (Hall : NoDup l ∧ Forall (λ p, p ∈ l ∨ p ∈ main_takes) (driven c)
    ∧ Forall (λ p, p ∉ l) main_takes).
  { destruct c; try done; injection H as <-;
      split_and!; apply (bool_decide_unpack _); vm_compute; exact I. }
  rewrite !Forall_forall in Hall. exact Hall.
Qed.
Lemma stm32_peripherals_exclusive_witness :
  peripherals F446 = Some peripherals_F446 ∧ "TIM3" ∉ peripherals_F446.
Proof.
  split; [reflexivity|].
  apply (stm32_peripherals_exclusive F446 peripherals_F446); [reflexivity|]. by right; left.
Defined.

(** The pins of a chip are listed once each, with the interrupt that serves their
    line; so pins that have different interrupts are on different lines.  An
    [ExtiPin] owns its interrupt: of two of them at the same time, neither takes the
    line of the other, whatever their ports. *)
Theorem exti_lines_not_shared c :
  NoDup (snd <$> exti_table c)
  ∧ (∀ i p, (i, p) ∈ exti_table c → pin_number p ∈ vector_lines i)
  ∧ ∀ i p j q, (i, p) ∈ exti_table c → (j, q) ∈ exti_table c →
      (i = j ↔ ∃ v, v ∈ vectors c ∧ pin_number p ∈ vector_lines v ∧ pin_number q ∈ vector_lines v)
      ∧ (i ≠ j → pin_number p ≠ pin_number q).
Proof.
  assert (Hn : NoDup (snd <$> exti_table c))
    by (destruct c; apply (bool_decide_unpack _); vm_compute; exact I).
  split; [done|]. split; [intros i p H; apply (exti_table_entry c _ H)|].
  intros i p j q [Hi Hp]%exti_table_entry [Hj Hq]%exti_table_entry. simpl in *.
  pose proof (vector_of_line c) as Hv. split; [split|].
  - intros ->. eauto.
  - intros (v & Hv1 & Hvp & Hvq).
    transitivity v; [|symmetry]; eapply NoDup_bind_inj; eauto.
  - intros Hne Heq. apply Hne. rewrite <-Heq in Hq. eapply NoDup_bind_inj; eauto.
Qed.
