(* ===== verification/BufferedUarte.v ===== *)
(** * BufferedUarte: the interrupt-driven serial driver

    [embassy-nrf/src/buffered_uarte.rs]: two ring buffers that the UARTE's DMA reads
    and writes directly, and the state machine of the interrupt handler.  The
    buffers are the memory the DMA works on, so its pointers are offsets in them;
    [hw_tx] and [hw_rx] move one byte at a time between any two operations of the
    driver.  [w] is the width of the MAXCNT registers, 8 or 16 depending on the chip. *)
From S2P Require Import Prelude RingBuffer Sync Interrupt Io LowPower.
Local Open Scope Z_scope.

Inductive RxState : Set := RxIdle | Receiving.
Inductive TxState : Set := TxIdle | Transmitting (n : Z).

(** The UARTE's registers, and the timer's STOP task; the counters of bytes moved and
    whether a transfer runs are the hardware's own. *)
Record Uarte : Type := mkUarte {
  rxd_ptr : Z; rxd_maxcnt : Z; rx_count : Z; rx_running : bool; events_endrx : bool;
  txd_ptr : Z; txd_maxcnt : Z; tx_count : Z; tx_running : bool; events_endtx : bool;
  timer_running : bool
}.
Definition Uarte_new : Uarte := mkUarte 0 0 0 false false 0 0 0 false false false.

Record State : Type := mkState {
  uarte : Uarte;
  rx : RingBuffer; rx_state : RxState; rx_waker : WakerTask.WakerRegistration;
  tx : RingBuffer; tx_state : TxState; tx_waker : WakerTask.WakerRegistration
}.

(** [RXD.AMOUNT] is the number of bytes of the last transfer. *)
Definition amount (u : Uarte) : Z := rx_count u.

Definition start_rx (ptr cnt : Z) (u : Uarte) : Uarte :=
  mkUarte ptr cnt 0 true (events_endrx u) (txd_ptr u) (txd_maxcnt u) (tx_count u)
    (tx_running u) (events_endtx u) (timer_running u).
Definition ack_rx (u : Uarte) : Uarte :=
  mkUarte (rxd_ptr u) (rxd_maxcnt u) (rx_count u) (rx_running u) false (txd_ptr u)
    (txd_maxcnt u) (tx_count u) (tx_running u) (events_endtx u) (timer_running u).
Definition stop_timer (u : Uarte) : Uarte :=
  mkUarte (rxd_ptr u) (rxd_maxcnt u) (rx_count u) (rx_running u) (events_endrx u) (txd_ptr u)
    (txd_maxcnt u) (tx_count u) (tx_running u) (events_endtx u) false.
Definition start_tx (ptr cnt : Z) (u : Uarte) : Uarte :=
  mkUarte (rxd_ptr u) (rxd_maxcnt u) (rx_count u) (rx_running u) (events_endrx u)
    ptr cnt 0 true (events_endtx u) (timer_running u).
Definition ack_tx (u : Uarte) : Uarte :=
  mkUarte (rxd_ptr u) (rxd_maxcnt u) (rx_count u) (rx_running u) (events_endrx u) (txd_ptr u)
    (txd_maxcnt u) (tx_count u) (tx_running u) false (timer_running u).

Definition with_uarte (u : Uarte) (s : State) : State :=
  mkState u (rx s) (rx_state s) (rx_waker s) (tx s) (tx_state s) (tx_waker s).
Definition with_rx (r : RingBuffer) (st : RxState) (k : WakerTask.WakerRegistration) (s : State)
    : State := mkState (uarte s) r st k (tx s) (tx_state s) (tx_waker s).
Definition with_tx (r : RingBuffer) (st : TxState) (k : WakerTask.WakerRegistration) (s : State)
    : State := mkState (uarte s) (rx s) (rx_state s) (rx_waker s) r st k.

(** ** Configuration *)

(** 16 MHz ticks for 20 bits at a BAUDRATE register value. *)
Definition rx_timeout (baudrate : Z) : outcome Z :=
  if baudrate / 40 =? 0 then Panic else Done (0x80000000 / (baudrate / 40)).
Definition hardware_flow_control (rts cts : bool) : outcome bool :=
  match rts, cts with
  | false, false => Done false
  | true, true => Done true
  | _, _ => Panic
  end.

(** [new]: the timeout written to the timer's compare register, the state, and the
    interrupt, left masked and pending. *)
Definition BufferedUarte_new (baudrate : Z) (rts cts : bool) (rx_buffer tx_buffer : list Z)
    (irq : Irq Fn) : outcome (Z * bool * PeripheralMutex State) :=
  hwfc ← hardware_flow_control rts cts;
  let irq := pend (disable irq) in
  timeout ← rx_timeout baudrate;
  Done (timeout, hwfc,
        PeripheralMutex_new
          (mkState Uarte_new (RingBuffer.new rx_buffer) RxIdle WakerTask.new
             (RingBuffer.new tx_buffer) TxIdle WakerTask.new) irq).

Section driver.
Context {P : Profile} (w : Z).

(** ** The interrupt handler

    Each loop runs until its [break]; the result has the tasks woken, and [None] is
    fuel running out. *)
Definition Res (A : Type) : Type := option (outcome A).
Definition res_bind {A B} (m : outcome A) (f : A → Res B) : Res B :=
  match m with Done a => f a | Panic => Some Panic end.

Fixpoint rx_loop (fuel : nat) (woken : list Z) (s : State) : Res (list Z * State) :=
  match fuel with
  | O => None
  | S n =>
      match rx_state s with
      | RxIdle =>
          res_bind (push_buf (rx s)) (λ '(off, len),
            if len =? 0 then Some (Done (woken, s))
            else
              let s1 := with_rx (rx s) Receiving (rx_waker s) s in
              Some (Done (woken, with_uarte (start_rx off (wrap w len) (uarte s)) s1)))
      | Receiving =>
          if events_endrx (uarte s) then
            let u := stop_timer (uarte s) in
            res_bind (push (rx s) (amount u)) (λ r,
              let '(ws, k) := WakerTask.wake (rx_waker s) in
              rx_loop n (woken ++ ws) (with_uarte (ack_rx u) (with_rx r RxIdle k s)))
          else Some (Done (woken, s))
      end
  end.

Fixpoint tx_loop (fuel : nat) (woken : list Z) (s : State) : Res (list Z * State) :=
  match fuel with
  | O => None
  | S n =>
      match tx_state s with
      | TxIdle =>
          res_bind (pop_buf (tx s)) (λ '(off, len),
            if len =? 0 then Some (Done (woken, s))
            else
              let s1 := with_tx (tx s) (Transmitting len) (tx_waker s) s in
              Some (Done (woken, with_uarte (start_tx off (wrap w len) (uarte s)) s1)))
      | Transmitting len =>
          if events_endtx (uarte s) then
            let u := ack_tx (uarte s) in
            res_bind (pop (tx s) len) (λ r,
              let '(ws, k) := WakerTask.wake (tx_waker s) in
              tx_loop n (woken ++ ws) (with_uarte u (with_tx r TxIdle k s)))
          else Some (Done (woken, s))
      end
  end.

Definition on_interrupt (s : State) : Res (list Z * State) :=
  match rx_loop 2 [] s with
  | Some (Done (woken, s1)) => tx_loop 2 woken s1
  | other => other
  end.

(** ** The task side

    Each registers the interrupt's handler first; [addr] is the state's address. *)
Definition with_inner {R} (addr : Z) (f : State → Irq Fn → outcome (R * State * Irq Fn))
    (m : PeripheralMutex State) : outcome (R * PeripheralMutex State) :=
  let '(r, m') := with_state (λ s i,
    match f s i with
    | Done (r, s', i') => (Done r, s', i')
    | Panic => (Panic, s, i)
    end) (register_interrupt addr m) in
  r ← r; Done (r, m').

Definition poll_fill_buf (addr : Z) (cx : Waker.t) (m : PeripheralMutex State)
    : outcome (IoPoll (list Z) * list Z * PeripheralMutex State) :=
  with_inner addr (λ s i,
    '(off, n) ← pop_buf (rx s);
    if negb (n =? 0) then Done (Ready (Ok (slice (buf (rx s)) off n)), [], s, i)
    else
      '(ws, k) ← WakerTask.register (rx_waker s) cx;
      Done (Pending, ws, with_rx (rx s) (rx_state s) k s, i)) m.

Definition consume (addr : Z) (amt : nat) (m : PeripheralMutex State)
    : outcome (unit * PeripheralMutex State) :=
  with_inner addr (λ s i,
    r ← pop (rx s) (Z.of_nat amt);
    Done (tt, with_rx r (rx_state s) (rx_waker s) s, pend i)) m.

Definition poll_write (addr : Z) (cx : Waker.t) (data : list Z) (m : PeripheralMutex State)
    : outcome (IoPoll nat * list Z * PeripheralMutex State) :=
  with_inner addr (λ s i,
    '(off, len) ← push_buf (tx s);
    if len =? 0 then
      '(ws, k) ← WakerTask.register (tx_waker s) cx;
      Done (Pending, ws, with_tx (tx s) (tx_state s) k s, i)
    else
      let n := Nat.min (Z.to_nat len) (length data) in
      r ← push (fill (tx s) off (take n data)) (Z.of_nat n);
      Done (Ready (Ok n), [], with_tx r (tx_state s) (tx_waker s) s, pend i)) m.

(** [set_baudrate]: the timeout, under the mutex. *)
Definition set_baudrate (baudrate : Z) (m : PeripheralMutex State)
    : outcome (Z * PeripheralMutex State) :=
  let '(r, m') := with_state (λ s i, (rx_timeout baudrate, s, i)) m in
  t ← r; Done (t, m').

(** ** The hardware *)

(** One byte of a buffer. *)
Definition byte_at (r : RingBuffer) (i : Z) : Z := default 0 (buf r !! Z.to_nat i).

(** A byte is sent; the transfer ends with its last one. *)
Definition hw_tx (s : State) : option (Z * State) :=
  let u := uarte s in
  if tx_running u && (tx_count u <? txd_maxcnt u) then
    let b := byte_at (tx s) (txd_ptr u + tx_count u) in
    let last := tx_count u + 1 =? txd_maxcnt u in
    Some (b, with_uarte
      (mkUarte (rxd_ptr u) (rxd_maxcnt u) (rx_count u) (rx_running u) (events_endrx u)
         (txd_ptr u) (txd_maxcnt u) (tx_count u + 1) (negb last) (last || events_endtx u)
         (timer_running u)) s)
  else None.

(** A byte arrives, if there is a transfer with room for it, and restarts the timer. *)
Definition hw_rx (b : Z) (s : State) : option State :=
  let u := uarte s in
  if rx_running u && (rx_count u <? rxd_maxcnt u) then
    let last := rx_count u + 1 =? rxd_maxcnt u in
    Some (mkState
      (mkUarte (rxd_ptr u) (rxd_maxcnt u) (rx_count u + 1) (negb last) (last || events_endrx u)
         (txd_ptr u) (txd_maxcnt u) (tx_count u) (tx_running u) (events_endtx u) true)
      (fill (rx s) (rxd_ptr u + rx_count u) [b]) (rx_state s) (rx_waker s)
      (tx s) (tx_state s) (tx_waker s))
  else None.

(** The line is idle: the timer stops the transfer. *)
Definition hw_idle (s : State) : State :=
  let u := uarte s in
  if timer_running u && rx_running u then
    with_uarte (mkUarte (rxd_ptr u) (rxd_maxcnt u) (rx_count u) false true
      (txd_ptr u) (txd_maxcnt u) (tx_count u) (tx_running u) (events_endtx u) false) s
  else s.
End driver.

(** ** [State::drop]

    The mutex has masked the interrupt and removed its handler by then: its [Drop] runs
    before that of the state it contains.  The timer and the transfers are stopped; then
    the processor sleeps until what was in progress has ended, the receiver first. *)
Definition drop_begin (s : State) : State := with_uarte (stop_timer (uarte s)) s.
Definition rx_ended (s : State) : bool := events_endrx (uarte s).
Definition tx_ended (s : State) : bool := events_endtx (uarte s).

(** What the hardware does meanwhile: bytes move, and the STOP tasks end the transfers.
    No interrupt is taken, so the event register of the processor is not set. *)
Inductive HwDrop : Set := HTx | HRx (b : Z) | HIdle | HStopRx | HStopTx.
Definition hw_stop (rx : bool) (s : State) : State :=
  let u := uarte s in
  if rx then with_uarte (mkUarte (rxd_ptr u) (rxd_maxcnt u) (rx_count u) false
    (rx_running u || events_endrx u) (txd_ptr u) (txd_maxcnt u) (tx_count u) (tx_running u)
    (events_endtx u) (timer_running u)) s
  else with_uarte (mkUarte (rxd_ptr u) (rxd_maxcnt u) (rx_count u) (rx_running u)
    (events_endrx u) (txd_ptr u) (txd_maxcnt u) (tx_count u) false
    (tx_running u || events_endtx u) (timer_running u)) s.
Definition drop_env (a : HwDrop) (s : State) : option (State * bool) :=
  match a with
  | HTx => r ← hw_tx s; Some (snd r, false)
  | HRx b => s' ← hw_rx b s; Some (s', false)
  | HIdle => Some (hw_idle s, false)
  | HStopRx => Some (hw_stop true s, false)
  | HStopTx => Some (hw_stop false s, false)
  end.

(** The two waits; [None] when there is nothing to wait for. *)
Definition drop_rx (event : bool) (s : State) : option (Cpu State) :=
  match rx_state s with
  | Receiving => Some (low_power_wait_until event (drop_begin s))
  | RxIdle => None
  end.
Definition drop_tx (event : bool) (s : State) : option (Cpu State) :=
  match tx_state s with
  | Transmitting _ => Some (low_power_wait_until event s)
  | TxIdle => None
  end.
