(* ===== verification/BufferedUarteProofs.v ===== *)
(** * BufferedUarteProofs: no byte is lost between the tasks and the wire

    Invariants of the two directions of [BufferedUarte], preserved by every
    operation of the tasks, by the interrupt handler and by the DMA. *)
From S2P Require Import LowPower Prelude RingBuffer Sync Interrupt Io BufferedUarte.
Local Open Scope Z_scope.

Section proofs.
Context {P : Profile} (w : Z).
Implicit Types s : State.

(** Bytes of the transfer in progress that were sent already. *)
Definition in_flight s : nat :=
  match tx_state s with TxIdle => O | Transmitting _ => Z.to_nat (tx_count (uarte s)) end.
(** Bytes received by the transfer in progress. *)
Definition landed s : list Z :=
  match rx_state s with
  | RxIdle => []
  | Receiving => slice (buf (rx s)) (rxd_ptr (uarte s)) (rx_count (uarte s))
  end.

Record TxInv s (acc wire : list Z) : Prop := {
  ti_wf : wf (tx s);
  ti_len : len (tx s) < 2 ^ w;
  ti_fifo : wire ++ drop (in_flight s) (contents (tx s)) = acc;
  ti_state : match tx_state s with
    | TxIdle => tx_running (uarte s) = false ∧ events_endtx (uarte s) = false
    | Transmitting n =>
        0 < n ≤ Z.of_nat (length (peeked (tx s))) ∧ txd_maxcnt (uarte s) = n ∧
        txd_ptr (uarte s) = start (tx s) ∧ 0 ≤ tx_count (uarte s) ≤ n ∧
        tx_running (uarte s) = (tx_count (uarte s) <? n) ∧
        events_endtx (uarte s) = negb (tx_running (uarte s))
    end
}.

Record RxInv s (rcv dlv : list Z) : Prop := {
  ri_wf : wf (rx s);
  ri_fifo : dlv ++ contents (rx s) ++ landed s = rcv;
  ri_state : match rx_state s with
    | RxIdle => rx_running (uarte s) = false ∧ events_endrx (uarte s) = false
    | Receiving =>
        rxd_ptr (uarte s) = end_ (rx s) ∧ 0 ≤ rx_count (uarte s) ≤ rxd_maxcnt (uarte s) ∧
        (∀ k, k ≤ rxd_maxcnt (uarte s) → room (rx s) k) ∧
        events_endrx (uarte s) = negb (rx_running (uarte s)) ∧
        (len (rx s) < 2 ^ w → 0 < rxd_maxcnt (uarte s)) ∧
        (rx_running (uarte s) = true →
         rxd_maxcnt (uarte s) = 0 ∨ rx_count (uarte s) < rxd_maxcnt (uarte s))
    end
}.

(** Each direction depends only on its own part of the state. *)
Lemma TxInv_frame s s' acc wire : TxInv s acc wire →
  tx s' = tx s → tx_state s' = tx_state s →
  txd_ptr (uarte s') = txd_ptr (uarte s) → txd_maxcnt (uarte s') = txd_maxcnt (uarte s) →
  tx_count (uarte s') = tx_count (uarte s) → tx_running (uarte s') = tx_running (uarte s) →
  events_endtx (uarte s') = events_endtx (uarte s) → TxInv s' acc wire.
Proof.
  intros [] E1 E2 E3 E4 E5 E6 E7. unfold in_flight in *.
  split; unfold in_flight; by rewrite ?E1, ?E2, ?E3, ?E4, ?E5, ?E6, ?E7.
Qed.

Lemma RxInv_frame s s' rcv dlv : RxInv s rcv dlv →
  rx s' = rx s → rx_state s' = rx_state s →
  rxd_ptr (uarte s') = rxd_ptr (uarte s) → rxd_maxcnt (uarte s') = rxd_maxcnt (uarte s) →
  rx_count (uarte s') = rx_count (uarte s) → rx_running (uarte s') = rx_running (uarte s) →
  events_endrx (uarte s') = events_endrx (uarte s) → RxInv s' rcv dlv.
Proof.
  intros [] E1 E2 E3 E4 E5 E6 E7. unfold landed in *.
  split; unfold landed; by rewrite ?E1, ?E2, ?E3, ?E4, ?E5, ?E6, ?E7.
Qed.

(** What bytes that arrive do to the queue's buffer: the bytes in front are shown as before. *)
Definition keeps (r r' : RingBuffer) : Prop := len r' = len r ∧ peeked r `prefix_of` peeked r'.

(** ** The DMA *)
Lemma tx_byte s acc wire b s' : TxInv s acc wire → hw_tx s = Some (b, s') →
  TxInv s' acc (wire ++ [b]).
Proof.
  intros [Hwf Hlen Hfifo Hst] H. unfold hw_tx in H.
  destruct (tx_running (uarte s)) eqn:Er; [|done].
  destruct (Z.ltb_spec (tx_count (uarte s)) (txd_maxcnt (uarte s))) as [Hlt|]; [|done].
  injection H as <- <-. unfold in_flight in *.
  destruct (tx_state s) as [|n] eqn:Et; [by destruct Hst|].
  destruct Hst as (Hn & <- & Hp & Hc & Hr & He).
  set (i := tx_count (uarte s)) in *. set (n := txd_maxcnt (uarte s)) in *.
  assert (Hb : contents (tx s) !! Z.to_nat i = Some (byte_at (tx s) (txd_ptr (uarte s) + i))).
  { destruct (pop_buf_run (tx s) Hwf) as (_ & _ & _ & _ & _ & (rest & Hrest) & _).
    rewrite <-(front_byte (tx s) i Hwf) by lia. unfold byte_at. rewrite Hp.
    rewrite (front_byte (tx s) i Hwf) by lia.
    destruct (lookup_lt_is_Some_2 (contents (tx s)) (Z.to_nat i)) as [x Hx].
    - rewrite Hrest, length_app. lia.
    - by rewrite Hx. }
  split; unfold in_flight; simpl; rewrite ?Et.
  - done.
  - done.
  - rewrite <-Hfifo, <-app_assoc. f_equal. simpl.
    rewrite (drop_S _ _ _ Hb). f_equal. f_equal. lia.
  - rewrite He. split_and!; try done; try lia; destruct (Z.eqb_spec (i + 1) n), (Z.ltb_spec (i + 1) n); simpl; lia || done.
Qed.

Lemma rx_byte s rcv dlv b s' : RxInv s rcv dlv → hw_rx b s = Some s' →
  RxInv s' (rcv ++ [b]) dlv ∧ keeps (rx s) (rx s').
Proof.
  intros [Hwf Hfifo Hst] H. unfold hw_rx in H.
  destruct (rx_running (uarte s)) eqn:Er; [|done].
  destruct (Z.ltb_spec (rx_count (uarte s)) (rxd_maxcnt (uarte s))) as [Hlt|]; [|done].
  injection H as <-. unfold landed in *.
  destruct (rx_state s) eqn:Es; [by destruct Hst|].
  destruct Hst as (Hp & Hc & Hroom & He & Hpos & Hrun). rewrite Hp in *.
  set (i := rx_count (uarte s)) in *. set (n := rxd_maxcnt (uarte s)) in *.
  destruct (fill_room (rx s) i b Hwf) as (Hwf' & Hl & Hcon & Hr' & Hsl); [lia|apply Hroom; lia|].
  set (rb' := fill (rx s) (end_ (rx s) + i) [b]) in *.
  assert (Hend : end_ rb' = end_ (rx s)) by done.
  split; [|split; [exact Hl|]; simpl; by rewrite (peeked_same (rx s) rb')]. clearbody rb'.
  split; unfold landed; simpl; rewrite ?Es, ?Hp.
  - done.
  - rewrite Hcon, Hsl, <-Hfifo, <-!app_assoc. done.
  - rewrite He, Hend, Hl. split_and!; try done; try lia.
    intros k Hk. apply Hr'. auto.
Qed.

Lemma rx_idle_line s rcv dlv : RxInv s rcv dlv →
  RxInv (hw_idle s) rcv dlv ∧ keeps (rx s) (rx (hw_idle s)).
Proof.
  intros I. pose proof I as [Hwf Hfifo Hst]. unfold hw_idle.
  destruct (timer_running (uarte s)), (rx_running (uarte s)) eqn:Er; try by split.
  unfold landed in *. split; [|done]. split; unfold landed; simpl; [done|done|].
  destruct (rx_state s); [by destruct Hst|]. destruct Hst as (? & ? & ? & ? & ? & _). done.
Qed.

(** ** The interrupt handler *)

(** What a run of the handler's loop leaves: something to do is being done. *)
Definition rx_busy s : Prop :=
  match rx_state s with
  | RxIdle => Z.of_nat (length (contents (rx s))) = len (rx s)
  | Receiving => events_endrx (uarte s) = false ∧ (len (rx s) < 2 ^ w → ∀ b, hw_rx b s ≠ None)
  end.
Definition tx_busy s : Prop :=
  match tx_state s with
  | TxIdle => contents (tx s) = []
  | Transmitting _ => events_endtx (uarte s) = false
  end.

(** The transmit side's registers and buffer. *)
Definition same_tx s s' : Prop :=
  tx s' = tx s ∧ tx_state s' = tx_state s ∧ tx_waker s' = tx_waker s ∧
  txd_ptr (uarte s') = txd_ptr (uarte s) ∧ txd_maxcnt (uarte s') = txd_maxcnt (uarte s) ∧
  tx_count (uarte s') = tx_count (uarte s) ∧ tx_running (uarte s') = tx_running (uarte s) ∧
  events_endtx (uarte s') = events_endtx (uarte s).
Definition same_rx s s' : Prop :=
  rx s' = rx s ∧ rx_state s' = rx_state s ∧ rx_waker s' = rx_waker s ∧
  rxd_ptr (uarte s') = rxd_ptr (uarte s) ∧ rxd_maxcnt (uarte s') = rxd_maxcnt (uarte s) ∧
  rx_count (uarte s') = rx_count (uarte s) ∧ rx_running (uarte s') = rx_running (uarte s) ∧
  events_endrx (uarte s') = events_endrx (uarte s).

Lemma wrap_le len : 0 ≤ len → 0 ≤ w → 0 ≤ wrap w len ≤ len.
Proof.
  intros. unfold wrap. assert (0 < 2 ^ w) by (apply Z.pow_pos_nonneg; lia).
  pose proof (Z.mod_pos_bound len (2 ^ w)). pose proof (Z.mod_le len (2 ^ w)). lia.
Qed.

Lemma rx_start n woken s rcv dlv : 0 ≤ w → RxInv s rcv dlv → rx_state s = RxIdle →
  ∃ s', rx_loop w (S n) woken s = Some (Done (woken, s')) ∧ RxInv s' rcv dlv ∧
    same_tx s s' ∧ rx_busy s' ∧ rx_waker s' = rx_waker s ∧ rx s' = rx s.
Proof.
  intros Hw [Hwf Hfifo Hst] Es. rewrite Es in Hst. destruct Hst as [Hr He].
  unfold landed in Hfifo. rewrite Es, app_nil_r in Hfifo. cbn [rx_loop]. rewrite Es.
  destruct (push_buf_run (rx s) Hwf) as (off & l & -> & Hl & Hfull & Hroom). cbn [res_bind].
  destruct (Z.eqb_spec l 0) as [->|Hl0].
  - exists s. split; [done|]. split; [split; unfold landed; rewrite ?Es, ?app_nil_r; done|].
    split_and!; try done. unfold rx_busy. rewrite Es. auto.
  - destruct Hroom as [-> Hroom]; [lia|]. eexists. split; [done|].
    pose proof (wrap_le l Hl Hw).
    assert (Hpos : len (rx s) < 2 ^ w → 0 < wrap w l).
    { intros Hlen. rewrite wrap_small; [lia|]. split; [lia|].
      specialize (Hroom l ltac:(lia)). destruct Hwf as [W1 W2 W3 _ _].
      revert Hroom. unfold room. case_bool; [intros [_ Hroom]|intros Hroom]; lia. }
    split; [split; unfold landed; simpl|].
    + done.
    + by rewrite slice_nil, app_nil_r.
    + rewrite He. split_and!; try done; [lia| |intros _; lia]. intros k Hk. apply Hroom. lia.
    + split_and!; try done. unfold rx_busy. simpl. split; [done|]. intros Hlen b. specialize (Hpos Hlen).
      unfold hw_rx. simpl. by rewrite (proj2 (Z.ltb_lt _ _)) by lia.
Qed.

Lemma rx_loop_run woken s rcv dlv : 0 ≤ w → RxInv s rcv dlv →
  ∃ ws s', rx_loop w 2 woken s = Some (Done (woken ++ ws, s')) ∧ RxInv s' rcv dlv ∧
    same_tx s s' ∧ rx_busy s' ∧ keeps (rx s) (rx s') ∧
    (rx_state s = Receiving → events_endrx (uarte s) = true →
     ∀ t, rx_waker s = Some t → t ∈ ws).
Proof.
  intros Hw I. destruct (rx_state s) eqn:Es.
  - destruct (rx_start 1 woken s rcv dlv Hw I Es) as (s' & E & I' & Hs & Hb & _ & Hrx).
    exists [], s'. rewrite app_nil_r, Hrx. split_and!; try done.
  - pose proof I as [Hwf Hfifo Hst]. rewrite Es in Hst.
    destruct Hst as (Hp & Hc & Hroom & He & Hpos & Hrun).
    unfold landed in Hfifo. rewrite Es, Hp in Hfifo.
    remember 1%nat as one eqn:E1. cbn [rx_loop]. rewrite Es.
    destruct (events_endrx (uarte s)) eqn:Ee.
    + destruct (push_room (rx s) (rx_count (uarte s)) Hwf) as (r & Hpush & Wr & Hlr & Hcon);
        [lia|apply Hroom; lia|].
      pose proof (push_room_peeked (rx s) (rx_count (uarte s)) r Hwf ltac:(lia) ltac:(apply Hroom; lia) Hpush Wr Hcon) as Hpk.
      unfold amount. cbn [rx_count stop_timer]. rewrite Hpush. cbn [res_bind].
      set (ws := fst (WakerTask.wake (rx_waker s))). set (k := snd (WakerTask.wake (rx_waker s))).
      destruct (WakerTask.wake (rx_waker s)) as [ws' k'] eqn:Ew. simpl in ws, k. subst one.
      destruct (rx_start 0 (woken ++ ws') 
        (with_uarte (ack_rx (stop_timer (uarte s))) (with_rx r RxIdle k' s)) rcv dlv Hw)
        as (s' & E & I' & Hs & Hb & _ & Hrx); [|done|].
      { split; unfold landed; simpl; [done| |].
        - by rewrite app_nil_r, Hcon.
        - split; [|done]. by destruct (rx_running (uarte s)). }
      exists ws', s'. rewrite E, Hrx. split_and!; try done.
      intros _ _ t Ht. rewrite Ht in Ew. injection Ew as <- _. set_solver.
    + exists [], s. rewrite app_nil_r. split_and!; try done. unfold rx_busy. rewrite Es.
      split; [exact Ee|]. intros Hlen b. specialize (Hpos Hlen). symmetry in He.
      apply negb_false_iff in He. unfold hw_rx. rewrite He.
      by rewrite (proj2 (Z.ltb_lt _ _)) by (destruct (Hrun He); lia).
Qed.

Lemma tx_start n woken s acc wire : 0 ≤ w → TxInv s acc wire → tx_state s = TxIdle →
  ∃ s', tx_loop w (S n) woken s = Some (Done (woken, s')) ∧ TxInv s' acc wire ∧
    same_rx s s' ∧ tx_busy s'.
Proof.
  intros Hw I Es. pose proof I as [Hwf Hlen Hfifo Hst]. rewrite Es in Hst. destruct Hst as [Hr He].
  unfold in_flight in Hfifo. rewrite Es in Hfifo. cbn [tx_loop]. rewrite Es.
  destruct (pop_buf_run (tx s) Hwf) as (off & l & Hpop & Hsl & Hl & (rest & Hrest) & Hnil).
  assert (Hl2 : peeked (tx s) ≠ [] → off = start (tx s)).
  { unfold pop_buf in Hpop. unfold peeked. destruct (empty (tx s)); [done|]. intros _.
    apply bind_Done in Hpop as (n1 & _ & Hpop). apply bind_Done in Hpop as (n2 & _ & Hpop).
    apply bind_Done in Hpop as (n3 & _ & Hpop). by injection Hpop. }
  rewrite Hpop. cbn [res_bind]. destruct (Z.eqb_spec l 0) as [El|Hl0].
  - exists s. split; [done|]. split; [exact I|].
    split_and!; try done. unfold tx_busy. rewrite Es. apply Hnil.
    destruct (peeked (tx s)); [done|simpl in Hl; lia].
  - rewrite Hl2 by (intros E; rewrite E in Hl; simpl in Hl; lia).
    eexists. split; [done|].
    assert (Hle : l ≤ len (tx s)).
    { rewrite <-Hl. unfold peeked. destruct (empty (tx s)) eqn:Hem; [unfold len; simpl; lia|].
      destruct (shown_prefix (tx s) Hwf Hem) as (? & ? & _). destruct Hwf.
      rewrite slice_length; unfold len in *; lia. }
    assert (Ew : wrap w l = l) by (apply wrap_small; lia). rewrite Ew.
    split; [split; unfold in_flight; simpl|split; done].
    + done.
    + done.
    + done.
    + rewrite He. split_and!; try done; lia.
Qed.

Lemma tx_loop_run woken s acc wire : 0 ≤ w → TxInv s acc wire →
  ∃ ws s', tx_loop w 2 woken s = Some (Done (woken ++ ws, s')) ∧ TxInv s' acc wire ∧
    same_rx s s' ∧ tx_busy s' ∧
    (∀ n, tx_state s = Transmitting n → events_endtx (uarte s) = true →
     ∀ t, tx_waker s = Some t → t ∈ ws).
Proof.
  intros Hw I. destruct (tx_state s) as [|n] eqn:Es.
  - destruct (tx_start 1 woken s acc wire Hw I Es) as (s' & E & I' & Hs & Hb).
    exists [], s'. rewrite app_nil_r. by split_and!.
  - pose proof I as [Hwf Hlen Hfifo Hst]. rewrite Es in Hst.
    destruct Hst as (Hn & Hmax & Hp & Hc & Hr & He).
    unfold in_flight in Hfifo. rewrite Es in Hfifo.
    remember 1%nat as one eqn:E1. cbn [tx_loop]. rewrite Es.
    destruct (events_endtx (uarte s)) eqn:Ee.
    + destruct (tx_running (uarte s)) eqn:Ern; [done|]. symmetry in Hr.
      apply Z.ltb_ge in Hr.
      destruct (pop_run (tx s) (Z.to_nat n) Hwf) as (r & Hpop & Wr & Hlr & Hcon); [lia|].
      rewrite Z2Nat.id in Hpop by lia. rewrite Hpop. cbn [res_bind].
      destruct (WakerTask.wake (tx_waker s)) as [ws k] eqn:Ew. subst one.
      destruct (tx_start 0 (woken ++ ws) (with_uarte (ack_tx (uarte s)) (with_tx r TxIdle k s))
        acc wire Hw) as (s' & E & I' & Hs & Hb); [|done|].
      { split; unfold in_flight; simpl; [done|by rewrite Hlr| |by rewrite Ern].
        rewrite Hcon, drop_0. rewrite <-Hfifo. do 2 f_equal. lia. }
      exists ws, s'. rewrite E. split_and!; try done.
      intros _ _ _ t Ht. rewrite Ht in Ew. injection Ew as <- _. set_solver.
    + exists [], s. rewrite app_nil_r. split_and!; try done. unfold tx_busy. by rewrite Es.
Qed.

Lemma handler_run s acc wire rcv dlv : 0 ≤ w → TxInv s acc wire → RxInv s rcv dlv →
  ∃ ws s', on_interrupt w s = Some (Done (ws, s')) ∧ TxInv s' acc wire ∧ RxInv s' rcv dlv ∧
    tx_busy s' ∧ rx_busy s' ∧ keeps (rx s) (rx s') ∧
    (∀ n t, tx_state s = Transmitting n → events_endtx (uarte s) = true →
     tx_waker s = Some t → t ∈ ws) ∧
    (∀ t, rx_state s = Receiving → events_endrx (uarte s) = true →
     rx_waker s = Some t → t ∈ ws).
Proof.
  intros Hw It Ir. unfold on_interrupt.
  destruct (rx_loop_run [] s rcv dlv Hw Ir) as (ws1 & s1 & -> & Ir1 & Hs1 & Hb1 & Hpk & Hk1).
  destruct Hs1 as (A1 & A2 & A3 & A4 & A5 & A6 & A7 & A8).
  assert (It1 : TxInv s1 acc wire) by (by eapply TxInv_frame).
  destruct (tx_loop_run ([] ++ ws1) s1 acc wire Hw It1) as (ws2 & s2 & -> & It2 & Hs2 & Hb2 & Hk2).
  destruct Hs2 as (B1 & B2 & B3 & B4 & B5 & B6 & B7 & B8).
  eexists _, _. split; [done|]. split; [done|]. split; [by eapply RxInv_frame|].
  split; [done|]. split; [|split; [by rewrite B1|]].
  - unfold rx_busy in *. rewrite B1, B2, B8. destruct (rx_state s1); [done|].
    destruct Hb1 as [? Hb1]. split; [done|]. intros Hlen b. specialize (Hb1 Hlen b).
    unfold hw_rx in *. rewrite B5, B6, B7. by destruct (_ && _).
  - rewrite A2, A3, A8 in Hk2. split.
    + intros n t H1 H2 H3. specialize (Hk2 n H1 H2 t H3). set_solver.
    + intros t H1 H2 H3. specialize (Hk1 H1 H2 t H3). set_solver.
Qed.

(** ** The tasks *)
Lemma TxInv_write s acc wire off n data : TxInv s acc wire →
  push_buf (tx s) = Done (off, n) → n ≠ 0 →
  let k := Nat.min (Z.to_nat n) (length data) in
  ∃ r, push (fill (tx s) off (take k data)) (Z.of_nat k) = Done r ∧
    TxInv (with_tx r (tx_state s) (tx_waker s) s) (acc ++ take k data) wire.
Proof.
  intros I Hp Hn k. pose proof I as [Hwf Hlen Hfifo Hst].
  destruct (push_buf_run (tx s) Hwf) as (off' & n' & Hp' & Hn' & _ & Hroom).
  rewrite Hp in Hp'. injection Hp' as <- <-. destruct Hroom as [-> Hroom]; [lia|].
  assert (Hl : length (take k data) = k) by (rewrite length_take; lia).
  assert (Hrk : room (tx s) (Z.of_nat (length (take k data)))) by (apply Hroom; lia).
  assert (Hr : ∃ r, push (fill (tx s) (end_ (tx s)) (take k data)) (Z.of_nat k) = Done r ∧
      wf r ∧ len r = len (tx s) ∧ contents r = contents (tx s) ++ take k data).
  { destruct (decide (k = O)) as [E|E].
    - rewrite E. cbn [take]. rewrite fill_nil, app_nil_r. by exists (tx s).
    - destruct (push_fill (tx s) (take k data) Hwf) as (r & H1 & H2); [lia|done|].
      rewrite Hl in H1. by exists r. }
  destruct Hr as (r & Hpush & Wr & Lr & Cr). exists r. split; [exact Hpush|].
  split; unfold in_flight in *; simpl.
  - done.
  - by rewrite Lr.
  - rewrite Cr. destruct (tx_state s) as [|m].
    + rewrite drop_0 in *. by rewrite app_assoc, Hfifo.
    + destruct Hst as (Hm & _ & _ & Hc & _ & _).
      destruct (pop_buf_run (tx s) Hwf) as (_ & _ & _ & _ & _ & (rest & Hrest) & _).
      rewrite drop_app_le by (rewrite Hrest, length_app; lia). by rewrite app_assoc, Hfifo.
  - destruct (tx_state s) as [|m]; [done|]. destruct Hst as (Hm & Hst).
    assert (Hpush' : push (fill (tx s) (end_ (tx s)) (take k data))
      (Z.of_nat (length (take k data))) = Done r) by (by rewrite Hl).
    destruct (empty (tx s)) eqn:Hem.
    { unfold peeked in Hm. rewrite Hem in Hm. simpl in Hm. lia. }
    destruct (push_keeps_front (tx s) (take k data) r Hwf Hem Hrk Hpush') as [Es Hpk].
    rewrite Es. split; [lia|done].
Qed.

Lemma RxInv_consume s rcv dlv (j : nat) : RxInv s rcv dlv → (j ≤ length (peeked (rx s)))%nat →
  ∃ r, pop (rx s) (Z.of_nat j) = Done r ∧ len r = len (rx s) ∧
    RxInv (with_rx r (rx_state s) (rx_waker s) s) rcv (dlv ++ take j (peeked (rx s))).
Proof.
  intros I Hj. pose proof I as [Hwf Hfifo Hst].
  destruct (pop_run (rx s) j Hwf Hj) as (r & Hpop & Wr & Lr & Cr). exists r. split; [done|]. split; [done|].
  destruct (pop_buf_run (rx s) Hwf) as (_ & _ & _ & _ & _ & (rest & Hrest) & _).
  assert (Hsplit : take j (peeked (rx s)) ++ contents r = contents (rx s)).
  { rewrite Cr, Hrest, drop_app_le by done. by rewrite app_assoc, take_drop. }
  unfold landed in Hfifo. split; unfold landed; simpl.
  - done.
  - rewrite <-Hfifo, <-Hsplit, <-!app_assoc. do 3 f_equal.
    destruct (rx_state s); [done|]. destruct Hst as (_ & Hc & Hroom & _ & _).
    destruct (pop_room (rx s) j r 0 Hwf Hj Hpop ltac:(lia)) as (_ & _ & ->); [apply Hroom; lia|done].
  - destruct (rx_state s); [done|]. destruct Hst as (Hp & Hc & Hroom & He & Hpos & Hrun).
    assert (Hpr : ∀ k, 0 ≤ k ≤ rxd_maxcnt (uarte s) → room r k ∧ end_ r = end_ (rx s) ∧ buf r = buf (rx s)).
    { intros k Hk. apply (pop_room (rx s) j r k Hwf Hj Hpop); [lia|]. apply Hroom. lia. }
    rewrite Lr. destruct (Hpr 0 ltac:(lia)) as (Hr0 & -> & _). split_and!; try done; try lia.
    intros k Hk. destruct (decide (0 ≤ k)) as [?|Hneg]; [by apply Hpr|].
    revert Hr0. unfold room. case_bool; [intros [? ?]|]; repeat split; try done; lia.
Qed.

(** ** The driver in use *)

(** A task writes; the reader asks for bytes; it consumes up to [max] of those it was
    shown; the interrupt handler runs; the DMA sends a byte; a byte arrives; the line
    goes idle. *)
Inductive BOp : Type :=
| BWrite (task : Z) (data : list Z)
| BFill (task : Z)
| BConsume (max : nat)
| BIrq
| BHwTx
| BHwRx (b : Z)
| BHwIdle.

(** The driver, the bytes its writers were told were taken, the bytes on the wire, the
    bytes the DMA received, those the readers consumed, and the slice the reader was
    shown and has not consumed yet. *)
Record Sys : Type := mkSys {
  dev : PeripheralMutex State; accepted : list Z; wire : list Z;
  incoming : list Z; delivered : list Z; lent : list Z
}.
Definition dstate (y : Sys) : State := state (dev y).
Definition set_dstate (s : State) (m : PeripheralMutex State) : PeripheralMutex State :=
  mkPM s (irq_setup_done m) (irq m).

Definition bstep (addr : Z) (op : BOp) (y : Sys) : Res Sys :=
  match op with
  | BWrite task data =>
      Some ('(r, _, m) ← poll_write addr (Waker.from_task task) data (dev y);
            Done (mkSys m (accepted y ++ match r with Ready (Ok k) => take k data | _ => [] end)
                    (wire y) (incoming y) (delivered y) (lent y)))
  | BFill task =>
      Some ('(r, _, m) ← poll_fill_buf addr (Waker.from_task task) (dev y);
            Done (mkSys m (accepted y) (wire y) (incoming y) (delivered y)
                    match r with Ready (Ok b) => b | _ => [] end))
  | BConsume max =>
      let amt := take max (lent y) in
      Some ('(_, m) ← consume addr (length amt) (dev y);
            Done (mkSys m (accepted y) (wire y) (incoming y) (delivered y ++ amt) []))
  | BIrq =>
      match on_interrupt w (dstate y) with
      | Some (Done (_, s)) =>
          Some (Done (mkSys (set_dstate s (dev y)) (accepted y) (wire y) (incoming y) (delivered y) (lent y)))
      | Some Panic => Some Panic
      | None => None
      end
  | BHwTx =>
      Some (Done match hw_tx (dstate y) with
                 | Some (b, s) => mkSys (set_dstate s (dev y)) (accepted y) (wire y ++ [b])
                                    (incoming y) (delivered y) (lent y)
                 | None => y end)
  | BHwRx b =>
      Some (Done match hw_rx b (dstate y) with
                 | Some s => mkSys (set_dstate s (dev y)) (accepted y) (wire y)
                               (incoming y ++ [b]) (delivered y) (lent y)
                 | None => y end)
  | BHwIdle =>
      Some (Done (mkSys (set_dstate (hw_idle (dstate y)) (dev y)) (accepted y) (wire y)
                    (incoming y) (delivered y) (lent y)))
  end.

Fixpoint brun (addr : Z) (ops : list BOp) (y : Sys) : Res Sys :=
  match ops with
  | [] => Some (Done y)
  | op :: ops' => match bstep addr op y with
                  | Some (Done y') => brun addr ops' y'
                  | other => other end
  end.

Definition BInv (N : Z) (y : Sys) : Prop :=
  TxInv (dstate y) (accepted y) (wire y) ∧ RxInv (dstate y) (incoming y) (delivered y) ∧
  len (rx (dstate y)) = N ∧ lent y `prefix_of` peeked (rx (dstate y)).

Lemma with_inner_run {R} addr (f : State → Irq Fn → outcome (R * State * Irq Fn)) m
    (Q : R → State → Prop) :
  (∀ i, ∃ r s i', f (state m) i = Done (r, s, i') ∧ Q r s) →
  ∃ r m', with_inner addr f m = Done (r, m') ∧ Q r (state m').
Proof.
  intros H. unfold with_inner, with_state.
  assert (Es : state (register_interrupt addr m) = state m)
    by (unfold register_interrupt; by destruct (irq_setup_done m)).
  rewrite Es. destruct (H (disable (irq (register_interrupt addr m)))) as (r & s & i' & -> & HQ).
  cbn [mbind outcome_bind]. by eexists _, _.
Qed.

Lemma BInv_write N addr y task data : BInv N y →
  ∃ y', bstep addr (BWrite task data) y = Some (Done y') ∧ BInv N y'.
Proof.
  intros (It & Ir & HN & Hl). unfold bstep.
  assert (∃ r m, poll_write addr (Waker.from_task task) data (dev y) = Done (r, m) ∧
    TxInv (state m) (accepted y ++ match fst r with Ready (Ok k) => take k data | _ => [] end) (wire y) ∧
    RxInv (state m) (incoming y) (delivered y) ∧ rx (state m) = rx (dstate y)) as ([r ws] & m & E & It' & Ir' & Hx).
  - apply (with_inner_run addr _ (dev y) (λ r s,
      TxInv s (accepted y ++ match fst r with Ready (Ok k) => take k data | _ => [] end) (wire y) ∧
      RxInv s (incoming y) (delivered y) ∧ rx s = rx (dstate y))).
    intros i. destruct (push_buf_run (tx (dstate y)) (ti_wf _ _ _ It)) as (off & n & Hp & _).
    unfold dstate in Hp. rewrite Hp. cbn [mbind outcome_bind]. destruct (Z.eqb_spec n 0) as [->|Hn].
    + destruct (register_from_task (tx_waker (state (dev y))) task) as (ws & k & ->).
      cbn [mbind outcome_bind]. eexists _, _, _. split; [done|]. simpl. rewrite app_nil_r.
      split; [by eapply TxInv_frame|split; [by eapply RxInv_frame|done]].
    + destruct (TxInv_write _ _ _ off n data It Hp Hn) as (r & Hr & It').
      unfold dstate in Hr. rewrite Hr. cbn [mbind outcome_bind]. eexists _, _, _. split; [done|].
      split; [exact It'|split; [by eapply RxInv_frame|done]].
  - rewrite E. cbn [mbind outcome_bind]. eexists. split; [done|]. split_and!; [exact It'|exact Ir'|..];
      unfold dstate; cbn [dev lent]; by rewrite Hx.
Qed.

Lemma BInv_fill N addr y task : BInv N y →
  ∃ y', bstep addr (BFill task) y = Some (Done y') ∧ BInv N y'.
Proof.
  intros (It & Ir & HN & _). unfold bstep.
  destruct (pop_buf_run (rx (dstate y)) (ri_wf _ _ _ Ir)) as (off & n & Hp & Hsl & Hl & _).
  assert (∃ r m, poll_fill_buf addr (Waker.from_task task) (dev y) = Done (r, m) ∧
    TxInv (state m) (accepted y) (wire y) ∧ RxInv (state m) (incoming y) (delivered y) ∧
    len (rx (state m)) = N ∧
    match fst r with Ready (Ok b) => b = peeked (rx (state m)) | _ => True end)
    as ([r ws] & m & E & It1 & Ir1 & HN1 & Hb).
  - apply (with_inner_run addr _ (dev y) (λ r s,
      TxInv s (accepted y) (wire y) ∧ RxInv s (incoming y) (delivered y) ∧ len (rx s) = N ∧
      match fst r with Ready (Ok b) => b = peeked (rx s) | _ => True end)).
    intros i. unfold dstate in Hp. rewrite Hp. cbn [mbind outcome_bind].
    destruct (Z.eqb_spec n 0) as [->|Hn]; cbn [negb].
    + destruct (register_from_task (rx_waker (state (dev y))) task) as (ws & k & ->).
      cbn [mbind outcome_bind]. eexists _, _, _. split; [done|].
      split; [by eapply TxInv_frame|split; [by eapply RxInv_frame|done]].
    + eexists _, _, _. split; [done|]. done.
  - rewrite E. cbn [mbind outcome_bind]. eexists. split; [done|]. split_and!; [exact It1|exact Ir1|exact HN1|].
    unfold dstate. cbn [dev lent]. destruct r as [[b|]|]; simpl in Hb; [by rewrite Hb|apply prefix_nil..].
Qed.

Lemma BInv_consume N addr y max : BInv N y →
  ∃ y', bstep addr (BConsume max) y = Some (Done y') ∧ BInv N y'.
Proof.
  intros (It & Ir & HN & Hl). unfold bstep. set (amt := take max (lent y)).
  assert (Hamt : amt `prefix_of` peeked (rx (dstate y))).
  { etrans; [|exact Hl]. exists (drop max (lent y)). unfold amt. by rewrite take_drop. }
  pose proof (prefix_length _ _ Hamt) as Hle. 
  assert (Htk : take (length amt) (peeked (rx (dstate y))) = amt)
    by (destruct Hamt as [rest ->]; by rewrite take_app_length).
  destruct (RxInv_consume (dstate y) _ _ (length amt) Ir Hle) as (q & Hq & HNq & Ir2).
  assert (∃ r m2, consume addr (length amt) (dev y) = Done (r, m2) ∧
    TxInv (state m2) (accepted y) (wire y) ∧
    RxInv (state m2) (incoming y) (delivered y ++ amt) ∧ len (rx (state m2)) = N)
    as ([] & m2 & E2 & It2 & Ir2' & HN2).
  - apply (with_inner_run addr _ (dev y) (λ _ s, TxInv s (accepted y) (wire y) ∧
      RxInv s (incoming y) (delivered y ++ amt) ∧ len (rx s) = N)).
    intros i. unfold dstate in Hq. rewrite Hq. cbn [mbind outcome_bind]. eexists _, _, _. split; [done|].
    split; [by eapply TxInv_frame|]. rewrite Htk in Ir2. split; [exact Ir2|].
    simpl. by rewrite HNq.
  - rewrite E2. cbn [mbind outcome_bind]. eexists. split; [done|].
    split_and!; [exact It2|exact Ir2'|exact HN2|apply prefix_nil].
Qed.

Lemma BInv_step N addr op y : 0 ≤ w → BInv N y →
  ∃ y', bstep addr op y = Some (Done y') ∧ BInv N y'.
Proof.
  intros Hw I. destruct op as [task data|task|max| | |b|];
    [by apply BInv_write|by apply BInv_fill|by apply BInv_consume|..];
    destruct I as (It & Ir & HN & Hl); unfold bstep.
  - destruct (handler_run _ _ _ _ _ Hw It Ir) as (ws & s' & -> & It' & Ir' & _ & _ & [HN' Hpk] & _).
    eexists. split; [done|]. split; [exact It'|]. split; [exact Ir'|]. split; by etrans.
  - eexists. split; [done|]. destruct (hw_tx (dstate y)) as [[b s]|] eqn:E; [|by split].
    split; [exact (tx_byte _ _ _ _ _ It E)|].
    assert (Hs : same_rx (dstate y) s)
      by (unfold hw_tx in E; destruct (_ && _); [|done]; by injection E as _ <-).
    destruct Hs as (A1 & A2 & A3 & A4 & A5 & A6 & A7 & A8). split; [by eapply RxInv_frame|].
    unfold dstate. simpl. by rewrite A1.
  - eexists. split; [done|]. destruct (hw_rx b (dstate y)) as [s|] eqn:E; [|by split].
    destruct (rx_byte _ _ _ _ _ Ir E) as [Ir' [HN' Hpk]]. split_and!; [|exact Ir'|by etrans|by etrans].
    eapply TxInv_frame; [exact It|..];
      unfold hw_rx in E; destruct (_ && _); try done; by injection E as <-.
  - eexists. split; [done|]. destruct (rx_idle_line _ _ _ Ir) as [Ir' [HN' Hpk]].
    split_and!; [|exact Ir'|by etrans|by etrans].
    eapply TxInv_frame; [exact It|..]; simpl; unfold hw_idle; by destruct (_ && _).
Qed.

Lemma BInv_run N addr ops : ∀ y, 0 ≤ w → BInv N y →
  ∃ y', brun addr ops y = Some (Done y') ∧ BInv N y'.
Proof.
  induction ops as [|op ops IH]; intros y Hw I; [by exists y|].
  destruct (BInv_step N addr op y Hw I) as (y1 & E1 & I1). cbn [brun]. rewrite E1. by apply IH.
Qed.

(** After the handler, the transmitter has nothing to do or can go on. *)
Lemma tx_not_stalled s acc wr : TxInv s acc wr → tx_busy s →
  contents (tx s) = [] ∨ hw_tx s ≠ None.
Proof.
  unfold tx_busy. intros [_ _ _ Hst] Hb. destruct (tx_state s) as [|n]; [by left|right].
  destruct Hst as (_ & Hm & _ & Hc & Hrun & He).
  unfold hw_tx. rewrite Hb in He. destruct (tx_running (uarte s)); [|done].
  by rewrite Hm, <-Hrun.
Qed.

(** The length of a slice that is a multiple of the register's range is written as 0. *)
Lemma first_reception_empty addr rx_buffer tx_buffer (i : Irq Fn) :
  0 ≤ w → Z.of_nat (length rx_buffer) < 2 ^ 31 → Z.of_nat (length tx_buffer) < 2 ^ 31 →
  rx_buffer ≠ [] → Z.of_nat (length rx_buffer) mod 2 ^ w = 0 →
  let s0 := mkState Uarte_new (RingBuffer.new rx_buffer) RxIdle WakerTask.new
    (RingBuffer.new tx_buffer) TxIdle WakerTask.new in
  ∃ y1, bstep addr BIrq (mkSys (PeripheralMutex_new s0 i) [] [] [] [] []) = Some (Done y1) ∧
    rx_state (dstate y1) = Receiving ∧ contents (rx (dstate y1)) = [] ∧
    ∀ b, hw_rx b (dstate y1) = None.
Proof.
  intros Hw Hr Ht Hne Hm s0. unfold bstep, dstate. cbn [dev PeripheralMutex_new state]. unfold on_interrupt.
  assert (E1 : rx_loop w 2 [] s0 = Some (Done ([], with_uarte (start_rx 0 0 Uarte_new)
    (with_rx (rx s0) Receiving WakerTask.new s0)))).
  { cbn [rx_loop rx_state s0]. unfold push_buf. simpl. unfold len. simpl.
    rewrite !arith32 by lia. simpl. rewrite arith32 by lia. simpl.
    rewrite (proj2 (Z.leb_le _ _)) by lia. simpl.
    destruct (Z.eqb_spec (Z.of_nat (length rx_buffer) - 0) 0) as [E|_].
    { destruct rx_buffer; [done|simpl in E; lia]. }
    unfold wrap. by rewrite Z.sub_0_r, Hm. }
  rewrite E1. eexists. split; [done|]. split_and!; done.
Qed.
End proofs.

Arguments BOp : clear implicits.

(** ** Properties *)

(** C27: with a transmit buffer whose length fits the MAXCNT register, under any
    interleaving of tasks, interrupts and DMA nothing panics, and no byte is lost,
    duplicated or reordered: what was sent followed by what is queued and not sent
    yet is what writers were told was taken, and what readers consumed followed by
    what is queued and what the transfer in progress has stored is what arrived; the
    slice a reader was shown stays the front of the queue until it is consumed, although
    interrupts and DMA come in between.  After the handler has run the driver does not stall: the
    transmit queue is empty or its next byte can be sent, and, if the length of the receive
    buffer fits the register too, the receive queue is full or the next byte that arrives
    is stored.  If that length is a multiple of the register's range instead, such as 256
    with 8 bits, the first reception has no room for any byte. *)
Theorem buffered_uarte_lossless {P : Profile} w baudrate rts cts rx_buffer tx_buffer i0 t h m0
    addr (ops : list BOp) :
  0 ≤ w → Z.of_nat (length rx_buffer) < 2 ^ 31 →
  Z.of_nat (length tx_buffer) < 2 ^ 31 → Z.of_nat (length tx_buffer) < 2 ^ w →
  BufferedUarte_new baudrate rts cts rx_buffer tx_buffer i0 = Done (t, h, m0) →
  let y0 := mkSys m0 [] [] [] [] [] in
  (∃ y, brun w addr ops y0 = Some (Done y) ∧
    wire y ++ drop (in_flight (dstate y)) (contents (tx (dstate y))) = accepted y ∧
    delivered y ++ contents (rx (dstate y)) ++ landed (dstate y) = incoming y ∧
    lent y `prefix_of` contents (rx (dstate y)) ∧
    ∃ y', bstep w addr BIrq y = Some (Done y') ∧
      (contents (tx (dstate y')) = [] ∨ hw_tx (dstate y') ≠ None) ∧
      (Z.of_nat (length rx_buffer) < 2 ^ w →
       length (contents (rx (dstate y'))) = length rx_buffer ∨
       ∀ b, hw_rx b (dstate y') ≠ None)) ∧
  (rx_buffer ≠ [] → Z.of_nat (length rx_buffer) mod 2 ^ w = 0 →
   ∃ y1, bstep w addr BIrq y0 = Some (Done y1) ∧ rx_state (dstate y1) = Receiving ∧
     contents (rx (dstate y1)) = [] ∧ ∀ b, hw_rx b (dstate y1) = None).
Proof.
  intros Hw Hr Ht Htw Hnew. unfold BufferedUarte_new in Hnew.
  apply bind_Done in Hnew as (hw & _ & Hnew). apply bind_Done in Hnew as (tt' & _ & Hnew).
  injection Hnew as <- <- <-. intros y0.
  assert (I0 : BInv w (Z.of_nat (length rx_buffer)) y0).
  { split_and!; [split; try done; by apply new_wf|split; try done; by apply new_wf|done|done]. }
  split; [|intros; by apply first_reception_empty].
  destruct (BInv_run w _ addr ops _ Hw I0) as (y & E & It & Ir & HN & Hl). exists y. split; [exact E|].
  split; [exact (ti_fifo _ _ _ _ It)|]. split; [exact (ri_fifo _ _ _ _ Ir)|].
  split. { etrans; [exact Hl|]. destruct (pop_buf_run (rx (dstate y)) (ri_wf _ _ _ _ Ir))
    as (_ & _ & _ & _ & _ & (rest & ->) & _). by exists rest. }
  destruct (handler_run w _ _ _ _ _ Hw It Ir) as (ws & s' & Eh & It' & Ir' & Hb & Hb' & [HN' _] & _).
  unfold bstep. rewrite Eh. eexists. split; [done|]. unfold dstate. cbn [dev set_dstate state].
  split; [by apply (tx_not_stalled w s' (accepted y) (wire y))|].
  intros Hfit. unfold rx_busy in Hb'. destruct (rx_state s'); [left; lia|right].
  apply Hb'. lia.
Qed.

Lemma buffered_uarte_lossless_witness :
  let _ : Profile := true in
  let ops := [BWrite 1 [1; 2; 3]; BIrq; BHwTx; BWrite 1 [4; 5]; BHwRx 9; BHwTx; BHwTx; BIrq; BHwTx;
              BHwIdle; BIrq; BFill 2; BHwRx 8; BHwIdle; BIrq; BConsume 5] in
  (∃ t h m0 y, BufferedUarte_new 0x01D60000 false false [0; 0; 0] [0; 0; 0; 0] Irq_new = Done (t, h, m0) ∧
    brun 8 1 ops (mkSys m0 [] [] [] [] []) = Some (Done y) ∧
    wire y = [1; 2; 3; 4] ∧ accepted y = [1; 2; 3; 4] ∧ delivered y = [9] ∧ incoming y = [9; 8]) ∧
  (∃ t h m0 y1, BufferedUarte_new 0x01D60000 false false (replicate 256 0) [0] Irq_new = Done (t, h, m0) ∧
    bstep 8 1 BIrq (mkSys m0 [] [] [] [] []) = Some (Done y1) ∧ hw_rx 7 (dstate y1) = None).
Proof.
  intros pr ops. split.
  - eexists _, _, _.
    destruct (buffered_uarte_lossless (P := pr) 8 0x01D60000 false false [0; 0; 0] [0; 0; 0; 0] Irq_new
      _ _ _ 1 ops ltac:(lia) eq_refl eq_refl eq_refl eq_refl) as [(y & E & _) _].
    exists y. split; [reflexivity|]. split; [exact E|]. vm_compute in E. by injection E as <-.
  - eexists _, _, _.
    destruct (buffered_uarte_lossless (P := pr) 8 0x01D60000 false false (replicate 256 0) [0] Irq_new
      _ _ _ 1 [] ltac:(lia) eq_refl eq_refl eq_refl eq_refl) as [_ H].
    destruct H as (y1 & E & _ & _ & Hb); [done|done|].
    exists y1. split; [reflexivity|]. split; [exact E|apply Hb].
Defined.

(** MAXCNT is written with the low [w] bits of the slice's length but the handler
    counts the whole slice as sent: from a queue that shows [2^w] bytes or more,
    only the low bits' worth is transmitted and the rest is dropped.  With 8 bits,
    of 300 bytes accepted 44 reach the wire and none is left. *)
Theorem uarte_maxcnt_truncates {P : Profile} w s l :
  0 ≤ w → wf (tx s) → tx_state s = TxIdle →
  l = Z.of_nat (length (peeked (tx s))) → 2 ^ w ≤ l →
  (∃ s1, tx_loop w 2 [] s = Some (Done ([], s1)) ∧ tx s1 = tx s ∧
     tx_state s1 = Transmitting l ∧ txd_maxcnt (uarte s1) = l mod 2 ^ w ∧
     txd_maxcnt (uarte s1) < l ∧
     ∀ s2, tx s2 = tx s1 → tx_state s2 = tx_state s1 → events_endtx (uarte s2) = true →
       ∃ ws s3, tx_loop w 2 [] s2 = Some (Done (ws, s3)) ∧
         contents (tx s3) = drop (Z.to_nat l) (contents (tx s))) ∧
  (∃ y, brun 8 1 ([BWrite 1 (replicate 300 7); BIrq] ++ replicate 44 BHwTx ++ [BIrq])
      (mkSys (PeripheralMutex_new (mkState Uarte_new (RingBuffer.new []) RxIdle None
         (RingBuffer.new (replicate 400 0)) TxIdle None) Irq_new) [] [] [] [] []) = Some (Done y) ∧
    length (accepted y) = 300%nat ∧ length (wire y) = 44%nat ∧ contents (tx (dstate y)) = [] ∧
    hw_tx (dstate y) = None).
Proof.
  intros Hw Hwf Es Hl Hbig. assert (Hp2 : 0 < 2 ^ w) by (apply Z.pow_pos_nonneg; lia).
  split.
  - destruct (pop_buf_run (tx s) Hwf) as (off & n & Hpop & Hsl & Hln & _).
    assert (n = l) as -> by lia.
    cbn [tx_loop]. rewrite Es, Hpop. cbn [res_bind].
    destruct (Z.eqb_spec l 0); [lia|]. eexists. split; [done|]. simpl.
    split_and!; try done; [unfold wrap; pose proof (Z.mod_pos_bound l (2 ^ w)); lia|].
    intros s2 Et Est He. cbn [tx_loop]. rewrite Est, He, Et.
    destruct (pop_run (tx s) (Z.to_nat l) Hwf) as (r & Hpr & Wr & _ & Hcon); [lia|].
    rewrite Z2Nat.id in Hpr by lia. rewrite Hpr. cbn [res_bind].
    destruct (WakerTask.wake (tx_waker s2)) as [ws k].
    destruct (pop_buf_run r Wr) as (off2 & n2 & Hpop2 & _). simpl. rewrite Hpop2. cbn [res_bind].
    destruct (n2 =? 0); by eexists _, _.
  - eexists. split; [vm_compute; reflexivity|]. by vm_compute.
Qed.

Lemma uarte_maxcnt_truncates_witness :
  let _ : Profile := true in
  let s := mkState Uarte_new (RingBuffer.new []) RxIdle None (mkRing [1; 2; 3; 4; 5] 0 0 false)
             TxIdle None in
  length (peeked (tx s)) = 5%nat ∧
  ∃ s1, tx_loop 2 2 [] s = Some (Done ([], s1)) ∧ txd_maxcnt (uarte s1) = 1.
Proof.
  intros pr s. split; [done|].
  assert (W : wf (tx s)) by (split; unfold len; simpl; lia || done).
  destruct (uarte_maxcnt_truncates (P := pr) 2 s 5 ltac:(lia) W eq_refl eq_refl ltac:(done))
    as [(s1 & E & _ & _ & Hm & _) _].
  exists s1. split; [exact E|exact Hm].
Defined.

(** ** Dropping the driver *)

Lemma drop_env_silent a s s' ev : drop_env a s = Some (s', ev) → ev = false.
Proof.
  destruct a; simpl; try congruence; [destruct (hw_tx s)|destruct (hw_rx b s)]; simpl; congruence.
Qed.

(** [State::drop] waits for an interrupt that cannot come.  If the transfer has ended
    when the loop looks for the first time, the loop exits; if it has not, the processor
    executes WFE with the event register clear and never wakes up, whatever the hardware
    does, even after the transfer has ended. *)
Theorem buffered_drop_sleeps s c : rx_state s = Receiving → drop_rx false s = Some c →
  (rx_ended s = true → ∃ c', cpu_step rx_ended c = Some c' ∧ pc c' = Exited) ∧
  (rx_ended s = false →
   (∃ c', wait_run rx_ended drop_env [Step; Env HStopRx] c = Some c' ∧
      (rx_running (uarte s) = true → rx_ended (mach c') = true)) ∧
   ∀ acts c', wait_run rx_ended drop_env (Step :: acts) c = Some c' → pc c' = AtWfe).
Proof.
  intros Hs. unfold drop_rx. rewrite Hs. intros [= <-].
  assert (E : rx_ended (drop_begin s) = rx_ended s) by done.
  unfold low_power_wait_until. cbn [wait_run wait_step cpu_step pc mach].
  unfold cpu_step. cbn [pc mach event]. rewrite E. split; intros Hend; rewrite Hend.
  - by eexists.
  - split.
    + eexists. split; [done|]. simpl. by intros ->.
    + intros acts c' Hr. cbn [mbind option_bind] in Hr.
      by eapply (asleep_forever _ _ drop_env_silent); [| |exact Hr].
Qed.

Lemma buffered_drop_sleeps_witness :
  let s := with_uarte (start_rx 0 2 Uarte_new)
    (mkState Uarte_new (RingBuffer.new [0; 0]) Receiving None (RingBuffer.new [0]) TxIdle None) in
  ∃ c, drop_rx false s = Some c ∧
  ∃ c', wait_run rx_ended drop_env [Step; Env HStopRx] c = Some c' ∧
    rx_ended (mach c') = true ∧ pc c' = AtWfe.
Proof.
  intros s. eexists. split; [reflexivity|].
  destruct (proj2 (buffered_drop_sleeps s _ eq_refl eq_refl) eq_refl) as [(c' & Hr & He) Hf].
  exists c'. split; [exact Hr|split; [exact (He eq_refl)|exact (Hf _ _ Hr)]].
Defined.
