(* ===== verification/Uarte.v ===== *)
(** * Uarte: transfers by DMA, and taking them back

    [embassy-nrf/src/uarte.rs].  A read or a write lends its buffer to the DMA for as
    long as its future lives; a future that is dropped stops the transfer and spins
    until the hardware has let go of the buffer, and dropping the driver sleeps until
    the receiver and the transmitter have stopped.  The two directions have the same
    code but for the names of the registers: a [Chan] has the registers of one. *)
From stdpp Require Import functions.
From S2P Require Import Prelude Interrupt Sync LowPower EasyDma.
Local Open Scope Z_scope.

Inductive Dir : Set := Rx | Tx.
#[export] Instance Dir_eq_dec : EqDecision Dir.
Proof. solve_decision. Defined.

(** ** The peripheral *)

(** Where a transfer is: none; triggered, the STARTED event to come; in progress. *)
Inductive Phase : Set := Idle | Starting | Running.
#[export] Instance Phase_eq_dec : EqDecision Phase.
Proof. solve_decision. Defined.
(** Where a triggered STOP is: none or done; with a transfer to end first; with only the
    event that reports it to come. *)
Inductive Stop : Set := NoStop | StopTransfer | StopTail.
#[export] Instance Stop_eq_dec : EqDecision Stop.
Proof. solve_decision. Defined.

(** RXD or TXD: PTR and MAXCNT, the events ENDRX/ENDTX, RXSTARTED/TXSTARTED and
    RXTO/TXSTOPPED, the bits of INTEN for the first and the last; and the hardware's
    own: the phase, the bytes moved by the current transfer, the STOP. *)
Record Chan : Type := mkChan {
  ptr : Z; maxcnt : Z;
  ev_end : bool; ev_started : bool; ev_stopped : bool;
  int_end : bool; int_stopped : bool;
  phase : Phase; moved : list Z; stop : Stop
}.
Definition Chan_off : Chan := mkChan 0 0 false false false false false Idle [] NoStop.

(** [State]: the peripheral with the memory its DMA works on, and the two wakers;
    [woken] records the tasks woken by the handler since the last poll. *)
Record State : Type := mkState {
  rx : Chan; tx : Chan; enabled_ : bool;
  endrx_waker : WakerTask.AtomicWaker; endtx_waker : WakerTask.AtomicWaker;
  mem : Z → Z; woken : list Z
}.

Definition chan (d : Dir) (s : State) : Chan := match d with Rx => rx s | Tx => tx s end.
Definition set_chan (d : Dir) (c : Chan) (s : State) : State :=
  match d with
  | Rx => mkState c (tx s) (enabled_ s) (endrx_waker s) (endtx_waker s) (mem s) (woken s)
  | Tx => mkState (rx s) c (enabled_ s) (endrx_waker s) (endtx_waker s) (mem s) (woken s)
  end.
Definition waker (d : Dir) (s : State) : WakerTask.AtomicWaker :=
  match d with Rx => endrx_waker s | Tx => endtx_waker s end.
Definition set_waker (d : Dir) (k : WakerTask.AtomicWaker) (s : State) : State :=
  match d with
  | Rx => mkState (rx s) (tx s) (enabled_ s) k (endtx_waker s) (mem s) (woken s)
  | Tx => mkState (rx s) (tx s) (enabled_ s) (endrx_waker s) k (mem s) (woken s)
  end.
Definition set_woken (l : list Z) (s : State) : State :=
  mkState (rx s) (tx s) (enabled_ s) (endrx_waker s) (endtx_waker s) (mem s) l.
Definition set_mem (m : Z → Z) (s : State) : State :=
  mkState (rx s) (tx s) (enabled_ s) (endrx_waker s) (endtx_waker s) m (woken s).
Definition set_enabled (b : bool) (s : State) : State :=
  mkState (rx s) (tx s) b (endrx_waker s) (endtx_waker s) (mem s) (woken s).

(** Writes to the registers of one direction. *)
Definition set_int_end (b : bool) (c : Chan) : Chan :=
  mkChan (ptr c) (maxcnt c) (ev_end c) (ev_started c) (ev_stopped c) b (int_stopped c)
    (phase c) (moved c) (stop c).
Definition set_int_stopped (b : bool) (c : Chan) : Chan :=
  mkChan (ptr c) (maxcnt c) (ev_end c) (ev_started c) (ev_stopped c) (int_end c) b
    (phase c) (moved c) (stop c).
Definition reset_end (c : Chan) : Chan :=
  mkChan (ptr c) (maxcnt c) false (ev_started c) (ev_stopped c) (int_end c) (int_stopped c)
    (phase c) (moved c) (stop c).
Definition reset_started (c : Chan) : Chan :=
  mkChan (ptr c) (maxcnt c) (ev_end c) false (ev_stopped c) (int_end c) (int_stopped c)
    (phase c) (moved c) (stop c).
Definition reset_stopped (c : Chan) : Chan :=
  mkChan (ptr c) (maxcnt c) (ev_end c) (ev_started c) false (int_end c) (int_stopped c)
    (phase c) (moved c) (stop c).
Definition set_dma (p n : Z) (c : Chan) : Chan :=
  mkChan p n (ev_end c) (ev_started c) (ev_stopped c) (int_end c) (int_stopped c)
    (phase c) (moved c) (stop c).
(** The tasks STARTRX/STARTTX and STOPRX/STOPTX. *)
Definition task_start (c : Chan) : Chan :=
  mkChan (ptr c) (maxcnt c) (ev_end c) (ev_started c) (ev_stopped c) (int_end c) (int_stopped c)
    Starting [] (stop c).
Definition task_stop (c : Chan) : Chan :=
  mkChan (ptr c) (maxcnt c) (ev_end c) (ev_started c) (ev_stopped c) (int_end c) (int_stopped c)
    (phase c) (moved c) (if decide (phase c = Idle) then StopTail else StopTransfer).

(** ** The hardware

    A transfer that was triggered starts; a byte moves while MAXCNT is not reached, to
    or from memory; at MAXCNT the transfer ends with its END event.  A STOP ends the
    transfer in progress, with its END event, and is reported last. *)
Inductive HStep : Set := HStarted | HByte (b : Z) | HEnd | HStop | HStopped.

Definition hw_phase (p : Phase) (started : bool) (c : Chan) : Chan :=
  mkChan (ptr c) (maxcnt c) (ev_end c) (started || ev_started c) (ev_stopped c) (int_end c)
    (int_stopped c) p (moved c) (stop c).
Definition hw_move (b : Z) (c : Chan) : Chan :=
  mkChan (ptr c) (maxcnt c) (ev_end c) (ev_started c) (ev_stopped c) (int_end c)
    (int_stopped c) (phase c) (moved c ++ [b]) (stop c).
Definition hw_ended (c : Chan) : Chan :=
  mkChan (ptr c) (maxcnt c) true (ev_started c) (ev_stopped c) (int_end c) (int_stopped c)
    Idle (moved c) (if decide (stop c = StopTransfer) then StopTail else stop c).
Definition hw_stopped (c : Chan) : Chan :=
  mkChan (ptr c) (maxcnt c) (ev_end c) (ev_started c) true (int_end c) (int_stopped c)
    (phase c) (moved c) NoStop.

(** The address of the next byte. *)
Definition cursor (c : Chan) : Z := ptr c + Z.of_nat (length (moved c)).

(** [v] is the byte that moves. *)
Definition hw_chan (h : HStep) (v : Z) (c : Chan) : option Chan :=
  match h with
  | HStarted => if decide (phase c = Starting) then Some (hw_phase Running true c) else None
  | HByte _ =>
      if decide (phase c = Running ∧ Z.of_nat (length (moved c)) < maxcnt c)
      then Some (hw_move v c) else None
  | HEnd =>
      if decide (phase c = Running ∧ Z.of_nat (length (moved c)) = maxcnt c)
      then Some (hw_ended c) else None
  | HStop => if decide (stop c = StopTransfer) then Some (hw_ended c) else None
  | HStopped => if decide (stop c = StopTail) then Some (hw_stopped c) else None
  end.

(** The receiver stores the bytes that arrive, the transmitter sends those of memory. *)
Definition hw_step (d : Dir) (h : HStep) (s : State) : option State :=
  let c := chan d s in
  let v := match d, h with Rx, HByte b => b | _, _ => mem s (cursor c) end in
  c' ← hw_chan h v c;
  Some match d, h with
       | Rx, HByte _ => set_mem (<[cursor c := v]> (mem s)) (set_chan d c' s)
       | _, _ => set_chan d c' s
       end.

(** ** The driver *)
Section driver.
Context (chip : Chip) (w : Z).

(** [new], on a peripheral that is disabled: what is configured, and the state. *)
Definition hardware_flow_control (rts cts : bool) : outcome bool :=
  match rts, cts with
  | false, false => Done false
  | true, true => Done true
  | _, _ => Panic
  end.
Definition Uarte_new (s : State) (rts cts : bool) (i : Irq Fn)
    : outcome (bool * PeripheralMutex State) :=
  _ ← assert (negb (enabled_ s));
  hwfc ← hardware_flow_control rts cts;
  let off c := reset_started (set_int_stopped false (set_int_end false c)) in
  let s1 := set_enabled true (set_chan Rx (off (rx s)) (set_chan Tx (off (tx s)) s)) in
  Done (hwfc, PeripheralMutex_new
    (set_waker Rx WakerTask.atomic_new (set_waker Tx WakerTask.atomic_new s1)) i).

(** [on_interrupt]. *)
Definition irq_end (d : Dir) (s : State) : State :=
  if ev_end (chan d s) then
    let '(ws, k) := WakerTask.atomic_wake (waker d s) in
    set_chan d (set_int_end false (chan d s)) (set_waker d k (set_woken (woken s ++ ws) s))
  else s.
Definition irq_stopped (d : Dir) (s : State) : State :=
  if ev_stopped (chan d s) then set_chan d (set_int_stopped false (chan d s)) s else s.
Definition on_interrupt (s : State) : State :=
  irq_stopped Tx (irq_stopped Rx (irq_end Tx (irq_end Rx s))).

(** [read] and [write], up to the first await. *)
Definition transfer_begin (d : Dir) (p len : Z) (s : State) : outcome State :=
  _ ← assert (len <=? EASY_DMA_SIZE chip);
  let c1 := set_dma p (wrap w len) (chan d s) in
  let c2 := set_int_end true (reset_end c1) in
  Done (set_chan d (task_start c2) s).

(** The closure given to [poll_fn], in its two steps. *)
Definition poll_register (d : Dir) (cx : Waker.t) (s : State) : outcome State :=
  k ← WakerTask.atomic_register (waker d s) cx; Done (set_waker d k (set_woken [] s)).
Definition poll_check (d : Dir) (s : State) : Poll unit :=
  if ev_end (chan d s) then Ready tt else Pending.

(** After the await; and the closure of [OnDrop], up to its loop. *)
Definition transfer_finish (d : Dir) (s : State) : State :=
  set_chan d (reset_started (chan d s)) s.
Definition transfer_cancel (d : Dir) (s : State) : State :=
  set_chan d (task_stop (reset_stopped (set_int_end false (chan d s)))) s.

(** ** The driver in its environment

    Between any two steps the hardware goes on, and the interrupt is taken when it is
    raised. *)
Definition irq_raised (s : State) : bool :=
  ev_end (rx s) && int_end (rx s) || ev_end (tx s) && int_end (tx s) ||
  ev_stopped (rx s) && int_stopped (rx s) || ev_stopped (tx s) && int_stopped (tx s).

Inductive EnvStep : Set := EHw (d : Dir) (h : HStep) | EIrq.

Definition with_state (s : State) (m : PeripheralMutex State) : PeripheralMutex State :=
  mkPM s (irq_setup_done m) (irq m).
(** (Nothing here changes the handler's context, the state's address.) *)
Definition env_step (e : EnvStep) (m : PeripheralMutex State) : option (PeripheralMutex State) :=
  match e with
  | EHw d h => s ← hw_step d h (state m); Some (with_state s m)
  | EIrq =>
      if irq_raised (state m)
      then service on_interrupt (ctx (irq m)) (mkPM (state m) (irq_setup_done m) (pend (irq m)))
      else None
  end.
Fixpoint env_run (es : list EnvStep) (m : PeripheralMutex State)
    : option (PeripheralMutex State) :=
  match es with [] => Some m | e :: es' => m' ← env_step e m; env_run es' m' end.

(** [while events_end == 0 {}]: [None] when the steps given are over and the loop is
    not. *)
Fixpoint spin (d : Dir) (es : list EnvStep) (m : PeripheralMutex State)
    : option (PeripheralMutex State) :=
  if ev_end (chan d (state m)) then Some m
  else match es with [] => None | e :: es' => m' ← env_step e m; spin d es' m' end.

(** The future that borrows the driver, if any: not polled yet, or polled last by
    [task] and pending. *)
Inductive Fut : Type :=
| NoFut
| Created (d : Dir) (p len : Z)
| Waiting (d : Dir) (p len : Z) (task : Z).
Record Sys : Type := mkSys { per : PeripheralMutex State; fut : Fut }.
Definition ust (y : Sys) : State := state (per y).

(** What can happen: [read] or [write] is called, the future is polled or dropped, the
    environment acts.  A poll may be overtaken by the environment at two places. *)
Inductive Op : Type :=
| OCall (d : Dir) (p len : Z)
| OPoll (task : Z) (es1 es2 : list EnvStep)
| ODrop (es : list EnvStep)
| OEnv (e : EnvStep).

Definition poll_waiting (d : Dir) (p len task : Z) (es1 es2 : list EnvStep)
    (m : PeripheralMutex State) : option (outcome Sys) :=
  m1 ← env_run es1 m;
  match poll_register d (Waker.from_task task) (state m1) with
  | Panic => Some Panic
  | Done s =>
      m2 ← env_run es2 (with_state s m1);
      Some (Done match poll_check d (state m2) with
                 | Ready _ => mkSys (with_state (transfer_finish d (state m2)) m2) NoFut
                 | Pending => mkSys m2 (Waiting d p len task)
                 end)
  end.

Definition ustep (addr : Z) (op : Op) (y : Sys) : option (outcome Sys) :=
  match op, fut y with
  | OCall d p len, NoFut =>
      Some (Done (mkSys (Peripheral_register_interrupt addr (per y)) (Created d p len)))
  | OPoll task es1 es2, Created d p len =>
      match transfer_begin d p len (ust y) with
      | Panic => Some Panic
      | Done s => poll_waiting d p len task es1 es2 (with_state s (per y))
      end
  | OPoll task es1 es2, Waiting d p len _ => poll_waiting d p len task es1 es2 (per y)
  | ODrop es, Created _ _ _ => Some (Done (mkSys (per y) NoFut))
  | ODrop es, Waiting d _ _ _ =>
      m ← spin d es (with_state (transfer_cancel d (ust y)) (per y));
      Some (Done (mkSys m NoFut))
  | OEnv e, f => m ← env_step e (per y); Some (Done (mkSys m f))
  | _, _ => None
  end.
Fixpoint urun (addr : Z) (ops : list Op) (y : Sys) : option (outcome Sys) :=
  match ops with
  | [] => Some (Done y)
  | op :: ops' =>
      match ustep addr op y with Some (Done y') => urun addr ops' y' | other => other end
  end.

(** [Uarte::drop]: the interrupts are enabled, and the processor sleeps until what was
    started has stopped; then the peripheral is disabled. *)
Definition drop_begin (s : State) : State :=
  set_chan Tx (set_int_stopped true (tx s)) (set_chan Rx (set_int_stopped true (rx s)) s).
Definition drop_condition (did_stoprx did_stoptx : bool) (m : PeripheralMutex State) : bool :=
  negb (did_stoprx && negb (ev_stopped (rx (state m))) ||
        did_stoptx && negb (ev_stopped (tx (state m)))).
(** Taking an interrupt sets the processor's event register. *)
Definition drop_env (e : EnvStep) (m : PeripheralMutex State)
    : option (PeripheralMutex State * bool) :=
  m' ← env_step e m;
  Some (m', match e with EIrq => enabled (irq m) | EHw _ _ => false end).
Definition Uarte_drop (event : bool) (m : PeripheralMutex State)
    : bool * bool * Cpu (PeripheralMutex State) :=
  (ev_started (rx (state m)), ev_started (tx (state m)),
   low_power_wait_until event (with_state (drop_begin (state m)) m)).
Definition drop_end (m : PeripheralMutex State) : PeripheralMutex State :=
  with_state (set_enabled false (state m)) m.
End driver.
