(* ===== verification/UarteProofs.v ===== *)
(** * UarteProofs: the buffers come back

    The invariant of [Uarte]: the DMA runs only in the buffer of the future that
    borrows the driver, and what it does there. *)
From stdpp Require Import functions.
From S2P Require Import Prelude Interrupt Sync LowPower EasyDma Uarte.
Local Open Scope Z_scope.

Definition other (d : Dir) : Dir := match d with Rx => Tx | Tx => Rx end.

(** ** One direction *)

(** No transfer: what was started and not finished is stopped, or about to be. *)
Definition Quiet (c : Chan) : Prop :=
  phase c = Idle ∧ stop c ≠ StopTransfer ∧
  (ev_started c = true → ev_stopped c = true ∨ stop c = StopTail).

(** The transfer of a buffer at [p]. *)
Record Active (p len : Z) (c : Chan) : Prop := {
  ac_ptr : ptr c = p;
  ac_maxcnt : maxcnt c = len;
  ac_moved : Z.of_nat (length (moved c)) ≤ len;
  ac_stop : stop c ≠ StopTransfer;
  ac_running : ev_end c = false → phase c ≠ Idle;
  ac_ended : ev_end c = true → phase c = Idle ∧ Z.of_nat (length (moved c)) = len;
  ac_int : int_end c = true ∨ ev_end c = true
}.

(** The same while it is being cancelled. *)
Record Cancelling (p len : Z) (c : Chan) : Prop := {
  ca_ptr : ptr c = p;
  ca_maxcnt : maxcnt c = len;
  ca_moved : Z.of_nat (length (moved c)) ≤ len;
  ca_running : phase c ≠ Idle ↔ stop c = StopTransfer;
  ca_end : phase c ≠ Idle ↔ ev_end c = false;
  ca_started : ev_started c = true → ev_stopped c = true ∨ stop c ≠ NoStop
}.

(** Splits a step of the hardware on a direction with all its registers. *)
Ltac hw_cases h c :=
  destruct c as [? ? [] ? ? [] ? [] ? []]; destruct h; simpl in *;
  try case_decide; simplify_eq; try done.

Lemma hw_chan_quiet h v c c' : Quiet c → hw_chan h v c = Some c' → Quiet c'.
Proof.
  intros (Hp & Hs & Hd) Hh. unfold Quiet. hw_cases h c; naive_solver.
Qed.

Lemma hw_chan_active h v p len c c' : Active p len c → hw_chan h v c = Some c' → Active p len c'.
Proof.
  intros [H1 H2 H3 H4 H5 H6 H7] Hh.
  hw_cases h c; split; simpl; rewrite ?length_app; simpl; naive_solver lia.
Qed.

Lemma hw_chan_cancelling h v p len c c' :
  Cancelling p len c → hw_chan h v c = Some c' → Cancelling p len c'.
Proof.
  intros [H1 H2 H3 H4 H5 H6] Hh.
  hw_cases h c; split; simpl; rewrite ?length_app; simpl; naive_solver lia.
Qed.

(** ** The peripheral *)

Inductive Mode : Type :=
| MNone
| MActive (d : Dir) (p len : Z)
| MCancel (d : Dir) (p len : Z).

(** The bytes moved so far are those of the buffer. *)
Definition mem_ok (d : Dir) (p : Z) (s : State) : Prop :=
  ∀ i b, moved (chan d s) !! i = Some b → mem s (p + Z.of_nat i) = b.

Definition SInv (mode : Mode) (s : State) : Prop :=
  match mode with
  | MNone => Quiet (rx s) ∧ Quiet (tx s)
  | MActive d p len => Active p len (chan d s) ∧ Quiet (chan (other d) s) ∧ mem_ok d p s
  | MCancel d p len => Cancelling p len (chan d s) ∧ Quiet (chan (other d) s) ∧ mem_ok d p s
  end.

(** The buffer lent to the receiver. *)
Definition in_rx_buffer (mode : Mode) (a : Z) : Prop :=
  match mode with
  | MActive Rx p len | MCancel Rx p len => p ≤ a < p + len
  | _ => False
  end.

Lemma chan_set_chan d c s : chan d (set_chan d c s) = c.
Proof. by destruct d. Qed.
Lemma chan_set_other d d' c s : d ≠ d' → chan d' (set_chan d c s) = chan d' s.
Proof. by destruct d, d'. Qed.
Lemma other_ne d : d ≠ other d.
Proof. by destruct d. Qed.
Lemma dir_cases (d d' : Dir) : d' = d ∨ d' = other d.
Proof. destruct d, d'; auto. Qed.
Lemma SInv_none d s : SInv MNone s ↔ Quiet (chan d s) ∧ Quiet (chan (other d) s).
Proof. destruct d; simpl; naive_solver. Qed.

(** What a step of the hardware may touch. *)
Record Touched (mode : Mode) (s s' : State) : Prop := {
  to_waker : ∀ d, waker d s' = waker d s;
  to_enabled : enabled_ s' = enabled_ s;
  to_woken : ∃ ws, woken s' = woken s ++ ws;
  to_events : ∀ d, (ev_end (chan d s) = true → ev_end (chan d s') = true) ∧
    (ev_stopped (chan d s) = true → ev_stopped (chan d s') = true) ∧
    (ev_started (chan d s) = true → ev_started (chan d s') = true);
  to_mem : ∀ a, mem s' a ≠ mem s a → in_rx_buffer mode a
}.

Lemma Touched_refl mode s : Touched mode s s.
Proof. split; try done. exists []. by rewrite app_nil_r. Qed.

Lemma Touched_trans mode s1 s2 s3 : Touched mode s1 s2 → Touched mode s2 s3 → Touched mode s1 s3.
Proof.
  intros [A1 B1 [w1 C1] E1 D1] [A2 B2 [w2 C2] E2 D2]. split.
  - intros d. by rewrite A2.
  - congruence.
  - exists (w1 ++ w2). by rewrite C2, C1, app_assoc.
  - intros d. destruct (E1 d) as (?&?&?), (E2 d) as (?&?&?). auto.
  - intros a Ha. destruct (decide (mem s2 a = mem s1 a)) as [E|]; [|by apply D1].
    apply D2. congruence.
Qed.

(** The registers the hardware does not change, or only sets. *)
Record Kept (c c' : Chan) : Prop := {
  ke_int_end : int_end c' = int_end c;
  ke_int_stopped : int_stopped c' = int_stopped c;
  ke_end : ev_end c = true → ev_end c' = true;
  ke_stopped : ev_stopped c = true → ev_stopped c' = true;
  ke_started : ev_started c = true → ev_started c' = true
}.

Lemma hw_step_kept d h s s' d' : hw_step d h s = Some s' → Kept (chan d' s) (chan d' s').
Proof.
  unfold hw_step. destruct (hw_chan h _ (chan d s)) as [c'|] eqn:Hh; [|done]. simpl.
  assert (K : Kept (chan d s) c').
  { destruct h; simpl in Hh; case_decide; simplify_eq; done. }
  intros Hs. assert (Hd : chan d s' = c' ∧ chan (other d) s' = chan (other d) s).
  { destruct d, h; simplify_eq; done. }
  destruct Hd as [E1 E2]. by destruct (dir_cases d d') as [->| ->]; rewrite ?E1, ?E2.
Qed.

(** A step on the direction of the transfer. *)
Lemma hw_step_own d h s s' p len (Inv : Z → Z → Chan → Prop) :
  (∀ v c c', Inv p len c → hw_chan h v c = Some c' → Inv p len c') →
  (Inv p len (chan d s) → ptr (chan d s) = p ∧ maxcnt (chan d s) = len) →
  Inv p len (chan d s) → mem_ok d p s → hw_step d h s = Some s' →
  Inv p len (chan d s') ∧ chan (other d) s' = chan (other d) s ∧ mem_ok d p s' ∧
  (∀ d, waker d s' = waker d s) ∧ enabled_ s' = enabled_ s ∧ woken s' = woken s ∧
  ∀ a, mem s' a ≠ mem s a → d = Rx ∧ p ≤ a < p + len.
Proof.
  intros Hinv Hpl I Hm. destruct (Hpl I) as [Ep El]. unfold hw_step.
  set (v := match d, h with Rx, HByte b => b | _, _ => mem s (cursor (chan d s)) end).
  destruct (hw_chan h v (chan d s)) as [c'|] eqn:Hh; [|done]. simpl.
  specialize (Hinv v _ _ I Hh). unfold mem_ok in *.
  assert (Hsame : moved c' = moved (chan d s) → s' = set_chan d c' s →
    Inv p len (chan d s') ∧ chan (other d) s' = chan (other d) s ∧ mem_ok d p s' ∧
    (∀ d, waker d s' = waker d s) ∧ enabled_ s' = enabled_ s ∧ woken s' = woken s ∧
    ∀ a, mem s' a ≠ mem s a → d = Rx ∧ p ≤ a < p + len).
  { intros Em ->. unfold mem_ok. rewrite chan_set_chan, chan_set_other, Em by apply other_ne.
    destruct d; split_and!; try done; by intros []. }
  destruct h as [|b| | |]; simpl in Hh; case_decide as Hd; simplify_eq;
    try (intros Hs; apply Hsame; [done|]; destruct d; by simplify_eq).
  assert (Hcur : cursor (chan d s) = ptr (chan d s) + Z.of_nat (length (moved (chan d s)))) by done.
  assert (Hnew : ∀ m, (∀ i b, moved (chan d s) !! i = Some b → m (ptr (chan d s) + Z.of_nat i) = b) →
    m (cursor (chan d s)) = v →
    ∀ i b, (moved (chan d s) ++ [v]) !! i = Some b → m (ptr (chan d s) + Z.of_nat i) = b).
  { intros m Hm1 Hm2 i b' Hi. apply lookup_snoc_Some in Hi as [[_ Hi]|[-> ->]]; [by apply Hm1|].
    by rewrite <-Hcur. }
  destruct d; intros [= <-]; simpl in *.
  - split_and!; try done; try (by intros []).
    + apply (Hnew (<[cursor (rx s):=v]> (mem s))); [|by rewrite fn_lookup_insert].
      intros i b' Hi. pose proof (lookup_lt_Some _ _ _ Hi).
      rewrite fn_lookup_insert_ne by (unfold cursor; lia). by apply Hm.
    + intros a. destruct (decide (a = cursor (rx s))) as [->|].
      * intros _. split; [done|]. unfold cursor. lia.
      * by rewrite fn_lookup_insert_ne.
  - split_and!; try done; try (by intros []). by apply Hnew.
Qed.

(** A step on a direction without a transfer. *)
Lemma hw_step_quiet d h s s' : Quiet (chan d s) → hw_step d h s = Some s' →
  ∃ c', s' = set_chan d c' s ∧ Quiet c' ∧ ev_started c' = ev_started (chan d s).
Proof.
  intros Q. unfold hw_step.
  destruct (hw_chan h _ (chan d s)) as [c'|] eqn:Hh; [|done]. simpl.
  pose proof (hw_chan_quiet _ _ _ _ Q Hh) as Q'. destruct Q as (Hp & Hs & _).
  destruct h; simpl in Hh; case_decide as Hd; simplify_eq; rewrite ?Hp in Hd;
    try (exfalso; intuition congruence).
  destruct d; intros [= <-]; eauto.
Qed.

Lemma hw_step_inv mode d h s s' : SInv mode s → hw_step d h s = Some s' →
  SInv mode s' ∧ Touched mode s s'.
Proof.
  intros I Hs. pose proof (λ d', hw_step_kept d h s s' d' Hs) as K.
  assert (Hev : ∀ d', (ev_end (chan d' s) = true → ev_end (chan d' s') = true) ∧
    (ev_stopped (chan d' s) = true → ev_stopped (chan d' s') = true) ∧
    (ev_started (chan d' s) = true → ev_started (chan d' s') = true)).
  { intros d'. by destruct (K d'). }
  assert (Hq : Quiet (chan d s) → ∃ c', s' = set_chan d c' s ∧ Quiet c' ∧ Touched mode s s').
  { intros Q. destruct (hw_step_quiet _ _ _ _ Q Hs) as (c' & -> & Q' & _). exists c'.
    split_and!; [done..|]. split; [by destruct d; intros []|by destruct d| |done|by destruct d].
    exists []. rewrite app_nil_r. by destruct d. }
  assert (Ho : ∀ d2 c' p, d ≠ d2 → mem_ok d2 p s → mem_ok d2 p (set_chan d c' s)).
  { intros d2 c' p Hd Hm. unfold mem_ok. rewrite chan_set_other by done. by destruct d. }
  assert (Hown : ∀ p len (Inv : Z → Z → Chan → Prop),
    (∀ h v c c', Inv p len c → hw_chan h v c = Some c' → Inv p len c') →
    (Inv p len (chan d s) → ptr (chan d s) = p ∧ maxcnt (chan d s) = len) →
    (∀ a, d = Rx ∧ p ≤ a < p + len → in_rx_buffer mode a) →
    Inv p len (chan d s) → mem_ok d p s →
    Inv p len (chan d s') ∧ chan (other d) s' = chan (other d) s ∧ mem_ok d p s' ∧
    Touched mode s s').
  { intros p len Inv H1 H2 H3 H4 H5.
    destruct (hw_step_own d h s s' p len Inv) as (? & ? & ? & ? & ? & W & Hmem); eauto.
    split_and!; try done. split; try done; [|auto]. exists []. by rewrite app_nil_r. }
  destruct mode as [|d0 p len|d0 p len]; [|destruct I as (I & Q & Hm);
    destruct (dir_cases d0 d) as [<-|Hd]..].
  - rewrite (SInv_none d) in I |- *. destruct I as [Q1 Q2].
    destruct (Hq Q1) as (c' & -> & Q' & HT).
    by rewrite chan_set_chan, chan_set_other by apply other_ne.
  - destruct (Hown p len Active) as (? & Eo & ? & ?); try done; [|by intros []|by intros ? [-> ?]|].
    { intros. by eapply hw_chan_active. } simpl. by rewrite Eo.
  - destruct Hq as (c' & -> & Q' & HT); [by rewrite Hd|].
    assert (d ≠ d0) by (subst; by destruct d0). simpl.
    rewrite <-Hd, chan_set_chan, chan_set_other by done. auto.
  - destruct (Hown p len Cancelling) as (? & Eo & ? & ?); try done; [|by intros []|by intros ? [-> ?]|].
    { intros. by eapply hw_chan_cancelling. } simpl. by rewrite Eo.
  - destruct Hq as (c' & -> & Q' & HT); [by rewrite Hd|].
    assert (d ≠ d0) by (subst; by destruct d0). simpl.
    rewrite <-Hd, chan_set_chan, chan_set_other by done. auto.
Qed.

(** The handler masks an END that has occurred, and wakes; it leaves the rest. *)
Definition quieted (c : Chan) : Chan :=
  let c1 := if ev_end c then set_int_end false c else c in
  if ev_stopped c1 then set_int_stopped false c1 else c1.

Lemma on_interrupt_eq s :
  on_interrupt s = mkState (quieted (rx s)) (quieted (tx s)) (enabled_ s)
    (endrx_waker s) (endtx_waker s) (mem s)
    (woken s ++ (if ev_end (rx s) then option_list (endrx_waker s) else [])
             ++ (if ev_end (tx s) then option_list (endtx_waker s) else [])).
Proof.
  unfold on_interrupt, irq_end, irq_stopped, quieted, WakerTask.atomic_wake.
  destruct s as [[? ? [] ? [] ? ? ? ? ?] [? ? [] ? [] ? ? ? ? ?] ? [] [] ? l]; simpl;
    rewrite ?app_nil_r, <-?app_assoc; done.
Qed.

Lemma quieted_spec c :
  ptr (quieted c) = ptr c ∧ maxcnt (quieted c) = maxcnt c ∧ ev_end (quieted c) = ev_end c ∧
  ev_started (quieted c) = ev_started c ∧ ev_stopped (quieted c) = ev_stopped c ∧
  phase (quieted c) = phase c ∧ moved (quieted c) = moved c ∧ stop (quieted c) = stop c ∧
  int_end (quieted c) = int_end c && negb (ev_end c) ∧
  int_stopped (quieted c) = int_stopped c && negb (ev_stopped c).
Proof. destruct c as [? ? [] ? [] [] []]; done. Qed.

(** Invariants of a direction do not depend on the masks but for one case. *)
Lemma quieted_inv p len c :
  (Quiet c → Quiet (quieted c)) ∧ (Active p len c → Active p len (quieted c)) ∧
  (Cancelling p len c → Cancelling p len (quieted c)).
Proof.
  destruct (quieted_spec c) as (E1 & E2 & E3 & E4 & E5 & E6 & E7 & E8 & E9 & E10).
  split_and!; [unfold Quiet; by rewrite E4, E5, E6, E8|intros []..]; split;
    rewrite ?E1, ?E2, ?E3, ?E4, ?E5, ?E6, ?E7, ?E8, ?E9; try done.
  destruct (ev_end c); [by right|]. rewrite andb_true_r. naive_solver.
Qed.

Lemma chan_on_interrupt d s : chan d (on_interrupt s) = quieted (chan d s).
Proof. rewrite on_interrupt_eq. by destruct d. Qed.
Lemma mem_on_interrupt s : mem (on_interrupt s) = mem s.
Proof. by rewrite on_interrupt_eq. Qed.

Lemma on_interrupt_inv mode s : SInv mode s →
  SInv mode (on_interrupt s) ∧ Touched mode s (on_interrupt s).
Proof.
  intros I. split.
  - destruct mode as [|d p len|d p len]; simpl in *; unfold mem_ok in *.
    + rewrite on_interrupt_eq. destruct I. split; by apply (quieted_inv 0 0).
    + rewrite !chan_on_interrupt, mem_on_interrupt.
      destruct (quieted_spec (chan d s)) as (_ & _ & _ & _ & _ & _ & -> & _).
      destruct I as (? & ? & ?). split_and!; [by apply quieted_inv|by apply (quieted_inv 0 0)|done].
    + rewrite !chan_on_interrupt, mem_on_interrupt.
      destruct (quieted_spec (chan d s)) as (_ & _ & _ & _ & _ & _ & -> & _).
      destruct I as (? & ? & ?). split_and!; [by apply quieted_inv|by apply (quieted_inv 0 0)|done].
  - split; try (rewrite on_interrupt_eq; done); [rewrite on_interrupt_eq; by eexists|].
    intros d. rewrite chan_on_interrupt.
    by destruct (quieted_spec (chan d s)) as (_ & _ & -> & -> & -> & _).
Qed.

(** ** A future that waits *)

(** Its task is registered; the END interrupt is enabled, or has woken the task. *)
Definition Registered (d : Dir) (t : Z) (s : State) : Prop :=
  waker d s = Some t ∧ (int_end (chan d s) = true ∨ t ∈ woken s).

Lemma hw_step_registered mode d h s s' d' t : SInv mode s → hw_step d h s = Some s' →
  Registered d' t s → Registered d' t s'.
Proof.
  intros I Hs [Hw Hi]. destruct (hw_step_inv _ _ _ _ _ I Hs) as [_ [T1 _ [ws T3] _ _]].
  destruct (hw_step_kept _ _ _ _ d' Hs) as [K _ _ _ _].
  split; [by rewrite T1|]. rewrite K, T3. set_solver.
Qed.

Lemma on_interrupt_registered d t s : Registered d t s →
  Registered d t (on_interrupt s) ∧ (ev_end (chan d s) = true → t ∈ woken (on_interrupt s)).
Proof.
  intros [Hw Hi].
  assert (Hwoken : ev_end (chan d s) = true → t ∈ woken (on_interrupt s)).
  { intros He. rewrite on_interrupt_eq. destruct d; simpl in *; rewrite He, Hw; set_solver. }
  split; [split|done].
  - rewrite on_interrupt_eq. by destruct d.
  - rewrite chan_on_interrupt.
    destruct (quieted_spec (chan d s)) as (_ & _ & _ & _ & _ & _ & _ & _ & -> & _).
    destruct (ev_end (chan d s)); [by right; apply Hwoken|]. rewrite andb_true_r.
    destruct Hi as [?|Hi]; [by left|right]. rewrite on_interrupt_eq. set_solver.
Qed.

(** ** The environment *)
Definition EInv (addr : Z) (mode : Mode) (m : PeripheralMutex State) : Prop :=
  pm_ok addr m ∧ SInv mode (state m).

Lemma service_irq addr m : pm_ok addr m →
  service on_interrupt (ctx (irq m)) (mkPM (state m) (irq_setup_done m) (pend (irq m))) =
    Some (mkPM (on_interrupt (state m)) true (unpend (irq m))).
Proof.
  intros (E & F & C & D). unfold service, trampoline. simpl. by rewrite E, F, Z.eqb_refl, D.
Qed.

Lemma env_step_cases addr e m m' : pm_ok addr m → env_step e m = Some m' →
  pm_ok addr m' ∧
  ((∃ d h, e = EHw d h ∧ hw_step d h (state m) = Some (state m')) ∨
   e = EIrq ∧ irq_raised (state m) = true ∧ state m' = on_interrupt (state m)).
Proof.
  intros Hok. destruct e as [d h|]; simpl.
  - destruct (hw_step d h (state m)) as [s|] eqn:Hs; [|done]. intros [= <-].
    split; [done|]. left. by exists d, h.
  - destruct (irq_raised (state m)) eqn:Hr; [|done]. rewrite (service_irq addr) by done.
    intros [= <-]. destruct Hok as (? & ? & ? & ?). split; [done|]. by right.
Qed.

Lemma env_step_inv addr mode e m m' : EInv addr mode m → env_step e m = Some m' →
  EInv addr mode m' ∧ Touched mode (state m) (state m') ∧
  ∀ d t, Registered d t (state m) → Registered d t (state m').
Proof.
  intros [Hok I] He. destruct (env_step_cases _ _ _ _ Hok He) as [Hok' [(d & h & -> & Hs)|(-> & _ & Es)]].
  - destruct (hw_step_inv _ _ _ _ _ I Hs). split_and!; [done|done|].
    intros ??. by eapply hw_step_registered.
  - destruct (on_interrupt_inv _ _ I). unfold EInv. rewrite Es. split_and!; [done..|].
    intros d t Hr. by apply on_interrupt_registered.
Qed.

Lemma env_run_inv addr mode es : ∀ m m', EInv addr mode m → env_run es m = Some m' →
  EInv addr mode m' ∧ Touched mode (state m) (state m') ∧
  ∀ d t, Registered d t (state m) → Registered d t (state m').
Proof.
  induction es as [|e es IH]; intros m m' I; simpl.
  { intros [= <-]. split_and!; [done|apply Touched_refl|done]. }
  destruct (env_step e m) as [m1|] eqn:H1; [|done]. simpl. intros H2.
  destruct (env_step_inv _ _ _ _ _ I H1) as (I1 & T1 & R1).
  destruct (IH _ _ I1 H2) as (I2 & T2 & R2).
  split_and!; [done|by eapply Touched_trans|auto].
Qed.

(** ** Cancelling *)
Lemma cancel_mode addr d p len m : EInv addr (MActive d p len) m →
  EInv addr (MCancel d p len) (with_state (transfer_cancel d (state m)) m).
Proof.
  intros [Hok ([A1 A2 A3 A4 A5 A6 A7] & Q & Hm)]. split; [done|]. simpl.
  unfold transfer_cancel, mem_ok. rewrite chan_set_chan, chan_set_other by apply other_ne.
  split_and!; [|done|by destruct d]. split; simpl; try done.
  - case_decide; naive_solver.
  - destruct (ev_end (chan d (state m))); naive_solver.
  - intros _. right. by case_decide.
Qed.

Lemma cancel_over addr d p len m : EInv addr (MCancel d p len) m →
  ev_end (chan d (state m)) = true → EInv addr MNone m.
Proof.
  intros [Hok (C & Q & Hm)] He. split; [done|]. rewrite (SInv_none d). split; [|done].
  destruct C as [C1 C2 C3 C4 C5 C6]. rewrite He in C5.
  assert (Hp : phase (chan d (state m)) = Idle) by (destruct (decide (phase (chan d (state m)) = Idle)); naive_solver).
  split_and!; [done|naive_solver|]. intros Hst. destruct (C6 Hst) as [?|Hn]; [by left|right].
  destruct (stop (chan d (state m))); naive_solver.
Qed.

Lemma spin_inv addr d p len es : ∀ m m', EInv addr (MCancel d p len) m →
  spin d es m = Some m' →
  EInv addr MNone m' ∧ Touched (MCancel d p len) (state m) (state m').
Proof.
  assert (Hend : ∀ m, EInv addr (MCancel d p len) m → ev_end (chan d (state m)) = true →
    EInv addr MNone m ∧ Touched (MCancel d p len) (state m) (state m)).
  { intros m I E. split; [by eapply cancel_over|apply Touched_refl]. }
  induction es as [|e es IH]; intros m m' I; simpl;
    destruct (ev_end (chan d (state m))) eqn:E; [by intros [= <-]; auto|done|by intros [= <-]; auto|].
  destruct (env_step e m) as [m1|] eqn:H1; [|done]. simpl. intros H2.
  destruct (env_step_inv _ _ _ _ _ I H1) as (I1 & T1 & _).
  destruct (IH _ _ I1 H2) as (I2 & T2). split; [done|by eapply Touched_trans].
Qed.

(** The STOP can always be carried out, and then the loop is over. *)
Lemma spin_ends addr d p len es : ∀ m m1, EInv addr (MCancel d p len) m →
  env_run es m = Some m1 → ∃ m', spin d (es ++ [EHw d HStop]) m = Some m'.
Proof.
  induction es as [|e es IH]; intros m m1 I; simpl;
    destruct (ev_end (chan d (state m))) eqn:E; eauto.
  - intros _. destruct I as [_ ([C1 C2 C3 C4 C5 C6] & _)].
    assert (Hs : stop (chan d (state m)) = StopTransfer) by (apply C4; by apply C5).
    assert (He : ∃ s, hw_step d HStop (state m) = Some s ∧ ev_end (chan d s) = true).
    { unfold hw_step, hw_chan. rewrite decide_True by done. simpl. eexists. split; [done|].
      by destruct d. }
    destruct He as (s & -> & He). simpl. rewrite He. eauto.
  - destruct (env_step e m) as [m2|] eqn:H1; [|done]. simpl. intros H2.
    destruct (env_step_inv _ _ _ _ _ I H1) as (I1 & _). by eapply IH.
Qed.

(** ** The driver as a whole *)
Section driver.
Context (chip : Chip) (w addr : Z).
Hypothesis Hw : EASY_DMA_SIZE chip < 2 ^ w.

(** No transfer was ever begun: nothing is enabled in INTEN. *)
Definition Fresh (m : PeripheralMutex State) : Prop :=
  irq_setup_done m = false ∧
  ∀ d, int_end (chan d (state m)) = false ∧ int_stopped (chan d (state m)) = false ∧
       ev_started (chan d (state m)) = false.

Definition YInv (y : Sys) : Prop :=
  match fut y with
  | NoFut => SInv MNone (ust y) ∧ (pm_ok addr (per y) ∨ Fresh (per y))
  | Created d p len => EInv addr MNone (per y) ∧ 0 ≤ len
  | Waiting d p len t =>
      EInv addr (MActive d p len) (per y) ∧ Registered d t (ust y) ∧
      0 ≤ len ≤ EASY_DMA_SIZE chip
  end.

(** The transfer of a future that has just completed: all its bytes have moved. *)
Definition Moved (d : Dir) (p len : Z) (s : State) : Prop :=
  Z.of_nat (length (moved (chan d s))) = len ∧ mem_ok d p s.

Lemma fresh_step e m m' : SInv MNone (state m) → Fresh m → env_step e m = Some m' →
  SInv MNone (state m') ∧ Fresh m' ∧ Touched MNone (state m) (state m').
Proof using Type.
  intros I [Hd Hf]. destruct e as [d h|]; simpl.
  - destruct (hw_step d h (state m)) as [s|] eqn:Hs; [|done]. intros [= <-].
    destruct (hw_step_inv _ _ _ _ _ I Hs) as [I' T].
    split; [done|split; [|done]]. split; [done|].
    intros d'. destruct (hw_step_kept _ _ _ _ d' Hs) as [K1 K2 _ _ _].
    simpl. rewrite K1, K2. destruct (Hf d') as (F1 & F2 & F3). split; [done|split; [done|]].
    rewrite (SInv_none d) in I. destruct I as [Q _].
    destruct (hw_step_quiet _ _ _ _ Q Hs) as (c' & -> & _ & Hst).
    destruct (dir_cases d d') as [->| ->];
      [by rewrite chan_set_chan, Hst|by rewrite chan_set_other by apply other_ne].
  - assert (irq_raised (state m) = false) as ->; [|done].
    destruct (Hf Rx) as (F1 & F2 & _), (Hf Tx) as (F3 & F4 & _). simpl in *.
    unfold irq_raised. by rewrite F1, F2, F3, F4, !andb_false_r.
Qed.

Lemma begin_mode d p len m : EInv addr MNone m → 0 ≤ len →
  transfer_begin chip w d p len (state m) =
    (if len <=? EASY_DMA_SIZE chip
     then Done (set_chan d (task_start (set_int_end true (reset_end
            (set_dma p len (chan d (state m)))))) (state m))
     else Panic) ∧
  (len ≤ EASY_DMA_SIZE chip → ∀ s, transfer_begin chip w d p len (state m) = Done s →
   EInv addr (MActive d p len) (with_state s m)).
Proof using Hw.
  intros [Hok I] Hl. unfold transfer_begin, assert.
  destruct (Z.leb_spec len (EASY_DMA_SIZE chip)) as [Hle|]; [|split; [done|lia]].
  assert (E : wrap w len = len) by (apply wrap_small; lia). rewrite E. split; [done|].
  intros _ s [= <-]. split; [done|]. rewrite (SInv_none d) in I. destruct I as [(Q1 & Q2 & Q3) Qo].
  simpl. unfold mem_ok. rewrite chan_set_chan, chan_set_other by apply other_ne.
  split_and!; [|done|by intros []]. split; simpl; try done. by left.
Qed.

Lemma poll_register_eq d t s :
  poll_register d (Waker.from_task t) s = Done (set_waker d (Some t) (set_woken [] s)).
Proof using Type. unfold poll_register. by destruct (waker d s), d. Qed.

Lemma poll_waiting_inv d p len task es1 es2 m r : EInv addr (MActive d p len) m →
  0 ≤ len ≤ EASY_DMA_SIZE chip → poll_waiting d p len task es1 es2 m = Some r →
  ∃ y, r = Done y ∧ YInv y ∧
    (∀ a, mem (ust y) a ≠ mem (state m) a → in_rx_buffer (MActive d p len) a) ∧
    match fut y with
    | NoFut => Moved d p len (ust y)
    | f => f = Waiting d p len task
    end.
Proof using Type.
  intros I Hl. unfold poll_waiting. destruct (env_run es1 m) as [m1|] eqn:H1; [|done].
  cbn [mbind option_bind]. rewrite poll_register_eq.
  destruct (env_run_inv _ _ _ _ _ I H1) as (I1 & T1 & _).
  set (s2 := set_waker d (Some task) (set_woken [] (state m1))).
  assert (I2 : EInv addr (MActive d p len) (with_state s2 m1)).
  { destruct I1 as [Hok I1]. split; [done|]. unfold s2. by destruct d. }
  destruct (env_run es2 (with_state s2 m1)) as [m2|] eqn:H2; [|done].
  cbn [mbind option_bind].
  destruct (env_run_inv _ _ _ _ _ I2 H2) as (I3 & T2 & R2).
  assert (Hmem : ∀ a, mem (state m2) a ≠ mem (state m) a → in_rx_buffer (MActive d p len) a).
  { intros a Ha. destruct (decide (mem (state m1) a = mem (state m) a)) as [E|].
    - apply (to_mem _ _ _ T2). simpl. unfold s2. by destruct d; simpl; rewrite E.
    - by apply (to_mem _ _ _ T1). }
  intros [= <-]. eexists. split; [done|]. unfold poll_check.
  destruct (ev_end (chan d (state m2))) eqn:E.
  - destruct I3 as (Hok & A & Q & Hm). destruct (ac_ended _ _ _ A E) as [Hp Hn].
    pose proof (ac_stop _ _ _ A) as Hs. unfold transfer_finish.
    split; [|split].
    + unfold YInv. cbn [fut]. split; [|by left]. unfold ust. cbn [per state with_state].
      rewrite (SInv_none d), chan_set_chan, chan_set_other by apply other_ne. by split.
    + intros a. unfold ust. destruct d; apply Hmem.
    + cbn [fut]. unfold Moved, mem_ok, ust. cbn [per state with_state].
      rewrite chan_set_chan. split; [done|]. by destruct d.
  - split; [|by split]. unfold YInv. cbn [fut]. split; [done|split; [|done]]. apply R2.
    split; [unfold s2; by destruct d|left]. destruct (int_end (chan d (state m1))) eqn:Hi.
    + unfold s2. simpl. destruct d; simpl in *; done.
    + destruct I1 as (_ & A & _). destruct (ac_int _ _ _ A) as [?|He]; [congruence|].
      destruct (to_events _ _ _ T2 d) as [Hk _]. rewrite Hk in E; [done|].
      simpl. unfold s2. by destruct d.
Qed.

(** The addresses that a future has lent to the receiver. *)
Definition lent (f : Fut) (a : Z) : Prop :=
  match f with
  | Created Rx p len | Waiting Rx p len _ => p ≤ a < p + len
  | _ => False
  end.
Definition op_ok (op : Op) : Prop := match op with OCall _ _ len => 0 ≤ len | _ => True end.

(** A poll that completes a future has its whole buffer transferred. *)
Definition completes (op : Op) (y y' : Sys) : Prop :=
  match op, fut y, fut y' with
  | OPoll _ _ _, (Created d p len | Waiting d p len _), NoFut => Moved d p len (ust y')
  | _, _, _ => True
  end.

Lemma ustep_inv op y r : YInv y → op_ok op → ustep chip w addr op y = Some r →
  (r = Panic ∧ ∃ d p len, fut y = Created d p len ∧ EASY_DMA_SIZE chip < len) ∨
  ∃ y', r = Done y' ∧ YInv y' ∧
    (∀ a, mem (ust y') a ≠ mem (ust y) a → lent (fut y) a) ∧ completes op y y'.
Proof using Hw.
  destruct y as [m f]. unfold YInv, ust. cbn [per fut].
  destruct op as [d p len|task es1 es2|es|e]; destruct f as [|d0 p0 len0|d0 p0 len0 t0];
    try done; cbn [ustep fut per]; unfold ust; cbn [per]; intros I Hop.
  - intros [= <-]. right. eexists. split; [done|]. unfold Peripheral_register_interrupt.
    destruct I as [I [Hok|[Hf _]]].
    + pose proof Hok as (E & F & C & D). rewrite D. cbn [fut per]. split; [done|by split].
    + rewrite Hf. cbn [fut per]. split; [|by split]. split; [|done]. split; [|done].
      by repeat split.
  - destruct I as [I Hl]. destruct (begin_mode d0 p0 len0 m I Hl) as [E Hact]. rewrite E in *.
    destruct (Z.leb_spec len0 (EASY_DMA_SIZE chip)) as [Hle|Hgt].
    + intros Hp. right. specialize (Hact Hle _ eq_refl).
      destruct (poll_waiting_inv _ _ _ _ _ _ _ _ Hact (conj Hl Hle) Hp)
        as (y' & -> & I' & Hmem & Hc). exists y'. split; [done|split; [done|split]].
      * intros a. unfold with_state in Hmem. cbn [state] in Hmem. intros Ha.
        specialize (Hmem a). unfold ust in Hmem. destruct d0; apply Hmem; exact Ha.
      * unfold completes. cbn [fut]. by destruct (fut y').
    + intros [= <-]. left. split; [done|]. by exists d0, p0, len0.
  - destruct I as (I & HR & Hl). intros Hp. right.
    destruct (poll_waiting_inv _ _ _ _ _ _ _ _ I Hl Hp) as (y' & -> & I' & Hmem & Hc).
    exists y'. split; [done|split; [done|split]].
    + intros a Ha. specialize (Hmem a Ha). by destruct d0.
    + unfold completes. cbn [fut]. by destruct (fut y').
  - intros [= <-]. right. eexists. split; [done|]. destruct I as [[Hok I] _].
    cbn [fut per]. split; [by split; [|left]|by split].
  - destruct I as (I & HR & Hl). destruct (spin d0 es _) as [m'|] eqn:Hs; [|done].
    intros [= <-]. right. eexists. split; [done|].
    destruct (spin_inv _ _ _ _ _ _ _ (cancel_mode _ _ _ _ _ I) Hs) as [[Hok I'] T].
    split; [by split; [|left]|split; [|done]]. intros a Ha. unfold ust in Ha. cbn [per] in Ha.
    assert (in_rx_buffer (MCancel d0 p0 len0) a) as Hin.
    { apply (to_mem _ _ _ T). unfold with_state, transfer_cancel. cbn [state]. by destruct d0. }
    by destruct d0.
  - destruct (env_step e m) as [m'|] eqn:He; [|done]. intros [= <-]. right. eexists.
    split; [done|]. destruct I as [I [Hok|Hf]].
    + destruct (env_step_inv _ _ _ _ _ (conj Hok I) He) as ([Hok' I'] & T & _).
      split; [by split; [|left]|split; [|done]]. intros a. apply (to_mem _ _ _ T).
    + destruct (fresh_step _ _ _ I Hf He) as (I' & Hf' & T).
      split; [by split; [|right]|split; [|done]]. intros a. apply (to_mem _ _ _ T).
  - destruct (env_step e m) as [m'|] eqn:He; [|done]. intros [= <-]. right. eexists.
    split; [done|]. destruct I as [I Hl].
    destruct (env_step_inv _ _ _ _ _ I He) as (I' & T & _).
    split; [by split|split; [|done]]. intros a Ha. by destruct (to_mem _ _ _ T a Ha).
  - destruct (env_step e m) as [m'|] eqn:He; [|done]. intros [= <-]. right. eexists.
    split; [done|]. destruct I as (I & HR & Hl).
    destruct (env_step_inv _ _ _ _ _ I He) as (I' & T & R).
    split; [by split; [|split; [apply R|]]|split; [|done]].
    intros a Ha. pose proof (to_mem _ _ _ T a Ha). by destruct d0.
Qed.

Lemma urun_inv ops : ∀ y y', YInv y → Forall op_ok ops →
  urun chip w addr ops y = Some (Done y') → YInv y'.
Proof using Hw.
  induction ops as [|op ops IH]; intros y y' I; simpl; [by intros _ [= <-]|].
  intros [Ho Hf]%Forall_cons. destruct (ustep chip w addr op y) as [r|] eqn:Hs; [|done].
  destruct (ustep_inv _ _ _ I Ho Hs) as [[-> _]|(y1 & -> & I1 & _)]; [done|]. by apply IH.
Qed.

(** The peripheral before the driver: disabled, so that no DMA runs. *)
Definition Unused (s : State) : Prop :=
  ∀ d, phase (chan d s) = Idle ∧ stop (chan d s) = NoStop.

Lemma new_inv s0 rts cts i0 hwfc m0 : Unused s0 →
  Uarte_new s0 rts cts i0 = Done (hwfc, m0) → YInv (mkSys m0 NoFut).
Proof using Type.
  intros HU. unfold Uarte_new. destruct (enabled_ s0); [done|].
  destruct (hardware_flow_control rts cts); [|done]. cbn. intros [= _ <-].
  destruct (HU Rx) as [P1 S1], (HU Tx) as [P2 S2]. simpl in *.
  split; [split; split; simpl; rewrite ?P1, ?P2, ?S1, ?S2; done|right]. split; [done|].
  by intros [].
Qed.

(** The states of the driver. *)
Definition reached (y : Sys) : Prop :=
  ∃ s0 rts cts i0 hwfc m0 ops, Unused s0 ∧ Uarte_new s0 rts cts i0 = Done (hwfc, m0) ∧
    Forall op_ok ops ∧ urun chip w addr ops (mkSys m0 NoFut) = Some (Done y).

Lemma reached_inv y : reached y → YInv y.
Proof using Hw.
  intros (s0 & rts & cts & i0 & hwfc & m0 & ops & HU & Hn & Hf & Hr).
  eapply urun_inv; [|done|done]. by eapply new_inv.
Qed.

(** ** The hardware does its part *)
Definition hw_left (c : Chan) : nat :=
  match phase c with
  | Idle => 0
  | Starting => Z.to_nat (maxcnt c) + 2
  | Running => Z.to_nat (maxcnt c - Z.of_nat (length (moved c))) + 1
  end.

Lemma active_next d p len s : SInv (MActive d p len) s → ev_end (chan d s) = false →
  ∃ h s', hw_step d h s = Some s' ∧ (hw_left (chan d s') < hw_left (chan d s))%nat.
Proof using Type.
  clear Hw. intros (A & _) E. pose proof (ac_running _ _ _ A E) as Hp. pose proof (ac_moved _ _ _ A) as Hm.
  pose proof (ac_maxcnt _ _ _ A) as Hx. unfold hw_left.
  destruct (phase (chan d s)) eqn:P; [done| |].
  - exists HStarted. unfold hw_step, hw_chan. rewrite decide_True by done. cbn.
    eexists. split; [done|]. destruct d; cbn -[Z.to_nat Z.of_nat]; lia.
  - destruct (decide (Z.of_nat (length (moved (chan d s))) = len)) as [Hn|Hn].
    + exists HEnd. unfold hw_step, hw_chan. rewrite decide_True by (split; congruence). cbn.
      eexists. split; [done|]. destruct d; cbn; lia.
    + exists (HByte 0). unfold hw_step, hw_chan. rewrite decide_True by (split; [done|lia]).
      cbn. eexists. split; [done|].
      destruct d; cbn in *; rewrite P, length_app, Hx; cbn; lia.
Qed.

Lemma active_ends d p len n : ∀ m, EInv addr (MActive d p len) m →
  (hw_left (chan d (state m)) < n)%nat →
  ∃ es m', env_run es m = Some m' ∧ ev_end (chan d (state m')) = true.
Proof using Type.
  clear Hw. induction n as [|n IH]; intros m I Hn; [lia|].
  destruct (ev_end (chan d (state m))) eqn:E; [by exists [], m|].
  destruct (active_next d p len (state m) (proj2 I) E) as (h & s' & Hs & Hlt).
  assert (He : env_step (EHw d h) m = Some (with_state s' m)) by (simpl; by rewrite Hs).
  destruct (env_step_inv _ _ _ _ _ I He) as (I' & _).
  destruct (IH _ I') as (es & m' & Hr & Hend); [simpl; lia|].
  exists (EHw d h :: es), m'. split; [|done]. cbn [env_run]. by rewrite He.
Qed.

(** ** Theorems *)

(** C28: The DMA of a direction runs only for a future that waits, on its buffer; whatever
    happens, only the bytes lent to the receiver change in memory; a poll that completes
    a future has moved its whole buffer; and the only panic is that of a buffer the DMA
    cannot count. *)
Theorem uarte_dma_exclusive y : reached y →
  (∀ d, phase (chan d (ust y)) ≠ Idle → ∃ p len t, fut y = Waiting d p len t ∧
     ptr (chan d (ust y)) = p ∧ maxcnt (chan d (ust y)) = len ∧
     Z.of_nat (length (moved (chan d (ust y)))) ≤ len) ∧
  (∀ op y', op_ok op → ustep chip w addr op y = Some (Done y') →
     (∀ a, mem (ust y') a ≠ mem (ust y) a → lent (fut y) a) ∧ completes op y y') ∧
  (∀ op, op_ok op → ustep chip w addr op y = Some Panic →
     ∃ d p len, fut y = Created d p len ∧ EASY_DMA_SIZE chip < len).
Proof using Hw.
  intros Hr. pose proof (reached_inv _ Hr) as I. split_and!.
  - intros d Hp. destruct y as [m f]. unfold YInv, ust in *. cbn [per fut] in *.
    destruct f as [|d0 p0 len0|d0 p0 len0 t0].
    + destruct I as [I _]. rewrite (SInv_none d) in I. by destruct I as [[? _] _].
    + destruct I as [[_ I] _]. rewrite (SInv_none d) in I. by destruct I as [[? _] _].
    + destruct I as ((_ & A & Q & _) & _). destruct (dir_cases d0 d) as [->| ->].
      * exists p0, len0, t0. destruct A. done.
      * by destruct Q as [? _].
  - intros op y' Hop Hs. destruct (ustep_inv _ _ _ I Hop Hs) as [[? _]|(y1 & [= ->] & _ & H)]; done.
  - intros op Hop Hs. by destruct (ustep_inv _ _ _ I Hop Hs) as [[_ ?]|(y1 & ? & _)].
Qed.

(** C29: A future that waits completes: the hardware can always go on to the end of the
    transfer; at its end the waiting task has been woken, or the interrupt that wakes
    it is raised and taken; and then any poll completes the future. *)
Theorem uarte_future_completes y d p len t : reached y → fut y = Waiting d p len t →
  (∃ es m, env_run es (per y) = Some m ∧ ev_end (chan d (state m)) = true) ∧
  (ev_end (chan d (ust y)) = true →
   (t ∈ woken (ust y) ∨
    ∃ m, env_step EIrq (per y) = Some m ∧ t ∈ woken (state m)) ∧
   ∀ task, ∃ y', ustep chip w addr (OPoll task [] []) y = Some (Done y') ∧ fut y' = NoFut).
Proof using Hw.
  intros Hr Hf. pose proof (reached_inv _ Hr) as I. unfold YInv in I. rewrite Hf in I.
  destruct I as (I & HR & Hl). split.
  { by apply (active_ends d p len (S (hw_left (chan d (state (per y)))))); [|lia]. }
  intros He. split.
  - destruct HR as [HR [Hi|?]]; [right|by left]. cbn [env_step].
    assert (irq_raised (state (per y)) = true) as ->.
    { unfold irq_raised, ust in *. destruct d; simpl in *; by rewrite He, Hi, ?orb_true_r. }
    rewrite (service_irq addr) by apply I. eexists. split; [done|]. cbn [state].
    by apply (on_interrupt_registered d t (state (per y)) (conj HR (or_introl Hi))).
  - intros task. destruct y as [m f]. unfold ust in *. cbn [per fut] in *. subst f.
    cbn [ustep fut per]. unfold poll_waiting. cbn [env_run mbind option_bind].
    rewrite poll_register_eq. cbn [env_run mbind option_bind].
    unfold poll_check. cbn [state with_state].
    assert (ev_end (chan d (set_waker d (Some task) (set_woken [] (state m)))) = true) as ->.
    { by destruct d. }
    eexists. split; done.
Qed.

(** C30: Dropping a future that waits gives the buffer back: however the environment goes
    on, the STOP ends the loop; and from then on nothing but another future changes
    memory. *)
Theorem uarte_cancel_gives_back y d p len t : reached y → fut y = Waiting d p len t →
  (∀ es m, env_run es (with_state (transfer_cancel d (ust y)) (per y)) = Some m →
     ∃ y', ustep chip w addr (ODrop (es ++ [EHw d HStop])) y = Some (Done y')) ∧
  (∀ es y', ustep chip w addr (ODrop es) y = Some (Done y') →
     fut y' = NoFut ∧ (∀ d', phase (chan d' (ust y')) = Idle) ∧
     ∀ es' m, env_run es' (per y') = Some m → ∀ a, mem (state m) a = mem (ust y') a).
Proof using Hw.
  intros Hr Hf. pose proof (reached_inv _ Hr) as I. unfold YInv in I. rewrite Hf in I.
  destruct I as (I & _ & _). pose proof (cancel_mode _ _ _ _ _ I) as Ic.
  destruct y as [m0 f]. unfold ust in *. cbn [per fut] in *. subst f.
  cbn [ustep fut per]. unfold ust. cbn [per]. split.
  - intros es m Hes. destruct (spin_ends _ _ _ _ es _ _ Ic Hes) as [m' ->]. by eexists.
  - intros es y' Hs. destruct (spin d es _) as [m'|] eqn:Hsp; [|done].
    injection Hs as <-.
    destruct (spin_inv _ _ _ _ _ _ _ Ic Hsp) as [I' _]. cbn [fut per]. split; [done|split].
    + intros d'. destruct I' as [_ I']. rewrite (SInv_none d') in I'. by destruct I' as [[? _] _].
    + intros es' m Hes a. destruct (env_run_inv _ _ _ _ _ I' Hes) as (_ & T & _).
      destruct (decide (mem (state m) a = mem (state m') a)); [done|].
      by destruct (to_mem _ _ _ T a).
Qed.

(** ** Dropping the driver *)
Definition due (m : PeripheralMutex State) : bool := irq_raised (state m).

(** While the driver is dropped, RXTO and TXSTOPPED are enabled until they occur; what
    was started and has not stopped is about to. *)
Definition did (b1 b2 : bool) (d : Dir) : bool := match d with Rx => b1 | Tx => b2 end.
Definition DropInv (b1 b2 : bool) (m : PeripheralMutex State) : Prop :=
  EInv addr MNone m ∧
  ∀ d, (ev_stopped (chan d (state m)) = true ∨ int_stopped (chan d (state m)) = true) ∧
       (did b1 b2 d = true → ev_started (chan d (state m)) = true).

Lemma drop_condition_spec b1 b2 m :
  drop_condition b1 b2 m = true ↔
  ∀ d, did b1 b2 d = true → ev_stopped (chan d (state m)) = true.
Proof using Type.
  clear Hw. unfold drop_condition. split.
  - intros Hc []; simpl; destruct b1, b2, (ev_stopped (rx _)), (ev_stopped (tx _)); naive_solver.
  - intros H. pose proof (H Rx). pose proof (H Tx). simpl in *.
    destruct b1, b2, (ev_stopped (rx _)), (ev_stopped (tx _)); naive_solver.
Qed.

Lemma raised_spec s : irq_raised s = true ↔
  ∃ d, ev_end (chan d s) = true ∧ int_end (chan d s) = true ∨
       ev_stopped (chan d s) = true ∧ int_stopped (chan d s) = true.
Proof using Type.
  clear Hw. unfold irq_raised. rewrite !orb_true_iff, !andb_true_iff. split.
  - intros [[[?|?]|?]|?]; [exists Rx|exists Tx|exists Rx|exists Tx]; auto.
  - intros [[] [?|?]]; auto.
Qed.

Lemma raised_kept s s' : (∀ d, Kept (chan d s) (chan d s')) →
  irq_raised s = true → irq_raised s' = true.
Proof using Type.
  clear Hw. intros K. rewrite !raised_spec. intros [d Hd]. exists d. destruct (K d) as [-> -> ? ? _].
  naive_solver.
Qed.

Lemma drop_env_spec b1 b2 e m m' ev : DropInv b1 b2 m → drop_env e m = Some (m', ev) →
  DropInv b1 b2 m' ∧
  (drop_condition b1 b2 m' = true → (drop_condition b1 b2 m = true → due m = true) →
     due m' = true ∨ ev = true) ∧
  (drop_condition b1 b2 m = true → drop_condition b1 b2 m' = true).
Proof using Type.
  clear Hw. intros [I Hst]. unfold drop_env. destruct (env_step e m) as [m1|] eqn:He; [|done].
  intros [= <- <-]. destruct (env_step_inv _ _ _ _ _ I He) as (I' & T & _).
  assert (Hmono : drop_condition b1 b2 m = true → drop_condition b1 b2 m1 = true).
  { rewrite !drop_condition_spec. intros Hc d Hd. by apply (to_events _ _ _ T d), Hc. }
  destruct (env_step_cases _ _ _ _ (proj1 I) He) as [Hok' [(d & h & -> & Hs)|(-> & Hr & Es)]].
  - pose proof (λ d', hw_step_kept d h _ _ d' Hs) as K.
    split; [split; [done|]|split; [|done]].
    { intros d'. destruct (K d') as [_ -> _ Hk Hk2]. destruct (Hst d') as [[]?]; auto. }
    intros Hc Hd. left. unfold due in *.
    destruct (drop_condition b1 b2 m) eqn:Hc0; [by apply (raised_kept _ _ K), Hd|].
    assert (Hne : ∃ d', did b1 b2 d' = true ∧
      ev_stopped (chan d' (state m)) = false).
    { unfold drop_condition in Hc0. destruct b1, (ev_stopped (rx (state m))) eqn:?;
        simpl in Hc0; try (by exists Rx); exists Tx; destruct b2, (ev_stopped (tx (state m))) eqn:?;
        done. }
    destruct Hne as (d' & Hb & Hno). apply raised_spec. exists d'. right.
    rewrite drop_condition_spec in Hc. destruct (K d') as [_ -> _ _ _]. split; [by apply Hc|].
    destruct (Hst d') as [[] _]; congruence.
  - assert (enabled (irq m) = true) as Hen by apply I.
    split; [split; [done|]|split; [|done]].
    + intros d'. rewrite Es, chan_on_interrupt.
      destruct (quieted_spec (chan d' (state m))) as (_ & _ & _ & -> & -> & _ & _ & _ & _ & ->).
      destruct (Hst d') as [[->| ->] ?]; [by split; [left|]|]. destruct (ev_stopped _); auto.
    + by right.
Qed.

(** What was started stops: one event of the hardware in each direction. *)
Lemma drop_hw_ends b1 b2 m d : DropInv b1 b2 m →
  ∃ es m', env_run es m = Some m' ∧ DropInv b1 b2 m' ∧
    (did b1 b2 d = true → ev_stopped (chan d (state m')) = true) ∧
    (ev_stopped (chan (other d) (state m)) = true →
     ev_stopped (chan (other d) (state m')) = true).
Proof using Type.
  clear Hw. intros HI. destruct (decide (did b1 b2 d = true ∧ ev_stopped (chan d (state m)) = false))
    as [[Hb Hn]|Hn].
  - pose proof HI as [[Hok I] Hst]. rewrite (SInv_none d) in I.
    destruct I as [(_ & _ & Hq) _]. destruct (Hst d) as [_ Hs].
    destruct (Hq (Hs Hb)) as [?|Htail]; [congruence|].
    assert (He : ∃ m1, env_step (EHw d HStopped) m = Some m1 ∧
      ev_stopped (chan d (state m1)) = true).
    { simpl. unfold hw_step, hw_chan. rewrite decide_True by done. cbn.
      eexists. split; [done|]. by destruct d. }
    destruct He as (m1 & He & Hd). exists [EHw d HStopped], m1.
    assert (Hde : drop_env (EHw d HStopped) m = Some (m1, false)).
    { unfold drop_env. by rewrite He. }
    destruct (drop_env_spec b1 b2 _ _ _ _ HI Hde) as (HI' & _).
    destruct (env_step_inv _ _ _ _ _ (conj Hok (proj2 (proj1 HI))) He) as (_ & T & _).
    split; [cbn [env_run]; by rewrite He|split; [done|split; [done|]]].
    apply (to_events _ _ _ T (other d)).
  - exists [], m. split; [done|split; [done|split; [|done]]]. intros Hb.
    destruct (ev_stopped (chan d (state m))); naive_solver.
Qed.

Lemma env_wait_run b1 b2 es : ∀ c m', env_run es (mach c) = Some m' →
  ∃ c', wait_run (drop_condition b1 b2) drop_env (Env <$> es) c = Some c' ∧
    mach c' = m' ∧ pc c' = pc c ∧ (event c = true → event c' = true).
Proof using Type.
  clear Hw. induction es as [|e es IH]; intros c m'; [intros [= <-]; by exists c|].
  cbn [env_run]. destruct (env_step e (mach c)) as [m1|] eqn:He; [|done].
  cbn [mbind option_bind]. intros Hr.
  set (c1 := mkCpu (pc c) (event c || match e with EIrq => enabled (irq (mach c)) | _ => false end) m1).
  assert (Hs : wait_step (drop_condition b1 b2) drop_env (Env e) c = Some c1).
  { cbn [wait_step]. unfold drop_env. by rewrite He. }
  destruct (IH c1 m' Hr) as (c' & Hr' & ? & ? & Hev). exists c'. rewrite fmap_cons.
  cbn [wait_run]. rewrite Hs. split_and!; [done..|]. intros E. apply Hev. simpl. by rewrite E.
Qed.

Lemma drop_awake b1 b2 acts c m ev : DropInv b1 b2 m →
  wait_run (drop_condition b1 b2) drop_env acts (low_power_wait_until ev m) = Some c →
  awake (drop_condition b1 b2) due (DropInv b1 b2) c.
Proof using Type.
  clear Hw. intros HI. eapply awake_run; [| |by apply awake_start].
  - intros a s s' ev' Hs He. by destruct (drop_env_spec _ _ _ _ _ _ Hs He).
  - intros a s s' ev' Hs He. destruct (drop_env_spec _ _ _ _ _ _ Hs He) as (_ & H & _). auto.
Qed.

(** An interrupt that is due can be taken, and keeps the condition. *)
Lemma drop_interrupt b1 b2 m : DropInv b1 b2 m → due m = true →
  ∃ m', drop_env EIrq m = Some (m', true) ∧ DropInv b1 b2 m' ∧
    (drop_condition b1 b2 m = true → drop_condition b1 b2 m' = true).
Proof using Type.
  clear Hw. intros HI Hd. pose proof HI as [[Hok _] _]. unfold due in Hd.
  assert (He : ∃ m', drop_env EIrq m = Some (m', true)).
  { unfold drop_env. cbn [env_step]. rewrite Hd, (service_irq addr) by done. cbn.
    assert (enabled (irq m) = true) as -> by apply Hok. eauto. }
  destruct He as [m' He]. exists m'. destruct (drop_env_spec _ _ _ _ _ _ HI He) as (? & _ & ?).
  done.
Qed.

(** From any point of the wait, the rest of it can be run. *)
Lemma drop_can_exit b1 b2 c : awake (drop_condition b1 b2) due (DropInv b1 b2) c →
  pc c ≠ Exited →
  ∃ acts c', wait_run (drop_condition b1 b2) drop_env acts c = Some c' ∧ pc c' = Exited.
Proof using Type.
  clear Hw. intros Ha Hpc.
  destruct (drop_hw_ends b1 b2 (mach c) Rx (proj1 Ha)) as (es1 & m1 & R1 & I1 & E1 & _).
  destruct (drop_hw_ends b1 b2 m1 Tx I1) as (es2 & m2 & R2 & I2 & E2 & K2).
  destruct (env_wait_run b1 b2 es1 c m1 R1) as (c1 & W1 & M1 & P1 & _).
  rewrite <-M1 in R2. destruct (env_wait_run b1 b2 es2 c1 m2 R2) as (c2 & W2 & M2 & P2 & _).
  assert (Hc : drop_condition b1 b2 m2 = true).
  { apply drop_condition_spec. intros []; [|by apply E2]. intros Hb. by apply K2, E1. }
  assert (Ha2 : awake (drop_condition b1 b2) due (DropInv b1 b2) c2).
  { eapply (awake_run _ drop_env _ _ _ _ ((Env <$> es1) ++ (Env <$> es2)));
      [exact Ha|rewrite wait_run_app, W1; exact W2]. Unshelve.
    - intros a s s' ev' Hs He. by destruct (drop_env_spec _ _ _ _ _ _ Hs He).
    - intros a s s' ev' Hs He. destruct (drop_env_spec _ _ _ _ _ _ Hs He) as (_ & H & _). auto. }
  subst m1 m2.
  assert (Hend : ∃ acts c', wait_run (drop_condition b1 b2) drop_env acts c2 = Some c' ∧
    pc c' = Exited).
  { destruct (due (mach c2)) eqn:Hdue.
    - destruct (drop_interrupt b1 b2 _ I2 Hdue) as (m3 & He & I3 & Hc3).
      specialize (Hc3 Hc).
      assert (Hw3 : wait_step (drop_condition b1 b2) drop_env (Env EIrq) c2 =
        Some (mkCpu (pc c2) (event c2 || true) m3)) by (cbn [wait_step]; by rewrite He).
      rewrite orb_true_r in Hw3. destruct (pc c2) eqn:P; [| |congruence].
      + exists [Env EIrq; Step], (mkCpu Exited true m3). split; [|done].
        cbn [wait_run]. rewrite Hw3. cbn. unfold cpu_step. cbn. by rewrite Hc3.
      + exists [Env EIrq; Step; Step], (mkCpu Exited true m3). split; [|done].
        cbn [wait_run]. rewrite Hw3. cbn. unfold cpu_step. cbn. by rewrite Hc3.
    - destruct (awake_exits _ drop_env _ _ c2 Ha2 Hc Hdue) as (n & Hn); [congruence|].
      by exists (replicate n Step), (mkCpu Exited true (mach c2)). }
  destruct Hend as (acts & c' & Hr & Hx).
  exists ((Env <$> es1) ++ (Env <$> es2) ++ acts), c'. split; [|done].
  rewrite !wait_run_app, W1. cbn [mbind option_bind]. rewrite wait_run_app, W2. exact Hr.
Qed.

(** ** What the drop does *)

(** Dropping the driver ends, and the processor does not sleep over the end: at any
    point of the wait its rest can be run; once what was started has stopped and the
    interrupts have been taken, the steps of the processor alone leave the loop; and
    while it waits, and when the peripheral is disabled, no DMA runs.  A driver that
    was never used does not wait. *)
Theorem uarte_drop_ends y ev acts c : reached y → fut y = NoFut →
  let '(b1, b2, c0) := Uarte_drop ev (per y) in
  (irq_setup_done (per y) = false → c0 = low_power_wait_until ev (mach c0) ∧
     drop_condition b1 b2 (mach c0) = true) ∧
  (irq_setup_done (per y) = true →
   wait_run (drop_condition b1 b2) drop_env acts c0 = Some c →
   (∀ d, phase (chan d (state (mach c))) = Idle) ∧
   (pc c ≠ Exited →
    (∃ acts' c', wait_run (drop_condition b1 b2) drop_env acts' c = Some c' ∧ pc c' = Exited) ∧
    ((∀ d, did b1 b2 d = true → ev_stopped (chan d (state (mach c))) = true) →
     irq_raised (state (mach c)) = false →
     ∃ n, wait_run (drop_condition b1 b2) drop_env (replicate n Step) c =
            Some (mkCpu Exited true (mach c))))).
Proof using Hw.
  intros Hr Hf. pose proof (reached_inv _ Hr) as I. unfold YInv in I. rewrite Hf in I.
  destruct I as [I Hset]. cbn [Uarte_drop]. split.
  - intros Hs. split; [done|]. destruct Hset as [(_ & _ & _ & ?)|[_ Hfr]]; [congruence|].
    apply drop_condition_spec. intros d Hd. destruct (Hfr d) as (_ & _ & Hn).
    destruct d; simpl in *; congruence.
  - intros Hs Hrun. destruct Hset as [Hok|[? _]]; [|congruence].
    assert (HI : DropInv (ev_started (rx (state (per y)))) (ev_started (tx (state (per y))))
      (with_state (drop_begin (state (per y))) (per y))).
    { split; [split; [done|]|].
      - by destruct I as [[? ?] [? ?]].
      - intros []; simpl; auto. }
    pose proof (drop_awake _ _ _ _ _ _ HI Hrun) as Ha. split.
    + intros d. destruct Ha as [[[_ Ia] _] _]. rewrite (SInv_none d) in Ia.
      by destruct Ia as [[? _] _].
    + intros Hpc. split; [by apply drop_can_exit|]. intros Hc Hd.
      eapply awake_exits; [exact Ha|by apply drop_condition_spec|exact Hd|done].
Qed.
End driver.

(** ** Witnesses

    A driver on a peripheral at reset, that reads two bytes. *)
Definition State_off : State := mkState Chan_off Chan_off false None None (λ _, 0) [].
Definition demo (ops : list Op) : Sys :=
  let y0 := mkSys (PeripheralMutex_new (set_enabled true State_off) Irq_new) NoFut in
  match urun C52832 8 64 ops y0 with Some (Done y) => y | _ => y0 end.
Definition demo_ops : list Op :=
  [OCall Rx 0x20000000 2; OPoll 7 [] []; OEnv (EHw Rx HStarted); OEnv (EHw Rx (HByte 5))].

Lemma demo_reached ops : Forall op_ok ops →
  match urun C52832 8 64 ops (demo []) with Some (Done _) => True | _ => False end →
  reached C52832 8 64 (demo ops).
Proof.
  intros Hf Hr. exists State_off, false, false, Irq_new, false, (per (demo [])), ops.
  split; [by intros []|]. split; [done|]. split; [done|]. unfold demo at 2. revert Hr.
  change (demo []) with (mkSys (PeripheralMutex_new (set_enabled true State_off) Irq_new) NoFut).
  destruct (urun _ _ _ ops _) as [[|]|]; done.
Qed.
Lemma demo_ops_reached : reached C52832 8 64 (demo demo_ops).
Proof. apply demo_reached; [|vm_compute; exact I]. repeat constructor. simpl. lia. Qed.
Lemma demo_cancel : is_Some (env_run [EHw Rx (HByte 6)]
  (with_state (transfer_cancel Rx (ust (demo demo_ops))) (per (demo demo_ops)))).
Proof. apply not_eq_None_Some. vm_compute. discriminate. Qed.

Lemma uarte_dma_exclusive_witness :
  (∃ p len t, fut (demo demo_ops) = Waiting Rx p len t) ∧ mem (ust (demo demo_ops)) 0x20000000 = 5.
Proof.
  split; [|reflexivity].
  destruct (proj1 (uarte_dma_exclusive C52832 8 64 ltac:(simpl; lia) (demo demo_ops)
    demo_ops_reached) Rx ltac:(vm_compute; discriminate)) as (p & len & t & H & _).
  by exists p, len, t.
Defined.

Lemma uarte_future_completes_witness :
  ∃ es m, env_run es (per (demo demo_ops)) = Some m ∧ ev_end (rx (state m)) = true.
Proof.
  exact (proj1 (uarte_future_completes C52832 8 64 ltac:(simpl; lia) (demo demo_ops) Rx 0x20000000 2 7
    demo_ops_reached eq_refl)).
Defined.

Lemma uarte_cancel_gives_back_witness :
  ∃ y', ustep C52832 8 64 (ODrop ([EHw Rx (HByte 6)] ++ [EHw Rx HStop])) (demo demo_ops) = Some (Done y').
Proof.
  destruct demo_cancel as [m H].
  exact (proj1 (uarte_cancel_gives_back C52832 8 64 ltac:(simpl; lia) (demo demo_ops) Rx 0x20000000 2 7
    demo_ops_reached eq_refl) _ m H).
Defined.

Definition demo_drop : list Op := demo_ops ++ [ODrop [EHw Rx HStop]].
Lemma demo_drop_reached : reached C52832 8 64 (demo demo_drop).
Proof. apply demo_reached; [|vm_compute; exact I]. repeat constructor; simpl; lia. Qed.
Lemma demo_asleep : let '(b1, b2, c0) := Uarte_drop false (per (demo demo_drop)) in
  b1 = true ∧ ∃ c, wait_run (drop_condition b1 b2) drop_env [Step] c0 = Some c ∧ pc c = AtWfe.
Proof.
  assert (H : let '(b1, b2, c0) := Uarte_drop false (per (demo demo_drop)) in b1 = true ∧
    match wait_run (drop_condition b1 b2) drop_env [Step] c0 with
    | Some c => pc c = AtWfe | None => False end) by (vm_compute; by split).
  destruct (Uarte_drop false (per (demo demo_drop))) as [[b1 b2] c0].
  destruct (wait_run _ _ _ c0) as [c|]; [|by destruct H]. destruct H as [-> H].
  split; [done|]. by exists c.
Qed.

Lemma uarte_drop_ends_witness :
  let '(b1, b2, c0) := Uarte_drop false (per (demo demo_drop)) in
  ∃ c acts' c', pc c = AtWfe ∧
    wait_run (drop_condition b1 b2) drop_env acts' c = Some c' ∧ pc c' = Exited.
Proof.
  pose proof demo_asleep as D.
  pose proof (λ c, uarte_drop_ends C52832 8 64 ltac:(simpl; lia) (demo demo_drop) false [Step] c
    demo_drop_reached eq_refl) as H.
  destruct (Uarte_drop false (per (demo demo_drop))) as [[b1 b2] c0].
  destruct D as (_ & c & Hc & Hp). exists c.
  destruct (proj1 (proj2 (proj2 (H c) eq_refl Hc) ltac:(congruence))) as (acts' & c' & H1 & H2).
  exists acts', c'. split; [exact Hp|split; [exact H1|exact H2]].
Defined.
