(* ===== verification/Port.v ===== *)
(** * Port: pins that share registers

    What the GPIO drivers of the HALs have in common: an output register with a bit for
    each pin, changed through a register that sets and one that clears the bits written
    to it; and the contract of embedded-hal's [OutputPin] that they are proved to keep,
    as an interface: what is written to one pin is its level, whatever is done to the
    others. *)
From stdpp Require Import functions.
From S2P Require Import Prelude.
Local Open Scope Z_scope.

(** ** Registers that set and clear *)

(** [1 << n] *)
Definition bit (n : Z) : Z := Z.shiftl 1 n.
(** A write of [bits] to the register that sets, and to the one that clears. *)
Definition write_set (bits r : Z) : Z := Z.lor r bits.
Definition write_clr (bits r : Z) : Z := Z.ldiff r bits.
(** [r & (1 << n) == 0] *)
Definition bit_clear (r n : Z) : bool := Z.land r (bit n) =? 0.

Lemma testbit_bit n m : 0 ≤ n → Z.testbit (bit n) m = bool_decide (n = m).
Proof.
  intros Hn. unfold bit. rewrite Z.shiftl_1_l. destruct (decide (n = m)) as [<-|Hne].
  - by rewrite Z.pow2_bits_true, bool_decide_true.
  - by rewrite Z.pow2_bits_false, bool_decide_false.
Qed.

Lemma testbit_write_set n m r : 0 ≤ n →
  Z.testbit (write_set (bit n) r) m = bool_decide (n = m) || Z.testbit r m.
Proof. intros. unfold write_set. by rewrite Z.lor_spec, testbit_bit, orb_comm. Qed.

Lemma testbit_write_clr n m r : 0 ≤ n →
  Z.testbit (write_clr (bit n) r) m = negb (bool_decide (n = m)) && Z.testbit r m.
Proof. intros. unfold write_clr. by rewrite Z.ldiff_spec, testbit_bit, andb_comm. Qed.

Lemma bit_clear_testbit r n : 0 ≤ n → bit_clear r n = negb (Z.testbit r n).
Proof.
  intros Hn. unfold bit_clear, bit. rewrite Z.shiftl_1_l. rewrite <-land_bit by done.
  by rewrite negb_involutive.
Qed.

(** A pin's number is its port, of 32, and its number there. *)
Lemma same_port_split p q : 0 ≤ p → 0 ≤ q → p ≠ q → p / 32 = q / 32 → p mod 32 ≠ q mod 32.
Proof. intros. zdiv. Qed.

(** ** The contract of output pins *)
Class OutputPort (R : Type) : Type := {
  valid : Z → Prop;
  level : R → Z → bool;
  put : Z → bool → R → option R;
  put_total : ∀ p b r, valid p → ∃ r', put p b r = Some r';
  put_spec : ∀ p b r r', valid p → put p b r = Some r' →
    ∀ q, valid q → level r' q = if decide (p = q) then b else level r q
}.
Arguments put_spec {R _} p b r r' _ _ q _.

Section outputs.
Context {R : Type} `{OutputPort R}.

Fixpoint puts (ws : list (Z * bool)) (r : R) : option R :=
  match ws with [] => Some r | (p, b) :: ws' => r' ← put p b r; puts ws' r' end.

(** The last level written to a pin. *)
Fixpoint last_put (p : Z) (b0 : bool) (ws : list (Z * bool)) : bool :=
  match ws with
  | [] => b0
  | (q, b) :: ws' => last_put p (if decide (q = p) then b else b0) ws'
  end.

Lemma puts_spec ws : ∀ r, Forall (λ w, valid (fst w)) ws →
  ∃ r', puts ws r = Some r' ∧ ∀ q, valid q → level r' q = last_put q (level r q) ws.
Proof.
  induction ws as [|[p b] ws IH]; intros r; [by exists r|].
  intros [Hp Hf]%Forall_cons. simpl in *. destruct (put_total p b r Hp) as [r1 E1].
  rewrite E1. simpl. destruct (IH r1 Hf) as (r' & -> & Hl). exists r'. split; [done|].
  intros q Hq. rewrite Hl by done. by rewrite (put_spec _ _ _ _ Hp E1 q Hq).
Qed.
End outputs.
