(* ===== verification/NrfGpio.v ===== *)
(** * NrfGpio: pins of the nRF

    [embassy-nrf/src/gpio.rs]: the identity of a pin, the input and output drivers on
    the port's registers, and their refinement of one state per pin.  [has_p1] is
    whether the chip has the second port. *)
From stdpp Require Import functions.
From S2P Require Import Prelude Port.
Local Open Scope Z_scope.

Inductive PortN : Set := Port0 | Port1.
#[export] Instance PortN_eq_dec : EqDecision PortN.
Proof. solve_decision. Defined.
Inductive Pull : Set := PullNone | PullUp | PullDown.
Inductive Level : Set := Low | High.
Inductive OutputDrive : Set :=
| Standard | HighDrive0Standard1 | Standard0HighDrive1 | HighDrive
| Disconnect0Standard1 | Disconnect0HighDrive1 | Standard0Disconnect1 | HighDrive0Disconnect1.
(** The field DRIVE of PIN_CNF. *)
Inductive Drive : Set := S0S1 | H0S1 | S0H1 | H0H1 | D0S1 | D0H1 | S0D1 | H0D1.

(** PIN_CNF: whether the pin is an output, whether its input buffer is connected, the
    pull, the drive, whether sensing is enabled; and its value after a reset. *)
Record PinCnf : Set := mkCnf {
  dir_output : bool; input_connect : bool; pull : Pull; drive : Drive; sense : bool
}.
Definition PinCnf_reset : PinCnf := mkCnf false false PullNone S0S1 false.

(** A port: OUT, the levels of its pins, PIN_CNF. *)
Record PortRegs : Type := mkPort { out : Z; in_ : Z; pin_cnf : Z → PinCnf }.
Record Regs : Type := mkRegs { p0 : PortRegs; p1 : PortRegs }.
Definition port_regs (n : PortN) (r : Regs) : PortRegs :=
  match n with Port0 => p0 r | Port1 => p1 r end.
Definition upd_port (n : PortN) (f : PortRegs → PortRegs) (r : Regs) : Regs :=
  match n with Port0 => mkRegs (f (p0 r)) (p1 r) | Port1 => mkRegs (p0 r) (f (p1 r)) end.

Section pins.
Context (has_p1 : bool).

(** ** [Pin] *)
Definition _pin (pin_port : Z) : Z := if has_p1 then pin_port mod 32 else pin_port.
(** [None] is [unreachable_unchecked]. *)
Definition block (pin_port : Z) : option PortN :=
  match pin_port / 32 with
  | 0 => Some Port0
  | 1 => if has_p1 then Some Port1 else None
  | _ => None
  end.
Definition pin (pin_port : Z) : Z := _pin pin_port.
Definition port (pin_port : Z) : option PortN :=
  match pin_port / 32 with
  | 0 => Some Port0
  | 1 => if has_p1 then Some Port1 else None
  | _ => None
  end.
Definition psel_bits (pin_port : Z) : Z := pin_port.
Definition degrade (pin_port : Z) : Z := pin_port.

(** [OptionalPin]: [None] is [NoPin]. *)
Definition optional_psel_bits (o : option Z) : Z :=
  match o with Some p => psel_bits p | None => Z.shiftl 1 31 end.
Definition degrade_optional (o : option Z) : option Z := option_map degrade o.

(** [impl_pin!]: the port and the number of each pin there is. *)
Definition impl_pin (port_num pin_num : Z) : Z := port_num * 32 + pin_num.
Definition pins : list (Z * Z) :=
  ((λ n, (0, Z.of_nat n)) <$> seq 0 32) ++
  (if has_p1 then (λ n, (1, Z.of_nat n)) <$> seq 0 16 else []).

(** ** Registers *)
Definition with_port {A} (pin_port : Z) (f : PortN → A) : option A :=
  b ← block pin_port; Some (f b).
Definition write_conf (pin_port : Z) (c : PinCnf) (r : Regs) : option Regs :=
  with_port pin_port (λ b,
    upd_port b (λ g, mkPort (out g) (in_ g) (<[_pin pin_port := c]> (pin_cnf g))) r).
Definition set_high (pin_port : Z) (r : Regs) : option Regs :=
  with_port pin_port (λ b,
    upd_port b (λ g, mkPort (write_set (bit (_pin pin_port)) (out g)) (in_ g) (pin_cnf g)) r).
Definition set_low (pin_port : Z) (r : Regs) : option Regs :=
  with_port pin_port (λ b,
    upd_port b (λ g, mkPort (write_clr (bit (_pin pin_port)) (out g)) (in_ g) (pin_cnf g)) r).

(** ** Drivers *)
Definition Input_new (pin_port : Z) (p : Pull) (r : Regs) : option Regs :=
  write_conf pin_port (mkCnf false true p S0S1 false) r.
Definition Input_drop (pin_port : Z) (r : Regs) : option Regs :=
  write_conf pin_port PinCnf_reset r.
Definition is_low (pin_port : Z) (r : Regs) : option bool :=
  with_port pin_port (λ b, bit_clear (in_ (port_regs b r)) (pin pin_port)).
Definition is_high (pin_port : Z) (r : Regs) : option bool := negb <$> is_low pin_port r.

Definition drive_bits (d : OutputDrive) : Drive :=
  match d with
  | Standard => S0S1
  | HighDrive0Standard1 => H0S1
  | Standard0HighDrive1 => S0H1
  | HighDrive => H0H1
  | Disconnect0Standard1 => D0S1
  | Disconnect0HighDrive1 => D0H1
  | Standard0Disconnect1 => S0D1
  | HighDrive0Disconnect1 => H0D1
  end.
Definition set_level (pin_port : Z) (l : Level) (r : Regs) : option Regs :=
  match l with High => set_high pin_port r | Low => set_low pin_port r end.
Definition Output_new (pin_port : Z) (initial_output : Level) (d : OutputDrive) (r : Regs)
    : option Regs :=
  r1 ← set_level pin_port initial_output r;
  write_conf pin_port (mkCnf true false PullNone (drive_bits d) false) r1.
Definition Output_drop (pin_port : Z) (r : Regs) : option Regs :=
  write_conf pin_port PinCnf_reset r.
Definition is_set_low (pin_port : Z) (r : Regs) : option bool :=
  with_port pin_port (λ b, bit_clear (out (port_regs b r)) (pin pin_port)).
Definition is_set_high (pin_port : Z) (r : Regs) : option bool :=
  negb <$> is_set_low pin_port r.

(** ** The specification: a state for each pin *)
Record PinState : Type := mkPin { cnf : PinCnf; lvl : bool; ext : bool }.
Definition abs (r : Regs) (p : Z) : PinState :=
  let g := port_regs (if p / 32 =? 0 then Port0 else Port1) r in
  mkPin (pin_cnf g (p mod 32)) (Z.testbit (out g) (p mod 32)) (Z.testbit (in_ g) (p mod 32)).

Inductive GOp : Set :=
| NewInput (p : Z) (pl : Pull)
| NewOutput (p : Z) (l : Level) (d : OutputDrive)
| SetLevel (p : Z) (l : Level)
| DropInput (p : Z)
| DropOutput (p : Z).
Definition gstep (op : GOp) (r : Regs) : option Regs :=
  match op with
  | NewInput p pl => Input_new p pl r
  | NewOutput p l d => Output_new p l d r
  | SetLevel p l => set_level p l r
  | DropInput p => Input_drop p r
  | DropOutput p => Output_drop p r
  end.
Definition pin_of (op : GOp) : Z :=
  match op with
  | NewInput p _ | NewOutput p _ _ | SetLevel p _ | DropInput p | DropOutput p => p
  end.
Definition is_High (l : Level) : bool := match l with High => true | Low => false end.
(** What the operation does to its own pin. *)
Definition spec_step (op : GOp) (s : PinState) : PinState :=
  match op with
  | NewInput _ pl => mkPin (mkCnf false true pl S0S1 false) (lvl s) (ext s)
  | NewOutput _ l d => mkPin (mkCnf true false PullNone (drive_bits d) false) (is_High l) (ext s)
  | SetLevel _ l => mkPin (cnf s) (is_High l) (ext s)
  | DropInput _ | DropOutput _ => mkPin PinCnf_reset (lvl s) (ext s)
  end.
Fixpoint grun (ops : list GOp) (r : Regs) : option Regs :=
  match ops with [] => Some r | op :: ops' => r' ← gstep op r; grun ops' r' end.
Definition spec_run (p : Z) (ops : list GOp) (s : PinState) : PinState :=
  foldl (λ s op, if decide (pin_of op = p) then spec_step op s else s) s ops.
End pins.

(** ** Proofs *)
Section proofs.
Context (has_p1 : bool).

Definition exists_pin (p : Z) : Prop := 0 ≤ p < if has_p1 then 64 else 32.

Lemma block_abs p : exists_pin p →
  block has_p1 p = Some (if p / 32 =? 0 then Port0 else Port1) ∧ _pin has_p1 p = p mod 32 ∧
  0 ≤ p mod 32 < 32.
Proof.
  unfold exists_pin, block, _pin. intros Hp.
  assert (p / 32 = 0 ∨ has_p1 = true ∧ p / 32 = 1) as [E|[-> E]]
    by (destruct has_p1; zdiv); rewrite E; split_and!; try done; try zdiv.
  destruct has_p1; [done|]. by rewrite Z.mod_small by zdiv.
Qed.

(** No pin but the existing ones has a register block. *)
Lemma block_None p : 0 ≤ p → ¬ exists_pin p → block has_p1 p = None.
Proof.
  unfold exists_pin, block. intros Hp Hn.
  destruct (p / 32) as [|[q|q|]|] eqn:E; try done; destruct has_p1; try done; zdiv.
Qed.

Lemma upd_abs p (f : PortRegs → PortRegs) r : exists_pin p →
  (∀ g, in_ (f g) = in_ g) →
  (∀ g n, n ≠ p mod 32 → pin_cnf (f g) n = pin_cnf g n ∧
     Z.testbit (out (f g)) n = Z.testbit (out g) n) →
  ∃ r', with_port has_p1 p (λ b, upd_port b f r) = Some r' ∧
    (∀ q, exists_pin q → q ≠ p → abs r' q = abs r q) ∧
    let g := port_regs (if p / 32 =? 0 then Port0 else Port1) r in
    abs r' p = mkPin (pin_cnf (f g) (p mod 32)) (Z.testbit (out (f g)) (p mod 32)) (ext (abs r p)).
Proof.
  intros Hp Hin Hoth. unfold with_port. destruct (block_abs p Hp) as (-> & _ & _). simpl.
  eexists. split; [done|]. unfold abs.
  split.
  - intros q Hq Hne. destruct (Z.eqb_spec (q / 32) 0) as [Eq|Eq], (Z.eqb_spec (p / 32) 0) as [Ep|Ep];
      simpl; try done; rewrite Hin;
      assert (Hm : q mod 32 ≠ p mod 32) by (unfold exists_pin in *; destruct has_p1; zdiv);
      [destruct (Hoth (p0 r) _ Hm) as [-> ->]|destruct (Hoth (p1 r) _ Hm) as [-> ->]]; done.
  - destruct (p / 32 =? 0); simpl; by rewrite Hin.
Qed.

Lemma write_conf_spec p c r : exists_pin p →
  ∃ r', write_conf has_p1 p c r = Some r' ∧ (∀ q, exists_pin q → q ≠ p → abs r' q = abs r q) ∧
    abs r' p = mkPin c (lvl (abs r p)) (ext (abs r p)).
Proof.
  intros Hp. destruct (block_abs p Hp) as (_ & E & _).
  destruct (upd_abs p (λ g, mkPort (out g) (in_ g) (<[_pin has_p1 p := c]> (pin_cnf g))) r Hp)
    as (r' & Hr & Ho & Hs); [done| |].
  - intros g n Hn. simpl. by rewrite E, fn_lookup_insert_ne.
  - exists r'. split_and!; [done|done|]. rewrite Hs. simpl. by rewrite E, fn_lookup_insert.
Qed.

Lemma set_level_spec p l r : exists_pin p →
  ∃ r', set_level has_p1 p l r = Some r' ∧ (∀ q, exists_pin q → q ≠ p → abs r' q = abs r q) ∧
    abs r' p = mkPin (cnf (abs r p)) (is_High l) (ext (abs r p)).
Proof.
  intros Hp. destruct (block_abs p Hp) as (_ & E & Hb).
  destruct (upd_abs p (λ g, mkPort ((if is_High l then write_set else write_clr)
    (bit (_pin has_p1 p)) (out g)) (in_ g) (pin_cnf g)) r Hp) as (r' & Hr & Ho & Hs); [done| |].
  - intros g n Hn. split; [done|]. cbn [out]. rewrite E.
    destruct l; cbn [is_High]; rewrite ?testbit_write_set, ?testbit_write_clr by lia;
      by rewrite bool_decide_false by congruence.
  - exists r'. split_and!; [by destruct l|done|]. rewrite Hs. cbn [out pin_cnf]. rewrite E.
    destruct l; cbn [is_High]; rewrite ?testbit_write_set, ?testbit_write_clr by lia;
      by rewrite bool_decide_true.
Qed.

Lemma gstep_spec op r : exists_pin (pin_of op) →
  ∃ r', gstep has_p1 op r = Some r' ∧
    ∀ q, exists_pin q →
      abs r' q = if decide (pin_of op = q) then spec_step op (abs r q) else abs r q.
Proof.
  intros Hp.
  assert (Hone : ∀ s (r' : Regs), (∀ q, exists_pin q → q ≠ pin_of op → abs r' q = abs r q) →
    abs r' (pin_of op) = s → s = spec_step op (abs r (pin_of op)) →
    ∀ q, exists_pin q →
      abs r' q = if decide (pin_of op = q) then spec_step op (abs r q) else abs r q).
  { intros s r' Ho Hs -> q Hq. destruct (decide (pin_of op = q)) as [<-|]; [done|by apply Ho]. }
  destruct op as [p pl|p l d|p l|p|p]; cbn [gstep pin_of spec_step] in *;
    unfold Input_new, Output_new, Input_drop, Output_drop;
    [destruct (write_conf_spec p (mkCnf false true pl S0S1 false) r Hp) as (r' & -> & Ho & Hs)
    |destruct (set_level_spec p l r Hp) as (r1 & -> & Ho1 & Hs1)
    |destruct (set_level_spec p l r Hp) as (r' & -> & Ho & Hs)
    |destruct (write_conf_spec p PinCnf_reset r Hp) as (r' & -> & Ho & Hs)..];
    [by exists r'; split; [|eapply Hone]| |by exists r'; split; [|eapply Hone]..].
  cbn [mbind option_bind].
  destruct (write_conf_spec p (mkCnf true false PullNone (drive_bits d) false) r1 Hp)
    as (r' & -> & Ho & Hs). exists r'. split; [done|]. eapply Hone; [|exact Hs|by rewrite Hs1].
  intros q Hq Hne. by rewrite Ho, Ho1.
Qed.

Lemma reads_spec p r : exists_pin p →
  is_set_high has_p1 p r = Some (lvl (abs r p)) ∧ is_set_low has_p1 p r = Some (negb (lvl (abs r p))) ∧
  is_high has_p1 p r = Some (ext (abs r p)) ∧ is_low has_p1 p r = Some (negb (ext (abs r p))).
Proof.
  intros Hp. destruct (block_abs p Hp) as (E1 & E2 & Hb).
  unfold is_set_high, is_high, is_set_low, is_low, with_port, pin. rewrite E1, E2. simpl.
  rewrite !bit_clear_testbit by lia. by rewrite !negb_involutive.
Qed.

Lemma grun_spec ops : ∀ r, Forall (λ op, exists_pin (pin_of op)) ops →
  ∃ r', grun has_p1 ops r = Some r' ∧
    ∀ q, exists_pin q → abs r' q = spec_run q ops (abs r q).
Proof.
  induction ops as [|op ops IH]; intros r; [by exists r|]. intros [Hp Hf]%Forall_cons.
  cbn [grun]. destruct (gstep_spec op r Hp) as (r1 & -> & H1). cbn [mbind option_bind].
  destruct (IH r1 Hf) as (r' & -> & H2). exists r'. split; [done|]. intros q Hq.
  rewrite H2 by done. unfold spec_run. simpl. by rewrite H1.
Qed.

(** The pins of the nRF keep the contract of output pins. *)
#[export] Instance nrf_output_port : OutputPort Regs.
Proof.
  refine {| valid := exists_pin; level r p := lvl (abs r p);
            put p b r := set_level has_p1 p (if b : bool then High else Low) r |}.
  - intros p b r Hp. destruct (set_level_spec p (if b then High else Low) r Hp) as (r' & ? & _).
    eauto.
  - intros p b r r' Hp Hr q Hq.
    destruct (set_level_spec p (if b then High else Low) r Hp) as (r1 & E1 & Ho & Hs).
    rewrite Hr in E1. simplify_eq. destruct (decide (p = q)) as [<-|]; [rewrite Hs; by destruct b|].
    by rewrite Ho.
Defined.

(** ** Theorems *)

(** C35: The registers of the ports are one state for each pin: every operation of the drivers
    does to its own pin what the specification says and nothing to the others, in any
    order and number; and reads give the level last written to the pin, and the level
    at the pin. *)
Theorem nrf_gpio_refines ops r : Forall (λ op, exists_pin (pin_of op)) ops →
  ∃ r', grun has_p1 ops r = Some r' ∧
    ∀ q, exists_pin q →
      abs r' q = spec_run q ops (abs r q) ∧
      is_set_high has_p1 q r' = Some (lvl (spec_run q ops (abs r q))) ∧
      is_set_low has_p1 q r' = Some (negb (lvl (spec_run q ops (abs r q)))) ∧
      is_high has_p1 q r' = Some (ext (spec_run q ops (abs r q))) ∧
      is_low has_p1 q r' = Some (negb (ext (spec_run q ops (abs r q)))).
Proof.
  intros Hf. destruct (grun_spec ops r Hf) as (r' & Hr & Ha). exists r'. split; [done|].
  intros q Hq. rewrite <-(Ha q Hq). split; [done|]. by apply reads_spec.
Qed.

(** The number of a pin identifies it: the pins of the table have distinct numbers of
    eight bits, from which the port and the number in the port are got back; the PSEL
    value of a pin is its number and is never that of [NoPin]; erasing the type keeps
    all of it.  A number past the last port, as [AnyPin::steal] can make one, has no
    registers. *)
Theorem nrf_pins_identified :
  NoDup (uncurry impl_pin <$> pins has_p1) ∧
  Forall (λ '(port_num, pin_num),
    let p := impl_pin port_num pin_num in
    0 ≤ p < 2 ^ 8 ∧ port has_p1 p = Some (if port_num =? 0 then Port0 else Port1) ∧
    block has_p1 p = port has_p1 p ∧ pin has_p1 p = pin_num ∧
    optional_psel_bits (Some p) = p ∧ optional_psel_bits (Some p) ≠ optional_psel_bits None ∧
    degrade_optional (Some p) = Some p ∧
    exists_pin p) (pins has_p1) ∧
  (∀ p, 0 ≤ p → ¬ exists_pin p → block has_p1 p = None).
Proof.
  split_and!; [| |by apply block_None].
  - apply (bool_decide_unpack _). by destruct has_p1.
  - unfold exists_pin. destruct has_p1; repeat constructor; simpl; try done; lia.
Qed.
End proofs.

(** ** Witnesses *)
Definition Regs_reset : Regs :=
  mkRegs (mkPort 0 0 (λ _, PinCnf_reset)) (mkPort 0 0 (λ _, PinCnf_reset)).

Lemma nrf_gpio_refines_witness :
  let ops := [NewOutput 33 High HighDrive; NewInput 1 PullUp; SetLevel 1 High; SetLevel 33 Low;
              SetLevel 34 High] in
  ∃ r', grun true ops Regs_reset = Some r' ∧ is_set_high true 33 r' = Some false ∧
    is_set_high true 34 r' = Some true ∧ cnf (abs r' 1) = mkCnf false true PullUp S0S1 false.
Proof.
  intros ops. destruct (nrf_gpio_refines true ops Regs_reset) as (r' & Hr & H).
  { repeat constructor; simpl; lia. }
  exists r'. split; [exact Hr|]. split; [|split].
  - exact (proj1 (proj2 (H 33 ltac:(unfold exists_pin; lia)))).
  - exact (proj1 (proj2 (H 34 ltac:(unfold exists_pin; lia)))).
  - rewrite (proj1 (H 1 ltac:(unfold exists_pin; lia))). reflexivity.
Defined.
