(* ===== verification/RpGpio.v ===== *)
(** * RpGpio: pins of the RP2040

    [embassy-rp/src/gpio.rs]: the drivers on the pads, the function selectors and the
    SIO, refined as one state per pin; what the drivers leave undone ([todo]) is left
    undone here. *)
From stdpp Require Import functions.
From S2P Require Import Prelude Port.
Local Open Scope Z_scope.

Inductive Level : Set := Low | High.
Inductive Pull : Set := PullNone | PullUp | PullDown.
Inductive Bank : Set := Bank0 | Qspi.
#[export] Instance Bank_eq_dec : EqDecision Bank.
Proof. solve_decision. Defined.

(** The fields of a pad that the drivers write, the others in one; the function of a
    pin: the software's, or another. *)
Record Pad : Type := mkPad { ie : bool; pue : bool; pde : bool; pad_rest : Z }.
Inductive Func : Set := SIO | OtherFunc (n : Z).

Record BankRegs : Type := mkBank {
  gpio_out : Z; gpio_oe : Z; gpio_in : Z; pads : Z → Pad; funcsel : Z → Func
}.
Record Regs : Type := mkRegs { bank0 : BankRegs; qspi : BankRegs }.
Definition bank_regs (b : Bank) (r : Regs) : BankRegs :=
  match b with Bank0 => bank0 r | Qspi => qspi r end.
Definition upd_bank (b : Bank) (f : BankRegs → BankRegs) (r : Regs) : Regs :=
  match b with Bank0 => mkRegs (f (bank0 r)) (qspi r) | Qspi => mkRegs (bank0 r) (f (qspi r)) end.

(** ** [Pin] *)
Definition pin (pin_bank : Z) : Z := Z.land pin_bank 0x1f.
Definition bank (pin_bank : Z) : Bank := if Z.land pin_bank 0x20 =? 0 then Bank0 else Qspi.
Definition degrade (pin_bank : Z) : Z := pin_bank.
Definition Bank_u8 (b : Bank) : Z := match b with Bank0 => 0 | Qspi => 1 end.
Definition impl_pin (b : Bank) (pin_num : Z) : Z := Bank_u8 b * 32 + pin_num.
Definition pins : list (Bank * Z) :=
  ((λ n, (Bank0, Z.of_nat n)) <$> seq 0 30) ++ ((λ n, (Qspi, Z.of_nat n)) <$> seq 0 6).

Section drivers.
(** What a write of a pad starts from, a matter of the register library. *)
Context (pad_default : Pad).

Definition write_pad (p : Z) (x : Pad) : Regs → Regs :=
  upd_bank (bank p) (λ g, mkBank (gpio_out g) (gpio_oe g) (gpio_in g) (<[pin p := x]> (pads g)) (funcsel g)).
Definition select_sio (p : Z) : Regs → Regs :=
  upd_bank (bank p) (λ g, mkBank (gpio_out g) (gpio_oe g) (gpio_in g) (pads g) (<[pin p := SIO]> (funcsel g))).
Definition write_oe (p : Z) (b : bool) : Regs → Regs :=
  upd_bank (bank p) (λ g, mkBank (gpio_out g)
    ((if b then write_set else write_clr) (bit (pin p)) (gpio_oe g)) (gpio_in g) (pads g) (funcsel g)).
Definition write_out (p : Z) (b : bool) : Regs → Regs :=
  upd_bank (bank p) (λ g, mkBank
    ((if b then write_set else write_clr) (bit (pin p)) (gpio_out g))
    (gpio_oe g) (gpio_in g) (pads g) (funcsel g)).

Definition Input_new (p : Z) (pull : Pull) (r : Regs) : Regs :=
  let pad := match pull with
             | PullUp => mkPad true true (pde pad_default) (pad_rest pad_default)
             | PullDown => mkPad true (pue pad_default) true (pad_rest pad_default)
             | PullNone => mkPad true (pue pad_default) (pde pad_default) (pad_rest pad_default)
             end in
  select_sio p (write_oe p false (write_pad p pad r)).
Definition Input_drop (p : Z) (r : Regs) : Regs := r.
Definition is_low (p : Z) (r : Regs) : bool := bit_clear (gpio_in (bank_regs (bank p) r)) (pin p).
Definition is_high (p : Z) (r : Regs) : bool := negb (is_low p r).

Definition Output_new (p : Z) (initial_output : Level) (r : Regs) : Regs :=
  let r1 := match initial_output with High => write_out p true r | Low => write_out p false r end in
  select_sio p (write_oe p true r1).
Definition Output_drop (p : Z) (r : Regs) : Regs := r.
Definition set_high (p : Z) (r : Regs) : Regs := write_out p true r.
Definition set_low (p : Z) (r : Regs) : Regs := write_out p false r.
Definition is_set_low (p : Z) (r : Regs) : bool := true.
Definition is_set_high (p : Z) (r : Regs) : bool := negb (is_set_low p r).

(** ** The specification *)
Record PinState : Type := mkPin { pad : Pad; func : Func; oe : bool; lvl : bool; ext : bool }.
Definition view (g : BankRegs) (n : Z) : PinState :=
  mkPin (pads g n) (funcsel g n) (Z.testbit (gpio_oe g) n) (Z.testbit (gpio_out g) n)
    (Z.testbit (gpio_in g) n).
Definition abs (r : Regs) (p : Z) : PinState := view (bank_regs (bank p) r) (pin p).

Inductive GOp : Set :=
| NewInput (p : Z) (pl : Pull)
| NewOutput (p : Z) (l : Level)
| SetLevel (p : Z) (l : Level)
| DropInput (p : Z)
| DropOutput (p : Z).
Definition gstep (op : GOp) (r : Regs) : Regs :=
  match op with
  | NewInput p pl => Input_new p pl r
  | NewOutput p l => Output_new p l r
  | SetLevel p High => set_high p r
  | SetLevel p Low => set_low p r
  | DropInput p => Input_drop p r
  | DropOutput p => Output_drop p r
  end.
Definition pin_of (op : GOp) : Z :=
  match op with
  | NewInput p _ | NewOutput p _ | SetLevel p _ | DropInput p | DropOutput p => p
  end.
Definition is_High (l : Level) : bool := match l with High => true | Low => false end.
Definition spec_step (op : GOp) (s : PinState) : PinState :=
  match op with
  | NewInput _ pl =>
      mkPin (mkPad true (match pl with PullUp => true | _ => pue pad_default end)
               (match pl with PullDown => true | _ => pde pad_default end) (pad_rest pad_default))
        SIO false (lvl s) (ext s)
  | NewOutput _ l => mkPin (pad s) SIO true (is_High l) (ext s)
  | SetLevel _ l => mkPin (pad s) (func s) (oe s) (is_High l) (ext s)
  | DropInput _ | DropOutput _ => s
  end.
Definition grun (ops : list GOp) (r : Regs) : Regs := foldl (λ r op, gstep op r) r ops.
Definition spec_run (p : Z) (ops : list GOp) (s : PinState) : PinState :=
  foldl (λ s op, if decide (pin_of op = p) then spec_step op s else s) s ops.

(** ** Proofs *)
Definition exists_pin (p : Z) : Prop := 0 ≤ p < 30 ∨ 32 ≤ p < 38.

Lemma pin_bank_eq p : exists_pin p →
  pin p = p mod 32 ∧ bank p = (if p <? 32 then Bank0 else Qspi).
Proof.
  intros Hp. unfold pin, bank. change 0x1f with (Z.ones 5). rewrite Z.land_ones by lia.
  split; [done|]. change 0x20 with (2 ^ 5).
  assert (Hb : (Z.land p (2 ^ 5) =? 0) = negb (Z.testbit p 5))
    by (rewrite <-land_bit by lia; by rewrite negb_involutive).
  assert (Ht : Z.testbit p 5 = negb (p <? 32)).
  { apply Z.b2z_inj. rewrite Z.testbit_spec' by lia. change (2 ^ 5) with 32.
    destruct (Z.ltb_spec p 32); simpl; unfold exists_pin in *; zdiv. }
  by rewrite Hb, Ht, negb_involutive.
Qed.

Lemma pin_inj p q : exists_pin p → exists_pin q → bank p = bank q → pin p = pin q → p = q.
Proof.
  intros Hp Hq. destruct (pin_bank_eq p Hp) as [-> ->], (pin_bank_eq q Hq) as [-> ->].
  unfold exists_pin in *. destruct (Z.ltb_spec p 32), (Z.ltb_spec q 32); try done; intros _; zdiv.
Qed.

Lemma upd_bank_abs p f h r q : exists_pin p → exists_pin q →
  (∀ g n, n ≠ pin p → view (f g) n = view g n) →
  (∀ g, view (f g) (pin p) = h (view g (pin p))) →
  abs (upd_bank (bank p) f r) q = if decide (p = q) then h (abs r q) else abs r q.
Proof.
  intros Hp Hq Ho Hs. unfold abs. destruct (decide (p = q)) as [<-|Hne].
  - by destruct (bank p); simpl; rewrite Hs.
  - destruct (decide (bank p = bank q)) as [E|E].
    + rewrite <-E. assert (pin q ≠ pin p) by (intros ?; apply Hne; by apply pin_inj).
      destruct (bank p); simpl; by rewrite Ho.
    + by destruct (bank p), (bank q).
Qed.

Lemma pin_range p : exists_pin p → 0 ≤ pin p.
Proof. intros Hp. rewrite (proj1 (pin_bank_eq p Hp)). zdiv. Qed.

Lemma testbit_write (b : bool) n m r : 0 ≤ n →
  Z.testbit ((if b then write_set else write_clr) (bit n) r) m =
    if decide (n = m) then b else Z.testbit r m.
Proof.
  intros. destruct b; rewrite ?testbit_write_set, ?testbit_write_clr by done;
    by destruct (decide (n = m)); [rewrite bool_decide_true|rewrite bool_decide_false].
Qed.

(** What each write does. *)
Lemma writes_abs p q r x b : exists_pin p → exists_pin q →
  abs (write_pad p x r) q =
    (if decide (p = q) then mkPin x (func (abs r q)) (oe (abs r q)) (lvl (abs r q)) (ext (abs r q))
     else abs r q) ∧
  abs (select_sio p r) q =
    (if decide (p = q) then mkPin (pad (abs r q)) SIO (oe (abs r q)) (lvl (abs r q)) (ext (abs r q))
     else abs r q) ∧
  abs (write_oe p b r) q =
    (if decide (p = q) then mkPin (pad (abs r q)) (func (abs r q)) b (lvl (abs r q)) (ext (abs r q))
     else abs r q) ∧
  abs (write_out p b r) q =
    (if decide (p = q) then mkPin (pad (abs r q)) (func (abs r q)) (oe (abs r q)) b (ext (abs r q))
     else abs r q).
Proof.
  intros Hp Hq. pose proof (pin_range p Hp) as Hr. split_and!.
  - apply (upd_bank_abs p _ (λ s, mkPin x (func s) (oe s) (lvl s) (ext s))); try done; intros g;
      unfold view; simpl; [intros n Hn; by rewrite fn_lookup_insert_ne|by rewrite fn_lookup_insert].
  - apply (upd_bank_abs p _ (λ s, mkPin (pad s) SIO (oe s) (lvl s) (ext s))); try done; intros g;
      unfold view; simpl; [intros n Hn; by rewrite fn_lookup_insert_ne|by rewrite fn_lookup_insert].
  - apply (upd_bank_abs p _ (λ s, mkPin (pad s) (func s) b (lvl s) (ext s))); try done; intros g;
      unfold view; cbn [gpio_oe gpio_out gpio_in pads funcsel];
      [intros n Hn; by rewrite testbit_write, decide_False by congruence
      |by rewrite testbit_write, decide_True].
  - apply (upd_bank_abs p _ (λ s, mkPin (pad s) (func s) (oe s) b (ext s))); try done; intros g;
      unfold view; cbn [gpio_oe gpio_out gpio_in pads funcsel];
      [intros n Hn; by rewrite testbit_write, decide_False by congruence
      |by rewrite testbit_write, decide_True].
Qed.

Lemma gstep_abs op r q : exists_pin (pin_of op) → exists_pin q →
  abs (gstep op r) q = if decide (pin_of op = q) then spec_step op (abs r q) else abs r q.
Proof.
  intros Hp Hq. pose proof (λ r x b, writes_abs (pin_of op) q r x b Hp Hq) as W.
  destruct op as [p pl|p l|p l|p|p]; cbn [gstep pin_of spec_step] in *;
    unfold Input_new, Output_new, Input_drop, Output_drop, set_high, set_low;
    try (by case_decide).
  - destruct pl; rewrite (proj1 (proj2 (W _ pad_default false)));
      rewrite (proj1 (proj2 (proj2 (W _ pad_default false)))), (proj1 (W _ _ false));
      case_decide; done.
  - destruct l; rewrite (proj1 (proj2 (W _ pad_default false)));
      rewrite (proj1 (proj2 (proj2 (W _ pad_default true))));
      [rewrite (proj2 (proj2 (proj2 (W _ pad_default false))))
      |rewrite (proj2 (proj2 (proj2 (W _ pad_default true))))];
      case_decide; done.
  - destruct l; [rewrite (proj2 (proj2 (proj2 (W _ pad_default false))))
      |rewrite (proj2 (proj2 (proj2 (W _ pad_default true))))]; case_decide; done.
Qed.

Lemma reads_abs p r : exists_pin p →
  is_high p r = ext (abs r p) ∧ is_low p r = negb (ext (abs r p)).
Proof.
  intros Hp. unfold is_high, is_low. rewrite bit_clear_testbit by (by apply pin_range).
  by rewrite negb_involutive.
Qed.

(** The pins of the RP2040 keep the contract of output pins. *)
#[export] Instance rp_output_port : OutputPort Regs.
Proof.
  refine {| valid := exists_pin; level r p := lvl (abs r p);
            put p b r := Some (if b : bool then set_high p r else set_low p r) |}.
  - eauto.
  - intros p b r r' Hp [= <-] q Hq.
    pose proof (λ b, proj2 (proj2 (proj2 (writes_abs p q r pad_default b Hp Hq)))) as W.
    destruct b; unfold set_high, set_low; rewrite W; by case_decide.
Defined.

(** ** Theorems *)

(** The registers are one state for each pin, as the specification has it: each operation
    does its effect to its own pin and nothing to the others; inputs read the level at
    the pin.  Two things are not what the names say: a dropped driver leaves the pin as
    it is, driven if it was; and an output reads as low whatever was written to it. *)
Theorem rp_gpio_refines ops r q : Forall (λ op, exists_pin (pin_of op)) ops → exists_pin q →
  let s := spec_run q ops (abs r q) in
  abs (grun ops r) q = s ∧
  is_high q (grun ops r) = ext s ∧ is_low q (grun ops r) = negb (ext s) ∧
  abs (grun (ops ++ [DropInput q; DropOutput q]) r) q = s ∧
  is_set_low q (grun (ops ++ [SetLevel q High]) r) = true ∧
  lvl (abs (grun (ops ++ [SetLevel q High]) r) q) = true.
Proof.
  intros Hf Hq. cbv zeta.
  assert (Habs : ∀ ops r, Forall (λ op, exists_pin (pin_of op)) ops →
    abs (grun ops r) q = spec_run q ops (abs r q)).
  { clear ops r Hf. intros ops r Hf. revert r. induction Hf as [|op ops Hp Hf IH]; intros r; [done|].
    unfold grun, spec_run in *. simpl. by rewrite IH, gstep_abs. }
  pose proof (Habs ops r Hf) as E. destruct (reads_abs q (grun ops r) Hq) as [-> ->].
  rewrite E. split_and!; try done.
  - unfold grun. rewrite foldl_app. exact E.
  - rewrite Habs by (apply Forall_app; split; [done|by constructor; [|constructor]]). unfold spec_run.
    rewrite foldl_app. simpl. by rewrite decide_True.
Qed.

(** The pins of the table have distinct numbers, from which the bank and the number in
    it are got back. *)
Theorem rp_pins_identified :
  NoDup (uncurry impl_pin <$> pins) ∧
  Forall (λ '(b, n), let p := impl_pin b n in
    0 ≤ p < 2 ^ 8 ∧ bank p = b ∧ pin p = n ∧ exists_pin (degrade p)) pins.
Proof.
  split; [by apply (bool_decide_unpack _)|].
  unfold exists_pin. repeat constructor; simpl; try done; lia.
Qed.
End drivers.

(** ** Witness *)
Definition Regs_reset (d : Pad) : Regs :=
  let g := mkBank 0 0 0 (λ _, d) (λ _, OtherFunc 31) in mkRegs g g.
Definition Pad_zero : Pad := mkPad false false false 0.

Lemma rp_gpio_refines_witness :
  let ops := [NewOutput 7 High; NewInput 8 PullUp; SetLevel 33 High; DropOutput 7] in
  let r := grun Pad_zero ops (Regs_reset Pad_zero) in
  abs r 7 = mkPin Pad_zero SIO true true false ∧ is_set_low 7 (grun Pad_zero (ops ++ [SetLevel 7 High]) (Regs_reset Pad_zero)) = true.
Proof.
  intros ops r.
  destruct (rp_gpio_refines Pad_zero ops (Regs_reset Pad_zero) 7) as (H & _ & _ & _ & Hl & _).
  { repeat constructor; simpl; unfold exists_pin; lia. } { unfold exists_pin. lia. }
  split; [exact H|exact Hl].
Defined.
