(* ===== verification/Ppi.v ===== *)
(** * Ppi: events that trigger tasks

    [embassy-nrf/src/ppi.rs]: channels that route an event to a task and a fork task
    without the processor; and the two channels with which [buffered_uarte.rs] stops
    the receiver when the line is idle.  Tasks and events are the addresses of their
    registers, which are not 0. *)
From stdpp Require Import functions.
From S2P Require Import Prelude Port.
Local Open Scope Z_scope.

(** CHEN, and EEP, TEP and FORK.TEP of each channel. *)
Record Regs : Type := mkRegs { chen : Z; eep : Z → Z; tep : Z → Z; fork : Z → Z }.

(** A channel is its number. *)
Definition clear_fork_task (ch : Z) (r : Regs) : Regs :=
  mkRegs (chen r) (eep r) (tep r) (<[ch := 0]> (fork r)).
Definition Ppi_new (ch : Z) (r : Regs) : Regs := clear_fork_task ch r.
Definition ppi_enable (ch : Z) (r : Regs) : Regs :=
  mkRegs (write_set (bit ch) (chen r)) (eep r) (tep r) (fork r).
Definition ppi_disable (ch : Z) (r : Regs) : Regs :=
  mkRegs (write_clr (bit ch) (chen r)) (eep r) (tep r) (fork r).
Definition set_fork_task (ch t : Z) (r : Regs) : Regs :=
  mkRegs (chen r) (eep r) (tep r) (<[ch := t]> (fork r)).
Definition set_task (ch t : Z) (r : Regs) : Regs :=
  mkRegs (chen r) (eep r) (<[ch := t]> (tep r)) (fork r).
Definition set_event (ch e : Z) (r : Regs) : Regs :=
  mkRegs (chen r) (<[ch := e]> (eep r)) (tep r) (fork r).
Definition Ppi_drop (ch : Z) (r : Regs) : Regs := ppi_disable ch r.

(** [impl_channel!]: the numbers, and whether the channel can be configured; and the
    groups. *)
Definition configurable (number : Z) : bool := number <? 20.
Definition channels : list Z := Z.of_nat <$> seq 0 32.
Definition groups : list Z := Z.of_nat <$> seq 0 6.
(** [degrade] keeps eight bits of the number. *)
Definition degrade (number : Z) : Z := wrap 8 number.

(** ** The hardware: the tasks that an event triggers *)
Definition endpoints (r : Regs) (ch : Z) : list Z := filter (λ t, t ≠ 0) [tep r ch; fork r ch].
Definition triggers (e : Z) (r : Regs) : list Z :=
  flat_map (λ ch, if Z.testbit (chen r) ch && (eep r ch =? e) then endpoints r ch else []) channels.

(** [BufferedUarte::new]: RXDRDY clears and starts the timer, the timer's COMPARE stops
    the receiver. *)
Section wiring.
Context (events_rxdrdy tasks_clear tasks_start events_compare tasks_stoprx : Z).
Definition wire (ppi_ch1 ppi_ch2 : Z) (r : Regs) : Regs :=
  let r := Ppi_new (degrade ppi_ch1) r in
  let r := set_event (degrade ppi_ch1) events_rxdrdy r in
  let r := set_task (degrade ppi_ch1) tasks_clear r in
  let r := set_fork_task (degrade ppi_ch1) tasks_start r in
  let r := ppi_enable (degrade ppi_ch1) r in
  let r := Ppi_new (degrade ppi_ch2) r in
  let r := set_event (degrade ppi_ch2) events_compare r in
  let r := set_task (degrade ppi_ch2) tasks_stoprx r in
  ppi_enable (degrade ppi_ch2) r.
End wiring.

(** ** One channel

    What a channel does, as a function of the registers: nothing, or an event and its
    tasks. *)
Definition route (r : Regs) (ch : Z) : option (Z * list Z) :=
  if Z.testbit (chen r) ch then Some (eep r ch, endpoints r ch) else None.

Inductive PpiOp : Set :=
| New (ch : Z) | Enable (ch : Z) | Disable (ch : Z) | SetTask (ch t : Z) | SetFork (ch t : Z)
| ClearFork (ch : Z) | SetEvent (ch e : Z) | Drop (ch : Z).
Definition ppi_step (op : PpiOp) : Regs → Regs :=
  match op with
  | New ch => Ppi_new ch
  | Enable ch => ppi_enable ch
  | Disable ch => ppi_disable ch
  | SetTask ch t => set_task ch t
  | SetFork ch t => set_fork_task ch t
  | ClearFork ch => clear_fork_task ch
  | SetEvent ch e => set_event ch e
  | Drop ch => Ppi_drop ch
  end.
Definition ch_of (op : PpiOp) : Z :=
  match op with
  | New ch | Enable ch | Disable ch | SetTask ch _ | SetFork ch _ | ClearFork ch
  | SetEvent ch _ | Drop ch => ch
  end.
Definition ppi_run (ops : list PpiOp) (r : Regs) : Regs := foldl (λ r op, ppi_step op r) r ops.

(** A channel's own state and its operations. *)
Record ChState : Type := mkCh { on : bool; ev : Z; t1 : Z; t2 : Z }.
Definition ch_state (r : Regs) (ch : Z) : ChState :=
  mkCh (Z.testbit (chen r) ch) (eep r ch) (tep r ch) (fork r ch).
Definition ch_step (op : PpiOp) (s : ChState) : ChState :=
  match op with
  | New _ | ClearFork _ => mkCh (on s) (ev s) (t1 s) 0
  | Enable _ => mkCh true (ev s) (t1 s) (t2 s)
  | Disable _ | Drop _ => mkCh false (ev s) (t1 s) (t2 s)
  | SetTask _ t => mkCh (on s) (ev s) t (t2 s)
  | SetFork _ t => mkCh (on s) (ev s) (t1 s) t
  | SetEvent _ e => mkCh (on s) e (t1 s) (t2 s)
  end.
Definition ch_run (ch : Z) (ops : list PpiOp) (s : ChState) : ChState :=
  foldl (λ s op, if decide (ch_of op = ch) then ch_step op s else s) s ops.

(** ** Proofs *)
Lemma step_state op r ch : 0 ≤ ch_of op →
  ch_state (ppi_step op r) ch =
    if decide (ch_of op = ch) then ch_step op (ch_state r ch) else ch_state r ch.
Proof.
  intros Hc. unfold ch_state.
  destruct op; simpl in *; destruct (decide (_ = ch)) as [<-|Hne]; simpl;
    rewrite ?testbit_write_set, ?testbit_write_clr, ?bool_decide_true, ?bool_decide_false by done;
    rewrite ?fn_lookup_insert, ?fn_lookup_insert_ne by done; done.
Qed.

Lemma run_state ops : ∀ r ch, Forall (λ op, 0 ≤ ch_of op) ops →
  ch_state (ppi_run ops r) ch = ch_run ch ops (ch_state r ch).
Proof.
  unfold ppi_run, ch_run. induction ops as [|op ops IH]; intros r ch; [done|].
  intros [Hp Hf]%Forall_cons. simpl. by rewrite IH, step_state.
Qed.

Lemma ch_run_app ch ops1 ops2 s : ch_run ch (ops1 ++ ops2) s = ch_run ch ops2 (ch_run ch ops1 s).
Proof. apply foldl_app. Qed.
Lemma ch_run_own ch ops s : Forall (λ op, ch_of op = ch) ops →
  ch_run ch ops s = foldl (λ s op, ch_step op s) s ops.
Proof.
  unfold ch_run. intros Hf. revert s. induction Hf as [|op ops E Hf IH]; intros s; [done|].
  simpl. by rewrite decide_True, IH by done.
Qed.
Lemma ch_run_other ch ops s ch' : Forall (λ op, ch_of op = ch') ops → ch ≠ ch' →
  ch_run ch ops s = s.
Proof.
  unfold ch_run. intros Hf Hn. induction Hf as [|op ops E Hf IH]; [done|].
  simpl. by rewrite decide_False by congruence.
Qed.

Definition routed (s : ChState) (e : Z) : list Z :=
  if on s && (ev s =? e) then filter (λ t, t ≠ 0) [t1 s; t2 s] else [].

Lemma elem_of_triggers e r t :
  t ∈ triggers e r ↔ ∃ ch, 0 ≤ ch < 32 ∧ t ∈ routed (ch_state r ch) e.
Proof.
  unfold triggers, routed, ch_state, endpoints. simpl on. simpl ev. simpl t1. simpl t2.
  rewrite list_elem_of_In, in_flat_map. split; intros (ch & Hch & Ht).
  - exists ch. unfold channels in Hch. apply list_elem_of_In, list_elem_of_fmap in Hch as (n & -> & Hn%elem_of_seq).
    split; [lia|]. by apply list_elem_of_In.
  - exists ch. split; [|by apply list_elem_of_In]. apply list_elem_of_In, list_elem_of_fmap.
    exists (Z.to_nat ch). split; [lia|]. apply elem_of_seq. lia.
Qed.

Lemma elem_of_routed s e t :
  t ∈ routed s e ↔ on s = true ∧ ev s = e ∧ t ≠ 0 ∧ (t = t1 s ∨ t = t2 s).
Proof.
  unfold routed. destruct (on s), (Z.eqb_spec (ev s) e); simpl;
    rewrite ?list_elem_of_filter; set_solver.
Qed.

Lemma degrade_id ch : 0 ≤ ch < 32 → degrade ch = ch.
Proof. intros. apply wrap_small. lia. Qed.

(** ** Theorems *)

(** An event triggers the tasks of the channels that are enabled for it, and the state
    of each channel depends on the operations on that channel alone, in their order:
    so a channel that was set up and enabled routes its event to its tasks, whatever is
    done to the others; a new channel has no fork task of an earlier owner; and one that
    was dropped triggers nothing. *)
Theorem ppi_channels_isolated ops r e t : Forall (λ op, 0 ≤ ch_of op) ops →
  (t ∈ triggers e (ppi_run ops r) ↔
   ∃ ch, 0 ≤ ch < 32 ∧
     let s := ch_run ch ops (ch_state r ch) in
     on s = true ∧ ev s = e ∧ t ≠ 0 ∧ (t = t1 s ∨ t = t2 s)) ∧
  (∀ ch, 0 ≤ ch < 32 →
   t2 (ch_run ch (ops ++ [New ch]) (ch_state r ch)) = 0 ∧
   route (ppi_run (ops ++ [Drop ch]) r) ch = None).
Proof.
  intros Hf. split.
  - rewrite elem_of_triggers. f_equiv. intros ch. rewrite run_state by done.
    rewrite elem_of_routed. done.
  - intros ch Hch. split.
    + unfold ch_run. rewrite foldl_app. simpl. by rewrite decide_True.
    + assert (Hs : ch_state (ppi_run (ops ++ [Drop ch]) r) ch =
        ch_run ch (ops ++ [Drop ch]) (ch_state r ch)).
      { apply run_state. apply Forall_app. split; [done|]. constructor; [simpl; lia|constructor]. }
      unfold ch_run in Hs. rewrite foldl_app in Hs. simpl in Hs. rewrite decide_True in Hs by done.
      unfold route. injection Hs as -> _ _ _. done.
Qed.

(** [BufferedUarte::new] wires the timer that stops the receiver: with two channels of
    their own, a byte received clears and starts the timer, and the timer's compare
    event stops the receiver; nothing else is triggered by the two events, if no other
    channel was enabled for them. *)
Theorem uarte_wiring rxdrdy clear start compare stoprx ch1 ch2 r t :
  0 ≤ ch1 < 32 → 0 ≤ ch2 < 32 → ch1 ≠ ch2 → rxdrdy ≠ compare →
  clear ≠ 0 → start ≠ 0 → stoprx ≠ 0 →
  (∀ ch, 0 ≤ ch < 32 → ch ≠ ch1 → ch ≠ ch2 →
     route r ch = None ∨ (eep r ch ≠ rxdrdy ∧ eep r ch ≠ compare)) →
  let r' := wire rxdrdy clear start compare stoprx ch1 ch2 r in
  (t ∈ triggers rxdrdy r' ↔ t = clear ∨ t = start) ∧
  (t ∈ triggers compare r' ↔ t = stoprx).
Proof.
  intros H1 H2 Hne Hev Hc Hs Hr Hoth. unfold wire. rewrite !degrade_id by done.
  set (ops1 := [New ch1; SetEvent ch1 rxdrdy; SetTask ch1 clear; SetFork ch1 start; Enable ch1]).
  set (ops2 := [New ch2; SetEvent ch2 compare; SetTask ch2 stoprx; Enable ch2]).
  change (let r' := ppi_run (ops1 ++ ops2) r in
    (t ∈ triggers rxdrdy r' ↔ t = clear ∨ t = start) ∧ (t ∈ triggers compare r' ↔ t = stoprx)).
  cbv zeta. rewrite !elem_of_triggers.
  assert (F1 : Forall (λ op, ch_of op = ch1) ops1) by (repeat constructor).
  assert (F2 : Forall (λ op, ch_of op = ch2) ops2) by (repeat constructor).
  assert (Hrun : ∀ ch, ch_state (ppi_run (ops1 ++ ops2) r) ch =
    ch_run ch ops2 (ch_run ch ops1 (ch_state r ch))).
  { intros ch. rewrite run_state; [by rewrite ch_run_app|].
    apply Forall_app. split; (eapply Forall_impl; [eassumption|]); simpl; intros; lia. }
  assert (R1 : ch_run ch2 ops2 (ch_run ch2 ops1 (ch_state r ch2)) = mkCh true compare stoprx 0).
  { rewrite (ch_run_own _ ops2) by done. by rewrite (ch_run_other _ ops1 _ ch1) by done. }
  assert (R2 : ch_run ch1 ops2 (ch_run ch1 ops1 (ch_state r ch1)) = mkCh true rxdrdy clear start).
  { rewrite (ch_run_other _ ops2 _ ch2) by done. by rewrite ch_run_own. }
  assert (R3 : ∀ ch, ch ≠ ch1 → ch ≠ ch2 →
    ch_run ch ops2 (ch_run ch ops1 (ch_state r ch)) = ch_state r ch).
  { intros ch Hn1 Hn2. rewrite (ch_run_other _ ops2 _ ch2) by done.
    by rewrite (ch_run_other _ ops1 _ ch1) by done. }
  assert (Hcase : ∀ e, e = rxdrdy ∨ e = compare → (∃ ch, 0 ≤ ch < 32 ∧ t ∈ routed (ch_state (ppi_run (ops1 ++ ops2) r) ch) e) ↔
    t ∈ routed (mkCh true rxdrdy clear start) e ∨ t ∈ routed (mkCh true compare stoprx 0) e).
  { intros e He. split.
    - intros (ch & Hch & Ht). rewrite Hrun in Ht.
      destruct (decide (ch = ch1)) as [->|Hn1]; [rewrite R2 in Ht; by left|].
      destruct (decide (ch = ch2)) as [->|Hn2]; [rewrite R1 in Ht; by right|].
      rewrite R3 in Ht by done. apply elem_of_routed in Ht as (Hon & Hee & _).
      unfold ch_state in Hon, Hee. simpl in Hon, Hee. exfalso.
      destruct (Hoth ch Hch Hn1 Hn2) as [Hro|[? ?]]; [|destruct He as [He|He]; rewrite He in Hee; contradiction].
      unfold route in Hro. by rewrite Hon in Hro.
    - intros [Ht|Ht]; [exists ch1; rewrite Hrun, R2|exists ch2; rewrite Hrun, R1]; done. }
  rewrite !Hcase by auto. rewrite !elem_of_routed. simpl.
  clear - Hev Hc Hs Hr. split; split.
  - intros [(_ & _ & _ & H)|(_ & H & _)]; [exact H|congruence].
  - intros H. left. split_and!; [done|done| |done]. by destruct H as [->| ->].
  - intros [(_ & H & _)|(_ & _ & Hn & [H|H])]; [congruence|done|done].
  - intros ->. right. split_and!; [done|done|done|by left].
Qed.

(** ** Witnesses *)
Definition Regs_reset : Regs := mkRegs 0 (λ _, 0) (λ _, 0) (λ _, 0).

Lemma ppi_channels_isolated_witness :
  77 ∈ triggers 5 (ppi_run [SetTask 3 77; SetEvent 3 5; Enable 3; Enable 4; Drop 4] Regs_reset).
Proof.
  apply (proj1 (ppi_channels_isolated
    [SetTask 3 77; SetEvent 3 5; Enable 3; Enable 4; Drop 4] Regs_reset 5 77
    ltac:(repeat constructor; simpl; lia))).
  exists 3. split; [lia|]. split; [reflexivity|]. split; [reflexivity|]. split; [lia|].
  left. reflexivity.
Defined.

Lemma uarte_wiring_witness :
  triggers 10 (wire 10 20 21 11 30 0 1 Regs_reset) = [20; 21] ∧
  30 ∈ triggers 11 (wire 10 20 21 11 30 0 1 Regs_reset).
Proof.
  split; [reflexivity|].
  apply (proj2 (uarte_wiring 10 20 21 11 30 0 1 Regs_reset 30 ltac:(lia) ltac:(lia) ltac:(lia)
    ltac:(lia) ltac:(lia) ltac:(lia) ltac:(lia) ltac:(intros; right; split; discriminate))). reflexivity.
Defined.
