(* ===== verification/Rp.v ===== *)
(** * Rp: clocks, resets, the UART and the DMA of the RP2040

    [embassy-rp/src]: [pll.rs], [resets.rs] and the start-up sequence of [system.rs] that
    uses them, [uart.rs] and [dma.rs].  Each function is the writes it does to its
    registers, with the fields' names. *)
From stdpp Require Import functions.
From S2P Require Import Prelude RpGpio.
Local Open Scope Z_scope.

(** ** PLL *)
Module Pll.
Definition XOSC_MHZ : Z := 12.

(** PWR, FBDIV_INT, CS and PRIM. *)
Record Pll : Type := mkPll {
  vcopd : bool; postdivpd : bool; dsmpd : bool; pd : bool;
  fbdiv_int : Z; cs_refdiv : Z; postdiv1 : Z; postdiv2 : Z
}.
(** Division of [u32]s. *)
Definition div (a b : Z) : outcome Z := if b =? 0 then Panic else Done (a / b).

(** The fields that are written. *)
Definition set_pwr (vcopd postdivpd dsmpd pd : bool) (p : Pll) : Pll :=
  mkPll vcopd postdivpd dsmpd pd (fbdiv_int p) (cs_refdiv p) (postdiv1 p) (postdiv2 p).
Definition set_fbdiv (fbdiv : Z) (p : Pll) : Pll :=
  mkPll (vcopd p) (postdivpd p) (dsmpd p) (pd p) fbdiv (cs_refdiv p) (postdiv1 p) (postdiv2 p).
Definition set_refdiv (refdiv : Z) (p : Pll) : Pll :=
  mkPll (vcopd p) (postdivpd p) (dsmpd p) (pd p) (fbdiv_int p) refdiv (postdiv1 p) (postdiv2 p).
Definition set_prim (post_div1 post_div2 : Z) (p : Pll) : Pll :=
  mkPll (vcopd p) (postdivpd p) (dsmpd p) (pd p) (fbdiv_int p) (cs_refdiv p) post_div1 post_div2.

(** [configure], a write at a time, each with what is computed before it: up to the wait for
    the lock, and after it. *)
Definition before_lock (refdiv vco_freq post_div1 post_div2 : Z) : list (Pll → outcome Pll) :=
  let ref_mhz := div XOSC_MHZ refdiv in
  let fbdiv := ref ← ref_mhz; div vco_freq (ref * 1000000) in
  [(λ p, Done (set_pwr true true true true p));
   (λ p, Done (set_fbdiv 0 p));
   (λ p, ref ← ref_mhz; Done (set_refdiv ref p));
   (λ p,
     ref ← ref_mhz; fbdiv ← fbdiv;
     _ ← assert ((16 <=? fbdiv) && (fbdiv <=? 520));
     _ ← assert ((1 <=? post_div1) && (post_div1 <=? 7) && ((1 <=? post_div2) && (post_div2 <=? 7)));
     _ ← assert (post_div2 <=? post_div1);
     _ ← assert (ref <=? vco_freq / 16);
     Done (set_fbdiv fbdiv p));
   (λ p, Done (set_pwr false (postdivpd p) (dsmpd p) false p))].
Definition after_lock (post_div1 post_div2 : Z) : list (Pll → outcome Pll) :=
  [(λ p, Done (set_prim post_div1 post_div2 p));
   (λ p, Done (set_pwr (vcopd p) false (dsmpd p) (pd p) p))].
Definition writes (ws : list (Pll → outcome Pll)) (p : Pll) : outcome Pll :=
  foldl (λ r w, p ← r; w p) (Done p) ws.
Lemma writes_cons w ws p : writes (w :: ws) p = (p' ← w p; writes ws p').
Proof.
  unfold writes. cbn [foldl mbind outcome_bind]. destruct (w p) as [q|]; [done|].
  cbn [mbind outcome_bind]. by induction ws.
Qed.
(** With the wait left to the hardware. *)
Definition configure (refdiv vco_freq post_div1 post_div2 : Z) (p : Pll) : outcome Pll :=
  p ← writes (before_lock refdiv vco_freq post_div1 post_div2) p;
  writes (after_lock post_div1 post_div2) p.

(** The hardware: the crystal is divided by CS.REFDIV, and the oscillator runs at
    FBDIV_INT times that.  Times [cs_refdiv], in Hz. *)
Definition vco_times_refdiv (p : Pll) : Z := XOSC_MHZ * 1000000 * fbdiv_int p.

Lemma assert_Done b u : assert b = Done u → b = true.
Proof. by destruct b. Qed.

Lemma configure_done refdiv vco d1 d2 p p' : 0 ≤ refdiv → configure refdiv vco d1 d2 p = Done p' →
  1 ≤ refdiv ≤ 12 ∧ p' = mkPll false false true false (vco / (12 / refdiv * 1000000)) (12 / refdiv) d1 d2 ∧
  16 ≤ vco / (12 / refdiv * 1000000) ≤ 520 ∧ 1 ≤ d2 ≤ d1 ∧ d1 ≤ 7.
Proof.
  intros Hr. unfold configure, before_lock, after_lock, writes, div, XOSC_MHZ.
  destruct (Z.eqb_spec refdiv 0); [done|]. cbn.
  destruct (Z.eqb_spec (12 / refdiv * 1000000) 0); [done|]. cbn.
  intros (p1 & H & [= <-])%bind_Done. apply bind_Done in H as (p2 & H & [= <-]).
  apply bind_Done in H as ([] & A1%assert_Done & H). apply bind_Done in H as ([] & A2%assert_Done & H).
  apply bind_Done in H as ([] & A3%assert_Done & H). apply bind_Done in H as ([] & A4%assert_Done & H).
  injection H as <-.
  rewrite !andb_true_iff, !Z.leb_le in *.
  assert (refdiv ≤ 12).
  { destruct (decide (refdiv ≤ 12)) as [?|]; [done|]. by rewrite (Z.div_small 12) in * by lia. }
  split; [lia|]. split; [done|]. lia.
Qed.

(** The divider written is the frequency of the divided crystal and not the divisor that
    was asked for: whatever the arguments, if [configure] returns, the oscillator runs at
    least a quarter below or a quarter above the frequency asked for. *)
Theorem pll_vco_wrong refdiv vco_freq d1 d2 p p' :
  0 ≤ refdiv → 0 ≤ vco_freq → configure refdiv vco_freq d1 d2 p = Done p' →
  cs_refdiv p' ≠ refdiv ∧ 1 ≤ cs_refdiv p' < 2 ^ 6 ∧ 16 ≤ fbdiv_int p' ≤ 520 ∧
  (4 * vco_times_refdiv p' ≤ 3 * (vco_freq * cs_refdiv p') ∨
   4 * vco_times_refdiv p' > 5 * (vco_freq * cs_refdiv p')).
Proof.
  intros Hr Hv Hc. destruct (configure_done _ _ _ _ _ _ Hr Hc) as (Hrd & -> & Hf & _).
  unfold vco_times_refdiv, XOSC_MHZ. cbn [fbdiv_int cs_refdiv].
  assert (Hq : (12 / refdiv = 1 ∨ 12 / refdiv = 2 ∨ 12 / refdiv = 3 ∨ 12 / refdiv = 4 ∨
    12 / refdiv = 6 ∨ 12 / refdiv = 12) ∧ 12 / refdiv ≠ refdiv).
  { assert (refdiv = 1 ∨ refdiv = 2 ∨ refdiv = 3 ∨ refdiv = 4 ∨ refdiv = 5 ∨ refdiv = 6 ∨
      refdiv = 7 ∨ refdiv = 8 ∨ refdiv = 9 ∨ refdiv = 10 ∨ refdiv = 11 ∨ refdiv = 12) as Hin by lia.
    repeat destruct Hin as [->|Hin]; subst; vm_compute; intuition discriminate. }
  destruct Hq as [Hq Hne]. set (q := 12 / refdiv) in *. set (f := vco_freq / (q * 1000000)) in *.
  assert (Hdiv : q * 1000000 * f ≤ vco_freq < q * 1000000 * (f + 1)).
  { pose proof (Z.div_mod vco_freq (q * 1000000) ltac:(lia)).
    pose proof (Z.mod_pos_bound vco_freq (q * 1000000) ltac:(lia)). unfold f. lia. }
  clearbody q f. repeat destruct Hq as [->|Hq]; subst; split_and!; lia.
Qed.
End Pll.

(** ** Resets *)
Module Resets.
Definition ALL_PERIPHERALS : Z := 0x01ffffff.
Definition reset (peris r : Z) : Z := peris.
(** Up to the wait for RESET_DONE. *)
Definition unreset (peris r : Z) : Z := Z.ldiff r peris.
(** The wait is over. *)
Definition reset_done (done_ peris : Z) : bool := Z.land (Z.lnot done_) peris =? 0.
(** [set_<peripheral>(false)]: the bit of each. *)
Definition bits_off (bits : list Z) (peris : Z) : Z :=
  foldl (λ p b, Z.ldiff p (Z.shiftl 1 b)) peris bits.
Definition bits_on (bits : list Z) (peris : Z) : Z :=
  foldl (λ p b, Z.lor p (Z.shiftl 1 b)) peris bits.
End Resets.

(** [configure] of [system.rs]: the writes to RESET, in the order of the code, and the
    PLLs. *)
Module System.
Section configure.
(** The bits of the peripherals, from the register library. *)
Context (io_qspi pads_qspi pll_sys pll_usb adc rtc spi0 spi1 uart0 uart1 usbctrl : Z).
Definition kept : list Z := [io_qspi; pads_qspi; pll_sys; pll_usb].
Definition unused : list Z := [adc; rtc; spi0; spi1; uart0; uart1; usbctrl].
Definition resets_1 (r : Z) : Z :=
  Resets.unreset (Resets.bits_off unused Resets.ALL_PERIPHERALS)
    (Resets.reset (Resets.bits_off kept Resets.ALL_PERIPHERALS) r).
Definition resets_2 (r : Z) : Z :=
  let peris := Resets.bits_on [pll_sys; pll_usb] 0 in
  Resets.unreset peris (Resets.reset peris r).
Definition configure_resets (r : Z) : Z := resets_2 (resets_1 r).

Definition startup_delay : Z := ((Pll.XOSC_MHZ * 1000000) / 1000 + 128) / 256.
Definition configure_plls (sys usb : Pll.Pll) : outcome (Pll.Pll * Pll.Pll) :=
  sys ← Pll.configure 1 1500000000 6 2 sys;
  usb ← Pll.configure 1 480000000 5 2 usb;
  Done (sys, usb).

Lemma testbit_bits_off bits : ∀ p n, 0 ≤ n → Forall (λ b, 0 ≤ b) bits →
  Z.testbit (Resets.bits_off bits p) n = Z.testbit p n && bool_decide (n ∉ bits).
Proof.
  induction bits as [|b bits IH]; intros p n Hn Hf; [by rewrite bool_decide_true, andb_true_r by set_solver|].
  apply Forall_cons in Hf as [Hb Hf]. unfold Resets.bits_off in *. simpl. rewrite IH by done.
  rewrite Z.ldiff_spec, Z.shiftl_1_l, Z.pow2_bits_eqb by done. rewrite <-andb_assoc. f_equal.
  destruct (Z.eqb_spec b n) as [<-|Hne]; simpl.
  - symmetry. apply bool_decide_eq_false. set_solver.
  - apply bool_decide_ext. set_solver.
Qed.

(** The start-up leaves no peripheral in reset, the ones it excludes from [unreset_wait]
    included: between the two, they are the only ones that are held in reset, if they are
    peripherals other than those of the boot flash and the PLLs; the second [reset]
    writes the register anew. *)
Theorem configure_resets_all r : Forall (λ b, 0 ≤ b < 25) (kept ++ unused) →
  configure_resets r = 0 ∧
  ∀ n, 0 ≤ n → Z.testbit (resets_1 r) n = bool_decide (n ∈ unused ∧ n ∉ kept).
Proof.
  intros Hf. apply Forall_app in Hf as [Hk Hu]. split.
  - unfold configure_resets, resets_2, Resets.unreset, Resets.reset. apply Z.ldiff_diag.
  - intros n Hn. unfold resets_1, Resets.unreset, Resets.reset. rewrite Z.ldiff_spec.
    rewrite !testbit_bits_off; [|done|by eapply Forall_impl; [exact Hu|]; simpl; lia
      |done|by eapply Forall_impl; [exact Hk|]; simpl; lia].
    change Resets.ALL_PERIPHERALS with (Z.ones 25).
    destruct (decide (n < 25)) as [Hlt|Hge].
    + rewrite Z.ones_spec_low by lia. simpl.
      repeat case_bool_decide; simpl; try done; exfalso; tauto.
    + rewrite Z.ones_spec_high by lia. simpl. symmetry. apply bool_decide_eq_false.
      intros [Hin _]. rewrite Forall_forall in Hu. specialize (Hu _ Hin). lia.
Qed.

(** The PLLs of the start-up run at a twelfth of the frequencies asked for. *)
Theorem configure_plls_twelfth sys usb :
  ∃ sys' usb', configure_plls sys usb = Done (sys', usb') ∧
    12 * Pll.vco_times_refdiv sys' = 1500000000 * Pll.cs_refdiv sys' ∧
    12 * Pll.vco_times_refdiv usb' = 480000000 * Pll.cs_refdiv usb'.
Proof. eexists _, _. split; [reflexivity|]. split; reflexivity. Qed.
End configure.
End System.

(** ** UART *)
Module Uart.
Section uart.
Context {P : Profile}.

Record Config : Type := mkConfig { baudrate : Z; data_bits : Z; stop_bits : Z }.
Definition Config_default : Config := mkConfig 115200 8 1.
Definition clk_base : Z := 12000000.

(** The divisors written to UARTIBRD and UARTFBRD. *)
Definition divisors (baud : Z) : outcome (Z * Z) :=
  baud_rate_div ← Pll.div (8 * clk_base) baud;
  let baud_ibrd := Z.shiftr baud_rate_div 7 in
  let baud_fbrd := (Z.land baud_rate_div 0x7f + 1) / 2 in
  Done (if baud_ibrd =? 0 then (1, 0)
        else if 65535 <=? baud_ibrd then (65535, 0)
        else (baud_ibrd, baud_fbrd)).

(** WLEN, STP2, and the other bits of UARTLCR_H and UARTCR; the function of the four
    pins. *)
Record Regs : Type := mkRegs {
  uartibrd : Z; uartfbrd : Z; wlen : Z; stp2 : bool; pen : bool; eps : bool; fen : bool;
  uarten : bool; rxe : bool; txe : bool
}.
Definition Uart_new (c : Config) : outcome Regs :=
  '(i, f) ← divisors (baudrate c);
  wl ← arith 8 (data_bits c - 5);
  Done (mkRegs i f wl (stop_bits c =? 2) false false true true true true).

(** [send]: the FIFO has [depth] places, [fifo] is what it holds; before each byte the
    hardware has sent [n] of them on. *)
Definition send_byte (depth : nat) (byte : Z) (fifo : list Z) : list Z :=
  if (length fifo <? depth)%nat then fifo ++ [byte] else fifo.
Fixpoint send (depth : nat) (data : list Z) (drained : list nat) (fifo wire : list Z)
    : list Z * list Z :=
  match data, drained with
  | byte :: data', n :: drained' =>
      send depth data' drained' (send_byte depth byte (drop n fifo)) (wire ++ take n fifo)
  | _, _ => (fifo, wire)
  end.

(** [impl_pin!]: instance and function of each pin. *)
Inductive Instance_ : Set := UART0 | UART1.
Inductive PinFn : Set := TxPin | RxPin | CtsPin | RtsPin.
#[global] Instance Instance_eq_dec : EqDecision Instance_.
Proof. solve_decision. Defined.
#[global] Instance PinFn_eq_dec : EqDecision PinFn.
Proof. solve_decision. Defined.
Definition impl_pins : list (Z * Instance_ * PinFn) := [
  (0, UART0, TxPin); (1, UART0, RxPin); (2, UART0, CtsPin); (3, UART0, RtsPin);
  (4, UART1, TxPin); (5, UART1, RxPin); (6, UART1, CtsPin); (7, UART1, RtsPin);
  (8, UART1, TxPin); (9, UART1, RxPin); (10, UART1, CtsPin); (11, UART1, RtsPin);
  (12, UART0, TxPin); (13, UART0, RxPin); (14, UART0, CtsPin); (15, UART0, RtsPin);
  (16, UART0, TxPin); (17, UART0, RxPin); (18, UART0, CtsPin); (19, UART0, RtsPin);
  (20, UART1, TxPin); (21, UART1, RxPin); (22, UART1, CtsPin); (23, UART1, RtsPin);
  (24, UART1, TxPin); (25, UART1, RxPin); (26, UART1, CtsPin); (27, UART1, RtsPin);
  (28, UART0, TxPin); (29, UART0, RxPin)].

(** The hardware divides its clock by 16 (IBRD + FBRD/64), with six bits of FBRD. *)
Definition divisor64 (d : Z * Z) : Z := 64 * fst d + wrap 6 (snd d).

Lemma divisors_eq baud : 0 < baud →
  let d := (8 * clk_base) / baud in
  divisors baud = Done (if d <? 128 then (1, 0)
                        else if 65535 * 128 <=? d then (65535, 0)
                        else (d / 128, (d mod 128 + 1) / 2)).
Proof.
  intros Hb. cbv zeta. unfold divisors, Pll.div. rewrite (proj2 (Z.eqb_neq baud 0)) by lia.
  cbn [mbind outcome_bind]. set (d := 8 * clk_base / baud).
  assert (0 ≤ d) by (apply Z.div_pos; unfold clk_base; lia).
  rewrite Z.shiftr_div_pow2 by lia. change 0x7f with (Z.ones 7). rewrite Z.land_ones by lia.
  change (2 ^ 7) with 128. f_equal.
  destruct (Z.eqb_spec (d / 128) 0), (Z.ltb_spec d 128); try zdiv; try done.
  destruct (Z.leb_spec 65535 (d / 128)), (Z.leb_spec (65535 * 128) d); try zdiv; done.
Qed.

(** The divisor of the UART is the ideal one, in 64ths, rounded, whenever the rate is in
    the range of the divider, except when its fraction rounds up to a whole: then it is
    one less than the ideal, as the fraction does not fit its field and the integer
    part is not carried.  At a rate of 376470 the UART runs at twice the rate. *)
Theorem uart_divisor baud : 0 < baud →
  let d := (8 * clk_base) / baud in
  ∃ dv, divisors baud = Done dv ∧
    (128 ≤ d < 65535 * 128 →
     (d mod 128 ≠ 127 → 2 * divisor64 dv = d ∨ 2 * divisor64 dv = d + 1) ∧
     (d mod 128 = 127 → snd dv = 64 ∧ 2 * divisor64 dv + 127 = d)) ∧
    (d < 128 → divisor64 dv = 64) ∧ (65535 * 128 ≤ d → divisor64 dv = 65535 * 64).
Proof.
  intros Hb d. rewrite divisors_eq by done. fold d. eexists. split; [done|].
  assert (0 ≤ d) by (apply Z.div_pos; unfold clk_base; lia).
  unfold divisor64, wrap. change (2 ^ 6) with 64.
  destruct (Z.ltb_spec d 128), (Z.leb_spec (65535 * 128) d); cbn [fst snd];
    split_and!; intros; try zdiv.
Qed.

(** [new] returns exactly when the rate is not 0 and, with overflow checks, the number of
    data bits is at least 5; the format is then the one asked for, without parity. *)
Theorem uart_new_spec c : 0 ≤ baudrate c → 0 ≤ data_bits c < 256 →
  match Uart_new c with
  | Done r => baudrate c ≠ 0 ∧ (overflow_checks = true → 5 ≤ data_bits c) ∧
      (5 ≤ data_bits c → wlen r = data_bits c - 5) ∧ (stp2 r = true ↔ stop_bits c = 2) ∧
      pen r = false ∧ fen r = true ∧ uarten r = true ∧ rxe r = true ∧ txe r = true
  | Panic => baudrate c = 0 ∨ (overflow_checks = true ∧ data_bits c < 5)
  end.
Proof.
  intros Hb Hd. unfold Uart_new. destruct (decide (baudrate c = 0)) as [E|E].
  - unfold divisors, Pll.div. rewrite E. by left.
  - rewrite divisors_eq by lia. cbn [mbind outcome_bind]. destruct (if _ <? _ then _ else _) as [i f].
    destruct (decide (5 ≤ data_bits c)) as [Hge|Hlt].
    + rewrite arith_fits by lia. cbn. rewrite Z.eqb_eq. by split_and!.
    + rewrite arith_overflow by lia. destruct overflow_checks; cbn; [right; lia|].
      rewrite Z.eqb_eq. split_and!; try done; lia.
Qed.

(** [send] puts every byte in the FIFO in order exactly when there is always room; a byte
    for which there is none is dropped: with a full FIFO that the hardware does not
    drain, nothing of the data is sent. *)
Lemma send_room depth data : ∀ drained fifo wire, length drained = length data →
  (length fifo + length data ≤ depth)%nat →
  let '(f, w) := send depth data drained fifo wire in w ++ f = wire ++ fifo ++ data.
Proof.
  induction data as [|b data IH]; intros [|n dr] fifo wire Hl Hr; simpl in *; try done.
  - by rewrite app_nil_r.
  - unfold send_byte. rewrite length_drop. rewrite (proj2 (Nat.ltb_lt _ depth)) by lia.
    injection Hl as Hl.
    assert (Hlen : (length (drop n fifo ++ [b]) + length data ≤ depth)%nat)
      by (rewrite length_app, length_drop; simpl; lia).
    specialize (IH dr (drop n fifo ++ [b]) (wire ++ take n fifo) Hl Hlen).
    destruct (send _ _ _ _ _) as [f wr]. rewrite IH, <-!app_assoc.
    rewrite (app_assoc (take n fifo)), take_drop. done.
Qed.

Theorem uart_send_drops depth data drained fifo : length drained = length data →
  ((length fifo + length data ≤ depth)%nat →
   let '(f, w) := send depth data drained fifo [] in w ++ f = fifo ++ data) ∧
  (length fifo = depth → Forall (λ n, n = 0%nat) drained →
   send depth data drained fifo [] = (fifo, [])).
Proof.
  intros Hl. split; [by apply send_room|].
  revert drained Hl. induction data as [|b data IH]; intros [|n dr] Hl Hd Hz; try done.
  apply Forall_cons in Hz as [-> Hz]. cbn [send]. unfold send_byte. rewrite drop_0, take_0.
  rewrite (proj2 (Nat.ltb_ge _ _)) by lia. simpl. apply IH; [by injection Hl|done|done].
Qed.

(** The pins of the table exist, and each has one function, of one instance. *)
Theorem uart_pins :
  NoDup ((λ x, fst (fst x)) <$> impl_pins) ∧
  Forall (λ '(p, i, f), exists_pin p ∧
    i = (if (p + 4) / 8 mod 2 =? 0 then UART0 else UART1) ∧
    f = match p mod 4 with 0 => TxPin | 1 => RxPin | 2 => CtsPin | _ => RtsPin end) impl_pins.
Proof.
  split; [by apply (bool_decide_unpack _)|].
  unfold exists_pin. repeat constructor; simpl; try done; lia.
Qed.
End uart.
End Uart.

(** ** DMA *)
Module Dma.
(** The registers of a channel, as [copy] writes them; [chain_to] is a channel, itself for
    none. *)
Record Chan : Type := mkChan {
  read_addr : Z; write_addr : Z; trans_count : Z; size_word : bool;
  incr_read : bool; incr_write : bool; chain_to : Z; en : bool
}.
(** The channels of [channel!]. *)
Definition channels : list Z := Z.of_nat <$> seq 0 12.

Definition copy_begin (number from from_len to to_len : Z) : outcome Chan :=
  _ ← assert (from_len =? to_len);
  Done (mkChan from to from_len true true true number true).

(** The hardware: one transfer, and all of them, while [busy]; memory by words. *)
Definition hw_transfer (c : Chan) (m : Z → Z) : Chan * (Z → Z) :=
  (mkChan (if incr_read c then read_addr c + 4 else read_addr c)
     (if incr_write c then write_addr c + 4 else write_addr c)
     (trans_count c - 1) (size_word c) (incr_read c) (incr_write c) (chain_to c) (en c),
   <[write_addr c := m (read_addr c)]> m).
Definition busy (c : Chan) : bool := en c && (0 <? trans_count c).
Fixpoint run (fuel : nat) (c : Chan) (m : Z → Z) : Chan * (Z → Z) :=
  match fuel with
  | O => (c, m)
  | S n => if busy c then let '(c', m') := hw_transfer c m in run n c' m' else (c, m)
  end.

Lemma run_copies n : ∀ c m, en c = true → incr_read c = true → incr_write c = true →
  trans_count c = Z.of_nat n →
  (∀ i j, 0 ≤ i < Z.of_nat n → 0 ≤ j < Z.of_nat n → read_addr c + 4 * i ≠ write_addr c + 4 * j) →
  let '(c', m') := run n c m in busy c' = false ∧
    (∀ i, 0 ≤ i < Z.of_nat n → m' (write_addr c + 4 * i) = m (read_addr c + 4 * i)) ∧
    (∀ a, (∀ i, 0 ≤ i < Z.of_nat n → a ≠ write_addr c + 4 * i) → m' a = m a).
Proof.
  induction n as [|n IH]; intros c m He Hir Hiw Hc Hd; cbn [run].
  { unfold busy. rewrite He, Hc. split_and!; [done|lia|done]. }
  unfold busy at 1. rewrite He, Hc, (proj2 (Z.ltb_lt 0 _)) by lia. cbn [andb hw_transfer].
  rewrite Hir, Hiw. set (c1 := mkChan _ _ _ _ _ _ _ _).
  set (m1 := <[write_addr c := m (read_addr c)]> m).
  specialize (IH c1 m1 He eq_refl eq_refl ltac:(unfold c1; cbn [trans_count]; lia)).
  destruct (run n c1 m1) as [c' m'].
  destruct IH as (Hb & Hcp & Hk).
  { intros i j Hi Hj. unfold c1. cbn [read_addr write_addr].
    pose proof (Hd (i + 1) (j + 1) ltac:(lia) ltac:(lia)). lia. }
  unfold c1 in Hcp, Hk. cbn [read_addr write_addr] in Hcp, Hk. split; [done|]. split.
  - intros i Hi. destruct (decide (i = 0)) as [->|Hne].
    + rewrite Hk; [|intros j Hj; lia]. unfold m1.
      replace (write_addr c + 4 * 0) with (write_addr c) by lia. rewrite fn_lookup_insert.
      f_equal. lia.
    + specialize (Hcp (i - 1) ltac:(lia)).
      replace (write_addr c + 4 + 4 * (i - 1)) with (write_addr c + 4 * i) in Hcp by lia.
      replace (read_addr c + 4 + 4 * (i - 1)) with (read_addr c + 4 * i) in Hcp by lia.
      rewrite Hcp. unfold m1. apply fn_lookup_insert_ne.
      pose proof (Hd i 0 Hi ltac:(lia)). lia.
  - intros a Ha. rewrite Hk.
    + unfold m1. apply fn_lookup_insert_ne. pose proof (Ha 0 ltac:(lia)). lia.
    + intros i Hi. pose proof (Ha (i + 1) ltac:(lia)). lia.
Qed.

(** [copy] panics exactly when the lengths differ; otherwise, for slices that do not
    overlap, the channel is done after as many transfers as there are words, the
    destination is then a copy of the source, and nothing else has changed. *)
Theorem dma_copy number from to n m :
  (∀ i j, 0 ≤ i < Z.of_nat n → 0 ≤ j < Z.of_nat n → from + 4 * i ≠ to + 4 * j) →
  (∀ to_len, copy_begin number from (Z.of_nat n) to to_len = Panic ↔ to_len ≠ Z.of_nat n) ∧
  ∃ c, copy_begin number from (Z.of_nat n) to (Z.of_nat n) = Done c ∧ chain_to c = number ∧
    let '(c', m') := run n c m in busy c' = false ∧
    (∀ i, 0 ≤ i < Z.of_nat n → m' (to + 4 * i) = m (from + 4 * i)) ∧
    (∀ a, (∀ i, 0 ≤ i < Z.of_nat n → a ≠ to + 4 * i) → m' a = m a).
Proof.
  intros Hd. split.
  - intros to_len. unfold copy_begin, assert. destruct (Z.eqb_spec (Z.of_nat n) to_len); naive_solver.
  - unfold copy_begin, assert. rewrite Z.eqb_refl. eexists. split; [done|]. split; [done|].
    by apply (run_copies n (mkChan from to (Z.of_nat n) true true true number true) m).
Qed.
End Dma.

(** ** Witnesses *)
Lemma pll_vco_wrong_witness :
  ∃ p', Pll.configure 1 1500000000 6 2 (Pll.mkPll true true true true 0 1 0 0) = Done p' ∧
    Pll.cs_refdiv p' ≠ 1.
Proof.
  eexists. split; [reflexivity|].
  exact (proj1 (Pll.pll_vco_wrong 1 1500000000 6 2 (Pll.mkPll true true true true 0 1 0 0) _
    ltac:(lia) ltac:(lia) eq_refl)).
Defined.

Lemma configure_resets_all_witness :
  System.configure_resets 6 9 12 13 0 15 16 17 22 23 24 0x01ffffff = 0 ∧
  Z.testbit (System.resets_1 6 9 12 13 0 15 16 17 22 23 24 0x01ffffff) 22 = true.
Proof.
  destruct (System.configure_resets_all 6 9 12 13 0 15 16 17 22 23 24 0x01ffffff) as [H1 H2].
  { repeat constructor; lia. }
  split; [exact H1|]. rewrite H2 by lia. reflexivity.
Defined.

Lemma uart_divisor_witness :
  ∃ d1 d2, Uart.divisors 115200 = Done d1 ∧ 2 * Uart.divisor64 d1 = 834 ∧
    Uart.divisors 376470 = Done d2 ∧ snd d2 = 64 ∧ Uart.divisor64 d2 = 64.
Proof.
  destruct (Uart.uart_divisor 115200 ltac:(lia)) as (d1 & E1 & H1 & _).
  destruct (Uart.uart_divisor 376470 ltac:(lia)) as (d2 & E2 & H2 & _).
  exists d1, d2. split; [exact E1|].
  destruct (proj1 (H1 ltac:(vm_compute; split; congruence)) ltac:(vm_compute; congruence)) as [Ha|Ha];
    [exfalso|]; change (8 * Uart.clk_base / 115200) with 833 in Ha; [lia|].
  split; [exact Ha|]. split; [exact E2|].
  destruct (proj2 (H2 ltac:(vm_compute; split; congruence)) eq_refl) as [Hb Hc].
  change (8 * Uart.clk_base / 376470) with 255 in Hc. split; [exact Hb|lia].
Defined.

Lemma uart_new_spec_witness : let _ : Profile := true in
  Uart.Uart_new (Uart.mkConfig 115200 4 1) = Panic ∧
  ∃ r, Uart.Uart_new Uart.Config_default = Done r ∧ Uart.wlen r = 3.
Proof.
  intros P. split; [reflexivity|]. eexists. split; [reflexivity|].
  exact (proj1 (proj2 (proj2 (Uart.uart_new_spec Uart.Config_default ltac:(simpl; lia)
    ltac:(simpl; lia)))) ltac:(simpl; lia)).
Defined.

Lemma uart_send_drops_witness :
  Uart.send 2 [3; 4] [0; 0]%nat [1; 2] [] = ([1; 2], []) ∧
  Uart.send 4 [3; 4] [1; 0]%nat [1; 2] [] = ([2; 3; 4], [1]).
Proof.
  split; [|reflexivity].
  apply (proj2 (Uart.uart_send_drops 2 [3; 4] [0; 0]%nat [1; 2] eq_refl)); [reflexivity|].
  repeat constructor.
Defined.

Lemma dma_copy_witness :
  ∃ c, Dma.copy_begin 3 0x100 2 0x200 2 = Done c ∧
    snd (Dma.run 2 c (λ a, a)) 0x204 = 0x104.
Proof.
  destruct (proj2 (Dma.dma_copy 3 0x100 0x200 2 (λ a, a) ltac:(intros; lia))) as (c & Hc & _ & H).
  exists c. split; [exact Hc|]. destruct (Dma.run 2 c (λ a, a)) as [c' m']. cbn [snd].
  exact (proj1 (proj2 H) 1 ltac:(lia)).
Defined.
