(* ===== verification/RpClocks.v ===== *)
(** * RpClocks: the start-up of the RP2040

    [configure] of [embassy-rp/src/system.rs], whole: resets, crystal, the switch of the
    processor's clock away from the PLLs, the PLLs, and the clock of the peripherals, with
    the waits between them ([Lag]).  [Rp] has the resets and the PLLs as register writes;
    here they act on hardware that takes its time, that fails if the clock the processor
    runs from is taken away, and whose PLLs lock with some dividers only. *)
From S2P Require Import Prelude Lag Rp.
Local Open Scope Z_scope.

(** ** The hardware *)

(** The multiplexers without glitches: of the system clock and of the reference; and what
    their auxiliary inputs select. *)
Inductive SysSrc : Set := CLK_REF | CLKSRC_CLK_SYS_AUX.
Inductive RefSrc : Set := ROSC_CLKSRC_PH | CLKSRC_CLK_REF_AUX | XOSC_CLKSRC.
Inductive Source : Set := PllSys | PllUsb | OtherSource.
#[export] Instance SysSrc_eq_dec : EqDecision SysSrc.
Proof. solve_decision. Defined.
#[export] Instance RefSrc_eq_dec : EqDecision RefSrc.
Proof. solve_decision. Defined.
#[export] Instance Source_eq_dec : EqDecision Source.
Proof. solve_decision. Defined.

(** [lock] is CS.LOCK. *)
Record PllDev : Type := mkPllDev { pll : Pll.Pll; lock : Lag bool }.
Definition powered (p : Pll.Pll) : bool := negb (Pll.pd p) && negb (Pll.vcopd p).

(** The registers of the crystal oscillator: the range and the enable of CTRL, and the delay
    of STARTUP.  Only the code for disabling it stops the oscillator: a CTRL written without
    an enable leaves it as it is. *)
Record Xosc : Type := mkXosc { freq_range_1_15 : bool; enabled : bool; delay : Z }.

Record Machine : Type := mkMachine {
  reset_reg : Z; reset_done_reg : Lag Z;
  watchdog_tick : Z * bool; resus_ctrl : Z;
  startup : Xosc; xosc : Lag bool;
  clk_sys : Lag SysSrc; sys_aux : Source; clk_ref : Lag RefSrc; ref_aux : Source;
  dev_sys : PllDev; dev_usb : PllDev;
  clk_peri : bool * bool
}.

Definition set_reset r d m := mkMachine r d (watchdog_tick m) (resus_ctrl m) (startup m) (xosc m)
  (clk_sys m) (sys_aux m) (clk_ref m) (ref_aux m) (dev_sys m) (dev_usb m) (clk_peri m).
Definition set_watchdog t m := mkMachine (reset_reg m) (reset_done_reg m) t (resus_ctrl m)
  (startup m) (xosc m) (clk_sys m) (sys_aux m) (clk_ref m) (ref_aux m) (dev_sys m) (dev_usb m)
  (clk_peri m).
Definition set_resus v m := mkMachine (reset_reg m) (reset_done_reg m) (watchdog_tick m) v
  (startup m) (xosc m) (clk_sys m) (sys_aux m) (clk_ref m) (ref_aux m) (dev_sys m) (dev_usb m)
  (clk_peri m).
Definition set_xosc d x m := mkMachine (reset_reg m) (reset_done_reg m) (watchdog_tick m)
  (resus_ctrl m) d x (clk_sys m) (sys_aux m) (clk_ref m) (ref_aux m) (dev_sys m) (dev_usb m)
  (clk_peri m).
Definition set_sys l m := mkMachine (reset_reg m) (reset_done_reg m) (watchdog_tick m)
  (resus_ctrl m) (startup m) (xosc m) l (sys_aux m) (clk_ref m) (ref_aux m) (dev_sys m)
  (dev_usb m) (clk_peri m).
Definition set_ref l m := mkMachine (reset_reg m) (reset_done_reg m) (watchdog_tick m)
  (resus_ctrl m) (startup m) (xosc m) (clk_sys m) (sys_aux m) l (ref_aux m) (dev_sys m)
  (dev_usb m) (clk_peri m).
Definition set_plls s u m := mkMachine (reset_reg m) (reset_done_reg m) (watchdog_tick m)
  (resus_ctrl m) (startup m) (xosc m) (clk_sys m) (sys_aux m) (clk_ref m) (ref_aux m) s u
  (clk_peri m).
Definition set_peri p m := mkMachine (reset_reg m) (reset_done_reg m) (watchdog_tick m)
  (resus_ctrl m) (startup m) (xosc m) (clk_sys m) (sys_aux m) (clk_ref m) (ref_aux m)
  (dev_sys m) (dev_usb m) p.

(** The hardware goes on. *)
Definition dev_tick (d : PllDev) : PllDev := mkPllDev (pll d) (lag_tick (lock d)).
Definition tick (m : Machine) : Machine :=
  mkMachine (reset_reg m) (lag_tick (reset_done_reg m)) (watchdog_tick m) (resus_ctrl m)
    (startup m) (lag_tick (xosc m)) (lag_tick (clk_sys m)) (sys_aux m) (lag_tick (clk_ref m))
    (ref_aux m) (dev_tick (dev_sys m)) (dev_tick (dev_usb m)) (clk_peri m).

(** What the processor, or the reference, may be running from.  A multiplexer needs the
    input it switches from as much as the one it switches to. *)
Definition ref_from (m : Machine) (s : RefSrc) : Prop :=
  seen (clk_ref m) = s ∨ told (clk_ref m) = s.
Definition sys_from (m : Machine) (s : SysSrc) : Prop :=
  seen (clk_sys m) = s ∨ told (clk_sys m) = s.
Definition runs_from (m : Machine) (p : Source) : Prop :=
  (sys_from m CLKSRC_CLK_SYS_AUX ∧ sys_aux m = p) ∨ (ref_from m CLKSRC_CLK_REF_AUX ∧ ref_aux m = p).

(** ** The start-up *)
Section configure.
(** The bits of the peripherals, from the register library; the peripherals whose
    RESET_DONE does not come without a clock that is not set up; the looks a change
    takes. *)
Context (io_qspi pads_qspi pll_sys pll_usb adc rtc spi0 spi1 uart0 uart1 usbctrl : Z).
Context (unclocked : Z) (time : nat).
(** Whether a PLL gets a lock with this REFDIV and FBDIV_INT, which is up to the hardware. *)
Context (locks : Z → Z → bool).
#[local] Abbreviation kept := (System.kept io_qspi pads_qspi pll_sys pll_usb).
#[local] Abbreviation unused := (System.unused adc rtc spi0 spi1 uart0 uart1 usbctrl).

(** A PLL the processor may be running from is out of reset and has power. *)
Definition in_reset (m : Machine) (bit : Z) : bool := Z.testbit (reset_reg m) bit.
Definition alive (m : Machine) : Prop :=
  (runs_from m PllSys → in_reset m pll_sys = false ∧ powered (pll (dev_sys m)) = true) ∧
  (runs_from m PllUsb → in_reset m pll_usb = false ∧ powered (pll (dev_usb m)) = true).

(** A write to RESET: RESET_DONE falls at once and rises later; a PLL in reset has its
    registers as they are out of reset. *)
Definition reset_pll (b : bool) (d : PllDev) : PllDev :=
  if b then mkPllDev (Pll.mkPll true true true true 0 1 7 7) (settled false) else d.
Definition write_reset (r : Z) (m : Machine) : Machine :=
  let m := set_reset r (mkLag (Z.ldiff (seen (reset_done_reg m)) r)
                          (Z.ldiff (Z.lnot r) unclocked) time) m in
  set_plls (reset_pll (Z.testbit r pll_sys) (dev_sys m))
    (reset_pll (Z.testbit r pll_usb) (dev_usb m)) m.
(** A write to a PLL: it locks later, if it has power and can lock with its dividers. *)
Definition can_lock (p : Pll.Pll) : bool := powered p && locks (Pll.cs_refdiv p) (Pll.fbdiv_int p).
Definition write_pll (p : Pll.Pll) (d : PllDev) : PllDev :=
  mkPllDev p (mkLag (seen (lock d) && can_lock p) (can_lock p) time).

(** One access of the start-up: a write, which may panic, or a wait. *)
Inductive Op : Type :=
| Write (f : Machine → outcome Machine)
| Wait (d : Machine → bool).

Definition reset (peris : Z) : Op :=
  Write (λ m, Done (write_reset (Resets.reset peris (reset_reg m)) m)).
Definition unreset_wait (peris : Z) : list Op :=
  [Write (λ m, Done (write_reset (Resets.unreset peris (reset_reg m)) m));
   Wait (λ m, Resets.reset_done (seen (reset_done_reg m)) peris)].
(** [dev] is one of the two PLLs of the machine, [put] changes it. *)
Definition put_sys (d : PllDev) (m : Machine) : Machine := set_plls d (dev_usb m) m.
Definition put_usb (d : PllDev) (m : Machine) : Machine := set_plls (dev_sys m) d m.
Definition on_pll (dev : Machine → PllDev) (put : PllDev → Machine → Machine)
    (f : Pll.Pll → outcome Pll.Pll) : Op :=
  Write (λ m, p ← f (pll (dev m)); Done (put (write_pll p (dev m)) m)).
Definition pll_configure (dev : Machine → PllDev) (put : PllDev → Machine → Machine)
    (refdiv vco_freq post_div1 post_div2 : Z) : list Op :=
  map (on_pll dev put) (Pll.before_lock refdiv vco_freq post_div1 post_div2) ++
  [Wait (λ m, seen (lock (dev m)))] ++
  map (on_pll dev put) (Pll.after_lock post_div1 post_div2).

(** The first part, with the processor on whatever clock it was started with. *)
Definition start_crystal : list Op :=
  [reset (Resets.bits_off kept Resets.ALL_PERIPHERALS)] ++
  unreset_wait (Resets.bits_off unused Resets.ALL_PERIPHERALS) ++
  [Write (λ m, Done (set_watchdog (wrap 16 Pll.XOSC_MHZ, true) m));
   Write (λ m, Done (set_resus 0 m));
   Write (λ m, Done (set_xosc (mkXosc true false (delay (startup m))) (xosc m) m));
   Write (λ m, let x := startup m in
     Done (set_xosc (mkXosc (freq_range_1_15 x) (enabled x) (wrap 16 System.startup_delay))
             (xosc m) m));
   Write (λ m, Done (set_xosc (mkXosc true true (delay (startup m)))
                       (tell time true (xosc m)) m));
   Wait (λ m, seen (xosc m))].
Definition leave_plls : list Op :=
  [Write (λ m, Done (set_sys (tell time CLK_REF (clk_sys m)) m));
   Wait (λ m, bool_decide (seen (clk_sys m) = CLK_REF));
   Write (λ m, Done (set_ref (tell time ROSC_CLKSRC_PH (clk_ref m)) m));
   Wait (λ m, bool_decide (seen (clk_ref m) = ROSC_CLKSRC_PH))].
Definition start_plls : list Op :=
  let peris := Resets.bits_on [pll_sys; pll_usb] 0 in
  [reset peris] ++ unreset_wait peris ++
  pll_configure dev_sys put_sys 1 1500000000 6 2 ++
  pll_configure dev_usb put_usb 1 480000000 5 2 ++
  [Write (λ m, Done (set_peri (true, true) m))].
Definition configure : list Op := start_crystal ++ leave_plls ++ start_plls.

(** A run of it, an access or a look at a time. *)
Definition step (c : list Op * Machine) : outcome (list Op * Machine) :=
  match c with
  | ([], m) => Done c
  | (Write f :: ops, m) => m' ← f m; Done (ops, m')
  | (Wait d :: ops, m) => Done (if d m then (ops, m) else (Wait d :: ops, tick m))
  end.
Fixpoint steps (n : nat) (c : list Op * Machine) : outcome (list Op * Machine) :=
  match n with O => Done c | S n => c' ← step c; steps n c' end.

(** ** Running the accesses one by one *)

(** The run does not panic and loses no clock in use, and it comes to a point with [Q]. *)
Definition safe (ops : list Op) (m : Machine) (Q : list Op * Machine → Prop) : Prop :=
  (∀ k, ∃ ops' m', steps k (ops, m) = Done (ops', m') ∧ alive m') ∧
  ∃ n c, steps n (ops, m) = Done c ∧ Q c.

Lemma safe_nil m (Q : list Op * Machine → Prop) : alive m → Q ([], m) → safe [] m Q.
Proof.
  intros Ha Hq. split; [|by exists O, ([], m)]. intros k. exists [], m. split; [|done].
  by induction k.
Qed.

Lemma safe_step c1 ops m Q :
  alive m → step (ops, m) = Done c1 → safe c1.1 c1.2 Q → safe ops m Q.
Proof.
  destruct c1 as [ops1 m1]. intros Ha Hs [Hk (n & c & Hn & HQ)]. split.
  - intros [|k]; [by exists ops, m|]. cbn [steps]. rewrite Hs. apply Hk.
  - exists (S n), c. cbn [steps]. by rewrite Hs.
Qed.

Lemma safe_write f m m1 ops Q :
  alive m → f m = Done m1 → safe ops m1 Q → safe (Write f :: ops) m Q.
Proof. intros Ha Hf. eapply (safe_step (ops, m1)); [done|]. simpl. by rewrite Hf. Qed.

Lemma safe_wait (J : Machine → Prop) n d m ops Q :
  (∀ m, J m → J (tick m)) → (∀ m, J m → alive m) → J m → d (ticks tick n m) = true →
  (∀ m1, J m1 → d m1 = true → safe ops m1 Q) → safe (Wait d :: ops) m Q.
Proof.
  intros HJ Ha. revert m. induction n as [|n IH]; intros m Hm Hd Hops.
  - eapply (safe_step (ops, m)); [by apply Ha| |by apply Hops]. simpl in *. by rewrite Hd.
  - destruct (d m) eqn:Hdm.
    + eapply (safe_step (ops, m)); [by apply Ha| |by apply Hops]. simpl. by rewrite Hdm.
    + eapply (safe_step (Wait d :: ops, tick m)); [by apply Ha| |].
      * simpl. by rewrite Hdm.
      * apply IH; [by apply HJ|done|done].
Qed.

(** A wait that is never over. *)
Definition hangs (c : list Op * Machine) : Prop :=
  ∃ d ops, c.1 = Wait d :: ops ∧ ∀ n, d (ticks tick n c.2) = false.
Lemma steps_wait d ops k : ∀ m, (∀ n, d (ticks tick n m) = false) →
  steps k (Wait d :: ops, m) = Done (Wait d :: ops, ticks tick k m).
Proof.
  induction k as [|k IH]; intros m Hd; [done|]. cbn [steps step].
  pose proof (Hd O) as H0. cbn [ticks] in H0. rewrite H0. cbn [mbind outcome_bind].
  rewrite IH; [done|]. intros n. exact (Hd (S n)).
Qed.
Lemma safe_hangs (J : Machine → Prop) d m ops (Q : list Op * Machine → Prop) :
  (∀ m, J m → J (tick m)) → (∀ m, J m → alive m) → (∀ m, J m → d m = false) → J m →
  (hangs (Wait d :: ops, m) → Q (Wait d :: ops, m)) → safe (Wait d :: ops) m Q.
Proof.
  intros HJ Ha Hd Hm HQ.
  assert (Hn : ∀ n, J (ticks tick n m)) by (intros n; by apply ticks_keep).
  split.
  - intros k. exists (Wait d :: ops), (ticks tick k m). split; [|by apply Ha].
    apply steps_wait. auto.
  - exists O, (Wait d :: ops, m). split; [done|]. apply HQ. exists d, ops. split; [done|]. auto.
Qed.

Lemma steps_app j k : ∀ c, steps (j + k) c = (c' ← steps j c; steps k c').
Proof.
  induction j as [|j IH]; intros c; [done|]. cbn [steps Nat.add]. destruct (step c); [|done]. apply IH.
Qed.
(** A run that comes to such a wait does not end. *)
Lemma hangs_for_ever n c c' : steps n c = Done c' → hangs c' → ∀ k m, steps k c ≠ Done ([], m).
Proof.
  intros Hn (d & ops & Hc & Hd) k m Hk. destruct c' as [ops' m']. cbn in Hc, Hd. subst ops'.
  destruct (Nat.le_ge_cases k n) as [Hle|Hle].
  - replace n with (k + (n - k))%nat in Hn by lia. rewrite steps_app, Hk in Hn.
    cbn [mbind outcome_bind] in Hn. by induction (n - k)%nat.
  - replace k with (n + (k - n))%nat in Hk by lia. rewrite steps_app, Hn in Hk.
    cbn [mbind outcome_bind] in Hk. by rewrite steps_wait in Hk.
Qed.

(** ** What the hardware keeps *)

Lemma machine_parts n m : ticks tick n m =
  mkMachine (reset_reg m) (ticks lag_tick n (reset_done_reg m)) (watchdog_tick m) (resus_ctrl m)
    (startup m) (ticks lag_tick n (xosc m)) (ticks lag_tick n (clk_sys m)) (sys_aux m)
    (ticks lag_tick n (clk_ref m)) (ref_aux m) (ticks dev_tick n (dev_sys m))
    (ticks dev_tick n (dev_usb m)) (clk_peri m).
Proof. revert m. induction n as [|n IH]; intros []; [done|]. simpl. by rewrite IH. Qed.
Lemma dev_ticks n d : ticks dev_tick n d = mkPllDev (pll d) (ticks lag_tick n (lock d)).
Proof. revert d. induction n as [|n IH]; intros []; [done|]. simpl. by rewrite IH. Qed.

Lemma lag_tick_seen {A} (l : Lag A) a : seen (lag_tick l) = a ∨ told (lag_tick l) = a →
  seen l = a ∨ told l = a.
Proof. clear. unfold lag_tick. destruct (left l); simpl; tauto. Qed.

Lemma alive_tick m : alive m → alive (tick m).
Proof.
  intros [Hs Hu].
  assert (Hr : ∀ p, runs_from (tick m) p → runs_from m p).
  { intros p [[H Hp]|[H Hp]]; [left|right]; (split; [|exact Hp]); by apply lag_tick_seen. }
  split; intros H; [apply Hs|apply Hu]; by apply Hr.
Qed.

(** Neither PLL is in reset. *)
Definition released (m : Machine) : Prop :=
  alive m ∧ in_reset m pll_sys = false ∧ in_reset m pll_usb = false.
Lemma released_tick m : released m → released (tick m).
Proof. intros (Ha & ? & ?). split; [by apply alive_tick|done]. Qed.

Lemma released_write r m : alive m → Z.testbit r pll_sys = false → Z.testbit r pll_usb = false →
  released (write_reset r m).
Proof.
  intros [Hs Hu] H1 H2. unfold write_reset. rewrite H1, H2.
  split; [|by split]. split; intros H; (split; [done|]); [by apply Hs|by apply Hu].
Qed.

(** Nothing runs from a PLL, or from the crystal. *)
Definition off (m : Machine) : Prop :=
  seen (clk_sys m) = CLK_REF ∧ told (clk_sys m) = CLK_REF ∧
  seen (clk_ref m) = ROSC_CLKSRC_PH ∧ told (clk_ref m) = ROSC_CLKSRC_PH.
Lemma off_alive m : off m → alive m.
Proof.
  intros (H1 & H2 & H3 & H4).
  assert (H : ∀ p, ¬ runs_from m p).
  { intros p [[[H|H] _]|[[H|H] _]]; congruence. }
  split; intros Hr; by apply H in Hr.
Qed.
Lemma off_tick m : off m → off (tick m).
Proof.
  intros (H1 & H2 & H3 & H4). unfold off. simpl. unfold lag_tick.
  destruct (left (clk_sys m)), (left (clk_ref m)); done.
Qed.

Lemma told_seen {A} (l : Lag A) n : (left l < n)%nat → seen (ticks lag_tick n l) = told l.
Proof. intros H. by rewrite lag_reached. Qed.

(** Peripherals that have a clock and are released report it in time. *)
Lemma reset_done_after r peris m :
  (∀ n, Z.testbit peris n = true → Z.testbit unclocked n = false) →
  Resets.reset_done (seen (reset_done_reg (ticks tick (S time)
    (write_reset (Resets.unreset peris r) m)))) peris = true.
Proof.
  intros Hp. rewrite machine_parts. cbn [reset_done_reg]. rewrite told_seen by (cbn; lia).
  cbn [write_reset set_plls set_reset reset_done_reg told]. unfold Resets.reset_done, Resets.unreset.
  apply Z.eqb_eq, Z.bits_inj'. intros n Hn.
  rewrite Z.bits_0, Z.land_spec, Z.lnot_spec, !Z.ldiff_spec, Z.lnot_spec, Z.ldiff_spec by done.
  specialize (Hp n). destruct (Z.testbit peris n); [|by rewrite andb_false_r].
  rewrite Hp by done. by rewrite andb_false_r.
Qed.

(** The crystal runs; a PLL has these settings and is locked. *)
Definition crystal (m : Machine) : Prop := seen (xosc m) = true ∧ told (xosc m) = true.
Definition locked (p : Pll.Pll) (d : PllDev) : Prop :=
  pll d = p ∧ seen (lock d) = true ∧ told (lock d) = true.
Lemma crystal_tick m : crystal m → crystal (tick m).
Proof. intros [H1 H2]. unfold crystal, tick, lag_tick. simpl. by case_match. Qed.
Lemma locked_tick p d : locked p d → locked p (dev_tick d).
Proof. intros (<- & H1 & H2). unfold locked, dev_tick, lag_tick. simpl. by case_match. Qed.

(** ** The three parts *)
Hypothesis Hbits : Forall (λ b, 0 ≤ b < 25) (kept ++ unused).
Hypothesis Hnodup : NoDup (kept ++ unused).
Hypothesis Hunclocked : ∀ n, Z.testbit unclocked n = true → n ∈ unused.

Lemma kept_bit b : b ∈ kept → 0 ≤ b < 25 ∧ b ∉ unused.
Proof using Hbits Hnodup.
  intros Hb. rewrite Forall_app, !Forall_forall in Hbits. split; [exact (proj1 Hbits b Hb)|].
  apply NoDup_app in Hnodup as (_ & Hd & _). by apply Hd.
Qed.

Lemma waited_clocked n :
  Z.testbit (Resets.bits_off unused Resets.ALL_PERIPHERALS) n = true →
  Z.testbit unclocked n = false.
Proof using Hbits Hunclocked.
  clear locks. intros Hn. destruct (Z.testbit unclocked n) eqn:Hu; [|done]. apply Hunclocked in Hu.
  rewrite Forall_app, !Forall_forall in Hbits. destruct (proj2 Hbits n Hu).
  rewrite System.testbit_bits_off in Hn; [|done|].
  - rewrite bool_decide_false, andb_false_r in Hn by tauto. done.
  - apply Forall_forall. intros b Hb. apply (proj2 Hbits) in Hb. lia.
Qed.

Lemma start_crystal_safe ops m Q : alive m →
  (∀ m', alive m' → crystal m' → safe ops m' Q) →
  safe (start_crystal ++ ops) m Q.
Proof using Hbits Hnodup Hunclocked.
  clear locks. intros Ha Hops.
  assert (Hk : ∀ b, b ∈ [pll_sys; pll_usb] →
    Z.testbit (Resets.bits_off kept Resets.ALL_PERIPHERALS) b = false).
  { intros b Hb. assert (Hin : b ∈ kept).
    { unfold System.kept. rewrite !elem_of_cons in *. tauto. }
    rewrite System.testbit_bits_off; [|by destruct (kept_bit b Hin); lia|].
    - by rewrite bool_decide_false, andb_false_r by tauto.
    - apply Forall_forall. intros c Hc. by destruct (kept_bit c Hc); lia. }
  eapply safe_write; [done|done|].
  match goal with |- safe _ ?m1 _ => assert (R1 : released m1) end.
  { apply released_write; [done|apply Hk; rewrite !elem_of_cons; tauto..]. }
  eapply safe_write; [apply R1|done|].
  match goal with |- safe _ ?m2 _ => assert (R2 : released m2) end.
  { destruct R1 as (A1 & E1 & E2). unfold in_reset in E1, E2.
    apply released_write; [done|..]; unfold Resets.unreset; rewrite Z.ldiff_spec, ?E1, ?E2; done. }
  eapply (safe_wait released (S time)); [apply released_tick|by intros ? []|done| |].
  { apply reset_done_after, waited_clocked. }
  clear m Ha R1 R2. intros m R _.
  do 5 (eapply safe_write; [apply R|done|]; cbn beta).
  eapply (safe_wait (λ m, alive m ∧ told (xosc m) = true) (S time)).
  - intros m1 [A1 T1]. split; [by apply alive_tick|]. simpl. unfold lag_tick. by case_match.
  - by intros ? [].
  - split; [apply R|done].
  - cbn beta. rewrite machine_parts. cbn [xosc]. by rewrite told_seen by (cbn; lia).
  - intros m1 [A1 T1] Hx. by apply Hops.
Qed.

Lemma leave_plls_safe ops m Q : alive m → crystal m →
  (∀ m', off m' → crystal m' → safe ops m' Q) → safe (leave_plls ++ ops) m Q.
Proof using Type.
  intros Ha Hc Hops. eapply safe_write; [done|done|].
  eapply (safe_wait (λ m, alive m ∧ crystal m ∧ told (clk_sys m) = CLK_REF) (S time)).
  - intros m1 (A1 & C1 & T1). split_and!; [by apply alive_tick|by apply crystal_tick|].
    simpl. unfold lag_tick. by case_match.
  - by intros ? (? & _).
  - split_and!; [|done|done]. destruct Ha as [Hs Hu].
    split; intros [[[H|H] E]|H]; try done; (apply Hs || apply Hu); [|by right| |by right];
      left; by split; [left|].
  - cbn beta. rewrite machine_parts. cbn [clk_sys]. by rewrite told_seen by (cbn; lia).
  - clear m Ha Hc. intros m (A1 & C1 & T1) S1%bool_decide_eq_true.
    eapply safe_write; [done|done|].
    eapply (safe_wait (λ m, alive m ∧ crystal m ∧ (seen (clk_sys m) = CLK_REF ∧
      told (clk_sys m) = CLK_REF) ∧ told (clk_ref m) = ROSC_CLKSRC_PH) (S time)).
    + intros m1 (A2 & C2 & (S2 & T2) & R2).
      split_and!; [by apply alive_tick|by apply crystal_tick|..]; simpl; unfold lag_tick;
        by case_match.
    + by intros ? (? & _).
    + split_and!; try done. destruct A1 as [Hs Hu].
      split; intros [H|[[H|H] E]]; try done; (apply Hs || apply Hu); [by left| |by left|];
        right; by split; [left|].
    + cbn beta. rewrite machine_parts. cbn [clk_ref]. by rewrite told_seen by (cbn; lia).
    + intros m1 (A2 & C2 & (S2 & T2) & R2) S3%bool_decide_eq_true. apply Hops; [|done].
      by split_and!.
Qed.

(** One PLL: [J] is what is kept while it starts. *)
Section pll.
Context (dev : Machine → PllDev) (put : PllDev → Machine → Machine) (J : Machine → Prop).
Hypothesis Hget : ∀ d m, dev (put d m) = d.
Hypothesis Htick : ∀ m, dev (tick m) = dev_tick (dev m).
Hypothesis Hput : ∀ d m, J m → J (put d m).
Hypothesis HJt : ∀ m, J m → J (tick m).
Hypothesis HJa : ∀ m, J m → alive m.

Lemma pll_writes_safe ws : ∀ m ops Q q, ws ≠ [] → J m → Pll.writes ws (pll (dev m)) = Done q →
  (∀ m' d, J m' → dev m' = write_pll q d → safe ops m' Q) →
  safe (map (on_pll dev put) ws ++ ops) m Q.
Proof using Hget Hput HJa.
  induction ws as [|w ws IH]; intros m ops Q q Hne Hm Hw Hops; [done|].
  rewrite Pll.writes_cons in Hw. apply bind_Done in Hw as (p & Hp & Hw). cbn [map app].
  eapply safe_write; [by apply HJa|by rewrite Hp|]. cbn [mbind outcome_bind].
  destruct ws as [|w' ws].
  - injection Hw as <-. apply (Hops _ (dev m)); [by apply Hput|apply Hget].
  - apply (IH _ ops Q q); [done|by apply Hput|by rewrite Hget|done].
Qed.

Lemma dev_after n m : dev (ticks tick n m) = ticks dev_tick n (dev m).
Proof using Htick. revert m. induction n as [|n IH]; intros m; [done|]. simpl. by rewrite IH, Htick. Qed.

(** Up to the wait: it ends if the PLL can lock, and if it cannot it does not. *)
Lemma pll_lock_safe refdiv vco d1 d2 p ops m Q : J m →
  Pll.writes (Pll.before_lock refdiv vco d1 d2) (pll (dev m)) = Done p →
  (if can_lock p then ∀ m', J m' → locked p (dev m') → safe ops m' Q
   else ∀ m', J m' → hangs (Wait (λ m, seen (lock (dev m))) :: ops, m') →
     Q (Wait (λ m, seen (lock (dev m))) :: ops, m')) →
  safe (map (on_pll dev put) (Pll.before_lock refdiv vco d1 d2) ++
        Wait (λ m, seen (lock (dev m))) :: ops) m Q.
Proof using Hget Htick Hput HJt HJa.
  intros HJ Hp Hops. apply (pll_writes_safe _ m _ Q p); [done|done|done|].
  clear m HJ Hp. intros m d HJ Hd. destruct (can_lock p) eqn:Hc.
  - eapply (safe_wait (λ m, J m ∧ pll (dev m) = p ∧ told (lock (dev m)) = true) (S time)).
    + intros m1 (J1 & P1 & T1). rewrite Htick. split_and!; [by apply HJt|done|].
      simpl. unfold lag_tick. by case_match.
    + intros ? [? _]. by apply HJa.
    + rewrite Hd. split_and!; [done|done|]. unfold write_pll. by rewrite Hc.
    + cbn beta. rewrite dev_after, dev_ticks, Hd. unfold write_pll. cbn [lock].
      by rewrite told_seen, Hc by (cbn; lia).
    + intros m1 (J1 & P1 & T1) S1. apply Hops; [done|]. by split_and!.
  - eapply (safe_hangs (λ m, J m ∧ seen (lock (dev m)) = false ∧ told (lock (dev m)) = false)).
    + intros m1 (J1 & S1 & T1). rewrite Htick. split; [by apply HJt|]. simpl. unfold lag_tick. by case_match.
    + intros ? [? _]. by apply HJa.
    + by intros m1 (_ & ? & _).
    + rewrite Hd. unfold write_pll. cbn. rewrite Hc, andb_false_r. by split_and!.
    + intros Hh. by apply Hops.
Qed.

(** The post dividers of a PLL that has a lock. *)
Lemma pll_end_safe d1 d2 p ops m Q : J m → can_lock p = true → locked p (dev m) →
  (∀ m' q, J m' → Pll.writes (Pll.after_lock d1 d2) p = Done q → locked q (dev m') → safe ops m' Q) →
  safe (map (on_pll dev put) (Pll.after_lock d1 d2) ++ ops) m Q.
Proof using Hget Hput HJa.
  intros HJ Hc (Hp & Hs & Ht) Hops.
  eapply safe_write; [by apply HJa|done|]. cbn [mbind outcome_bind].
  eapply safe_write; [by apply HJa, Hput|done|]. cbn [mbind outcome_bind]. rewrite !Hget. cbn [pll write_pll].
  eapply Hops; [by apply Hput, Hput|reflexivity|]. rewrite Hget, Hp. unfold locked, write_pll.
  cbn [pll lock seen told]. change (can_lock (Pll.set_prim d1 d2 p)) with (can_lock p).
  match goal with |- context [can_lock ?x] => change (can_lock x) with (can_lock p) end.
  by rewrite Hs, Hc.
Qed.
End pll.

(** What the two PLLs are set to. *)
Definition pll_sys_set : Pll.Pll := Pll.mkPll false false true false 125 12 6 2.
Definition pll_usb_set : Pll.Pll := Pll.mkPll false false true false 40 12 5 2.
(** Both get a lock with that. *)
Definition both_lock : bool := locks 12 125 && locks 12 40.

(** How the start-up may come out. *)
Definition ended (m : Machine) : Prop :=
  off m ∧ crystal m ∧ reset_reg m = 0 ∧ clk_peri m = (true, true) ∧
  locked pll_sys_set (dev_sys m) ∧ locked pll_usb_set (dev_usb m).
Definition outcome_of (c : list Op * Machine) : Prop :=
  if both_lock then c.1 = [] ∧ ended c.2 else hangs c ∧ off c.2 ∧ crystal c.2.

Lemma start_plls_safe m : off m → crystal m → safe start_plls m outcome_of.
Proof using Hbits Hnodup Hunclocked.
  intros Ho Hc.
  assert (Hclk : ∀ n, Z.testbit (Resets.bits_on [pll_sys; pll_usb] 0) n = true →
    Z.testbit unclocked n = false).
  { intros n. unfold Resets.bits_on. simpl.
    destruct (kept_bit pll_sys) as [B1 U1]; [unfold System.kept; rewrite !elem_of_cons; tauto|].
    destruct (kept_bit pll_usb) as [B2 U2]; [unfold System.kept; rewrite !elem_of_cons; tauto|].
    rewrite !Z.lor_spec, Z.bits_0, !Z.shiftl_1_l, !Z.pow2_bits_eqb by lia. intros Hn.
    destruct (Z.testbit unclocked n) eqn:Hu; [|done]. apply Hunclocked in Hu.
    apply orb_true_iff in Hn as [->%Z.eqb_eq| ->%Z.eqb_eq]; done. }
  eapply safe_write; [by apply off_alive|done|]. eapply safe_write; [by apply off_alive|done|].
  set (J := λ m, off m ∧ crystal m ∧ reset_reg m = 0).
  assert (HJt : ∀ m, J m → J (tick m)).
  { intros m1 (? & ? & ?). split_and!; [by apply off_tick|by apply crystal_tick|done]. }
  assert (HJa : ∀ m, J m → alive m) by by intros m1 [?%off_alive _].
  eapply (safe_wait J (S time)); [done|done| |by apply reset_done_after|].
  { split_and!; [done|done|]. apply Z.ldiff_diag. }
  clear m Ho Hc. intros m HJ _. unfold pll_configure. rewrite <-!app_assoc.
  apply (pll_lock_safe dev_sys put_sys J) with (p := Pll.mkPll false true true false 125 12
    (Pll.postdiv1 (pll (dev_sys m))) (Pll.postdiv2 (pll (dev_sys m)))); try done.
  change (can_lock _) with (locks 12 125) at 1. destruct (locks 12 125) eqn:L1.
  2:{ intros m1 (? & ? & _) Hh. unfold outcome_of, both_lock. by rewrite L1. }
  intros m1 J1 K1. eapply (pll_end_safe dev_sys put_sys J); [done|done|done|done| |exact K1|]; [exact L1|].
  clear J1 K1. intros m2 q J2 [= <-] K2. change (locked pll_sys_set (dev_sys m2)) in K2.
  clear m HJ m1. revert m2 J2 K2. intros m J1 K1.
  set (J' := λ m, J m ∧ locked pll_sys_set (dev_sys m)).
  assert (HJt' : ∀ m, J' m → J' (tick m)).
  { intros m2 [J2 K2]. split; [by apply HJt|by apply locked_tick]. }
  assert (HJa' : ∀ m, J' m → alive m) by (intros m1 [? _]; auto).
  apply (pll_lock_safe dev_usb put_usb J') with (p := Pll.mkPll false true true false 40 12
    (Pll.postdiv1 (pll (dev_usb m))) (Pll.postdiv2 (pll (dev_usb m)))); try done.
  change (can_lock _) with (locks 12 40) at 1. destruct (locks 12 40) eqn:L2.
  2:{ intros m1 [(? & ? & _) _] Hh. unfold outcome_of, both_lock. by rewrite L1, L2. }
  intros m2 J2 K2. eapply (pll_end_safe dev_usb put_usb J'); [done|done|done|exact J2| |exact K2|]; [exact L2|].
  clear J1 K1 J2 K2. intros m3 q [(Ho & Hc & Hr) K1] [= <-] K2.
  eapply safe_write; [by apply off_alive|done|]. apply safe_nil; [by apply off_alive|].
  unfold outcome_of, both_lock. by rewrite L1, L2.
Qed.

(** ** Properties *)

(** C39: Whatever clock the processor was started on, on no way through the start-up does it
    panic, or a multiplexer lose a clock it runs from: no PLL is put in reset or loses its
    power while the processor or the reference may still be using it.  Whether the
    start-up ends depends on the PLLs alone, which are asked for a lock with REFDIV 12 and
    FBDIV_INT 125 and 40 (the crystal's 12 MHz by 12, where [configure] was asked for a
    division by 1: [Pll.pll_vco_wrong]).  If the hardware locks with that, it ends: the
    processor runs from the ring oscillator, no peripheral is in reset, the crystal is
    stable and so are both PLLs, at a twelfth of 1500 and 480 MHz, and the peripherals
    have the crystal's clock.  If it does not, the start-up never ends, and it waits with the
    processor on the ring oscillator.  The waits for RESET_DONE end because the
    peripherals without a clock are not waited for. *)
Theorem rp_configure_safe m : alive m →
  (∀ k, ∃ ops m', steps k (configure, m) = Done (ops, m') ∧ alive m') ∧
  if locks 12 125 && locks 12 40 then
    ∃ n m', steps n (configure, m) = Done ([], m') ∧ ended m' ∧
      12 * Pll.vco_times_refdiv (pll (dev_sys m')) = 1500000000 * Pll.cs_refdiv (pll (dev_sys m')) ∧
      12 * Pll.vco_times_refdiv (pll (dev_usb m')) = 480000000 * Pll.cs_refdiv (pll (dev_usb m'))
  else
    (∃ n d ops m', steps n (configure, m) = Done (Wait d :: ops, m') ∧
       (∀ j, d (ticks tick j m') = false) ∧ off m' ∧ crystal m') ∧
    ∀ k m', steps k (configure, m) ≠ Done ([], m').
Proof using Hbits Hnodup Hunclocked.
  intros Ha. destruct (start_crystal_safe (leave_plls ++ start_plls) m outcome_of Ha)
    as [Hk (n & [ops m'] & Hn & Hc)].
  - intros m1 A1 C1. apply leave_plls_safe; [done|done|]. intros m2. apply start_plls_safe.
  - split; [exact Hk|]. unfold outcome_of, both_lock in Hc. fold both_lock in Hc.
    change (locks 12 125 && locks 12 40) with both_lock in *. destruct both_lock.
    + destruct Hc as [[= ->] He]. exists n, m'. split; [exact Hn|]. split; [exact He|].
      destruct He as (_ & _ & _ & _ & (E1 & _) & (E2 & _)). cbn [snd] in E1, E2. rewrite E1, E2.
      split; reflexivity.
    + destruct Hc as (Hh & Ho & Hx). split; [|by eapply hangs_for_ever].
      destruct Hh as (d & ops' & [= ->] & Hd). by exists n, d, ops', m'.
Qed.
End configure.

(** A processor that was left on its PLL by the program before. *)
Definition on_pll_sys : Machine :=
  let p := Pll.mkPll false false true false 125 1 6 2 in
  mkMachine 0 (settled 0x01ffffff) (0, false) 0 (mkXosc true true 47) (settled true)
    (settled CLKSRC_CLK_SYS_AUX) PllSys (settled ROSC_CLKSRC_PH) OtherSource
    (mkPllDev p (settled true)) (mkPllDev p (settled true)) (false, false).

(** Hardware that locks with anything, and hardware that needs a reference of 5 MHz. *)
Definition any_lock (refdiv fbdiv : Z) : bool := true.
Definition from_5_MHz (refdiv fbdiv : Z) : bool := 5 <=? Pll.XOSC_MHZ / refdiv.
Definition demo_configure : (Z → Z → bool) → list Op :=
  configure 6 9 12 13 0 15 16 17 22 23 24 (2 ^ 22 + 2 ^ 23) 5.

Lemma demo_unclocked b : Z.testbit (2 ^ 22 + 2 ^ 23) b = true →
  b ∈ System.unused 0 15 16 17 22 23 24.
Proof.
  change (2 ^ 22 + 2 ^ 23) with (Z.lor (2 ^ 22) (2 ^ 23)).
  unfold System.unused. rewrite Z.lor_spec, !Z.pow2_bits_eqb, !elem_of_cons by lia.
  intros [<-%Z.eqb_eq|<-%Z.eqb_eq]%orb_true_iff; tauto.
Qed.

Lemma rp_configure_safe_witness :
  alive 12 13 on_pll_sys ∧ runs_from on_pll_sys PllSys ∧
  (∃ n m', steps n (demo_configure any_lock, on_pll_sys) = Done ([], m') ∧ ended m') ∧
  ∀ n m', steps n (demo_configure from_5_MHz, on_pll_sys) ≠ Done ([], m').
Proof.
  assert (Ha : alive 12 13 on_pll_sys) by (split; intros _; split; reflexivity).
  assert (H : ∀ locks, _) by exact (λ locks, rp_configure_safe 6 9 12 13 0 15 16 17 22 23 24
    (2 ^ 22 + 2 ^ 23) 5 locks ltac:(apply (bool_decide_unpack _); vm_compute; exact I)
    ltac:(apply (bool_decide_unpack _); vm_compute; exact I) demo_unclocked on_pll_sys Ha).
  split; [exact Ha|]. split; [by left; split; [left|]|]. split.
  - destruct (H any_lock) as [_ (n & m' & Hn & He & _)]. by exists n, m'.
  - destruct (H from_5_MHz) as [_ [_ Hn]]. exact Hn.
Defined.
