(* ===== verification/Gpiote.v ===== *)
(** * Gpiote: waiting for pins and for GPIOTE channels

    [embassy-nrf/src/gpiote.rs]: the interrupt handler, the bit iterator it uses, the
    channels and the port inputs.  [ports] is the number of GPIO ports of the chip
    (one, or two on the nRF52833 and 52840); pins are numbered through the ports.
    The pins' levels and the detection hardware are at the end of the definitions. *)
From S2P Require Import Prelude Interrupt Sync.
Local Open Scope Z_scope.

Definition CHANNEL_COUNT : nat := 8.
Definition PIN_COUNT (ports : nat) : nat := if (ports =? 2)%nat then 48 else 32.

Inductive InputChannelPolarity : Set := InNone | InHiToLo | InLoToHi | InToggle.
Inductive OutputChannelPolarity : Set := OutSet | OutClear | OutToggle.

(** A channel's CONFIG register. *)
Inductive Mode : Set := ModeDisabled | ModeEvent | ModeTask.
Inductive Polarity : Set := PolNone | LoToHi | HiToLo | Toggle.
Record ChannelConfig : Set := mkConfig {
  mode : Mode; polarity : Polarity; outinit : bool; port : bool; psel : Z
}.
Definition config_off : ChannelConfig := mkConfig ModeDisabled PolNone false false 0.

(** A pin's SENSE field. *)
Inductive Sense : Set := Disabled | High | Low.
#[export] Instance Sense_eq_dec : EqDecision Sense.
Proof. solve_decision. Defined.

(** The GPIOTE and the ports: channel events and configurations, the interrupts enabled
    (bit [i] for channel [i], bit 31 for the port event), the LATCH of each port, and
    per pin its SENSE and its level; with the wakers of this file. *)
Record G : Type := mkG {
  config : list ChannelConfig; events_in : list bool; events_port : bool; inten : Z;
  latch : list Z; sense : list Sense; level : list bool;
  channel_wakers : list WakerTask.AtomicWaker; port_wakers : list WakerTask.AtomicWaker
}.

Definition set_config (c : list ChannelConfig) g := mkG c (events_in g) (events_port g) (inten g)
  (latch g) (sense g) (level g) (channel_wakers g) (port_wakers g).
Definition set_events_in (e : list bool) g := mkG (config g) e (events_port g) (inten g)
  (latch g) (sense g) (level g) (channel_wakers g) (port_wakers g).
Definition set_events_port (e : bool) g := mkG (config g) (events_in g) e (inten g)
  (latch g) (sense g) (level g) (channel_wakers g) (port_wakers g).
Definition set_inten (i : Z) g := mkG (config g) (events_in g) (events_port g) i
  (latch g) (sense g) (level g) (channel_wakers g) (port_wakers g).
Definition set_latch (l : list Z) g := mkG (config g) (events_in g) (events_port g) (inten g)
  l (sense g) (level g) (channel_wakers g) (port_wakers g).
Definition set_sense (s : list Sense) g := mkG (config g) (events_in g) (events_port g) (inten g)
  (latch g) s (level g) (channel_wakers g) (port_wakers g).
Definition set_level (l : list bool) g := mkG (config g) (events_in g) (events_port g) (inten g)
  (latch g) (sense g) l (channel_wakers g) (port_wakers g).
Definition set_channel_wakers (w : list WakerTask.AtomicWaker) g := mkG (config g) (events_in g)
  (events_port g) (inten g) (latch g) (sense g) (level g) w (port_wakers g).
Definition set_port_wakers (w : list WakerTask.AtomicWaker) g := mkG (config g) (events_in g)
  (events_port g) (inten g) (latch g) (sense g) (level g) (channel_wakers g) w.

(** ** [BitIter] *)

(** [u32::trailing_zeros]: the lowest set bit, or 32. *)
Fixpoint trailing_zeros_from (n : nat) (i x : Z) : Z :=
  match n with
  | O => i
  | S m => if Z.testbit x i then i else trailing_zeros_from m (i + 1) x
  end.
Definition trailing_zeros (x : Z) : Z := trailing_zeros_from 32 0 x.

Definition BitIter_next (bits : Z) : option (Z * Z) :=
  let b := trailing_zeros bits in
  if b =? 32 then None else Some (b, Z.land bits (Z.lnot (Z.shiftl 1 b))).

(** What a [for] loop over the iterator visits; 33 steps are enough. *)
Fixpoint BitIter_run (fuel : nat) (bits : Z) : list Z :=
  match fuel with
  | O => []
  | S m => match BitIter_next bits with
           | Some (b, bits') => b :: BitIter_run m bits'
           | None => [] end
  end.
Definition BitIter_all (bits : Z) : list Z := BitIter_run 33 bits.

Section gpiote.
Context (ports : nat).
Implicit Types g : G.

(** ** The hardware *)

(** A pin whose level matches its SENSE sets its LATCH bit; a LATCH bit set raises the
    port event. *)
Definition matching (s : Sense) (v : bool) : bool :=
  match s with Disabled => false | High => v | Low => negb v end.
Definition latched g (p : nat) : bool :=
  Z.testbit (default 0 (latch g !! (p / 32)%nat)) (Z.of_nat (p mod 32)).
Definition detect (p : nat) g : G :=
  if matching (default Disabled (sense g !! p)) (default false (level g !! p)) then
    set_events_port true
      (set_latch (alter (λ l, Z.lor l (Z.shiftl 1 (Z.of_nat (p mod 32)))) (p / 32)%nat (latch g)) g)
  else g.
Definition hw_level (p : nat) (v : bool) g : G := detect p (set_level (<[p := v]> (level g)) g).
(** Writing a pin's SENSE. *)
Definition write_sense (p : nat) (s : Sense) g : G := detect p (set_sense (<[p := s]> (sense g)) g).
(** Writing ones to a LATCH clears them; the event is raised again by those left. *)
Definition write_latch (i : nat) (bits : Z) g : G :=
  let l := Z.land (default 0 (latch g !! i)) (Z.lnot bits) in
  let g1 := set_latch (<[i := l]> (latch g)) g in
  if l =? 0 then g1 else set_events_port true g1.
(** The event a channel is configured for. *)
Definition hw_channel (i : nat) g : G := set_events_in (<[i := true]> (events_in g)) g.

(** ** [initialize] and the handler *)
Definition initialize {H} (on_irq : H) g (irq : Irq H) : G * Irq H :=
  let g1 := foldl (λ g i, write_latch i 0xFFFFFFFF g) g (seq 0 ports) in
  let g2 := set_events_port false g1 in
  (set_inten (Z.lor (inten g2) (Z.shiftl 1 31)) g2,
   enable (unpend (set_handler on_irq irq))).

Definition intenset (bits : Z) g : G := set_inten (Z.lor (inten g) bits) g.
Definition intenclr (bits : Z) g : G := set_inten (Z.land (inten g) (Z.lnot bits)) g.

(** A [for] loop whose body may panic. *)
Fixpoint for_each {A S} (f : A → S → outcome S) (l : list A) (s : S) : outcome S :=
  match l with
  | [] => Done s
  | x :: l => s ← f x s; for_each f l s
  end.

(** [AtomicWaker::wake] of an element of one of the arrays; an index past the end of the
    array panics. *)
Definition wake_at (l : list WakerTask.AtomicWaker) (i : nat) : outcome (list Z) :=
  w ← expect (l !! i);
  Done (fst (WakerTask.atomic_wake w)).

Definition irq_channel (i : nat) (st : list Z * G) : outcome (list Z * G) :=
  let '(woken, g) := st in
  if default false (events_in g !! i) then
    let g1 := intenclr (Z.shiftl 1 (Z.of_nat i)) g in
    ws ← wake_at (channel_wakers g1) i;
    Done (woken ++ ws, g1)
  else Done st.

Definition irq_pin (i : nat) (pin : Z) (st : list Z * G) : outcome (list Z * G) :=
  let '(woken, g) := st in
  let p := (i * 32 + Z.to_nat pin)%nat in
  let g1 := write_sense p Disabled g in
  ws ← wake_at (port_wakers g1) p;
  Done (woken ++ ws, g1).

Definition irq_port (i : nat) (st : list Z * G) : outcome (list Z * G) :=
  let bits := default 0 (latch (snd st) !! i) in
  st ← for_each (irq_pin i) (BitIter_all bits) st;
  let '(woken, g) := st in
  Done (woken, write_latch i bits g).

Definition on_irq g : outcome (list Z * G) :=
  st ← for_each irq_channel (seq 0 CHANNEL_COUNT) ([], g);
  let '(woken, g1) := st in
  if events_port g1 then
    for_each irq_port (seq 0 ports) (woken, set_events_port false g1)
  else Done (woken, g1).

(** ** Channels *)
Definition in_polarity (p : InputChannelPolarity) : Polarity :=
  match p with InHiToLo => HiToLo | InLoToHi => LoToHi | InNone => PolNone | InToggle => Toggle end.
Definition out_polarity (p : OutputChannelPolarity) : Polarity :=
  match p with OutSet => LoToHi | OutClear => HiToLo | OutToggle => Toggle end.

Definition InputChannel_new (num pin : nat) (p : InputChannelPolarity) g : G :=
  let g1 := set_config (<[num := mkConfig ModeEvent (in_polarity p) false
              (Nat.leb 32 pin) (Z.of_nat (pin mod 32))]> (config g)) g in
  set_events_in (<[num := false]> (events_in g1)) g1.
Definition Channel_drop (num : nat) g : G :=
  intenclr (Z.shiftl 1 (Z.of_nat num)) (set_config (<[num := config_off]> (config g)) g).

(** [wait], up to its await, and its polls. *)
Definition InputChannel_wait (num : nat) g : G :=
  intenset (Z.shiftl 1 (Z.of_nat num)) (set_events_in (<[num := false]> (events_in g)) g).
Definition InputChannel_poll (num : nat) (cx : Waker.t) g : outcome (Poll unit * G) :=
  w ← expect (channel_wakers g !! num);
  w ← WakerTask.atomic_register w cx;
  let g1 := set_channel_wakers (<[num := w]> (channel_wakers g)) g in
  Done (if default false (events_in g1 !! num) then Ready tt else Pending, g1).

(** [high] is the level the pin is set to drive. *)
Definition OutputChannel_new (num pin : nat) (high : bool) (p : OutputChannelPolarity) g : G :=
  set_config (<[num := mkConfig ModeTask (out_polarity p) high
    (Nat.leb 32 pin) (Z.of_nat (pin mod 32))]> (config g)) g.

(** ** Port inputs *)
Definition wait_for_high (p : nat) g : G := write_sense p High g.
Definition wait_for_low (p : nat) g : G := write_sense p Low g.
Definition PortInputFuture_poll (p : nat) (cx : Waker.t) g : outcome (Poll unit * G) :=
  w ← expect (port_wakers g !! p);
  w ← WakerTask.atomic_register w cx;
  let g1 := set_port_wakers (<[p := w]> (port_wakers g)) g in
  Done (if decide (default Disabled (sense g1 !! p) = Disabled) then Ready tt else Pending, g1).
Definition PortInputFuture_drop (p : nat) g : G := write_sense p Disabled g.
End gpiote.

(** ** The bit iterator *)
Lemma trailing_zeros_from_spec n : ∀ i x, 0 ≤ i →
  let b := trailing_zeros_from n i x in
  i ≤ b ≤ i + Z.of_nat n ∧ (∀ j, i ≤ j < b → Z.testbit x j = false) ∧
  (b < i + Z.of_nat n → Z.testbit x b = true).
Proof.
  induction n as [|n IH]; intros i x Hi; simpl.
  - split_and!; [lia|lia| |]; intros; lia.
  - destruct (Z.testbit x i) eqn:E; [split_and!; [lia|lia|intros; lia|done]|].
    destruct (IH (i + 1) x ltac:(lia)) as (H1 & H2 & H3). split_and!; [lia|lia| |].
    + intros j Hj. destruct (decide (j = i)) as [->|]; [done|]. apply H2. lia.
    + intros Hlt. apply H3. lia.
Qed.

(** The set bits among the low 32, in ascending order, from [i]. *)
Fixpoint bits_from (n : nat) (i x : Z) : list Z :=
  match n with
  | O => []
  | S m => if Z.testbit x i then i :: bits_from m (i + 1) x else bits_from m (i + 1) x
  end.

Lemma bits_from_elem n : ∀ i x b, b ∈ bits_from n i x ↔ i ≤ b < i + Z.of_nat n ∧ Z.testbit x b = true.
Proof.
  induction n as [|n IH]; intros i x b; simpl.
  - rewrite elem_of_nil. lia.
  - destruct (Z.testbit x i) eqn:E; rewrite ?elem_of_cons, IH.
    + split; [intros [->|[? ?]]; [split; [lia|done]|split; [lia|done]]|].
      intros [H1 H2]. destruct (decide (b = i)) as [->|]; [by left|right]. split; [lia|done].
    + split; [intros [? ?]; split; [lia|done]|]. intros [H1 H2]. split; [|done].
      destruct (decide (b = i)) as [->|]; [congruence|lia].
Qed.

Lemma bits_from_ext n : ∀ i x y, (∀ j, i ≤ j → Z.testbit x j = Z.testbit y j) →
  bits_from n i x = bits_from n i y.
Proof.
  induction n as [|n IH]; intros i x y H; simpl; [done|].
  rewrite (H i) by lia. rewrite (IH (i + 1) x y) by (intros; apply H; lia). done.
Qed.

Lemma bits_from_skip n : ∀ i x b, i ≤ b ≤ i + Z.of_nat n →
  (∀ j, i ≤ j < b → Z.testbit x j = false) →
  bits_from n i x = bits_from (n - Z.to_nat (b - i)) b x.
Proof.
  induction n as [|n IH]; intros i x b Hb H; simpl; [done|].
  destruct (decide (b = i)) as [->|Hne].
  - replace (Z.to_nat (i - i)) with O by lia. done.
  - rewrite H by lia. rewrite (IH (i + 1) x b) by (try lia; intros; apply H; lia).
    replace (Z.to_nat (b - i)) with (S (Z.to_nat (b - (i + 1)))) by lia. done.
Qed.

Lemma clear_bit x b j : 0 ≤ b → 0 ≤ j →
  Z.testbit (Z.land x (Z.lnot (Z.shiftl 1 b))) j = Z.testbit x j && negb (b =? j).
Proof.
  intros Hb Hj. rewrite Z.land_spec, Z.lnot_spec by lia.
  by rewrite Z.shiftl_1_l, Z.pow2_bits_eqb by lia.
Qed.

Lemma BitIter_run_spec n : ∀ fuel i x, (n < fuel)%nat → 0 ≤ i → i + Z.of_nat n = 32 →
  (∀ j, 0 ≤ j < i → Z.testbit x j = false) → BitIter_run fuel x = bits_from n i x.
Proof.
  induction n as [n IH] using lt_wf_ind. intros [|fuel] i x Hf Hi Hn Hlow; [lia|].
  cbn [BitIter_run]. unfold BitIter_next.
  destruct (trailing_zeros_from_spec 32 0 x ltac:(lia)) as (H1 & H2 & H3).
  fold (trailing_zeros x) in H1, H2, H3. set (b := trailing_zeros x) in *.
  assert (Hib : i ≤ b).
  { destruct (decide (i ≤ b)) as [|Hlt]; [done|]. exfalso.
    pose proof (Hlow b ltac:(lia)) as E. rewrite H3 in E by lia. done. }
  rewrite (bits_from_skip n i x b) by (try lia; intros; apply H2; lia).
  destruct (Z.eqb_spec b 32) as [E|E].
  - replace (n - Z.to_nat (b - i))%nat with O by lia. done.
  - destruct (n - Z.to_nat (b - i))%nat as [|m] eqn:Em; [lia|]. cbn [bits_from].
    rewrite H3 by lia. f_equal. rewrite (IH m ltac:(lia) fuel (b + 1)).
    + apply bits_from_ext. intros j Hj. rewrite clear_bit by lia.
      destruct (Z.eqb_spec b j); [lia|]. by rewrite andb_true_r.
    + lia.
    + lia.
    + lia.
    + intros j Hj. rewrite clear_bit by lia. destruct (Z.eqb_spec b j) as [|]; simpl.
      * by rewrite andb_false_r.
      * rewrite H2 by lia. done.
Qed.

Lemma BitIter_spec x : BitIter_all x = bits_from 32 0 x.
Proof. apply (BitIter_run_spec 32 33); try lia. Qed.

(** ** The handler's effect *)
#[local] Arguments Nat.div : simpl never.
#[local] Arguments Nat.modulo : simpl never.

Section handler.
Context (ports : nat).
Implicit Types g : G.

Definition pin_of (i : nat) (b : Z) : nat := (i * 32 + Z.to_nat b)%nat.
Definition disable_pins (i : nat) (l : list Z) (s : list Sense) : list Sense :=
  foldl (λ s b, <[pin_of i b := Disabled]> s) s l.

Lemma write_disabled p g : write_sense p Disabled g = set_sense (<[p := Disabled]> (sense g)) g.
Proof.
  unfold write_sense, detect. simpl.
  destruct (decide (p < length (sense g))%nat).
  - by rewrite list_lookup_insert_eq.
  - by rewrite list_insert_ge, lookup_ge_None_2 by lia.
Qed.

(** Whom an element of the array wakes. *)
Definition waiting_at (l : list WakerTask.AtomicWaker) (i : nat) : list Z :=
  match l !! i with Some w => fst (WakerTask.atomic_wake w) | None => [] end.

Lemma wake_at_run l i : (i < length l)%nat → wake_at l i = Done (waiting_at l i).
Proof.
  intros [w Hw]%lookup_lt_is_Some_2. unfold wake_at, waiting_at. by rewrite Hw.
Qed.

Lemma waiting_at_Some l i t : l !! i = Some (Some t) → waiting_at l i = [t].
Proof. intros H. unfold waiting_at, WakerTask.AtomicWaker in *. by rewrite H. Qed.

(** The pins there are: each has a waker, and only they are ever latched. *)
Definition pins_ok g : Prop :=
  length (sense g) = PIN_COUNT ports ∧ length (port_wakers g) = PIN_COUNT ports ∧
  length (channel_wakers g) = CHANNEL_COUNT ∧
  ∀ p, latched g p = true → (p < PIN_COUNT ports)%nat.

Lemma irq_pins_run i l : ∀ woken g,
  (∀ b, b ∈ l → (pin_of i b < length (port_wakers g))%nat) →
  for_each (irq_pin i) l (woken, g) =
    Done (woken ++ (l ≫= λ b, waiting_at (port_wakers g) (pin_of i b)),
     set_sense (disable_pins i l (sense g)) g).
Proof.
  induction l as [|b l IH]; intros woken g Hl; cbn [for_each].
  - cbn. rewrite app_nil_r. by destruct g.
  - change (irq_pin i b (woken, g)) with
      (ws ← wake_at (port_wakers (write_sense (pin_of i b) Disabled g)) (pin_of i b);
       Done (woken ++ ws, write_sense (pin_of i b) Disabled g)). rewrite write_disabled.
    rewrite wake_at_run by (apply (Hl b); by left).
    cbn [mbind outcome_bind]. rewrite IH by (intros; apply Hl; by right).
    simpl. by rewrite <-app_assoc.
Qed.

Lemma disable_pins_lookup i l p : ∀ s,
  disable_pins i l s !! p =
    if decide (p ∈ pin_of i <$> l) then s !! p ≫= λ _, Some Disabled else s !! p.
Proof.
  induction l as [|b l IH]; intros s; [done|].
  cbn [disable_pins foldl]. fold (disable_pins i l (<[pin_of i b:=Disabled]> s)). rewrite IH.
  assert (Hins : <[pin_of i b := Disabled]> s !! p =
    if decide (p = pin_of i b) then s !! p ≫= λ _, Some Disabled else s !! p).
  { destruct (decide (p = pin_of i b)) as [->|E]; [|by rewrite list_lookup_insert_ne by congruence].
    destruct (s !! pin_of i b) as [x|] eqn:Es; simpl.
    - apply list_lookup_insert_eq. by eapply lookup_lt_Some.
    - rewrite list_insert_ge; [done|]. by apply lookup_ge_None. }
  rewrite Hins. clear Hins. rewrite fmap_cons.
  destruct (decide (p ∈ pin_of i <$> l)) as [H1|H1],
    (decide (p ∈ pin_of i b :: (pin_of i <$> l))) as [H2|H2],
    (decide (p = pin_of i b)) as [H3|H3]; try done; try (by destruct (s !! p));
    rewrite elem_of_cons in H2; tauto.
Qed.

Lemma pin_split p : p = pin_of (p / 32) (Z.of_nat (p mod 32)).
Proof. unfold pin_of. rewrite Nat2Z.id. pose proof (Nat.div_mod_eq p 32). lia. Qed.

Lemma pin_of_inj i b p : 0 ≤ b < 32 → p = pin_of i b →
  i = (p / 32)%nat ∧ b = Z.of_nat (p mod 32).
Proof.
  intros Hb ->. unfold pin_of.
  rewrite Nat.add_comm, Nat.div_add, Nat.Div0.mod_add by lia.
  rewrite Nat.div_small, Nat.mod_small by lia. lia.
Qed.

Lemma bits_pins i g b : pins_ok g → b ∈ BitIter_all (default 0 (latch g !! i)) →
  (pin_of i b < length (port_wakers g))%nat.
Proof.
  intros (_ & Hw & _ & Hp) Hb. rewrite BitIter_spec, bits_from_elem in Hb. destruct Hb as [Hr Hb].
  rewrite Hw. apply Hp. unfold latched.
  destruct (pin_of_inj i b (pin_of i b) ltac:(lia) eq_refl) as [<- <-]. exact Hb.
Qed.

Definition irq_port_result i woken g : list Z * G :=
  (woken ++ (BitIter_all (default 0 (latch g !! i)) ≫= λ b, waiting_at (port_wakers g) (pin_of i b)),
   set_latch (<[i := 0]> (latch g))
     (set_sense (disable_pins i (BitIter_all (default 0 (latch g !! i))) (sense g)) g)).

Lemma irq_port_run i woken g : pins_ok g →
  irq_port i (woken, g) = Done (irq_port_result i woken g).
Proof.
  intros Hok. unfold irq_port. cbn [snd]. rewrite irq_pins_run by (intros; by apply bits_pins).
  cbn [mbind outcome_bind]. unfold irq_port_result. do 2 f_equal.
  unfold write_latch. cbn [latch set_sense]. rewrite Z.land_lnot_diag. done.
Qed.

Lemma disable_pins_length i l s : length (disable_pins i l s) = length s.
Proof.
  revert s. induction l as [|b l IH]; intros s; [done|]. unfold disable_pins in *. simpl.
  by rewrite IH, length_insert.
Qed.

(** What the handler did for pin [p]. *)
Record handled (ps : list nat) g g' (woken woken' : list Z) (p : nat) : Prop := {
  hd_sense : sense g' !! p =
    if decide ((p / 32)%nat ∈ ps ∧ latched g p = true) then sense g !! p ≫= λ _, Some Disabled
    else sense g !! p;
  hd_latched : latched g' p = if decide ((p / 32)%nat ∈ ps) then false else latched g p;
  hd_wakers : port_wakers g' = port_wakers g;
  hd_level : level g' = level g;
  hd_len : length (latch g') = length (latch g);
  hd_woken : woken ⊆ woken';
  hd_wake : (p / 32)%nat ∈ ps → latched g p = true → waiting_at (port_wakers g) p ⊆ woken'
}.

Lemma latched_bits g p :
  Z.of_nat (p mod 32) ∈ BitIter_all (default 0 (latch g !! (p / 32)%nat)) ↔ latched g p = true.
Proof.
  rewrite BitIter_spec, bits_from_elem. unfold latched.
  pose proof (Nat.mod_upper_bound p 32). split; [by intros [_ ?]|]. intros ?. split; [lia|done].
Qed.

Lemma default_insert_0 (l : list Z) i : default 0 (<[i := 0]> l !! i) = 0.
Proof.
  destruct (decide (i < length l)%nat).
  - by rewrite list_lookup_insert_eq.
  - by rewrite lookup_ge_None_2 by (rewrite length_insert; lia).
Qed.

Lemma irq_port_handled i woken g p :
  handled [i] g (snd (irq_port_result i woken g)) woken (fst (irq_port_result i woken g)) p.
Proof.
  unfold irq_port_result. cbn [fst snd].
  assert (Hin : p ∈ pin_of i <$> BitIter_all (default 0 (latch g !! i)) ↔
    (p / 32)%nat ∈ [i] ∧ latched g p = true).
  { rewrite list_elem_of_singleton, list_elem_of_fmap. split.
    - intros (b & Hp & Hb). pose proof Hb as Hb'. rewrite BitIter_spec, bits_from_elem in Hb'.
      destruct (pin_of_inj i b p ltac:(lia) Hp) as [Ei Eb]. subst i. split; [done|].
      apply latched_bits. by rewrite <-Eb.
    - intros [Ei Hl]. subst i. exists (Z.of_nat (p mod 32)). split; [apply pin_split|].
      by apply latched_bits. }
  split; cbn [sense set_latch set_sense latch port_wakers level].
  - rewrite disable_pins_lookup. repeat case_decide; tauto.
  - unfold latched. cbn [latch set_latch].
    destruct (decide ((p / 32)%nat ∈ [i])) as [E|E]; rewrite list_elem_of_singleton in E.
    + subst i. by rewrite default_insert_0, Z.bits_0.
    + by rewrite list_lookup_insert_ne by congruence.
  - done.
  - done.
  - apply length_insert.
  - set_solver.
  - intros Hi Hl. pose proof (proj2 Hin (conj Hi Hl)) as Hm.
    apply list_elem_of_fmap in Hm as (b & -> & Hb).
    intros x Hx. apply elem_of_app. right. apply list_elem_of_bind. by exists b.
Qed.

Lemma irq_port_ok i woken g : pins_ok g → pins_ok (snd (irq_port_result i woken g)).
Proof.
  intros Hok. pose proof Hok as (H1 & H2 & H3 & H4). split_and!.
  - simpl. by rewrite disable_pins_length.
  - done.
  - done.
  - intros p Hp. destruct (irq_port_handled i woken g p) as [_ A _ _ _ _ _]. rewrite A in Hp.
    case_decide; [done|]. by apply H4.
Qed.

Lemma irq_ports_handled ps p : NoDup ps → ∀ woken g, pins_ok g →
  ∃ woken' g', for_each irq_port ps (woken, g) = Done (woken', g') ∧
    handled ps g g' woken woken' p ∧ pins_ok g'.
Proof.
  induction ps as [|i ps IH]; intros Hnd woken g Hok; cbn [for_each].
  - eexists _, _. split; [done|]. split; [|done].
    split; cbn [fst snd]; try done; try set_solver; case_decide as H; try done; set_solver.
  - apply NoDup_cons in Hnd as [Hi Hnd]. rewrite irq_port_run by done. cbn [mbind outcome_bind].
    pose proof (irq_port_ok i woken g Hok) as Hok1.
    destruct (irq_port_handled i woken g p) as [A1 A2 A3 A4 AL A5 A6].
    destruct (irq_port_result i woken g) as [w1 g1]. cbn [fst snd] in *.
    destruct (IH Hnd w1 g1 Hok1) as (w2 & g2 & E2 & [B1 B2 B3 B4 BL B5 B6] & Hok2).
    exists w2, g2. split; [exact E2|]. split; [|done].
    assert (Ein : ∀ q, q ∈ i :: ps ↔ q = i ∨ q ∈ ps) by (intros; apply elem_of_cons).
    assert (Esg : ∀ q, q ∈ [i] ↔ q = i) by (intros; apply list_elem_of_singleton).
    specialize (Ein (p / 32)%nat). specialize (Esg (p / 32)%nat).
    assert (Hne : (p / 32)%nat ∈ ps → (p / 32)%nat ≠ i) by congruence.
    split.
    + rewrite B1, A1. clear -A2 Ein Esg Hne. rewrite A2.
      destruct (sense g !! p); repeat (case_decide; simpl; try tauto).
    + rewrite B2, A2. repeat case_decide; tauto.
    + congruence.
    + congruence.
    + congruence.
    + set_solver.
    + intros [E|E]%Ein Hl.
      * etrans; [|exact B5]. apply A6; [by apply Esg|done].
      * rewrite <-A3. apply B6; [done|]. rewrite A2.
        destruct (decide ((p / 32)%nat ∈ [i])) as [F|F]; [|done]. apply Esg in F. by destruct (Hne E F).
Qed.

Lemma irq_channels_run l : ∀ woken g, (∀ c, c ∈ l → (c < length (channel_wakers g))%nat) →
  ∃ ws i, for_each irq_channel l (woken, g) = Done (woken ++ ws, set_inten i g).
Proof.
  induction l as [|c l IH]; intros woken g Hl; cbn [for_each].
  - exists [], (inten g). rewrite app_nil_r. by destruct g.
  - unfold irq_channel at 2. destruct (default false (events_in g !! c)).
    + cbv zeta. rewrite wake_at_run by (apply Hl; by left). cbn [mbind outcome_bind].
      destruct (IH (woken ++ waiting_at (channel_wakers g) c) (intenclr (Z.shiftl 1 (Z.of_nat c)) g))
        as (ws & i & E); [intros; apply Hl; by right|].
      change (channel_wakers (intenclr _ g)) with (channel_wakers g). rewrite E.
      eexists _, i. by rewrite <-app_assoc.
    + apply IH. intros. apply Hl. by right.
Qed.

Lemma on_irq_handled g p : pins_ok g →
  ∃ woken g', on_irq ports g = Done (woken, g') ∧ pins_ok g' ∧
    if events_port g then handled (seq 0 ports) g g' [] woken p
    else sense g' = sense g ∧ latch g' = latch g ∧ port_wakers g' = port_wakers g ∧
         level g' = level g ∧ events_port g' = false.
Proof.
  intros Hok. unfold on_irq. destruct (irq_channels_run (seq 0 CHANNEL_COUNT) [] g) as (ws & i & ->).
  { destruct Hok as (_ & _ & -> & _). intros c Hc%elem_of_seq. lia. }
  cbn [mbind outcome_bind events_port set_inten]. destruct (events_port g) eqn:E.
  - destruct (irq_ports_handled (seq 0 ports) p (NoDup_seq 0 ports) ([] ++ ws)
      (set_events_port false (set_inten i g)) Hok) as (w2 & g2 & E2 & [A1 A2 A3 A4 AL A5 A6] & Hok2).
    exists w2, g2. split; [done|]. split; [done|]. split; try done. set_solver.
  - eexists _, _. split; [done|]. split; [exact Hok|done].
Qed.
End handler.

(** ** A pin waited for *)
Section waiting.
Context (ports : nat).
Implicit Types g : G.

(** What may happen meanwhile: any pin changes, the handler runs. *)
Inductive Env : Type :=
| Level (q : nat) (v : bool)
| HandlerRuns.
Definition estep (e : Env) (st : list Z * G) : outcome (list Z * G) :=
  let '(woken, g) := st in
  match e with
  | Level q v => Done (woken, hw_level q v g)
  | HandlerRuns => r ← on_irq ports g; let '(ws, g') := r in Done (woken ++ ws, g')
  end.
Definition erun (es : list Env) (st : list Z * G) : outcome (list Z * G) := for_each estep es st.

(** The level a future waits for, its SENSE, and the start of the wait. *)
Definition sense_for (hi : bool) : Sense := if hi then High else Low.
Definition wait_for (hi : bool) (p : nat) g : G :=
  if hi then wait_for_high p g else wait_for_low p g.

(** The pin has the level the wait starts for, or is seen with it after that. *)
Definition raised (p : nat) (hi : bool) g (es : list Env) : Prop :=
  level g !! p = Some hi ∨ Level p hi ∈ es.

(** The future of task [t] on pin [p]: done and woken, or still registered -- and then
    a LATCH bit is announced by the port event. *)
Definition tracked (p : nat) (hi : bool) (t : Z) (seen : Prop) (woken : list Z) g : Prop :=
  pins_ok ports g ∧
  (p < length (level g))%nat ∧ ((p / 32)%nat < length (latch g))%nat ∧
  port_wakers g !! p = Some (Some t) ∧
  (sense g !! p = Some Disabled ∧ t ∈ woken ∨
   sense g !! p = Some (sense_for hi) ∧ (latched g p = true → events_port g = true) ∧
   (seen → latched g p = true)).

Lemma latched_alter g q p : (p / 32 < length (latch g))%nat →
  latched (set_latch (alter (λ l, Z.lor l (Z.shiftl 1 (Z.of_nat (q mod 32)))) (q / 32)%nat (latch g)) g) p =
  bool_decide (p = q) || latched g p.
Proof.
  intros Hp. unfold latched. cbn [latch set_latch].
  destruct (decide (q / 32 = p / 32)%nat) as [E|E].
  - rewrite E, list_lookup_alter_eq. destruct (lookup_lt_is_Some_2 _ _ Hp) as [l Hl]. rewrite Hl.
    cbn [fmap option_fmap option_map default]. simpl.
    rewrite Z.lor_spec, Z.shiftl_1_l, Z.pow2_bits_eqb, orb_comm by lia. f_equal.
    destruct (Z.eqb_spec (Z.of_nat (q mod 32)) (Z.of_nat (p mod 32))) as [F|F].
    + symmetry. apply bool_decide_eq_true. pose proof (Nat.div_mod_eq p 32).
      pose proof (Nat.div_mod_eq q 32). lia.
    + symmetry. apply bool_decide_eq_false. intros ->. lia.
  - rewrite list_lookup_alter_ne by done. rewrite bool_decide_false; [done|]. by intros ->.
Qed.

Lemma matching_for hi v : matching (sense_for hi) v = Bool.eqb v hi.
Proof. by destruct hi, v. Qed.

Lemma detect_ok p g : pins_ok ports g → pins_ok ports (detect p g).
Proof.
  intros (H1 & H2 & H3 & H4). unfold detect.
  destruct (matching _ _) eqn:Em; [|done]. split_and!; try done. intros q.
  change (latched (set_events_port true ?x) q) with (latched x q).
  destruct (decide (q / 32 < length (latch g))%nat) as [Hq|Hq].
  - rewrite latched_alter by done. intros [->%bool_decide_eq_true|Hl]%orb_true_iff; [|by apply H4].
    destruct (decide (p < PIN_COUNT ports)%nat); [done|].
    by rewrite (lookup_ge_None_2 (sense g)) in Em by lia.
  - unfold latched. simpl. rewrite lookup_ge_None_2 by (rewrite length_alter; lia).
    simpl. by rewrite Z.bits_0.
Qed.

Lemma detect_latched p g q : (q / 32 < length (latch g))%nat →
  matching (default Disabled (sense g !! p)) (default false (level g !! p)) = true →
  latched (detect p g) q = bool_decide (q = p) || latched g q.
Proof.
  intros Hq Hm. unfold detect. rewrite Hm.
  change (latched (set_events_port true ?x) q) with (latched x q). by rewrite latched_alter.
Qed.

Lemma tracked_level p hi t seen woken g q v :
  tracked p hi t seen woken g →
  tracked p hi t (seen ∨ q = p ∧ v = hi) woken (hw_level q v g).
Proof.
  intros (Hok & Hlv & Hp & Hw & H). unfold hw_level. set (g1 := set_level (<[q := v]> (level g)) g).
  assert (E1 : (p < length (level g1))%nat) by (unfold g1; simpl; by rewrite length_insert).
  assert (Eq : q = p → level g1 !! p = Some v)
    by (intros ->; unfold g1; simpl; by apply list_lookup_insert_eq).
  split; [by apply detect_ok|].
  destruct (matching (default Disabled (sense g1 !! q)) (default false (level g1 !! q))) eqn:Em.
  - pose proof (detect_latched q g1 p Hp Em) as El. unfold detect in *. rewrite Em in *.
    split; [exact E1|]. split; [simpl; by rewrite length_alter|]. split; [exact Hw|].
    destruct H as [[Hs Ht]|(Hs & Hev & Hseen)]; [by left|right]. split; [exact Hs|]. split; [done|].
    rewrite El. intros [Hor|[-> _]]; apply orb_true_iff.
    + right. by apply Hseen.
    + left. by apply bool_decide_eq_true.
  - unfold detect. rewrite Em. split; [exact E1|]. split; [exact Hp|]. split; [exact Hw|].
    destruct H as [[Hs Ht]|(Hs & Hev & Hseen)]; [by left|right].
    split; [exact Hs|]. split; [exact Hev|]. intros [Hor|[-> ->]]; [by apply Hseen|].
    exfalso. rewrite Eq in Em by done. change (sense g1) with (sense g) in Em.
    rewrite Hs in Em. simpl in Em. by rewrite matching_for, eqb_reflx in Em.
Qed.

Lemma tracked_irq p hi t (seen : Prop) woken g : (p / 32 < ports)%nat →
  tracked p hi t seen woken g →
  ∃ ws g', on_irq ports g = Done (ws, g') ∧ tracked p hi t seen (woken ++ ws) g' ∧
  (seen → sense g' !! p = Some Disabled ∧ t ∈ woken ++ ws).
Proof.
  intros Hpc (Hok & Hlv & Hp & Hw & H).
  destruct (on_irq_handled ports g p Hok) as (ws & g' & E & Hok' & Hg').
  exists ws, g'. split; [exact E|]. clear E.
  assert (Hin : (p / 32)%nat ∈ seq 0 ports) by (rewrite elem_of_seq; lia).
  destruct (events_port g) eqn:Eev.
  - destruct Hg' as [A1 A2 A3 A4 AL _ A6].
    rewrite decide_True in A2 by done. unfold tracked. rewrite A1, A2, A3, A4, AL, Hw.
    specialize (A6 Hin). rewrite (waiting_at_Some _ _ _ Hw) in A6.
    destruct H as [[Hs Ht]|(Hs & Hev & Hseen)]; rewrite Hs; simpl.
    + assert (E : (if decide ((p / 32)%nat ∈ seq 0 ports ∧ latched g p = true)
                   then Some Disabled else Some Disabled) = Some Disabled) by (by case_decide).
      rewrite E. split; [|intros _; split; [done|set_solver]].
      split_and!; try done. left. split; [done|set_solver].
    + destruct (latched g p) eqn:El.
      * rewrite decide_True by done. split; [|intros _; split; [done|set_solver]].
        split_and!; try done. left. split; [done|set_solver].
      * rewrite decide_False by (by intros [_ ?]). split; [|intros Hsn; by specialize (Hseen Hsn)].
        split_and!; try done. right. by split_and!.
  - destruct Hg' as (A1 & A2 & A3 & A4 & A5).
    assert (Hl : latched g' p = latched g p) by (unfold latched; by rewrite A2).
    unfold tracked. rewrite A1, A2, A3, A4, Hl. split.
    + split_and!; try done. destruct H as [[Hs Ht]|(Hs & Hev & Hseen)].
      * left. split; [done|set_solver].
      * right. split; [done|]. split; [|done]. intros F. by specialize (Hev F).
    + intros Hsn. destruct H as [[Hs Ht]|(Hs & Hev & Hseen)]; [split; [done|set_solver]|].
      exfalso. specialize (Hev (Hseen Hsn)). done.
Qed.

Lemma tracked_weaken p hi t (seen seen' : Prop) woken g : (seen' → seen) →
  tracked p hi t seen woken g → tracked p hi t seen' woken g.
Proof.
  intros Hs (? & ? & ? & ? & H). split_and!; try done. destruct H as [H|(? & ? & ?)]; [by left|right].
  split_and!; auto.
Qed.

(** The wait loses nothing, whatever happens, and the handler does not panic. *)
Lemma tracked_run p hi t es : (p / 32 < ports)%nat → ∀ (seen : Prop) woken g,
  tracked p hi t seen woken g →
  ∃ woken' g', erun es (woken, g) = Done (woken', g') ∧
    tracked p hi t (seen ∨ Level p hi ∈ es) woken' g'.
Proof.
  intros Hp. unfold erun. induction es as [|e es IH]; intros seen woken g I; cbn [for_each].
  - eexists _, _. split; [done|]. eapply tracked_weaken; [|exact I]. intros [?|F%elem_of_nil]; done.
  - destruct e as [q v|]; cbn [estep].
    + destruct (IH _ _ _ (tracked_level p hi t _ woken g q v I)) as (w' & g' & E & I').
      exists w', g'. split; [exact E|]. eapply tracked_weaken; [|exact I'].
      rewrite elem_of_cons. intros [?|[[= -> ->]|?]]; tauto.
    + destruct (tracked_irq p hi t _ woken g Hp I) as (ws & g1 & E1 & I1 & _).
      rewrite E1. cbn [mbind outcome_bind]. destruct (IH _ _ _ I1) as (w' & g' & E & I').
      exists w', g'. split; [exact E|]. eapply tracked_weaken; [|exact I'].
      rewrite elem_of_cons. intros [?|[[=]|?]]; tauto.
Qed.

(** The wait begins. *)
Lemma tracked_start p hi t g : (p / 32 < length (latch g))%nat → pins_ok ports g →
  (p < length (level g))%nat → (p < PIN_COUNT ports)%nat →
  (latched g p = true → events_port g = true) →
  ∃ g1, PortInputFuture_poll p (Waker.from_task t) (wait_for hi p g) = Done (Pending, g1) ∧
    tracked p hi t (level g !! p = Some hi) [] g1.
Proof.
  intros Hl Hok Hlv Hpc Hev. pose proof Hok as (Ls & Lw & Lc & Lp).
  set (g0 := set_sense (<[p := sense_for hi]> (sense g)) g).
  assert (E0 : wait_for hi p g = detect p g0) by (by destruct hi). rewrite E0.
  assert (Hns : sense g0 !! p = Some (sense_for hi)) by (apply list_lookup_insert_eq; lia).
  assert (Hok0 : pins_ok ports g0).
  { split_and!; try done. unfold g0. simpl. by rewrite length_insert. }
  pose proof (detect_ok p g0 Hok0) as Hok1. clear E0.
  assert (H : tracked p hi t (level g !! p = Some hi) []
    (set_port_wakers (<[p := Some t]> (port_wakers g)) (detect p g0)) ∧
    sense (detect p g0) !! p = Some (sense_for hi) ∧ port_wakers (detect p g0) = port_wakers g).
  { assert (Hpw : <[p := Some t]> (port_wakers g) !! p = Some (Some t)).
    { apply list_lookup_insert_eq. exact (eq_ind_r (λ n, (p < n)%nat) Hpc Lw). }
    unfold tracked. destruct Hok1 as (K1 & K2 & K3 & K4).
    destruct (matching (default Disabled (sense g0 !! p)) (default false (level g0 !! p))) eqn:Em.
    - pose proof (detect_latched p g0 p Hl Em) as El. rewrite bool_decide_true in El by done.
      revert K1 K2 K3 K4 El. unfold detect. rewrite Em. intros. split; [|done]. split_and!; try done.
      + split_and!; try done. simpl. by rewrite length_insert.
      + simpl. by rewrite length_alter.
      + right. split_and!; try done.
    - revert K1 K2 K3 K4. unfold detect. rewrite Em. intros. split; [|done]. split_and!; try done.
      + split_and!; try done. simpl. by rewrite length_insert.
      + right. split_and!; try done. intros Hseen. rewrite Hns in Em. simpl in Em.
        by rewrite Hseen, matching_for, eqb_reflx in Em. }
  destruct H as (I & Hs & Hw). unfold PortInputFuture_poll. rewrite Hw.
  destruct (lookup_lt_is_Some_2 (port_wakers g) p ltac:(by rewrite Lw)) as [w Ew].
  rewrite Ew. eexists. split; [|exact I]. cbn. rewrite Hs. destruct w; by destruct hi.
Qed.
End waiting.

(** ** Properties *)


