(* ===== verification/GpioteTasks.v ===== *)
(** * GpioteTasks: outputs driven by tasks, and pins wired to pins

    The channels of [embassy-nrf/src/gpiote.rs] in output mode, the tasks and events they
    offer to [Ppi], and what a program gets that wires the one to the other: an edge on a
    pin that changes another pin without the processor. *)
From S2P Require Import Prelude Interrupt Sync Port NrfGpio Ppi Gpiote.
Local Open Scope Z_scope.

(** [drive] is the level each channel in task mode gives its pin. *)
Record Out : Type := mkOut { gpiote : G; drive : list bool }.

Section tasks.
(** The addresses of the registers, from the register library. *)
Context (tasks_out_reg tasks_set_reg tasks_clr_reg events_in_reg : nat → Z).

(** ** The hardware

    A task acts on a channel in task mode. *)
Definition chan_mode (ch : nat) (o : Out) : Mode := mode (default config_off (config (gpiote o) !! ch)).
Definition chan_polarity (ch : nat) (o : Out) : Polarity :=
  polarity (default config_off (config (gpiote o) !! ch)).
Definition upd_drive (ch : nat) (f : bool → bool) (o : Out) : Out :=
  match chan_mode ch o with
  | ModeTask => mkOut (gpiote o) (alter f ch (drive o))
  | _ => o
  end.
Definition hw_task_out (ch : nat) (o : Out) : Out :=
  upd_drive ch (λ v, match chan_polarity ch o with
                     | LoToHi => true | HiToLo => false | Toggle => negb v | PolNone => v
                     end) o.
Definition hw_task_set (ch : nat) (o : Out) : Out := upd_drive ch (λ _, true) o.
Definition hw_task_clr (ch : nat) (o : Out) : Out := upd_drive ch (λ _, false) o.

(** A task triggered at an address. *)
Definition trigger (t : Z) (o : Out) : Out :=
  foldl (λ o ch,
    if t =? tasks_out_reg ch then hw_task_out ch o
    else if t =? tasks_set_reg ch then hw_task_set ch o
    else if t =? tasks_clr_reg ch then hw_task_clr ch o else o) o (seq 0 CHANNEL_COUNT).

(** An edge a channel in event mode is configured for: its event is set, and routed. *)
Definition hw_edge (ch : nat) (r : Ppi.Regs) (o : Out) : Out :=
  match chan_mode ch o with
  | ModeEvent =>
      foldl (λ o t, trigger t o) (mkOut (hw_channel ch (gpiote o)) (drive o))
        (triggers (events_in_reg ch) r)
  | _ => o
  end.
Fixpoint hw_edges (n : nat) (ch : nat) (r : Ppi.Regs) (o : Out) : Out :=
  match n with O => o | S n => hw_edges n ch r (hw_edge ch r o) end.

(** ** The driver *)

(** [OutputChannel::new], with the hardware's part: the pin starts at its level. *)
Definition OutputChannel_start (num pin : nat) (high : bool) (p : OutputChannelPolarity) (o : Out)
    : Out := mkOut (OutputChannel_new num pin high p (gpiote o)) (<[num := high]> (drive o)).
Definition InputChannel_start (num pin : nat) (p : InputChannelPolarity) (o : Out) : Out :=
  mkOut (InputChannel_new num pin p (gpiote o)) (drive o).
Definition OutputChannel_drop (num : nat) (o : Out) : Out :=
  mkOut (Channel_drop num (gpiote o)) (drive o).
(** Writing a task's register triggers it. *)
Definition out (ch : nat) (o : Out) : Out := trigger (tasks_out_reg ch) o.
Definition set (ch : nat) (o : Out) : Out := trigger (tasks_set_reg ch) o.
Definition clear (ch : nat) (o : Out) : Out := trigger (tasks_clr_reg ch) o.
(** The end points for [Ppi]. *)
Definition task_out (ch : nat) : Z := tasks_out_reg ch.
Definition task_clr (ch : nat) : Z := tasks_clr_reg ch.
Definition task_set (ch : nat) : Z := tasks_set_reg ch.
Definition event_in (ch : nat) : Z := events_in_reg ch.

(** [InputPin] of the channel and of [PortInput] is that of the pin they own. *)
Definition pin_is_high (has_p1 : bool) (pin_port : Z) (r : NrfGpio.Regs) : option bool :=
  NrfGpio.is_high has_p1 pin_port r.
Definition pin_is_low (has_p1 : bool) (pin_port : Z) (r : NrfGpio.Regs) : option bool :=
  NrfGpio.is_low has_p1 pin_port r.
(** [AnyChannel]: the number as a byte. *)
Definition degrade_channel (number : nat) : Z := wrap 8 (Z.of_nat number).

(** ** Lemmas

    The registers are at different addresses, none of them 0. *)
Definition is_channel (i : nat) : Prop := (i < CHANNEL_COUNT)%nat.
Hypothesis regs_inj : ∀ i j, is_channel i → is_channel j →
  (tasks_out_reg i = tasks_out_reg j → i = j) ∧ (tasks_set_reg i = tasks_set_reg j → i = j) ∧
  (tasks_clr_reg i = tasks_clr_reg j → i = j).
Hypothesis regs_apart : ∀ i j, is_channel i → is_channel j →
  tasks_out_reg i ≠ tasks_set_reg j ∧ tasks_out_reg i ≠ tasks_clr_reg j ∧
  tasks_set_reg i ≠ tasks_clr_reg j.
Hypothesis out_nonzero : ∀ i, is_channel i → tasks_out_reg i ≠ 0.

Lemma foldl_one {A S} (f : S → A → S) (l : list A) (x : A) (s : S) :
  NoDup l → x ∈ l → (∀ s y, y ∈ l → y ≠ x → f s y = s) → foldl f s l = f s x.
Proof.
  intros Hnd Hin Ho. apply list_elem_of_split in Hin as (l1 & l2 & ->).
  apply NoDup_app in Hnd as (_ & Hd & [Hni _]%NoDup_cons).
  assert (Hid : ∀ l s, (∀ y, y ∈ l → y ∈ l1 ++ x :: l2 ∧ y ≠ x) → foldl f s l = s).
  { induction l as [|y l IH]; intros s' Hl; [done|]. simpl.
    rewrite Ho; [|apply Hl; by left..]. apply IH. intros z Hz. apply Hl. by right. }
  rewrite foldl_app. simpl. rewrite (Hid l1), (Hid l2); [done|..]; intros y Hy; split.
  - set_solver.
  - by intros ->.
  - set_solver.
  - intros ->. apply (Hd x Hy). by left.
Qed.

Lemma trigger_reg ch o : is_channel ch →
  trigger (tasks_out_reg ch) o = hw_task_out ch o ∧
  trigger (tasks_set_reg ch) o = hw_task_set ch o ∧
  trigger (tasks_clr_reg ch) o = hw_task_clr ch o.
Proof using regs_inj regs_apart out_nonzero.
  intros Hch. unfold trigger.
  assert (Hin : ch ∈ seq 0 CHANNEL_COUNT) by (unfold is_channel in Hch; apply elem_of_seq; lia).
  assert (Hs : ∀ y, y ∈ seq 0 CHANNEL_COUNT → is_channel y)
    by (intros y Hy%elem_of_seq; unfold is_channel; lia).
  assert (Hx : ∀ j, is_channel j → (tasks_out_reg ch =? tasks_set_reg j) = false ∧
    (tasks_set_reg ch =? tasks_out_reg j) = false ∧ (tasks_out_reg ch =? tasks_clr_reg j) = false ∧
    (tasks_clr_reg ch =? tasks_out_reg j) = false ∧ (tasks_set_reg ch =? tasks_clr_reg j) = false ∧
    (tasks_clr_reg ch =? tasks_set_reg j) = false).
  { intros j Hj. destruct (regs_apart ch j Hch Hj) as (A & B & C),
      (regs_apart j ch Hj Hch) as (A' & B' & C'). rewrite !Z.eqb_neq. split_and!; congruence. }
  assert (Hne : ∀ y, is_channel y → y ≠ ch → (tasks_out_reg ch =? tasks_out_reg y) = false ∧
    (tasks_set_reg ch =? tasks_set_reg y) = false ∧ (tasks_clr_reg ch =? tasks_clr_reg y) = false).
  { intros y Hy Hyc. destruct (regs_inj ch y Hch Hy) as (A & B & C). rewrite !Z.eqb_neq.
    split_and!; intros E; apply Hyc; symmetry; auto. }
  destruct (Hx ch Hch) as (X1 & X2 & X3 & X4 & X5 & X6).
  split_and!; (rewrite (foldl_one _ _ ch); [|apply NoDup_seq|done|intros s y Hy Hyc;
    destruct (Hx y (Hs y Hy)) as (Y1 & Y2 & Y3 & Y4 & Y5 & Y6);
    destruct (Hne y (Hs y Hy) Hyc) as (N1 & N2 & N3)]).
  - by rewrite Z.eqb_refl.
  - by rewrite N1, Y1, Y3.
  - by rewrite X2, Z.eqb_refl.
  - by rewrite Y2, N2, Y5.
  - by rewrite X4, X6, Z.eqb_refl.
  - by rewrite Y4, Y6, N3.
Qed.

(** The program's wiring of one channel. *)
Definition wire_ops (c e t : Z) : list PpiOp := [New c; SetEvent c e; SetTask c t; Enable c].

(** A task of another peripheral does nothing here. *)
Definition foreign (t : Z) : Prop := ∀ k, is_channel k →
  t ≠ tasks_out_reg k ∧ t ≠ tasks_set_reg k ∧ t ≠ tasks_clr_reg k.

Lemma trigger_foreign t o : foreign t → trigger t o = o.
Proof.
  intros Hf. unfold trigger. assert (H : ∀ k, k ∈ seq 0 CHANNEL_COUNT → is_channel k)
    by (intros k Hk%elem_of_seq; unfold is_channel; lia).
  revert H. generalize (seq 0 CHANNEL_COUNT). intros l. revert o.
  induction l as [|k l IH]; intros o H; [done|]. cbn [foldl].
  destruct (Hf k) as (A & B & C); [apply H; by left|].
  rewrite !(proj2 (Z.eqb_neq _ _)) by done. apply IH. intros. apply H. by right.
Qed.

Lemma triggers_foreign l o : Forall foreign l → foldl (λ o t, trigger t o) o l = o.
Proof.
  intros H. revert o. induction H as [|t l Ht _ IH]; intros o; [done|]. cbn [foldl].
  by rewrite trigger_foreign.
Qed.

(** The other channels that listen to event [e] trigger tasks of other peripherals. *)
Definition others_foreign (c e : Z) (r : Ppi.Regs) : Prop :=
  ∀ ch, 0 ≤ ch < 32 → ch ≠ c → Z.testbit (chen r) ch = true → eep r ch = e →
  Forall foreign (endpoints r ch).

Lemma wired_triggers c e t r : 0 ≤ c < 32 → t ≠ 0 → others_foreign c e r →
  ∃ l1 l2, triggers e (ppi_run (wire_ops c e t) r) = l1 ++ t :: l2 ∧
    Forall foreign l1 ∧ Forall foreign l2.
Proof.
  intros Hc Ht Hfree. unfold triggers. set (r' := ppi_run _ r).
  assert (Hs : ∀ ch, ch_state r' ch = ch_run ch (wire_ops c e t) (ch_state r ch)).
  { intros ch. apply run_state. repeat constructor; simpl; lia. }
  clearbody r'. set (f := λ ch, if Z.testbit (chen r') ch && (eep r' ch =? e) then endpoints r' ch else []).
  assert (Hf : ∀ ch, ch ∈ channels → ch ≠ c → Forall foreign (f ch)).
  { intros ch Hin Hne. unfold f. specialize (Hs ch). rewrite (ch_run_other ch _ _ c) in Hs;
      [|by repeat constructor|done].
    injection Hs as Hon Hev Ht1 Ht2. rewrite Hon, Hev.
    destruct (Z.testbit (chen r) ch) eqn:Hb, (Z.eqb_spec (eep r ch) e); try by constructor.
    assert (E : endpoints r' ch = endpoints r ch) by (unfold endpoints; by rewrite Ht1, Ht2).
    simpl. rewrite E. apply Hfree; try done.
    apply list_elem_of_fmap in Hin as (n & -> & Hn%elem_of_seq). lia. }
  assert (Hown : f c = [t]).
  { unfold f. specialize (Hs c). rewrite ch_run_own in Hs by by repeat constructor.
    simpl in Hs. injection Hs as Hon Hev Ht1 Ht2. rewrite Hon, Hev, Z.eqb_refl. simpl.
    unfold endpoints. rewrite Ht1, Ht2. rewrite filter_cons_True by done. by rewrite filter_cons_False by tauto. }
  assert (Hin : c ∈ channels).
  { apply list_elem_of_fmap. exists (Z.to_nat c). split; [lia|]. apply elem_of_seq. lia. }
  assert (Hnd : NoDup channels) by (apply (bool_decide_unpack _); vm_compute; exact I).
  clear Hs Hfree. revert Hf Hin Hnd. generalize channels. intros l Hf Hin Hnd.
  apply list_elem_of_split in Hin as (l1 & l2 & ->). apply NoDup_app in Hnd as (_ & Hd & Hnd).
  apply NoDup_cons in Hnd as [Hni _]. exists (flat_map f l1), (flat_map f l2). split.
  - rewrite flat_map_app. cbn [flat_map]. by rewrite Hown.
  - assert (Hall : ∀ l', (∀ ch, ch ∈ l' → ch ≠ c ∧ ch ∈ l1 ++ c :: l2) → Forall foreign (flat_map f l')).
    { induction l' as [|ch l' IH]; intros Hl; [constructor|]. cbn [flat_map]. apply Forall_app.
      destruct (Hl ch) as [H1 H2]; [by left|]. split; [by apply Hf|].
      apply IH. intros ch' Hch'. apply Hl. by right. }
    split; apply Hall; intros ch Hch; (split; [|set_solver]); intros ->.
    + apply (Hd c Hch). by left.
    + done.
Qed.

(** So an edge does what the wired task does. *)
Lemma fold_wired c e t r o : 0 ≤ c < 32 → t ≠ 0 → others_foreign c e r →
  foldl (λ o t, trigger t o) o (triggers e (ppi_run (wire_ops c e t) r)) = trigger t o.
Proof.
  intros Hc Ht Hf. destruct (wired_triggers c e t r Hc Ht Hf) as (l1 & l2 & -> & H1 & H2).
  rewrite foldl_app, (triggers_foreign l1) by done. cbn [foldl]. by rewrite triggers_foreign.
Qed.

(** What one OUT task does to the level. *)
Definition out_step (p : OutputChannelPolarity) (v : bool) : bool :=
  match p with OutSet => true | OutClear => false | OutToggle => negb v end.

(** Channel [j] drives a pin with polarity [p]; channel [i] listens. *)
Definition wired (i j : nat) (p : OutputChannelPolarity) (o : Out) : Prop :=
  chan_mode i o = ModeEvent ∧ chan_mode j o = ModeTask ∧ chan_polarity j o = out_polarity p.

Lemma hw_task_out_wired i j p o : wired i j p o →
  hw_task_out j o = mkOut (gpiote o) (alter (out_step p) j (drive o)).
Proof.
  intros (_ & Hm & Hp). unfold hw_task_out, upd_drive. rewrite Hm, Hp. by destruct p.
Qed.

(** An edge on the one changes the level of the other, and nothing of the processor's. *)
Lemma edge_wired i j p c r o : is_channel j → 0 ≤ c < 32 →
  others_foreign c (event_in i) r →
  wired i j p o →
  let r' := ppi_run (wire_ops c (event_in i) (task_out j)) r in
  hw_edge i r' o = mkOut (hw_channel i (gpiote o)) (alter (out_step p) j (drive o)) ∧
  wired i j p (hw_edge i r' o).
Proof using regs_inj regs_apart out_nonzero.
  intros Hj Hc Hfree Hw r'. destruct (id Hw) as (Hm & _).
  assert (He : hw_edge i r' o = mkOut (hw_channel i (gpiote o)) (alter (out_step p) j (drive o))).
  { unfold hw_edge. rewrite Hm. unfold r', event_in, task_out.
    rewrite fold_wired by auto.
    rewrite (proj1 (trigger_reg j _ Hj)).
    exact (hw_task_out_wired i j p (mkOut (hw_channel i (gpiote o)) (drive o)) Hw). }
  split; [exact He|]. by rewrite He.
Qed.

Lemma edges_wired i j p c r n : ∀ o, is_channel j → 0 ≤ c < 32 →
  others_foreign c (event_in i) r →
  wired i j p o →
  ∀ r', r' = ppi_run (wire_ops c (event_in i) (task_out j)) r →
  let o' := hw_edges n i r' o in
  drive o' = alter (Nat.iter n (out_step p)) j (drive o) ∧ inten (gpiote o') = inten (gpiote o) ∧
  config (gpiote o') = config (gpiote o).
Proof using regs_inj regs_apart out_nonzero.
  induction n as [|n IH]; intros o Hj Hc Hfree Hw r' Hr'; cbn [hw_edges Nat.iter].
  { split; [|done]. apply list_eq. intros k. destruct (decide (j = k)) as [<-|].
    - rewrite list_lookup_alter_eq. by destruct (drive o !! j).
    - by rewrite list_lookup_alter_ne. }
  destruct (edge_wired i j p c r o Hj Hc Hfree Hw) as [He Hw']. rewrite <-Hr' in He, Hw'.
  destruct (IH _ Hj Hc Hfree Hw' r' Hr') as (Hd & Hi & Hcf). rewrite Hd, Hi, Hcf, He. split; [|done].
  cbn [drive]. apply list_eq. intros k.
  destruct (decide (j = k)) as [<-|]; [|by rewrite !list_lookup_alter_ne].
  rewrite !list_lookup_alter_eq. destruct (drive o !! j) as [v|]; [|done].
  cbn [fmap option_fmap option_map]. f_equal. by rewrite <-Nat.iter_succ_r.
Qed.

(** A channel that was dropped has no tasks. *)
Lemma dropped_silent i j c r o : is_channel j → 0 ≤ c < 32 →
  (j < length (config (gpiote o)))%nat →
  others_foreign c (event_in i) r →
  let r' := ppi_run (wire_ops c (event_in i) (task_out j)) r in
  let o3 := OutputChannel_drop j o in
  chan_mode j o3 = ModeDisabled ∧ drive (hw_edge i r' o3) = drive o3.
Proof using regs_inj regs_apart out_nonzero.
  intros Hj Hc Hl Hfree r' o3. assert (Hoff : chan_mode j o3 = ModeDisabled).
  { unfold chan_mode, o3. simpl. by rewrite list_lookup_insert_eq. }
  assert (Hnone : ∀ f o', config (gpiote o') = config (gpiote o3) → upd_drive j f o' = o').
  { intros f o' Ho. unfold upd_drive, chan_mode in *. by rewrite Ho, Hoff. }
  split; [exact Hoff|].
  unfold hw_edge. destruct (chan_mode i o3); try done. unfold r', event_in, task_out.
  rewrite fold_wired by auto. rewrite (proj1 (trigger_reg j _ Hj)).
  unfold hw_task_out. by rewrite Hnone.
Qed.

(** The tasks of a channel that is not an output do nothing. *)
Lemma tasks_not_output k o : is_channel k → chan_mode k o ≠ ModeTask →
  out k o = o ∧ set k o = o ∧ clear k o = o.
Proof using regs_inj regs_apart out_nonzero.
  intros Hk Hm. unfold out, set, clear. destruct (trigger_reg k o Hk) as (-> & -> & ->).
  unfold hw_task_out, hw_task_set, hw_task_clr, upd_drive. by destruct (chan_mode k o).
Qed.

(** ** Properties *)

(** C36: A program that wires the event of an input channel to the task of an output channel:
    [n] edges set, clear or toggle the output [n] times, without an interrupt of the
    processor, and other outputs keep their level.  The other channels of the router may
    be wired in any way, except that of those that listen to the same event none triggers a
    task of the GPIOTE.  After the output channel is dropped an edge changes no level,
    and the tasks of a channel that is not an output, dropped or otherwise, never do. *)
Theorem wired_edges i j pin_i pin_j pol high p c r o n :
  is_channel i → is_channel j → i ≠ j → 0 ≤ c < 32 →
  length (config (gpiote o)) = CHANNEL_COUNT → length (drive o) = CHANNEL_COUNT →
  others_foreign c (event_in i) r →
  let r' := ppi_run (wire_ops c (event_in i) (task_out j)) r in
  let o1 := OutputChannel_start j pin_j high p (InputChannel_start i pin_i pol o) in
  let o2 := hw_edges n i r' o1 in
  drive o2 !! j = Some (Nat.iter n (out_step p) high) ∧
  (∀ k, k ≠ j → drive o2 !! k = drive o !! k) ∧ inten (gpiote o2) = inten (gpiote o) ∧
  drive (set j o2) !! j = Some true ∧ drive (clear j o2) !! j = Some false ∧
  drive (out j o2) !! j = Some (out_step p (Nat.iter n (out_step p) high)) ∧
  (let o3 := OutputChannel_drop j o2 in
   chan_mode j o3 = ModeDisabled ∧ drive (hw_edge i r' o3) = drive o3) ∧
  (∀ k o', is_channel k → chan_mode k o' ≠ ModeTask →
   out k o' = o' ∧ set k o' = o' ∧ clear k o' = o').
Proof using regs_inj regs_apart out_nonzero.
  intros Hi Hj Hij Hc Hlc Hld Hfree r' o1 o2.
  pose proof Hi as Hi'. pose proof Hj as Hj'. unfold is_channel in Hi', Hj'.
  assert (Hw : wired i j p o1).
  { unfold wired, chan_mode, chan_polarity, o1. simpl.
    rewrite list_lookup_insert_ne, !list_lookup_insert_eq; rewrite ?length_insert; try lia. done. }
  destruct (edges_wired i j p c r n o1 Hj Hc Hfree Hw r' eq_refl) as (Hd & Hin & Hcf).
  fold o2 in Hd, Hin, Hcf.
  assert (Hdj : drive o2 !! j = Some (Nat.iter n (out_step p) high)).
  { rewrite Hd, list_lookup_alter_eq. unfold o1. simpl. by rewrite list_lookup_insert_eq by lia. }
  assert (Hw2 : wired i j p o2) by (unfold wired, chan_mode, chan_polarity in *; by rewrite Hcf).
  assert (Hl2 : (j < length (config (gpiote o2)))%nat).
  { rewrite Hcf. unfold o1. simpl. rewrite !length_insert. lia. }
  pose proof (dropped_silent i j c r o2 Hj Hc Hl2 Hfree) as Hdrop. cbv zeta in *. fold r' in Hdrop.
  destruct (trigger_reg j o2 Hj) as (T1 & T2 & T3). unfold set, clear, out.
  rewrite T1, T2, T3, (hw_task_out_wired i j p o2 Hw2). unfold hw_task_set, hw_task_clr, upd_drive.
  rewrite (proj1 (proj2 Hw2)). cbn [drive]. rewrite !list_lookup_alter_eq, Hdj.
  split_and!; [done| |done|done|done|done|exact (proj1 Hdrop)|exact (proj2 Hdrop)|exact tasks_not_output].
  - intros k Hk. rewrite Hd, list_lookup_alter_ne by done. unfold o1. simpl.
    by rewrite list_lookup_insert_ne.
Qed.
End tasks.

(** The registers of the nRF52. *)
Definition reg (base : Z) (n : nat) : Z := base + 4 * Z.of_nat n.

Lemma wired_edges_witness :
  let g := mkG (replicate 8 config_off) (replicate 8 false) false 0 [0] (replicate 32 Disabled)
             (replicate 32 false) (replicate 8 None) (replicate 32 None) in
  let o := mkOut g (replicate 8 false) in
  let r := Ppi.mkRegs 32 (λ _, 0x40006100) (λ _, 0x40008000) (λ _, 0) in
  let OUT := reg 0x40006000 in let SET := reg 0x40006030 in let CLR := reg 0x40006060 in
  let IN := reg 0x40006100 in
  let r' := ppi_run (wire_ops 3 (event_in IN 0) (task_out OUT 1)) r in
  let o1 := OutputChannel_start 1 13 true OutToggle (InputChannel_start 0 11 InHiToLo o) in
  drive (hw_edges OUT SET CLR IN 3 0 r' o1) !! 1%nat = Some false.
Proof.
  intros g o r OUT SET CLR IN r' o1.
  apply (wired_edges OUT SET CLR IN
    ltac:(unfold is_channel, CHANNEL_COUNT, OUT, SET, CLR, reg; intros; split_and!; lia)
    ltac:(unfold is_channel, CHANNEL_COUNT, OUT, SET, CLR, reg; intros; split_and!; lia)
    ltac:(unfold OUT, reg; intros; lia) 0 1 11 13 InHiToLo true OutToggle 3 r o 3);
    unfold is_channel, CHANNEL_COUNT; try lia; try done.
  intros ch _ Hne _ _. apply Forall_forall. intros t.
  assert (E : endpoints r ch = [0x40008000]) by reflexivity.
  rewrite E, list_elem_of_singleton. intros -> k Hk. revert Hk.
  unfold is_channel, CHANNEL_COUNT, OUT, SET, CLR, reg. lia.
Defined.
