(* ===== verification/PpiExample.v ===== *)
(** * PpiExample: buttons and lights without the processor

    [embassy-nrf-examples/src/bin/ppi.rs]: four buttons are the inputs of GPIOTE channels
    and two lights the outputs of two more; [Ppi] routes the events of the ones to the
    tasks of the others.  [main] makes the drivers and waits for ever; what happens then is
    the hardware's doing. *)
From stdpp Require Import functions.
From S2P Require Import Prelude Interrupt Sync Port NrfGpio Ppi Gpiote GpioteTasks.
Local Open Scope Z_scope.

Section example.
Context (has_p1 : bool) (ports : nat).
Context (tasks_out_reg tasks_set_reg tasks_clr_reg events_in_reg : nat → Z).
#[local] Abbreviation hw_edge := (hw_edge tasks_out_reg tasks_set_reg tasks_clr_reg events_in_reg).
#[local] Abbreviation trigger := (trigger tasks_out_reg tasks_set_reg tasks_clr_reg).

(** ** The hardware: the level at a pin *)
Definition pin_of (c : ChannelConfig) : nat := (Z.to_nat (psel c) + if port c then 32 else 0)%nat.
Definition edge_for (p : Polarity) (from to : bool) : bool :=
  match p with
  | LoToHi => negb from && to
  | HiToLo => from && negb to
  | Toggle => xorb from to
  | PolNone => false
  end.
Definition listens (pin : nat) (from to : bool) (c : ChannelConfig) : bool :=
  match mode c with
  | ModeEvent => (pin_of c =? pin)%nat && edge_for (polarity c) from to
  | _ => false
  end.
Definition level_at (pin : nat) (o : Out) : bool := default false (level (gpiote o) !! pin).
Definition set_level (pin : nat) (b : bool) (o : Out) : Out :=
  mkOut (Gpiote.hw_level pin b (gpiote o)) (drive o).
Definition hearing (pin : nat) (from to : bool) (o : Out) : list nat :=
  filter (λ ch, listens pin from to (default config_off (config (gpiote o) !! ch)) = true)
    (seq 0 CHANNEL_COUNT).
Definition pin_level (pin : nat) (b : bool) (r : Ppi.Regs) (o : Out) : Out :=
  foldl (λ o' ch, hw_edge ch r o') (set_level pin b o) (hearing pin (level_at pin o) b o).
Fixpoint pin_levels (ls : list (nat * bool)) (r : Ppi.Regs) (o : Out) : Out :=
  match ls with [] => o | (pin, b) :: ls' => pin_levels ls' r (pin_level pin b r o) end.

(** ** [main] *)
Definition P0_11 : nat := 11.
Definition P0_12 : nat := 12.
Definition P0_24 : nat := 24.
Definition P0_25 : nat := 25.
Definition P0_13 : nat := 13.
Definition P0_14 : nat := 14.

Definition button1 : nat := 0.
Definition button2 : nat := 1.
Definition button3 : nat := 2.
Definition button4 : nat := 3.
Definition led1 : nat := 4.
Definition led2 : nat := 5.

Definition channels_of_main (o : Out) : Out :=
  let o := InputChannel_start button1 P0_11 InHiToLo o in
  let o := InputChannel_start button2 P0_12 InHiToLo o in
  let o := InputChannel_start button3 P0_24 InHiToLo o in
  let o := InputChannel_start button4 P0_25 InHiToLo o in
  let o := OutputChannel_start led1 P0_13 false OutToggle o in
  OutputChannel_start led2 P0_14 false OutToggle o.
Definition ppi_of_main : list PpiOp :=
  [New 0; SetEvent 0 (event_in events_in_reg button1); SetTask 0 (task_out tasks_out_reg led1);
   Enable 0;
   New 1; SetEvent 1 (event_in events_in_reg button2); SetTask 1 (task_clr tasks_clr_reg led1);
   Enable 1;
   New 2; SetEvent 2 (event_in events_in_reg button3); SetTask 2 (task_set tasks_set_reg led1);
   Enable 2;
   New 3; SetEvent 3 (event_in events_in_reg button4); SetTask 3 (task_out tasks_out_reg led1);
   SetFork 3 (task_out tasks_out_reg led2); Enable 3].
Definition pins_of_main : list GOp :=
  [NewInput 11 PullUp; NewInput 12 PullUp; NewInput 24 PullUp; NewInput 25 PullUp;
   NewOutput 13 NrfGpio.Low Standard; NewOutput 14 NrfGpio.Low Standard].
(** Each channel is made after its pin, whose registers are others. *)
Definition main {H} (on_irq : H) (irq : Irq H) (pins : NrfGpio.Regs) (o : Out) (r : Ppi.Regs)
    : option (NrfGpio.Regs * Out * Ppi.Regs * Irq H) :=
  let '(g, irq) := initialize ports on_irq (gpiote o) irq in
  pins ← grun has_p1 pins_of_main pins;
  Some (pins, channels_of_main (mkOut g (drive o)), ppi_run ppi_of_main r, irq).

(** ** What it is for

    The levels of the two outputs; a light is on when its output is low.  The first
    button toggles the first light, the second turns it on and the third off, the fourth
    toggles both. *)
Definition act (i : nat) (l : bool * bool) : bool * bool :=
  let '(l1, l2) := l in
  match i with
  | 0%nat => (negb l1, l2)
  | 1%nat => (false, l2)
  | 2%nat => (true, l2)
  | _ => (negb l1, negb l2)
  end.
Definition button_at (pin : nat) : option nat :=
  if (pin =? P0_11)%nat then Some button1 else if (pin =? P0_12)%nat then Some button2
  else if (pin =? P0_24)%nat then Some button3 else if (pin =? P0_25)%nat then Some button4
  else None.
(** A button is pressed when its pin falls; [lv] are the levels of the pins. *)
Definition press (pin : nat) (b : bool) (lv : list bool) (l : bool * bool) : bool * bool :=
  match button_at pin with
  | Some i => if default false (lv !! pin) && negb b then act i l else l
  | None => l
  end.
Fixpoint presses (ls : list (nat * bool)) (lv : list bool) (l : bool * bool) : bool * bool :=
  match ls with
  | [] => l
  | (pin, b) :: ls' => presses ls' (<[pin := b]> lv) (press pin b lv l)
  end.

(** ** Proofs *)
Hypothesis regs_inj : ∀ i j, is_channel i → is_channel j →
  (tasks_out_reg i = tasks_out_reg j → i = j) ∧ (tasks_set_reg i = tasks_set_reg j → i = j) ∧
  (tasks_clr_reg i = tasks_clr_reg j → i = j).
Hypothesis regs_apart : ∀ i j, is_channel i → is_channel j →
  tasks_out_reg i ≠ tasks_set_reg j ∧ tasks_out_reg i ≠ tasks_clr_reg j ∧
  tasks_set_reg i ≠ tasks_clr_reg j.
Hypothesis regs_nonzero : ∀ i, is_channel i →
  tasks_out_reg i ≠ 0 ∧ tasks_set_reg i ≠ 0 ∧ tasks_clr_reg i ≠ 0.
Hypothesis events_inj : ∀ i j, is_channel i → is_channel j → events_in_reg i = events_in_reg j → i = j.

(** The tasks an event of a button triggers. *)
Definition tasks_of (i : nat) : list Z :=
  match i with
  | 0%nat => [tasks_out_reg led1]
  | 1%nat => [tasks_clr_reg led1]
  | 2%nat => [tasks_set_reg led1]
  | _ => [tasks_out_reg led1; tasks_out_reg led2]
  end.

Lemma endpoints_of r ch t1 t2 : tep r ch = t1 → fork r ch = t2 → t1 ≠ 0 →
  endpoints r ch = t1 :: if decide (t2 = 0) then [] else [t2].
Proof using.
  intros H1 H2 Hn. unfold endpoints. rewrite H1, H2, filter_cons_True by exact Hn.
  destruct (decide (t2 = 0)) as [E|E].
  - by rewrite filter_cons_False by (intros Hf; exact (Hf E)).
  - by rewrite filter_cons_True by exact E.
Qed.
(** One channel's operations, among those of [main]. *)
Lemma ch_run_filter ch ops : ∀ s,
  ch_run ch ops s = foldl (λ s op, ch_step op s) s (filter (λ op, ch_of op = ch) ops).
Proof using.
  unfold ch_run. induction ops as [|op ops IH]; intros s; [done|]. cbn [foldl]. rewrite IH.
  destruct (decide (ch_of op = ch)); by rewrite ?filter_cons_True, ?filter_cons_False by done.
Qed.
Definition ops_of (i : nat) : list PpiOp :=
  let ch := Z.of_nat i in
  [New ch; SetEvent ch (events_in_reg i);
   SetTask ch (match i with 1%nat => tasks_clr_reg led1 | 2%nat => tasks_set_reg led1
               | _ => tasks_out_reg led1 end)] ++
  match i with 3%nat => [SetFork ch (tasks_out_reg led2)] | _ => [] end ++ [Enable ch].
Lemma main_state r ch :
  ch_state (ppi_run ppi_of_main r) ch =
    foldl (λ s op, ch_step op s) (ch_state r ch) (filter (λ op, ch_of op = ch) ppi_of_main).
Proof using. rewrite run_state, ch_run_filter; [done|]. repeat constructor; simpl; lia. Qed.
Lemma main_channel r i : (i < 4)%nat → let r' := ppi_run ppi_of_main r in
  Z.testbit (chen r') (Z.of_nat i) = true ∧ eep r' (Z.of_nat i) = events_in_reg i ∧
  endpoints r' (Z.of_nat i) = tasks_of i.
Proof using regs_nonzero.
  intros Hi r'. pose proof (main_state r (Z.of_nat i)) as Hs. fold r' in Hs. clearbody r'.
  assert (Hled : is_channel led1 ∧ is_channel led2)
    by (unfold is_channel, led1, led2, CHANNEL_COUNT; lia).
  destruct (regs_nonzero led1 (proj1 Hled)) as (N1 & N2 & N3).
  destruct (regs_nonzero led2 (proj2 Hled)) as (N4 & _).
  assert (Hf : filter (λ op, ch_of op = Z.of_nat i) ppi_of_main = ops_of i).
  { clear - Hi. destruct i as [|[|[|[|]]]]; [reflexivity..|lia]. }
  rewrite Hf in Hs. clear Hf.
  assert (Hi4 : i = 0%nat ∨ i = 1%nat ∨ i = 2%nat ∨ i = 3%nat) by (clear - Hi; lia).
  destruct Hi4 as [-> | [-> | [-> | ->]]]; injection Hs as Hon Hev H1 H2;
    (split; [exact Hon|]; split; [exact Hev|]);
    rewrite (endpoints_of _ _ _ _ H1 H2) by assumption;
    [by rewrite decide_True by reflexivity..|by rewrite decide_False by exact N4].
Qed.
Lemma main_off r ch : chen r = 0 → ch ∈ Z.of_nat <$> seq 4 28 →
  Z.testbit (chen (ppi_run ppi_of_main r)) ch = false.
Proof using.
  intros Hr (n & -> & Hn%elem_of_seq)%list_elem_of_fmap.
  pose proof (main_state r (Z.of_nat n)) as Hs.
  assert (Hf : filter (λ op, ch_of op = Z.of_nat n) ppi_of_main = []).
  { clear - Hn. unfold ppi_of_main.
    repeat (rewrite filter_cons_False by (cbn; lia)). done. }
  rewrite Hf in Hs. etransitivity; [exact (f_equal on Hs)|].
  cbn [foldl on ch_state]. by rewrite Hr, Z.bits_0.
Qed.

Lemma main_triggers i r : (i < 4)%nat → chen r = 0 →
  triggers (events_in_reg i) (ppi_run ppi_of_main r) = tasks_of i.
Proof using regs_nonzero events_inj.
  intros Hi Hr. unfold triggers.
  set (f := λ ch, if _ && _ then _ else _).
  assert (Hf : ∀ k, (k < 4)%nat → f (Z.of_nat k) = if decide (k = i) then tasks_of i else []).
  { intros k Hk. destruct (main_channel r k Hk) as (H1 & H2 & H3). unfold f. rewrite H1, H2, H3.
    destruct (decide (k = i)) as [->|Hne]; [by rewrite Z.eqb_refl|]. simpl.
    destruct (Z.eqb_spec (events_in_reg k) (events_in_reg i)) as [E|]; [|done]. destruct Hne.
    apply events_inj; [unfold is_channel, CHANNEL_COUNT; lia..|done]. }
  assert (Ho : flat_map f (Z.of_nat <$> seq 4 28) = []).
  { assert (H : ∀ l, (∀ ch, ch ∈ l → f ch = []) → flat_map f l = []).
    { induction l as [|ch l IH]; intros Hl; [done|]. simpl. rewrite Hl by (by left).
      apply IH. intros ch' Hch. apply Hl. by right. }
    apply H. intros ch Hch. unfold f. by rewrite main_off. }
  change channels with ([Z.of_nat 0; Z.of_nat 1; Z.of_nat 2; Z.of_nat 3] ++ (Z.of_nat <$> seq 4 28)).
  rewrite flat_map_app, Ho, app_nil_r. cbn [flat_map]. rewrite !Hf by lia.
  destruct i as [|[|[|[|]]]]; [done..|lia].
Qed.

(** Tasks change what is driven and nothing else. *)
Lemma upd_drive_gpiote ch f o : gpiote (upd_drive ch f o) = gpiote o.
Proof using. unfold upd_drive. by destruct (chan_mode ch o). Qed.
Lemma trigger_gpiote t o : gpiote (trigger t o) = gpiote o.
Proof using.
  unfold GpioteTasks.trigger. generalize (seq 0 CHANNEL_COUNT) as l. intros l. revert o.
  induction l as [|ch l IH]; intros o; [done|]. cbn [foldl]. rewrite IH.
  unfold hw_task_out, hw_task_set, hw_task_clr.
  repeat match goal with |- context [if ?b then _ else _] => destruct b end;
    by rewrite ?upd_drive_gpiote.
Qed.
Lemma triggers_gpiote l : ∀ o, gpiote (foldl (λ o t, trigger t o) o l) = gpiote o.
Proof using.
  induction l as [|t l IH]; intros o; [done|]. cbn [foldl]. by rewrite IH, trigger_gpiote.
Qed.

(** The channels as [main] leaves them. *)
Definition in_config (pin : Z) : ChannelConfig := mkConfig ModeEvent HiToLo false false pin.
Definition main_config : list ChannelConfig :=
  [in_config 11; in_config 12; in_config 24; in_config 25;
   mkConfig ModeTask Toggle false false 13; mkConfig ModeTask Toggle false false 14;
   config_off; config_off].
Definition set_up (o : Out) : Prop := config (gpiote o) = main_config.

Lemma trigger_led o : set_up o →
  trigger (tasks_out_reg led1) o = mkOut (gpiote o) (alter negb 4%nat (drive o)) ∧
  trigger (tasks_set_reg led1) o = mkOut (gpiote o) (alter (λ _, true) 4%nat (drive o)) ∧
  trigger (tasks_clr_reg led1) o = mkOut (gpiote o) (alter (λ _, false) 4%nat (drive o)) ∧
  trigger (tasks_out_reg led2) o = mkOut (gpiote o) (alter negb 5%nat (drive o)).
Proof using regs_inj regs_apart regs_nonzero.
  intros Hs. assert (Hn : ∀ i, is_channel i → tasks_out_reg i ≠ 0) by (intros i Hi; apply (regs_nonzero i Hi)).
  assert (Hled : is_channel led1 ∧ is_channel led2)
    by (unfold is_channel, led1, led2, CHANNEL_COUNT; lia).
  destruct (trigger_reg _ _ _ regs_inj regs_apart Hn led1 o (proj1 Hled)) as (-> & -> & ->).
  destruct (trigger_reg _ _ _ regs_inj regs_apart Hn led2 o (proj2 Hled)) as (-> & _).
  unfold hw_task_out, hw_task_set, hw_task_clr, upd_drive, chan_mode, chan_polarity.
  unfold set_up in Hs. rewrite Hs. done.
Qed.

(** The levels of the two outputs. *)
Definition lights (o : Out) (l : bool * bool) : Prop :=
  drive o !! 4%nat = Some (fst l) ∧ drive o !! 5%nat = Some (snd l).

Lemma lights_alter o l f g : lights o l →
  lights (mkOut g (alter f 4%nat (drive o))) (f (fst l), snd l) ∧
  lights (mkOut g (alter f 5%nat (drive o))) (fst l, f (snd l)).
Proof using.
  intros [H1 H2]. unfold lights. cbn [drive fst snd].
  rewrite !list_lookup_alter_eq, !list_lookup_alter_ne, H1, H2 by done. done.
Qed.

(** A button's event. *)
Lemma edge_button i r o l : (i < 4)%nat → chen r = 0 → set_up o → lights o l →
  let o' := hw_edge i (ppi_run ppi_of_main r) o in
  gpiote o' = hw_channel i (gpiote o) ∧ lights o' (act i l).
Proof using regs_inj regs_apart regs_nonzero events_inj.
  intros Hi Hr Hs Hl o'. assert (Hm : chan_mode i o = ModeEvent).
  { unfold chan_mode. rewrite Hs. destruct i as [|[|[|[|]]]]; [done..|lia]. }
  unfold o', GpioteTasks.hw_edge. rewrite Hm, main_triggers by done.
  rewrite triggers_gpiote. split; [done|].
  set (o1 := mkOut (hw_channel i (gpiote o)) (drive o)).
  assert (Hs1 : set_up o1) by done. assert (Hl1 : lights o1 l) by done. clearbody o1.
  destruct (trigger_led o1 Hs1) as (T1 & T2 & T3 & _).
  destruct l as [l1 l2]. destruct i as [|[|[|[|]]]]; [..|lia]; cbn [tasks_of foldl act].
  - rewrite T1. exact (proj1 (lights_alter o1 _ negb _ Hl1)).
  - rewrite T3. exact (proj1 (lights_alter o1 _ (λ _, false) _ Hl1)).
  - rewrite T2. exact (proj1 (lights_alter o1 _ (λ _, true) _ Hl1)).
  - rewrite T1. set (o2 := mkOut _ _).
    destruct (trigger_led o2 Hs1) as (_ & _ & _ & ->).
    destruct (lights_alter o1 _ negb (gpiote o1) Hl1) as [Hl2 _].
    exact (proj2 (lights_alter o2 _ negb (gpiote o2) Hl2)).
Qed.

(** Which channel listens. *)
Ltac each_channel Hin := cbn in Hin; set_unfold in Hin; destruct_or! Hin; subst.
Lemma listens_button pin from b ch : (ch < CHANNEL_COUNT)%nat →
  listens pin from b (default config_off (main_config !! ch)) =
    (bool_decide (button_at pin = Some ch) && (from && negb b)).
Proof using.
  intros Hch. assert (Hin : ch ∈ seq 0 CHANNEL_COUNT) by (apply elem_of_seq; lia). clear Hch.
  unfold button_at, P0_11, P0_12, P0_24, P0_25.
  destruct (Nat.eqb_spec pin 11) as [->|N1]; [each_channel Hin; by destruct from, b|].
  destruct (Nat.eqb_spec pin 12) as [->|N2]; [each_channel Hin; by destruct from, b|].
  destruct (Nat.eqb_spec pin 24) as [->|N3]; [each_channel Hin; by destruct from, b|].
  destruct (Nat.eqb_spec pin 25) as [->|N4]; [each_channel Hin; by destruct from, b|].
  each_channel Hin; try done; cbn -[Nat.eqb];
    by rewrite (proj2 (Nat.eqb_neq _ pin)).
Qed.

Lemma hw_level_frame pin b g : let g' := Gpiote.hw_level pin b g in
  config g' = config g ∧ inten g' = inten g ∧ level g' = <[pin := b]> (level g).
Proof using. unfold Gpiote.hw_level, detect. by destruct (matching _ _). Qed.

Lemma button_at_channel pin i : button_at pin = Some i → (i < 4)%nat.
Proof using.
  clear regs_inj regs_apart regs_nonzero events_inj. unfold button_at.
  repeat (destruct (_ =? _)%nat;
    [intros [= <-]; unfold button1, button2, button3, button4; lia|]). done.
Qed.

Lemma hearing_button pin from b o : set_up o →
  hearing pin from b o =
    match button_at pin with Some i => if from && negb b then [i] else [] | None => [] end.
Proof using.
  intros Hs. unfold hearing. rewrite Hs. etransitivity.
  { apply (filter_ext_in _ (λ ch, bool_decide (button_at pin = Some ch) && (from && negb b) = true)).
    intros ch Hch%elem_of_seq. rewrite listens_button; [done|apply Hch]. }
  destruct (button_at pin) as [i|] eqn:Hb; [|done]. apply button_at_channel in Hb.
  destruct i as [|[|[|[|]]]]; [destruct (from && negb b); done..|]. clear - Hb. lia.
Qed.

(** A routing that does to the lights what the buttons are for. *)
Definition routed (r : Ppi.Regs) : Prop := ∀ i o l, (i < 4)%nat → set_up o → lights o l →
  gpiote (hw_edge i r o) = hw_channel i (gpiote o) ∧ lights (hw_edge i r o) (act i l).

Lemma level_button pin b r o l : routed r → set_up o → lights o l →
  let o' := pin_level pin b r o in
  set_up o' ∧ lights o' (press pin b (level (gpiote o)) l) ∧
  level (gpiote o') = <[pin := b]> (level (gpiote o)) ∧ inten (gpiote o') = inten (gpiote o).
Proof using.
  clear regs_inj regs_apart regs_nonzero events_inj.
  intros Hr Hs Hl. destruct (hw_level_frame pin b (gpiote o)) as (F1 & F2 & F3).
  assert (Hs1 : set_up (set_level pin b o)) by (unfold set_up, set_level; cbn; by rewrite F1).
  assert (Hl1 : lights (set_level pin b o) l) by exact Hl.
  unfold press. fold (level_at pin o). unfold pin_level. rewrite hearing_button by done.
  destruct (button_at pin) as [i|] eqn:Hb; [|by split_and!].
  destruct (level_at pin o && negb b); [|by split_and!]. cbn [foldl].
  destruct (Hr i _ l (button_at_channel _ _ Hb) Hs1 Hl1) as [Hg Hl2].
  unfold set_up. rewrite Hg. split; [exact Hs1|]. split; [exact Hl2|]. split; [exact F3|exact F2].
Qed.

Lemma levels_buttons ls : ∀ r o l, routed r → set_up o → lights o l →
  let o' := pin_levels ls r o in
  lights o' (presses ls (level (gpiote o)) l) ∧ inten (gpiote o') = inten (gpiote o).
Proof using.
  induction ls as [|[pin b] ls IH]; intros r o l Hr Hs Hl; [done|].
  pose proof (level_button pin b r o l Hr Hs Hl) as Hb. cbv zeta in Hb.
  cbn [pin_levels presses]. revert Hb. generalize (pin_level pin b r o) as o1.
  intros o1 (Hs1 & Hl1 & Hlv & Hi). rewrite <-Hlv, <-Hi. by apply IH.
Qed.

Lemma main_routed r : chen r = 0 → routed (ppi_run ppi_of_main r).
Proof using regs_inj regs_apart regs_nonzero events_inj.
  intros Hr i o l Hi Hs Hl. exact (edge_button i r o l Hi Hr Hs Hl).
Qed.

(** [initialize] keeps the channels, the levels and the mask of the channels. *)
Lemma initialize_frame {H} (on_irq : H) g irq : let g' := fst (initialize ports on_irq g irq) in
  config g' = config g ∧ level g' = level g ∧ inten g' = Z.lor (inten g) (Z.shiftl 1 31).
Proof using.
  unfold initialize. cbn [fst]. generalize (seq 0 ports) as l. intros l. revert g.
  induction l as [|i l IH]; intros g; [done|]. cbn [foldl].
  destruct (IH (write_latch i 0xFFFFFFFF g)) as (H1 & H2 & H3). cbn in *.
  rewrite H1, H2, H3. unfold write_latch. by destruct (_ =? _).
Qed.

(** The pins. *)
Lemma main_pins r : ∃ r', grun has_p1 pins_of_main r = Some r' ∧
  Forall (λ p, NrfGpio.cnf (NrfGpio.abs r' p) = mkCnf false true PullUp S0S1 false) [11; 12; 24; 25] ∧
  Forall (λ p, NrfGpio.cnf (NrfGpio.abs r' p) = mkCnf true false PullNone S0S1 false ∧ lvl (abs r' p) = false) [13; 14].
Proof using.
  clear regs_inj regs_apart regs_nonzero events_inj.
  destruct (grun_spec has_p1 pins_of_main r) as (r' & Hr & Ha).
  { unfold exists_pin. destruct has_p1; repeat constructor; simpl; lia. }
  exists r'. split; [exact Hr|].
  assert (He : ∀ q, 0 ≤ q < 32 → exists_pin has_p1 q) by (unfold exists_pin; destruct has_p1; lia).
  repeat constructor; rewrite Ha by (apply He; lia); reflexivity.
Qed.

(** ** Property *)

(** The example does what it says: from reset, it makes the buttons' pins inputs that are
    pulled up and the lights' outputs, and then, whatever happens to the levels of the
    pins, the outputs of the lights are what the presses of the buttons make of them (both
    start low, that is, on), and no channel interrupts the processor. *)
Theorem ppi_example {H} (on_irq : H) irq pins o r ls :
  chen r = 0 → config (gpiote o) = replicate CHANNEL_COUNT config_off →
  length (drive o) = CHANNEL_COUNT → inten (gpiote o) = 0 →
  ∃ pins' o1 r1 irq', main on_irq irq pins o r = Some (pins', o1, r1, irq') ∧
    Forall (λ p, NrfGpio.cnf (NrfGpio.abs pins' p) = mkCnf false true PullUp S0S1 false) [11; 12; 24; 25] ∧
    Forall (λ p, NrfGpio.cnf (NrfGpio.abs pins' p) = mkCnf true false PullNone S0S1 false ∧
                 lvl (abs pins' p) = false) [13; 14] ∧
    let o2 := pin_levels ls r1 o1 in
    let '(l1, l2) := presses ls (level (gpiote o)) (false, false) in
    drive o2 !! led1 = Some l1 ∧ drive o2 !! led2 = Some l2 ∧
    ∀ ch, is_channel ch → Z.testbit (inten (gpiote o2)) (Z.of_nat ch) = false.
Proof using regs_inj regs_apart regs_nonzero events_inj.
  intros Hr Hc Hd Hn. unfold main.
  destruct (initialize_frame on_irq (gpiote o) irq) as (C & L & I).
  destruct (initialize ports on_irq (gpiote o) irq) as [g irq']. cbn [fst] in *.
  destruct (main_pins pins) as (pins' & -> & P1 & P2). cbn [mbind option_bind].
  eexists _, _, _, _. split; [reflexivity|]. split; [exact P1|]. split; [exact P2|].
  assert (Hs : set_up (channels_of_main (mkOut g (drive o)))).
  { unfold set_up. cbn -[replicate]. rewrite C, Hc. reflexivity. }
  assert (Hl : lights (channels_of_main (mkOut g (drive o))) (false, false)).
  { unfold lights. cbn. unfold led1, led2, CHANNEL_COUNT in *.
    split; [rewrite list_lookup_insert_ne by done|];
      apply list_lookup_insert_eq; rewrite ?length_insert, Hd; lia. }
  destruct (levels_buttons ls _ _ _ (main_routed r Hr) Hs Hl) as [[H1 H2] H3].
  assert (Hlv : level (gpiote (channels_of_main (mkOut g (drive o)))) = level (gpiote o)) by exact L.
  rewrite Hlv in *. destruct (presses ls _ _) as [l1 l2]. split; [exact H1|]. split; [exact H2|].
  intros ch Hch. rewrite H3. cbn. rewrite I, Hn, Z.lor_0_l, Z.shiftl_spec by lia.
  unfold is_channel, CHANNEL_COUNT in Hch.
  rewrite Z.testbit_neg_r by lia. done.
Qed.
End example.

(** Two presses of the first button, one of the second, and one of the fourth while the
    third is held. *)
Lemma ppi_example_witness :
  let g := mkG (replicate 8 config_off) (replicate 8 false) false 0 [0] (replicate 32 Disabled)
             (replicate 32 true) (replicate 8 None) (replicate 32 None) in
  let o := mkOut g (replicate 8 false) in
  let r := Ppi.mkRegs 0 (λ _, 0) (λ _, 0) (λ _, 0) in
  let OUT := reg 0x40006000 in let SET := reg 0x40006030 in let CLR := reg 0x40006060 in
  let IN := reg 0x40006100 in
  let ls := [(11, false); (11, true); (11, false); (12, false); (24, false); (25, false)]%nat in
  ∃ pins' o1 r1 irq', main false 1 OUT SET CLR IN tt Irq_new NrfGpio.Regs_reset o r
      = Some (pins', o1, r1, irq') ∧
    drive (pin_levels OUT SET CLR IN ls r1 o1) !! 4%nat = Some false ∧
    drive (pin_levels OUT SET CLR IN ls r1 o1) !! 5%nat = Some true.
Proof.
  intros g o r OUT SET CLR IN ls.
  destruct (ppi_example false 1 OUT SET CLR IN
    ltac:(unfold is_channel, CHANNEL_COUNT, OUT, SET, CLR, reg; intros; split_and!; lia)
    ltac:(unfold is_channel, CHANNEL_COUNT, OUT, SET, CLR, reg; intros; split_and!; lia)
    ltac:(unfold OUT, SET, CLR, reg; intros; split_and!; lia)
    ltac:(unfold IN, reg; intros; lia) tt Irq_new NrfGpio.Regs_reset o r ls eq_refl eq_refl eq_refl eq_refl)
    as (pins' & o1 & r1 & irq' & E & _ & _ & E1 & E2 & _).
  exists pins', o1, r1, irq'. split; [exact E|]. split; [exact E1|exact E2].
Defined.
