(* ===== verification/Peripherals.v ===== *)
(** * Peripherals: what the chips of embassy-nrf and embassy-rp have

    The declarations of [interrupt.rs] and [lib.rs] of both crates, the instances the
    drivers give interrupts to, and [Peripherals::take] of the macros in
    [embassy-extras/src/macros.rs], which hand the singletons out once. *)
From S2P Require Import Prelude EasyDma NrfGpio Ppi Gpiote RpGpio Rp.
From stdpp Require Import strings pretty.
Local Open Scope string_scope.
Local Open Scope list_scope.

#[export] Instance Chip_eq_dec : EqDecision Chip.
Proof. solve_decision. Defined.
Definition all_chips : list Chip := [C52810; C52811; C52832; C52833; C52840].

(** ** [declare!] of interrupt.rs, one module [irqs] per chip *)
Definition irqs_52810 : list string :=
  ["POWER_CLOCK"; "RADIO"; "UARTE0_UART0"; "TWIM0_TWIS0_TWI0"; "SPIM0_SPIS0_SPI0"; "GPIOTE";
   "SAADC"; "TIMER0"; "TIMER1"; "TIMER2"; "RTC0"; "TEMP"; "RNG"; "ECB"; "CCM_AAR"; "WDT";
   "RTC1"; "QDEC"; "COMP"; "SWI0_EGU0"; "SWI1_EGU1"; "SWI2"; "SWI3"; "SWI4"; "SWI5"; "PWM0";
   "PDM"].
Definition irqs_52811 : list string :=
  ["POWER_CLOCK"; "RADIO"; "UARTE0_UART0"; "TWIM0_TWIS0_TWI0_SPIM1_SPIS1_SPI1";
   "SPIM0_SPIS0_SPI0"; "GPIOTE"; "SAADC"; "TIMER0"; "TIMER1"; "TIMER2"; "RTC0"; "TEMP"; "RNG";
   "ECB"; "CCM_AAR"; "WDT"; "RTC1"; "QDEC"; "COMP"; "SWI0_EGU0"; "SWI1_EGU1"; "SWI2"; "SWI3";
   "SWI4"; "SWI5"; "PWM0"; "PDM"].
Definition irqs_52832 : list string :=
  ["POWER_CLOCK"; "RADIO"; "UARTE0_UART0"; "SPIM0_SPIS0_TWIM0_TWIS0_SPI0_TWI0";
   "SPIM1_SPIS1_TWIM1_TWIS1_SPI1_TWI1"; "NFCT"; "GPIOTE"; "SAADC"; "TIMER0"; "TIMER1";
   "TIMER2"; "RTC0"; "TEMP"; "RNG"; "ECB"; "CCM_AAR"; "WDT"; "RTC1"; "QDEC"; "COMP_LPCOMP";
   "SWI0_EGU0"; "SWI1_EGU1"; "SWI2_EGU2"; "SWI3_EGU3"; "SWI4_EGU4"; "SWI5_EGU5"; "TIMER3";
   "TIMER4"; "PWM0"; "PDM"; "MWU"; "PWM1"; "PWM2"; "SPIM2_SPIS2_SPI2"; "RTC2"; "I2S"; "FPU"].
Definition irqs_52833 : list string :=
  ["POWER_CLOCK"; "RADIO"; "UARTE0_UART0"; "SPIM0_SPIS0_TWIM0_TWIS0_SPI0_TWI0";
   "SPIM1_SPIS1_TWIM1_TWIS1_SPI1_TWI1"; "NFCT"; "GPIOTE"; "SAADC"; "TIMER0"; "TIMER1";
   "TIMER2"; "RTC0"; "TEMP"; "RNG"; "ECB"; "CCM_AAR"; "WDT"; "RTC1"; "QDEC"; "COMP_LPCOMP";
   "SWI0_EGU0"; "SWI1_EGU1"; "SWI2_EGU2"; "SWI3_EGU3"; "SWI4_EGU4"; "SWI5_EGU5"; "TIMER3";
   "TIMER4"; "PWM0"; "PDM"; "MWU"; "PWM1"; "PWM2"; "SPIM2_SPIS2_SPI2"; "RTC2"; "I2S"; "FPU";
   "USBD"; "UARTE1"; "PWM3"; "SPIM3"].
Definition irqs_52840 : list string :=
  ["POWER_CLOCK"; "RADIO"; "UARTE0_UART0"; "SPIM0_SPIS0_TWIM0_TWIS0_SPI0_TWI0";
   "SPIM1_SPIS1_TWIM1_TWIS1_SPI1_TWI1"; "NFCT"; "GPIOTE"; "SAADC"; "TIMER0"; "TIMER1";
   "TIMER2"; "RTC0"; "TEMP"; "RNG"; "ECB"; "CCM_AAR"; "WDT"; "RTC1"; "QDEC"; "COMP_LPCOMP";
   "SWI0_EGU0"; "SWI1_EGU1"; "SWI2_EGU2"; "SWI3_EGU3"; "SWI4_EGU4"; "SWI5_EGU5"; "TIMER3";
   "TIMER4"; "PWM0"; "PDM"; "MWU"; "PWM1"; "PWM2"; "SPIM2_SPIS2_SPI2"; "RTC2"; "I2S"; "FPU";
   "USBD"; "UARTE1"; "QSPI"; "CRYPTOCELL"; "PWM3"; "SPIM3"].
Definition declared (c : Chip) : list string :=
  match c with
  | C52810 => irqs_52810 | C52811 => irqs_52811 | C52832 => irqs_52832
  | C52833 => irqs_52833 | C52840 => irqs_52840
  end.

(** ** [peripherals!] of lib.rs

    Each name with the chips of its attribute; the features 51 and 9160 the
    attributes also name are not features of the crate. *)
Definition ext : list Chip := [C52832; C52833; C52840].
Definition big : list Chip := [C52833; C52840].

Definition devices : list (string * list Chip) :=
  [("RTC0", all_chips); ("RTC1", all_chips); ("RTC2", ext); ("QSPI", [C52840]);
   ("UARTE0", all_chips); ("UARTE1", big); ("SPIM0", all_chips); ("SPIM1", ext);
   ("SPIM2", ext); ("SPIM3", big); ("SAADC", all_chips); ("TIMER0", all_chips);
   ("TIMER1", all_chips); ("TIMER2", all_chips); ("TIMER3", ext); ("TIMER4", ext);
   ("GPIOTE", all_chips)].
Definition channel_peripherals : list (string * list Chip) :=
  [("GPIOTE_CH0", all_chips); ("GPIOTE_CH1", all_chips); ("GPIOTE_CH2", all_chips);
   ("GPIOTE_CH3", all_chips); ("GPIOTE_CH4", all_chips); ("GPIOTE_CH5", all_chips);
   ("GPIOTE_CH6", all_chips); ("GPIOTE_CH7", all_chips); ("PPI_CH0", all_chips);
   ("PPI_CH1", all_chips); ("PPI_CH2", all_chips); ("PPI_CH3", all_chips);
   ("PPI_CH4", all_chips); ("PPI_CH5", all_chips); ("PPI_CH6", all_chips);
   ("PPI_CH7", all_chips); ("PPI_CH8", all_chips); ("PPI_CH9", all_chips);
   ("PPI_CH10", all_chips); ("PPI_CH11", all_chips); ("PPI_CH12", all_chips);
   ("PPI_CH13", all_chips); ("PPI_CH14", all_chips); ("PPI_CH15", all_chips);
   ("PPI_CH16", all_chips); ("PPI_CH17", all_chips); ("PPI_CH18", all_chips);
   ("PPI_CH19", all_chips); ("PPI_CH20", all_chips); ("PPI_CH21", all_chips);
   ("PPI_CH22", all_chips); ("PPI_CH23", all_chips); ("PPI_CH24", all_chips);
   ("PPI_CH25", all_chips); ("PPI_CH26", all_chips); ("PPI_CH27", all_chips);
   ("PPI_CH28", all_chips); ("PPI_CH29", all_chips); ("PPI_CH30", all_chips);
   ("PPI_CH31", all_chips); ("PPI_GROUP0", all_chips); ("PPI_GROUP1", all_chips);
   ("PPI_GROUP2", all_chips); ("PPI_GROUP3", all_chips); ("PPI_GROUP4", all_chips);
   ("PPI_GROUP5", all_chips)].
Definition pin_peripherals : list (string * list Chip) :=
  [("P0_00", all_chips); ("P0_01", all_chips); ("P0_02", all_chips); ("P0_03", all_chips);
   ("P0_04", all_chips); ("P0_05", all_chips); ("P0_06", all_chips); ("P0_07", all_chips);
   ("P0_08", all_chips); ("P0_09", all_chips); ("P0_10", all_chips); ("P0_11", all_chips);
   ("P0_12", all_chips); ("P0_13", all_chips); ("P0_14", all_chips); ("P0_15", all_chips);
   ("P0_16", all_chips); ("P0_17", all_chips); ("P0_18", all_chips); ("P0_19", all_chips);
   ("P0_20", all_chips); ("P0_21", all_chips); ("P0_22", all_chips); ("P0_23", all_chips);
   ("P0_24", all_chips); ("P0_25", all_chips); ("P0_26", all_chips); ("P0_27", all_chips);
   ("P0_28", all_chips); ("P0_29", all_chips); ("P0_30", all_chips); ("P0_31", all_chips);
   ("P1_00", big); ("P1_01", big); ("P1_02", big); ("P1_03", big); ("P1_04", big);
   ("P1_05", big); ("P1_06", big); ("P1_07", big); ("P1_08", big); ("P1_09", big);
   ("P1_10", big); ("P1_11", big); ("P1_12", big); ("P1_13", big); ("P1_14", big);
   ("P1_15", big)].
Definition peripherals (c : Chip) : list string :=
  fst <$> filter (λ p, c ∈ p.2) (devices ++ channel_peripherals ++ pin_peripherals).

(** ** [impl_instance!]: the interrupt of each peripheral *)
Definition not52810 : list Chip := [C52811; C52832; C52833; C52840].
Definition timer_instances : list (string * string * list Chip) :=
  [("TIMER0", "TIMER0", all_chips); ("TIMER1", "TIMER1", all_chips);
   ("TIMER2", "TIMER2", all_chips); ("TIMER3", "TIMER3", ext); ("TIMER4", "TIMER4", ext)].
Definition spim_instances : list (string * string * list Chip) :=
  [("SPIM0", "SPIM0_SPIS0_SPI0", [C52810]);
   ("SPIM0", "SPIM0_SPIS0_TWIM0_TWIS0_SPI0_TWI0", not52810);
   ("SPIM1", "SPIM1_SPIS1_TWIM1_TWIS1_SPI1_TWI1", ext); ("SPIM2", "SPIM2_SPIS2_SPI2", ext);
   ("SPIM3", "SPIM3", big)].
Definition uarte_instances : list (string * string * list Chip) :=
  [("UARTE0", "UARTE0_UART0", all_chips); ("UARTE1", "UARTE1", big)].
Definition rtc_instances : list (string * string * list Chip) :=
  [("RTC0", "RTC0", all_chips); ("RTC1", "RTC1", all_chips); ("RTC2", "RTC2", ext)].
Definition qspi_instances : list (string * string * list Chip) :=
  [("QSPI", "QSPI", [C52840])].

(** saadc.rs and gpiote.rs name their interrupt in the signature of [new]. *)
Definition owned_interrupts : list (string * string * list Chip) :=
  [("SAADC", "SAADC", all_chips); ("GPIOTE", "GPIOTE", all_chips)].
Definition instances (c : Chip) : list (string * string) :=
  fst <$> filter (λ i, c ∈ i.2)
    (timer_instances ++ spim_instances ++ uarte_instances ++ rtc_instances ++ qspi_instances ++ owned_interrupts).


(** ** [peripherals!] and [declare!] of embassy-rp *)
Definition rp_peripherals : list string :=
  ["PIN_0"; "PIN_1"; "PIN_2"; "PIN_3"; "PIN_4"; "PIN_5"; "PIN_6"; "PIN_7"; "PIN_8"; "PIN_9";
   "PIN_10"; "PIN_11"; "PIN_12"; "PIN_13"; "PIN_14"; "PIN_15"; "PIN_16"; "PIN_17"; "PIN_18";
   "PIN_19"; "PIN_20"; "PIN_21"; "PIN_22"; "PIN_23"; "PIN_24"; "PIN_25"; "PIN_26"; "PIN_27";
   "PIN_28"; "PIN_29"; "PIN_QSPI_SCLK"; "PIN_QSPI_SS"; "PIN_QSPI_SD0"; "PIN_QSPI_SD1";
   "PIN_QSPI_SD2"; "PIN_QSPI_SD3"; "UART0"; "UART1"; "DMA_CH0"; "DMA_CH1"; "DMA_CH2";
   "DMA_CH3"; "DMA_CH4"; "DMA_CH5"; "DMA_CH6"; "DMA_CH7"; "DMA_CH8"; "DMA_CH9"; "DMA_CH10";
   "DMA_CH11"].
Definition rp_irqs : list string :=
  ["TIMER_IRQ_0"; "TIMER_IRQ_1"; "TIMER_IRQ_2"; "TIMER_IRQ_3"; "PWM_IRQ_WRAP"; "USBCTRL_IRQ";
   "XIP_IRQ"; "PIO0_IRQ_0"; "PIO0_IRQ_1"; "PIO1_IRQ_0"; "PIO1_IRQ_1"; "DMA_IRQ_0"; "DMA_IRQ_1";
   "IO_IRQ_BANK0"; "IO_IRQ_QSPI"; "SIO_IRQ_PROC0"; "SIO_IRQ_PROC1"; "CLOCKS_IRQ"; "SPI0_IRQ";
   "SPI1_IRQ"; "UART0_IRQ"; "UART1_IRQ"; "ADC_IRQ_FIFO"; "I2C0_IRQ"; "I2C1_IRQ"; "RTC_IRQ"].
(** The peripherals the drivers implement their traits for: the pins of gpio.rs, the
    channels and groups of ppi.rs, the channels of gpiote.rs, by their names. *)
Definition has_p1 (c : Chip) : bool := bool_decide (c ∈ big).
Definition two_digits (n : Z) : string :=
  (if (n <? 10)%Z then "0" else "") +:+ pretty (Z.to_N n).
Definition pin_name (p : Z * Z) : string := "P" +:+ pretty (Z.to_N p.1) +:+ "_" +:+ two_digits p.2.
Definition numbered (pre : string) (n : Z) : string := pre +:+ pretty (Z.to_N n).
Definition driven (c : Chip) : list string :=
  (pin_name <$> NrfGpio.pins (has_p1 c))
  ++ (numbered "PPI_CH" <$> Ppi.channels) ++ (numbered "PPI_GROUP" <$> Ppi.groups)
  ++ ((λ n, numbered "GPIOTE_CH" (Z.of_nat n)) <$> seq 0 Gpiote.CHANNEL_COUNT)
  ++ (fst <$> instances c).

(** Those of embassy-rp: the pins of gpio.rs, the instances of uart.rs and the channels
    of dma.rs; and the pins of uart.rs. *)
Definition qspi_names : list string := ["SCLK"; "SS"; "SD0"; "SD1"; "SD2"; "SD3"].
Definition rp_pin_name (p : RpGpio.Bank * Z) : string :=
  match p.1 with
  | RpGpio.Bank0 => numbered "PIN_" p.2
  | RpGpio.Qspi => "PIN_QSPI_" +:+ default "" (qspi_names !! Z.to_nat p.2)
  end.
Definition rp_uart_name (u : Rp.Uart.Instance_) : string :=
  match u with Rp.Uart.UART0 => "UART0" | Rp.Uart.UART1 => "UART1" end.
Definition rp_driven : list string :=
  (rp_pin_name <$> RpGpio.pins) ++ (rp_uart_name <$> [Rp.Uart.UART0; Rp.Uart.UART1])
  ++ (numbered "DMA_CH" <$> Rp.Dma.channels).
Definition rp_uart_pins : list string := (λ x, numbered "PIN_" x.1.1) <$> Rp.Uart.impl_pins.

(** ** [Peripherals::take]

    The flag [_EMBASSY_DEVICE_PERIPHERALS]; the test and the write are one critical
    section. *)
Definition take (c : Chip) (taken : bool) : option (list string) * bool :=
  if taken then (None, taken) else (Some (peripherals c), true).
Fixpoint takes (c : Chip) (n : nat) (taken : bool) : list (option (list string)) :=
  match n with
  | O => []
  | S n => let '(r, taken) := take c taken in r :: takes c n taken
  end.

(** The singletons of [std_peripherals!], handed out with the clocks that
    [set_peripherals] stored in [GLOBAL_CLOCKS]. *)
Section Std.
Context {Clocks P : Type} (dp : P).
Definition std_take (clocks : option Clocks) : option (P * Clocks) * option Clocks :=
  match clocks with
  | Some c => (Some (dp, c), None)
  | None => (None, None)
  end.
Definition set_peripherals (c : Clocks) (_ : option Clocks) : option Clocks := Some c.

(** A run: [Some c] is [set_peripherals c], [None] is a [take]. *)
Fixpoint std_run (ops : list (option Clocks)) (s : option Clocks) : list (option (P * Clocks)) :=
  match ops with
  | [] => []
  | Some c :: ops => std_run ops (set_peripherals c s)
  | None :: ops => let '(r, s) := std_take s in r :: std_run ops s
  end.
End Std.

Lemma takes_taken c n : takes c n true = replicate n None.
Proof. induction n as [|n IH]; [done|]. cbn [takes take replicate]. by rewrite IH. Qed.

(** No interrupt and no peripheral is declared twice; every pin, channel, group and
    instance a driver is implemented for is a peripheral of the chip, with one
    instance each; and every instance has an interrupt the chip declares, except for
    SPIM0 on the 52811: its interrupt is declared as SPIM0_SPIS0_SPI0, and the name
    spim.rs gives it on all chips other than the 52810 does not exist there, so that
    the crate does not compile for the 52811. *)
Theorem nrf_instances_declared c :
  NoDup (declared c) ∧ NoDup (peripherals c)
  ∧ driven c ⊆ peripherals c
  ∧ NoDup (fst <$> instances c)
  ∧ filter (λ i, i.2 ∉ declared c) (instances c)
    = (if decide (c = C52811) then [("SPIM0", "SPIM0_SPIS0_TWIM0_TWIS0_SPI0_TWI0")] else []).
Proof.
  split_and!; destruct c; apply (bool_decide_unpack _); vm_compute; exact I.
Qed.

(** On the RP2040 the drivers implement their traits for exactly the peripherals that
    are declared, each once, in the same order; every pin of a UART is one of them; no
    interrupt is declared twice. *)
Theorem rp_peripherals_declared :
  NoDup rp_peripherals ∧ rp_driven = rp_peripherals ∧ rp_uart_pins ⊆ rp_peripherals
  ∧ NoDup rp_irqs.
Proof.
  split_and!; [| vm_compute; reflexivity | |]; apply (bool_decide_unpack _); vm_compute; exact I.
Qed.

(** The peripherals of a chip are handed out by the first [Peripherals::take] and by
    no later one; and no run of [set_peripherals] and [take] on an STM32 hands them
    out more often than [set_peripherals] was called before. *)
Theorem peripherals_taken_once c n :
  takes c (S n) false = Some (peripherals c) :: replicate n None
  ∧ ∀ (Clocks P : Type) (dp : P) (ops : list (option Clocks)),
      (length (filter (λ r, is_Some r) (std_run dp ops None)) ≤ length (filter (λ o, is_Some o) ops))%nat.
Proof.
  split; [cbn [takes take]; by rewrite takes_taken|].
  intros C P dp ops.
  assert (H : ∀ s, (length (filter (λ r, is_Some r) (std_run dp ops s))
                 ≤ length (filter (λ o, is_Some o) ops) + (if s is Some _ then 1 else 0))%nat).
  { induction ops as [|[c'|] ops IH]; intros s; [simpl; lia| |].
    - cbn [std_run]. unfold set_peripherals. specialize (IH (Some c')).
      rewrite filter_cons_True by eauto.
      cbn match in IH. cbn [length]. destruct s; lia.
    - cbn [std_run]. rewrite (filter_cons_False _ None) by (by intros []).
      destruct s as [c'|]; cbn [std_take]; specialize (IH None); cbn match in IH.
      + rewrite filter_cons_True by eauto. cbn [length]. lia.
      + rewrite filter_cons_False by (by intros []). lia. }
  specialize (H None). cbn match in H. lia.
Qed.
