(* ===== verification/Qspi.v ===== *)
(** * Qspi: the external flash driver

    [embassy-nrf/src/qspi.rs]: custom instructions, reads, writes and erases.  Each
    operation asserts its arguments, programs the peripheral, and waits for the READY
    event through an interrupt whose handler wakes the task and masks itself
    ([EasyDma]). *)
From S2P Require Import Prelude Interrupt Sync EasyDma.
Local Open Scope Z_scope.

(** The task last triggered. *)
Inductive Started : Set :=
| NoTask
| Custom (opcode length_ : Z)
| ReadStart (src dst cnt : Z)
| WriteStart (src dst cnt : Z)
| EraseStart (ptr : Z).

(** [ev] is the READY event with its interrupt. *)
Record Qspi : Type := mkQspi { cinstrdat0 : Z; cinstrdat1 : Z; started : Started; ev : Ev }.

Definition set_cinstr (d0 d1 : Z) (s : Qspi) : Qspi := mkQspi d0 d1 (started s) (ev s).
Definition start (t : Started) (s : Qspi) : Qspi := mkQspi (cinstrdat0 s) (cinstrdat1 s) t (ev s).
Definition set_ev (e : Ev) (s : Qspi) : Qspi := mkQspi (cinstrdat0 s) (cinstrdat1 s) (started s) e.

(** ** Waiting *)

(** [wait_ready]'s poll. *)
Definition wait_ready_poll (task : Z) (s : Qspi) : Poll unit * Qspi :=
  let '(r, e) := event_poll task (ev s) in (r, set_ev e s).

(** ** [custom_instruction] *)

(** The loops of shifts: four bytes of [req] from [off], least significant first. *)
Definition pack (off : nat) (req : list Z) : Z :=
  foldl (λ d i, if (i + off <? length req)%nat
                then Z.lor d (Z.shiftl (default 0 (req !! (i + off)%nat)) (Z.of_nat (i * 8)))
                else d) 0 [0; 1; 2; 3]%nat.

Definition custom_instruction (opcode : Z) (req : list Z) (resp_len : nat) (s : Qspi)
    : outcome Qspi :=
  _ ← assert (length req <=? 8)%nat;
  _ ← assert (resp_len <=? 8)%nat;
  let dat0 := pack 0 req in
  let dat1 := pack 4 req in
  let len := Z.of_nat (Nat.max (length req) resp_len) in
  let s1 := set_cinstr dat0 dat1 s in
  let s2 := set_ev (begin_event (ev s1)) s1 in
  Done (start (Custom opcode (len + 1)) s2).

(** ... and after the wait: the response is written over [resp]. *)
Definition custom_response (resp : list Z) (s : Qspi) : list Z :=
  let r1 := foldl (λ r i, if (i <? length r)%nat
              then <[i := wrap 8 (Z.shiftr (cinstrdat0 s) (Z.of_nat (i * 8)))]> r else r)
              resp [0; 1; 2; 3]%nat in
  foldl (λ r i, if (i + 4 <? length r)%nat
          then <[i := wrap 8 (Z.shiftr (cinstrdat1 s) (Z.of_nat (i * 8)))]> r else r)
    r1 [0; 1; 2; 3]%nat.

(** ** [Flash] *)
Definition Flash_read (address ptr len : Z) (s : Qspi) : outcome Qspi :=
  _ ← assert (ptr mod 4 =? 0);
  _ ← assert (len mod 4 =? 0);
  _ ← assert (address mod 4 =? 0);
  Done (start (ReadStart address ptr len) (set_ev (begin_event (ev s)) s)).
Definition Flash_write (address ptr len : Z) (s : Qspi) : outcome Qspi :=
  _ ← assert (ptr mod 4 =? 0);
  _ ← assert (len mod 4 =? 0);
  _ ← assert (address mod 4 =? 0);
  Done (start (WriteStart ptr address len) (set_ev (begin_event (ev s)) s)).
Definition Flash_erase (address : Z) (s : Qspi) : outcome Qspi :=
  _ ← assert (address mod 4096 =? 0);
  Done (start (EraseStart address) (set_ev (begin_event (ev s)) s)).

Definition Flash_size : Z := 256 * 4096.
Definition read_size : Z := 4.
Definition write_size : Z := 4.
Definition erase_size : Z := 4096.

(** The DropBomb of each operation: dropped before the wait is over, it panics. *)
Definition drop_operation (waiting : bool) : outcome unit :=
  if waiting then DropBomb_drop else DropBomb_defuse.

(** ** Lemmas *)

(** The bytes of a register, least significant first. *)
Definition reg_bytes (d : Z) : list Z := map (λ i, wrap 8 (Z.shiftr d (8 * i))) [0; 1; 2; 3].

Lemma byte_of_lor b0 b1 b2 b3 :
  Forall (λ b, 0 ≤ b < 256) [b0; b1; b2; b3] →
  reg_bytes (Z.lor (Z.lor (Z.lor (Z.lor 0 (Z.shiftl b0 0)) (Z.shiftl b1 8)) (Z.shiftl b2 16))
               (Z.shiftl b3 24)) = [b0; b1; b2; b3].
Proof.
  intros H. rewrite !Forall_cons in H. destruct H as (H0 & H1 & H2 & H3 & _).
  assert (Hbit : ∀ b n, 0 ≤ b < 256 → 8 ≤ n → Z.testbit b n = false).
  { intros b n Hb Hn. destruct (decide (b = 0)) as [->|]; [apply Z.bits_0|].
    apply Z.bits_above_log2; [lia|]. apply Z.log2_lt_pow2; [lia|].
    apply Z.lt_le_trans with (2 ^ 8); [lia|]. apply Z.pow_le_mono_r; lia. }
  assert (Hneg : ∀ b n, n < 0 → Z.testbit b n = false) by (intros; by apply Z.testbit_neg_r).
  unfold reg_bytes, wrap. simpl map.
  assert (Hext : ∀ k x, (∀ n, 0 ≤ n < 8 → Z.testbit
     (Z.lor (Z.lor (Z.lor (Z.lor 0 (Z.shiftl b0 0)) (Z.shiftl b1 8)) (Z.shiftl b2 16)) (Z.shiftl b3 24))
     (n + k) = Z.testbit x n) → 0 ≤ k → 0 ≤ x < 256 →
     Z.shiftr (Z.lor (Z.lor (Z.lor (Z.lor 0 (Z.shiftl b0 0)) (Z.shiftl b1 8)) (Z.shiftl b2 16)) (Z.shiftl b3 24)) k
       mod 2 ^ 8 = x).
  { intros k x Hx Hk Hr. apply Z.bits_inj'. intros n Hn.
    rewrite <-Z.land_ones, Z.land_spec, Z.shiftr_spec by lia.
    destruct (decide (n < 8)).
    - rewrite Z.ones_spec_low, andb_true_r by lia. apply Hx. lia.
    - rewrite Z.ones_spec_high, andb_false_r by lia. symmetry. apply Hbit; lia. }
  repeat f_equal; apply Hext; try lia; intros n Hn;
    rewrite !Z.lor_spec, !Z.shiftl_spec, Z.bits_0 by lia; simpl orb.
  - rewrite (Hneg b1), (Hneg b2), (Hneg b3), !orb_false_r by lia. f_equal. lia.
  - rewrite (Hbit b0), (Hneg b2), (Hneg b3), !orb_false_r by lia. simpl orb. f_equal. lia.
  - rewrite (Hbit b0), (Hbit b1), (Hneg b3), !orb_false_r by lia. simpl orb. f_equal. lia.
  - rewrite (Hbit b0), (Hbit b1), (Hbit b2) by lia. simpl orb. f_equal. lia.
Qed.

Lemma default_byte (req : list Z) i :
  Forall (λ b, 0 ≤ b < 256) req → 0 ≤ default 0 (req !! i) < 256.
Proof.
  intros H. destruct (req !! i) as [b|] eqn:E; simpl; [|lia].
  exact (Forall_lookup_1 _ _ _ _ H E).
Qed.

Lemma pack_bytes off req : Forall (λ b, 0 ≤ b < 256) req →
  reg_bytes (pack off req) = map (λ i, default 0 (req !! (i + off)%nat)) [0; 1; 2; 3]%nat.
Proof.
  intros H. unfold pack.
  assert (E : ∀ i d, (if (i + off <? length req)%nat
      then Z.lor d (Z.shiftl (default 0 (req !! (i + off)%nat)) (Z.of_nat (i * 8))) else d) =
    Z.lor d (Z.shiftl (default 0 (req !! (i + off)%nat)) (Z.of_nat (i * 8)))).
  { intros i d. case_bool; [done|]. rewrite lookup_ge_None_2 by done.
    simpl. by rewrite Z.shiftl_0_l, Z.lor_0_r. }
  cbn [foldl]. rewrite !E.
  apply (byte_of_lor (default 0 (req !! (0 + off)%nat)) (default 0 (req !! (1 + off)%nat))
    (default 0 (req !! (2 + off)%nat)) (default 0 (req !! (3 + off)%nat))).
  repeat constructor; by apply default_byte.
Qed.

(** ** Properties *)

(** C32: the bytes of an instruction's request are sent in order, padded with zeros, and
    a request or response longer than 8 bytes panics.  Of a response only the first
    four bytes are right: from the fifth on, the bytes are written over the first
    ones and the rest of the buffer keeps what it had.  Waiting for READY loses no
    event: set before the poll's check, it makes the poll ready; set after the
    poll, it wakes the task; and set between the check and the arming, it wakes it once,
    provided that the interrupt was masked when the poll began, or armed by an earlier
    poll of the same task, of which polls and events make no other state.  Reads, writes
    and erases with arguments out of alignment panic. *)
Theorem qspi_spec opcode (req resp : list Z) (s : Qspi) (task : Z) :
  Forall (λ b, 0 ≤ b < 256) req → task ≠ 0 →
  ((length req > 8)%nat ∨ (length resp > 8)%nat →
   custom_instruction opcode req (length resp) s = Panic) ∧
  ((length req ≤ 8)%nat → (length resp ≤ 8)%nat → ∃ s',
     custom_instruction opcode req (length resp) s = Done s' ∧
     reg_bytes (cinstrdat0 s') ++ reg_bytes (cinstrdat1 s') =
       req ++ replicate (8 - length req) 0 ∧
     inten (ev s') = true ∧ occurred (ev s') = false) ∧
  ((length resp ≤ 8)%nat →
   custom_response resp s =
     take (length resp - 4) (reg_bytes (cinstrdat1 s)) ++
     drop (length resp - 4) (take (length resp) (reg_bytes (cinstrdat0 s))) ++ drop 4 resp) ∧
  (inten (ev s) = true →
   (occurred (ev s) = true → fst (wait_ready_poll task s) = Ready tt) ∧
   (occurred (ev s) = false →
    fst (wait_ready_poll task s) = Pending ∧
    (∃ e, hw_event (ev (snd (wait_ready_poll task s))) = ([task], e) ∧
       fst (wait_ready_poll task (set_ev e s)) = Ready tt) ∧
    (poll_state task (ev s) →
     let '(ws1, e1) := hw_event (snd (event_check (ev s))) in
     let '(ws2, e2) := deliver (event_arm task e1) in
     ws1 ++ ws2 = [task] ∧ fst (wait_ready_poll task (set_ev e2 s)) = Ready tt)) ∧
   (poll_state task (ev s) →
    poll_state task (snd (hw_event (ev s))) ∧
    poll_state task (snd (deliver (ev (snd (wait_ready_poll task s))))))) ∧
  (∀ address ptr len,
     (Flash_read address ptr len s = Panic ↔ ¬ (ptr mod 4 = 0 ∧ len mod 4 = 0 ∧ address mod 4 = 0)) ∧
     (Flash_write address ptr len s = Panic ↔ ¬ (ptr mod 4 = 0 ∧ len mod 4 = 0 ∧ address mod 4 = 0)) ∧
     (Flash_erase address s = Panic ↔ address mod 4096 ≠ 0)).
Proof.
  intros Hreq Ht. split_and!.
  - intros Hl. unfold custom_instruction. destruct (Nat.leb_spec (length req) 8); [|done].
    cbn [assert mbind outcome_bind]. destruct (Nat.leb_spec (length resp) 8); [lia|done].
  - intros H1 H2. unfold custom_instruction. rewrite !(proj2 (Nat.leb_le _ _)) by done.
    cbn [assert mbind outcome_bind]. eexists. split; [done|].
    cbn [cinstrdat0 cinstrdat1 start set_ev set_cinstr ev begin_event inten occurred].
    split; [|done]. rewrite !pack_bytes by done.
    do 9 (destruct req as [|? req]; [done|]). simpl in H1. lia.
  - intros Hl. unfold custom_response.
    do 9 (destruct resp as [|? resp]; [done|]). simpl in Hl. lia.
  - intros Hi. destruct (event_no_lost_wake task (ev s) Ht Hi) as [H1 H2].
    unfold wait_ready_poll. cbn [ev set_ev]. split_and!; [intros Ho|intros Ho|intros Hs].
    + by destruct (H1 Ho) as (e & -> & _).
    + destruct (H2 Ho) as (Hp & (e & Hw & He) & _). split_and!.
      * by destruct (event_poll task (ev s)).
      * exists e. destruct (event_poll task (ev s)) eqn:E. split; [exact Hw|].
        by destruct (event_poll task e).
      * intros Hen. pose proof (event_window task (ev s) Ht Hi Ho Hen) as Hb.
        destruct (hw_event (snd (event_check (ev s)))) as [ws1 e1].
        destruct (deliver (event_arm task e1)) as [ws2 e2].
        destruct Hb as (? & ?). split; [done|]. by destruct (event_poll task e2).
    + destruct (poll_state_kept task (ev s) Ht Hi Hs). by destruct (event_poll task (ev s)).
  - intros address ptr len. unfold Flash_read, Flash_write, Flash_erase.
    destruct (Z.eqb_spec (ptr mod 4) 0), (Z.eqb_spec (len mod 4) 0), (Z.eqb_spec (address mod 4) 0),
      (Z.eqb_spec (address mod 4096) 0); simpl; split_and!; split; intros; try done; tauto.
Qed.

Lemma qspi_spec_witness :
  let s := mkQspi 0x44332211 0x88776655 NoTask (mkEv false true Irq_new) in
  custom_response [0; 0; 0; 0; 0; 0] s = [0x55; 0x66; 0x33; 0x44; 0; 0] ∧
  fst (wait_ready_poll 9 s) = Pending ∧
  (∃ e, hw_event (ev (snd (wait_ready_poll 9 s))) = ([9], e)) ∧
  (let s1 := snd (wait_ready_poll 9 s) in
   let '(ws1, e1) := hw_event (snd (event_check (ev s1))) in
   let '(ws2, _) := deliver (event_arm 9 e1) in ws1 ++ ws2 = [9]).
Proof.
  intros s.
  destruct (qspi_spec 0 [1] [0; 0; 0; 0; 0; 0] s 9) as (_ & _ & Hr & Hw & _);
    [repeat constructor; lia|done|].
  destruct (Hw eq_refl) as (_ & Hp & _). destruct (Hp eq_refl) as (H1 & (e & H2 & _) & _).
  split; [rewrite Hr by (simpl; lia); reflexivity|].
  split; [exact H1|]. split; [exists e; exact H2|].
  set (s1 := snd (wait_ready_poll 9 s)).
  destruct (qspi_spec 0 [1] [0; 0; 0; 0; 0; 0] s1 9) as (_ & _ & _ & Hw1 & _);
    [repeat constructor; lia|done|].
  destruct (Hw1 eq_refl) as (_ & Hq & _). destruct (Hq eq_refl) as (_ & _ & Hx).
  specialize (Hx ltac:(right; by split_and!)).
  cbv zeta. revert Hx. destruct (hw_event (snd (event_check (ev s1)))) as [ws1 e1].
  destruct (deliver (event_arm 9 e1)) as [ws2 e2]. by intros [? _].
Defined.
