(* ===== verification/Flash.v ===== *)
(** * Flash: a flash memory behind the HAL's trait

    [embassy-traits/src/flash.rs]: the trait as a class, what its documentation promises and
    what a flash memory does as a class of laws; and a client that sees nothing else, the
    pages that [embassy-nrf-examples/src/bin/qspi.rs] erases, writes and reads back. *)
From S2P Require Import Prelude.
From stdpp Require Import list_numbers.
Local Open Scope Z_scope.

(** ** Awaiting an operation: [None] is an operation that never completes *)
Definition Await (S A : Type) : Type := S → option (outcome (A * S)).
#[export] Instance Await_ret {S} : MRet (Await S) := λ A a s, Some (Done (a, s)).
#[export] Instance Await_bind {S} : MBind (Await S) := λ A B f m s,
  match m s with
  | Some (Done (a, s')) => f a s'
  | Some Panic => Some Panic
  | None => None
  end.
Definition panic {S A} : Await S A := λ _, Some Panic.

(** ** The trait *)
Inductive Error : Set := Failed | AddressMisaligned | BufferMisaligned.

(** A buffer is its address and its bytes. *)
Class Flash (S : Type) : Type := {
  read : Z → Z → Z → Await S (Result (list Z) Error);
  write : Z → Z → list Z → Await S (Result unit Error);
  erase : Z → Await S (Result unit Error);
  size : Z;
  read_size : Z;
  write_size : Z;
  erase_size : Z
}.

Definition power_of_2 (z : Z) : Prop := ∃ k, 0 ≤ k ∧ z = 2 ^ k.
Definition byte (b : Z) : Prop := 0 ≤ b < 256.
Definition within (a from len : Z) : Prop := from ≤ a < from + len.
#[export] Instance within_dec a from len : Decision (within a from len).
Proof. unfold within. apply _. Defined.

(** [idle] is when an operation can be started, [placed] what the device wants of a
    buffer's address and length.  A byte that is [writable] has been erased and not been
    written. *)
Class FlashLaws (S : Type) `{!Flash S} : Type := {
  idle : S → Prop;
  placed : Z → Z → Prop;
  contents : S → Z → Z;
  writable : S → Z → Prop;
  sizes : power_of_2 read_size ∧ power_of_2 write_size ∧ power_of_2 erase_size;
  read_spec address ptr len s : idle s → placed ptr len → 0 ≤ len →
    address mod read_size = 0 → len mod read_size = 0 → 0 ≤ address → address + len ≤ size →
    ∃ s', read address ptr len s = Some (Done (Ok (contents s <$> seqZ address len), s')) ∧
      idle s' ∧ (∀ a, contents s' a = contents s a) ∧ (∀ a, writable s a → writable s' a);
  write_spec address ptr data s : let len := Z.of_nat (length data) in
    idle s → placed ptr len → Forall byte data →
    address mod write_size = 0 → len mod write_size = 0 → 0 ≤ address → address + len ≤ size →
    (∀ a, within a address len → writable s a) →
    ∃ s', write address ptr data s = Some (Done (Ok tt, s')) ∧ idle s' ∧
      contents s' <$> seqZ address len = data ∧
      (∀ a, ¬ within a address len → contents s' a = contents s a) ∧
      (∀ a, ¬ within a address len → writable s a → writable s' a);
  erase_spec address s : idle s → address mod erase_size = 0 → 0 ≤ address →
    address + erase_size ≤ size →
    ∃ s', erase address s = Some (Done (Ok tt, s')) ∧ idle s' ∧
      (∀ a, within a address erase_size → writable s' a) ∧
      (∀ a, ¬ within a address erase_size → contents s' a = contents s a) ∧
      (∀ a, ¬ within a address erase_size → writable s a → writable s' a)
}.

(** ** The client *)
Definition PAGE_SIZE : Z := 4096.

Definition pattern (a : Z) : Z :=
  wrap 8 (Z.lxor (Z.lxor (Z.lxor a (Z.shiftr a 8)) (Z.shiftr a 16)) (Z.shiftr a 24)).
Definition page_pattern (i : Z) : list Z := pattern <$> seqZ (i * PAGE_SIZE) PAGE_SIZE.

Section client.
Context {S : Type} `{!Flash S}.

Definition unwrap {A} (r : Result A Error) : Await S A :=
  match r with Ok a => mret a | Err _ => panic end.
Fixpoint for_each (l : list Z) (f : Z → Await S unit) : Await S unit :=
  match l with [] => mret tt | i :: l' => _ ← f i; for_each l' f end.

Definition program_page (ptr i : Z) : Await S unit :=
  r ← erase (i * PAGE_SIZE); _ ← unwrap r;
  r ← write (i * PAGE_SIZE) ptr (page_pattern i); unwrap r.

(** [assert_eq!], byte by byte. *)
Fixpoint assert_all (js : list Z) (i : Z) (buf : list Z) : Await S unit :=
  match js with
  | [] => mret tt
  | j :: js' =>
      match buf !! Z.to_nat j with
      | Some b => if b =? pattern (j + i * PAGE_SIZE) then assert_all js' i buf else panic
      | None => panic
      end
  end.
Definition verify_page (ptr i : Z) : Await S unit :=
  r ← read (i * PAGE_SIZE) ptr PAGE_SIZE; buf ← unwrap r;
  assert_all (seqZ 0 PAGE_SIZE) i buf.

Definition pages : list Z := seqZ 0 8.
Definition main (ptr : Z) : Await S unit :=
  _ ← for_each pages (program_page ptr);
  for_each pages (verify_page ptr).

(** ** Lemmas *)
Context `{!FlashLaws S}.
(** What the example asks of the device. *)
Hypothesis Hread : PAGE_SIZE mod read_size = 0.
Hypothesis Hwrite : PAGE_SIZE mod write_size = 0.
Hypothesis Herase : erase_size = PAGE_SIZE.

Definition holds (s : S) (i : Z) : Prop :=
  contents s <$> seqZ (i * PAGE_SIZE) PAGE_SIZE = page_pattern i.

Lemma page_length i : Z.of_nat (length (page_pattern i)) = PAGE_SIZE.
Proof. unfold page_pattern. rewrite length_fmap, length_seqZ. unfold PAGE_SIZE. lia. Qed.
Lemma page_bytes i : Forall byte (page_pattern i).
Proof. apply Forall_fmap, Forall_true. intros a. apply (wrap_range 8). lia. Qed.

Lemma holds_ext s s' i : (∀ a, within a (i * PAGE_SIZE) PAGE_SIZE → contents s' a = contents s a) →
  holds s i → holds s' i.
Proof.
  unfold holds. intros H <-. apply list_fmap_ext. intros k a Ha. apply H.
  apply list_elem_of_lookup_2, elem_of_seqZ in Ha. unfold within. lia.
Qed.

(** Pages do not overlap. *)
Lemma apart i j a : i ≠ j → within a (j * PAGE_SIZE) PAGE_SIZE → ¬ within a (i * PAGE_SIZE) PAGE_SIZE.
Proof. unfold within, PAGE_SIZE. lia. Qed.

Lemma page_aligned z i : power_of_2 z → PAGE_SIZE mod z = 0 → (i * PAGE_SIZE) mod z = 0.
Proof.
  intros (k & Hk & ->) Hz. apply Z.mod_divide; [lia|]. apply Z.mod_divide in Hz; [|lia].
  by apply Z.divide_mul_r.
Qed.

Lemma program_page_spec ptr i s : idle s → placed ptr PAGE_SIZE → 0 ≤ i →
  (i + 1) * PAGE_SIZE ≤ size →
  ∃ s', program_page ptr i s = Some (Done (tt, s')) ∧ idle s' ∧ holds s' i ∧
    ∀ j, j ≠ i → holds s j → holds s' j.
Proof using Hwrite Herase.
  intros Hs Hptr Hi Hsize. destruct sizes as (_ & Pw & Pe).
  destruct (erase_spec (i * PAGE_SIZE) s) as (s1 & H1 & Hs1 & Hw1 & Hc1 & _).
  { done. } { apply page_aligned; [done|]. rewrite Herase. by apply Z_mod_same_full. }
  { unfold PAGE_SIZE. lia. } { rewrite Herase. unfold PAGE_SIZE in *. lia. }
  rewrite Herase in Hw1, Hc1.
  destruct (write_spec (i * PAGE_SIZE) ptr (page_pattern i) s1) as (s2 & H2 & Hs2 & Hd & Hc2 & _);
    rewrite ?page_length in *.
  { exact Hs1. } { exact Hptr. } { apply page_bytes. } { by apply page_aligned. } { exact Hwrite. }
  { unfold PAGE_SIZE. lia. } { unfold PAGE_SIZE in *. lia. } { exact Hw1. }
  exists s2. split.
  { unfold program_page, mbind, Await_bind. rewrite H1. cbn. by rewrite H2. }
  split; [done|]. split; [done|]. intros j Hj. apply holds_ext. intros a Ha.
  pose proof (apart i j a (not_eq_sym Hj) Ha). by rewrite Hc2, Hc1.
Qed.

Lemma assert_all_spec i buf s : ∀ js, Forall (λ j, within j 0 PAGE_SIZE) js →
  buf = page_pattern i → assert_all js i buf s = Some (Done (tt, s)).
Proof.
  intros js H ->. induction H as [|j js Hj _ IH]; [done|]. cbn [assert_all].
  unfold within in Hj. unfold page_pattern at 1.
  rewrite list_lookup_fmap, lookup_seqZ_lt by lia. cbn.
  replace (i * PAGE_SIZE + Z.of_nat (Z.to_nat j)) with (j + i * PAGE_SIZE) by lia.
  by rewrite Z.eqb_refl.
Qed.

Lemma verify_page_spec ptr i s : idle s → placed ptr PAGE_SIZE → 0 ≤ i →
  (i + 1) * PAGE_SIZE ≤ size → holds s i →
  ∃ s', verify_page ptr i s = Some (Done (tt, s')) ∧ idle s' ∧ ∀ j, holds s j → holds s' j.
Proof using Hread.
  intros Hs Hptr Hi Hsize Hh. destruct sizes as (Pr & _).
  destruct (read_spec (i * PAGE_SIZE) ptr PAGE_SIZE s) as (s1 & H1 & Hs1 & Hc1 & _).
  { exact Hs. } { exact Hptr. } { unfold PAGE_SIZE. lia. } { by apply page_aligned. } { exact Hread. }
  { unfold PAGE_SIZE. lia. } { unfold PAGE_SIZE in *. lia. }
  exists s1. split; [|split; [done|]].
  - unfold verify_page, mbind, Await_bind. rewrite H1. cbn. apply assert_all_spec; [|done].
    apply Forall_forall. intros j Hj%elem_of_seqZ. unfold within. lia.
  - intros j. apply holds_ext. intros a _. apply Hc1.
Qed.

Lemma for_each_spec (f : Z → Await S unit) (I : list Z → S → Prop) :
  (∀ l i s, i ∈ pages → I l s → ∃ s', f i s = Some (Done (tt, s')) ∧ I (i :: l) s') →
  ∀ js, (∀ i, i ∈ js → i ∈ pages) → ∀ l s, I l s →
    ∃ s', for_each js f s = Some (Done (tt, s')) ∧ I (rev js ++ l) s'.
Proof.
  intros Hf js. induction js as [|i js IH]; intros Hin l s HI; [by exists s|].
  destruct (Hf l i s (Hin i (list_elem_of_here i js)) HI) as (s1 & H1 & HI1).
  destruct (IH (λ j Hj, Hin j (list_elem_of_further _ _ _ Hj)) (i :: l) s1 HI1) as (s2 & H2 & HI2).
  exists s2. cbn [for_each rev]. unfold mbind, Await_bind. rewrite H1, H2.
  split; [done|]. by rewrite <-app_assoc.
Qed.

(** Every page that was written is read back as it was written. *)
Lemma main_spec ptr s : idle s → placed ptr PAGE_SIZE → 8 * PAGE_SIZE ≤ size →
  ∃ s', main ptr s = Some (Done (tt, s')) ∧ idle s' ∧ Forall (holds s') pages.
Proof using Hread Hwrite Herase.
  intros Hs Hptr Hsize. unfold main.
  assert (Hin : ∀ i, i ∈ pages → 0 ≤ i ∧ (i + 1) * PAGE_SIZE ≤ size).
  { intros i Hi%elem_of_seqZ. unfold PAGE_SIZE in *. lia. }
  destruct (for_each_spec (program_page ptr) (λ l s, idle s ∧ Forall (holds s) l))
    with (js := pages) (l := @nil Z) (s := s) as (s1 & H1 & Hs1 & Hp1); [|done|by split|].
  { intros l i s0 Hi [Hs0 Hl]. destruct (Hin i Hi) as [Hi0 Hi1].
    destruct (program_page_spec ptr i s0 Hs0 Hptr Hi0 Hi1) as (s' & H & Hs' & Hh & Hk).
    exists s'. split; [done|]. split; [done|]. constructor; [done|].
    eapply Forall_impl; [exact Hl|]. intros j Hj.
    destruct (decide (j = i)) as [->|]; [done|by apply Hk]. }
  rewrite app_nil_r in Hp1.
  destruct (for_each_spec (verify_page ptr) (λ _ s, idle s ∧ Forall (holds s) pages))
    with (js := pages) (l := @nil Z) (s := s1) as (s2 & H2 & Hs2 & Hp2); [|done| |].
  { intros l i s0 Hi [Hs0 Hl]. destruct (Hin i Hi) as [Hi0 Hi1]. rewrite Forall_forall in Hl.
    destruct (verify_page_spec ptr i s0) as (s' & H & Hs' & Hk); auto.
    exists s'. split; [done|]. split; [done|]. apply Forall_forall. auto. }
  { split; [done|]. rewrite Forall_forall in Hp1 |- *. intros i Hi. apply Hp1.
    by apply list_elem_of_In, in_rev, list_elem_of_In. }
  exists s2. unfold mbind, Await_bind. by rewrite H1, H2.
Qed.
End client.
