(* ===== verification/QspiFlash.v ===== *)
(** * QspiFlash: the driver and its flash memory, behind the trait

    [embassy-nrf/src/qspi.rs] as an instance of [Flash]: the operations of [Qspi] with the
    peripheral that moves the bytes and the executor that polls the task when the interrupt
    wakes it.  The example [qspi.rs] then runs to its end. *)
From S2P Require Import Prelude Interrupt EasyDma Qspi Flash.
From stdpp Require Import list_numbers.
Local Open Scope Z_scope.

(** ** The peripheral

    An operation takes a number of ticks, [busy] those still to come; then the bytes are
    moved and READY is set.  Programming a flash memory can only clear bits; erasing sets
    them.  The peripheral reaches the data RAM only. *)
Record Board : Type := mkBoard { drv : Qspi; mem : Z → Z; ram : Z → Z; busy : option nat }.
Definition set_drv (q : Qspi) (b : Board) : Board := mkBoard q (mem b) (ram b) (busy b).
Definition set_busy (n : option nat) (b : Board) : Board := mkBoard (drv b) (mem b) (ram b) n.
Definition store (ptr : Z) (data : list Z) (m : Z → Z) : Z → Z :=
  λ a, if decide (within a ptr (Z.of_nat (length data)))
       then default 0 (data !! Z.to_nat (a - ptr)) else m a.
Definition in_ram (ptr len : Z) : Prop := SRAM_LOWER ≤ ptr ∧ ptr + len ≤ SRAM_UPPER.
#[export] Instance in_ram_dec ptr len : Decision (in_ram ptr len).
Proof. unfold in_ram. apply _. Defined.

Definition transfer (b : Board) : Board :=
  match started (drv b) with
  | ReadStart src dst cnt =>
      if decide (in_ram dst cnt) then
        mkBoard (drv b) (mem b) (λ a, if decide (within a dst cnt) then mem b (src + (a - dst))
                                      else ram b a) (busy b)
      else b
  | WriteStart src dst cnt =>
      if decide (in_ram src cnt) then
        mkBoard (drv b) (λ a, if decide (within a dst cnt)
                              then Z.land (mem b a) (ram b (src + (a - dst))) else mem b a)
          (ram b) (busy b)
      else b
  | EraseStart p =>
      mkBoard (drv b) (λ a, if decide (within a p Qspi.erase_size) then 255 else mem b a) (ram b) (busy b)
  | _ => b
  end.

(** A tick: a pending interrupt is taken if it is enabled, and the operation goes on. *)
Definition hw_tick (b : Board) : list Z * Board :=
  let '(ws, e) := deliver (ev (drv b)) in
  let b := set_drv (set_ev e (drv b)) b in
  match busy b with
  | Some (S n) => (ws, set_busy (Some n) b)
  | Some O =>
      let b := set_busy None (transfer b) in
      let '(ws', e) := hw_event (ev (drv b)) in
      (ws ++ ws', set_drv (set_ev e (drv b)) b)
  | None => (ws, b)
  end.
Definition hw_ticks (n : nat) (b : Board) : Board := Nat.iter n (λ b, snd (hw_tick b)) b.

(** ** Ticks *)

(** The bytes after the operation under way in [b]. *)
Definition moved (b b' : Board) : Prop := mem b' = mem (transfer b) ∧ ram b' = ram (transfer b).
(** Nothing has happened to the bytes yet. *)
Definition same_job (b b' : Board) : Prop :=
  started (drv b') = started (drv b) ∧ mem b' = mem b ∧ ram b' = ram b.

Lemma same_job_trans b1 b2 b3 : same_job b1 b2 → same_job b2 b3 → same_job b1 b3.
Proof. intros (? & ? & ?) (? & ? & ?). split_and!; congruence. Qed.
Lemma moved_job b1 b2 b3 : same_job b1 b2 → moved b2 b3 → moved b1 b3.
Proof.
  intros (Hs & Hm & Hr) [M R]. unfold moved, transfer in *. rewrite Hs, Hm, Hr in *.
  destruct (started (drv b1)); repeat case_decide; cbn in *; split; congruence.
Qed.
Lemma transfer_drv b : drv (transfer b) = drv b ∧ busy (transfer b) = busy b.
Proof. unfold transfer. destruct (started (drv b)); by repeat case_decide. Qed.

Lemma deliver_keeps e : ∃ ws e', deliver e = (ws, e') ∧ occurred e' = occurred e ∧ inten e' = inten e.
Proof.
  unfold deliver. destruct (_ && _); [|by exists [], e].
  destruct (raise (line e)) as [ws i]. by eexists _, _.
Qed.

Lemma hw_event_keeps e : ∃ ws e', hw_event e = (ws, e') ∧ occurred e' = true ∧ inten e' = inten e.
Proof.
  unfold hw_event. destruct (inten e) eqn:Hi; [|by eexists _, _].
  destruct (deliver_keeps (mkEv true true (pend (line e)))) as (ws & e' & -> & ? & ?).
  by exists ws, e'.
Qed.

(** The operation goes on, or ends with READY. *)
Definition going (b : Board) (n : nat) (b' : Board) : Prop :=
  busy b' = Some n ∧ occurred (ev (drv b')) = false ∧ same_job b b'.
Definition over (b b' : Board) : Prop :=
  busy b' = None ∧ occurred (ev (drv b')) = true ∧ moved b b'.

Lemma tick_spec b n : busy b = Some n → inten (ev (drv b)) = true → occurred (ev (drv b)) = false →
  ∃ ws b', hw_tick b = (ws, b') ∧ inten (ev (drv b')) = true ∧
    match n with S k => going b k b' | O => over b b' end ∧
    ∀ task, task ≠ 0 → armed task (ev (drv b)) →
      task ∈ ws ∨ (n ≠ O ∧ armed task (ev (drv b'))).
Proof.
  intros Hn Hi Ho. unfold hw_tick.
  destruct (deliver_keeps (ev (drv b))) as (ws & e & Hd & Ho1 & Hi1). rewrite Hd.
  assert (Harm : ∀ task, task ≠ 0 → armed task (ev (drv b)) → ws = [task] ∨ (ws = [] ∧ e = ev (drv b))).
  { intros task Ht Ha. destruct (pending (line (ev (drv b)))) eqn:Hp.
    - left. destruct (deliver_armed task _ Ht Ha Hp) as (e' & He & _). congruence.
    - right. unfold deliver in Hd. rewrite Hp, andb_false_r in Hd. by injection Hd as <- <-. }
  set (b1 := set_drv (set_ev e (drv b)) b).
  assert (J : same_job b b1) by done.
  change (busy b1) with (busy b). rewrite Hn. destruct n as [|n].
  - destruct (hw_event_keeps (ev (drv (set_busy None (transfer b1))))) as (ws' & e' & He & Ho2 & Hi2).
    rewrite He. eexists _, _. split; [done|]. cbn [drv set_drv ev set_ev].
    cbn [drv set_busy] in Hi2, He. rewrite (proj1 (transfer_drv b1)) in Hi2, He. cbn in Hi2.
    split; [congruence|]. split.
    + split; [done|]. split; [done|]. apply (moved_job b b1); [done|by split].
    + intros task Ht Ha. left. apply elem_of_app. destruct (Harm task Ht Ha) as [->|[-> ->]].
      { left. by left. }
      right. unfold hw_event in He. cbn [drv set_drv ev set_ev b1] in He. rewrite Hi in He.
      destruct (deliver_armed task (mkEv true true (pend (line (ev (drv b))))) Ht) as (e2 & He2 & _).
      { destruct Ha as (? & ? & ? & ?). by split_and!. } { done. }
      rewrite He2 in He. injection He as <- _. by left.
  - eexists _, _. split; [done|]. cbn. split; [congruence|]. split.
    + split; [done|]. split; [cbn; congruence|done].
    + intros task Ht Ha. destruct (Harm task Ht Ha) as [->|[-> ->]]; [left; by left|by right].
Qed.

Lemma ticks_spec early b n : busy b = Some n → inten (ev (drv b)) = true →
  occurred (ev (drv b)) = false →
  let b' := hw_ticks early b in inten (ev (drv b')) = true ∧
  ((∃ k, (k ≤ n)%nat ∧ going b k b') ∨ over b b').
Proof.
  intros Hn Hi Ho b'. subst b'. induction early as [|early IH].
  { split; [done|]. left. exists n. by split_and!. }
  change (hw_ticks (S early) b) with (snd (hw_tick (hw_ticks early b))). destruct IH as [Hi1 [(k & Hk & B & O & J)|(B & O & M)]].
  - destruct (tick_spec (hw_ticks early b) k B Hi1 O) as (ws & b' & -> & Hi' & Hc & _).
    split; [done|]. cbn [snd]. destruct k as [|k].
    + right. destruct Hc as (? & ? & ?). split_and!; try done. by eapply moved_job.
    + left. exists k. split; [lia|]. destruct Hc as (? & ? & ?). split_and!; try done.
      by eapply same_job_trans.
  - unfold hw_tick. destruct (deliver_keeps (ev (drv (hw_ticks early b)))) as (ws & e & -> & He & Hie).
    cbn. rewrite B. cbn. split; [congruence|right]. split_and!; try done. cbn. congruence.
Qed.

(** ** The driver

    [task] polls [wait_ready] when it has been woken, and otherwise the time goes by;
    [early] ticks pass between the start of the operation and the first poll. *)
Section driver.
Context (task : Z) (time : Started → nat) (early fuel : nat).

Fixpoint await_ready (n : nat) (woken : bool) (b : Board) : option Board :=
  match n with
  | O => None
  | S n' =>
      if woken then
        let '(r, q) := wait_ready_poll task (drv b) in
        match r with
        | Ready _ => Some (set_drv q b)
        | Pending => await_ready n' false (set_drv q b)
        end
      else let '(ws, b') := hw_tick b in await_ready n' (bool_decide (task ∈ ws)) b'
  end.

Definition run_operation (start : Qspi → outcome Qspi) : Await Board unit := λ b,
  match start (drv b) with
  | Panic => Some Panic
  | Done q =>
      b' ← await_ready fuel true (hw_ticks early (mkBoard q (mem b) (ram b) (Some (time (started q)))));
      Some (Done (tt, b'))
  end.

(** Woken or with its interrupt armed, the task finds READY. *)
Hypothesis Htask : task ≠ 0.

Lemma await_armed : ∀ k n b, busy b = Some k → inten (ev (drv b)) = true →
  occurred (ev (drv b)) = false → armed task (ev (drv b)) → (2 * k + 3 ≤ n)%nat →
  ∃ b', await_ready n false b = Some b' ∧ busy b' = None ∧ moved b b'.
Proof using Htask.
  induction k as [|k IH]; intros n b Hk Hi Ho Ha Hn; (destruct n as [|n]; [lia|]); cbn [await_ready];
    destruct (tick_spec b _ Hk Hi Ho) as (ws & b1 & -> & Hi1 & Hc & Hw);
    specialize (Hw task Htask Ha).
  - destruct Hw as [Hin|[? _]]; [|done]. rewrite bool_decide_true by done.
    destruct Hc as (B & O & Mv). destruct n as [|n]; [lia|]. cbn [await_ready].
    unfold wait_ready_poll, event_poll, event_check. rewrite O. by eexists.
  - destruct Hc as (B & O & J). destruct (decide (task ∈ ws)) as [Hin|Hout].
    + rewrite bool_decide_true by done. destruct n as [|n]; [lia|]. cbn [await_ready].
      unfold wait_ready_poll, event_poll, event_check. rewrite O.
      set (b2 := set_drv _ b1).
      destruct (IH n b2) as (b' & H' & ? & M'); [done|done|done|done|lia|].
      exists b'. split; [exact H'|]. split; [done|]. by apply (moved_job b b2).
    + rewrite bool_decide_false by done. destruct Hw as [?|[_ Ha1]]; [done|].
      destruct (IH n b1 B Hi1 O Ha1) as (b' & H' & ? & M'); [lia|].
      exists b'. split; [exact H'|]. split; [done|]. by eapply moved_job.
Qed.

Lemma run_operation_spec start b q : start (drv b) = Done q → inten (ev q) = true →
  occurred (ev q) = false → (2 * time (started q) + 4 ≤ fuel)%nat →
  ∃ b', run_operation start b = Some (Done (tt, b')) ∧ busy b' = None ∧
    moved (mkBoard q (mem b) (ram b) None) b'.
Proof using Htask.
  intros Hq Hi Ho Hf. unfold run_operation. rewrite Hq.
  set (b0 := mkBoard q (mem b) (ram b) (Some (time (started q)))).
  destruct (ticks_spec early b0 (time (started q)) eq_refl Hi Ho) as [Hi1 Hc].
  destruct fuel as [|n]; [lia|]. cbn [await_ready].
  unfold wait_ready_poll, event_poll, event_check. destruct Hc as [(k & Hk & B & O & J)|(B & O & Mv)].
  - rewrite O. set (b1 := set_drv _ (hw_ticks early b0)).
    destruct (await_armed k n b1) as (b' & -> & B' & M'); [done|done|done|done|lia|].
    exists b'. split; [done|]. split; [done|].
    apply (moved_job _ b1); [|done]. destruct J as (? & ? & ?). by split_and!.
  - rewrite O. cbn [mbind option_bind]. eexists. split; [done|]. split; [done|].
    by apply (moved_job _ b0).
Qed.

(** The caller's buffer is where the driver has been told; what a read leaves there is the
    result. *)
Definition buffer_at (ptr len : Z) : Await Board (list Z) :=
  λ b, Some (Done (ram b <$> seqZ ptr len, b)).
Definition buffer_is (ptr : Z) (data : list Z) : Await Board unit :=
  λ b, Some (Done (tt, mkBoard (drv b) (mem b) (store ptr data (ram b)) (busy b))).

Definition qspi_read (address ptr len : Z) : Await Board (Result (list Z) Error) :=
  _ ← run_operation (Flash_read address ptr len); data ← buffer_at ptr len; mret (Ok data).
Definition qspi_write (address ptr : Z) (data : list Z) : Await Board (Result unit Error) :=
  _ ← buffer_is ptr data;
  _ ← run_operation (Flash_write address ptr (Z.of_nat (length data))); mret (Ok tt).
Definition qspi_erase (address : Z) : Await Board (Result unit Error) :=
  _ ← run_operation (Flash_erase address); mret (Ok tt).

#[export] Instance qspi_flash : Flash Board := {
  read := qspi_read;
  write := qspi_write;
  erase := qspi_erase;
  size := Flash_size;
  read_size := Qspi.read_size;
  write_size := Qspi.write_size;
  erase_size := Qspi.erase_size
}.

(** ** The laws *)
Hypothesis Hfuel : ∀ t, (2 * time t + 4 ≤ fuel)%nat.

Definition placed_in_ram (ptr len : Z) : Prop := ptr mod 4 = 0 ∧ in_ram ptr len.
Definition erased (b : Board) (a : Z) : Prop := mem b a = 255.

Lemma map_seqZ (f g : Z → Z) p q len : (∀ k, 0 ≤ k < len → f (p + k) = g (q + k)) →
  f <$> seqZ p len = g <$> seqZ q len.
Proof using.
  clear. intros H. apply list_eq. intros i. rewrite !list_lookup_fmap.
  destruct (decide (Z.of_nat i < len)) as [Hi|Hi].
  - rewrite !lookup_seqZ_lt by lia. cbn. f_equal. apply H. lia.
  - by rewrite !lookup_seqZ_ge by lia.
Qed.

Lemma aligned_assert a n {A} (k : outcome A) : a mod n = 0 → (_ ← assert (a mod n =? 0); k) = k.
Proof using. clear. intros ->. done. Qed.

Lemma qspi_read_spec address ptr len b : placed_in_ram ptr len → 0 ≤ len →
  address mod 4 = 0 → len mod 4 = 0 →
  ∃ b', qspi_read address ptr len b = Some (Done (Ok (mem b <$> seqZ address len), b')) ∧
    busy b' = None ∧ mem b' = mem b.
Proof using Htask Hfuel.
  intros [Hp Hram] Hl Ha Hlen.
  destruct (run_operation_spec (Flash_read address ptr len) b
    (start (ReadStart address ptr len) (set_ev (begin_event (ev (drv b))) (drv b))))
    as (b' & Hr & B & M & R); [|done|done|apply Hfuel|].
  { unfold Flash_read. by rewrite !aligned_assert. }
  unfold transfer in M, R. cbn [started drv start] in M, R. rewrite decide_True in M, R by done.
  assert (Hdata : ram b' <$> seqZ ptr len = mem b <$> seqZ address len).
  { rewrite R. apply map_seqZ. intros k Hk. cbn. unfold within.
    rewrite decide_True by lia. f_equal. lia. }
  exists b'. split; [|done]. unfold qspi_read, mbind, Await_bind, buffer_at. rewrite Hr, Hdata. done.
Qed.

Lemma qspi_write_spec address ptr data b : let len := Z.of_nat (length data) in
  placed_in_ram ptr len → Forall byte data → address mod 4 = 0 → len mod 4 = 0 →
  (∀ a, within a address len → erased b a) →
  ∃ b', qspi_write address ptr data b = Some (Done (Ok tt, b')) ∧ busy b' = None ∧
    mem b' <$> seqZ address len = data ∧ ∀ a, ¬ within a address len → mem b' a = mem b a.
Proof using Htask Hfuel.
  intros len [Hp Hram] Hd Ha Hlen He.
  set (b0 := mkBoard (drv b) (mem b) (store ptr data (ram b)) (busy b)).
  destruct (run_operation_spec (Flash_write address ptr len) b0
    (start (WriteStart ptr address len) (set_ev (begin_event (ev (drv b))) (drv b))))
    as (b' & Hr & B & M & _); [|done|done|apply Hfuel|].
  { unfold Flash_write. by rewrite !aligned_assert. }
  unfold transfer in M. cbn [started drv start] in M. rewrite decide_True in M by done. cbn in M.
  exists b'. split; [|split; [done|split]].
  - unfold qspi_write, mbind, Await_bind, buffer_is. fold len b0. by rewrite Hr.
  - rewrite M. apply list_eq. intros i. rewrite list_lookup_fmap.
    destruct (decide (Z.of_nat i < len)) as [Hi|Hi].
    + rewrite lookup_seqZ_lt by lia. cbn. unfold within. rewrite decide_True by lia.
      rewrite (He (address + Z.of_nat i)) by (unfold within; lia). unfold store, within.
      rewrite decide_True by (fold len; lia).
      replace (ptr + (address + Z.of_nat i - address) - ptr) with (Z.of_nat i) by lia. rewrite Nat2Z.id.
      destruct (lookup_lt_is_Some_2 data i) as [x Hx]; [lia|]. rewrite Hx. cbn. f_equal.
      pose proof (Forall_lookup_1 _ _ _ _ Hd Hx) as Hb. unfold byte in Hb.
      rewrite Z.land_comm. change 255 with (Z.ones 8). rewrite Z.land_ones by lia.
      by apply Z.mod_small.
    + rewrite lookup_seqZ_ge by lia. symmetry. apply lookup_ge_None_2. lia.
  - intros a Hout. rewrite M. by rewrite decide_False.
Qed.

Lemma qspi_erase_spec address b : address mod 4096 = 0 →
  ∃ b', qspi_erase address b = Some (Done (Ok tt, b')) ∧ busy b' = None ∧
    ∀ a, mem b' a = if decide (within a address Qspi.erase_size) then 255 else mem b a.
Proof using Htask Hfuel.
  intros Ha.
  destruct (run_operation_spec (Flash_erase address) b
    (start (EraseStart address) (set_ev (begin_event (ev (drv b))) (drv b))))
    as (b' & Hr & B & M & _); [|done|done|apply Hfuel|].
  { unfold Flash_erase. by rewrite aligned_assert. }
  exists b'. split; [|split; [done|]].
  - unfold qspi_erase, mbind, Await_bind. by rewrite Hr.
  - intros a. by rewrite M.
Qed.

Lemma qspi_sizes : power_of_2 (read_size (S := Board)) ∧ power_of_2 (write_size (S := Board)) ∧
  power_of_2 (erase_size (S := Board)).
Proof using. clear. split_and!; [exists 2|exists 2|exists 12]; done. Qed.

#[export, refine] Instance qspi_flash_laws : FlashLaws Board := {
  idle b := busy b = None;
  placed := placed_in_ram;
  contents := mem;
  writable := erased;
  sizes := qspi_sizes
}.
Proof.
  - intros address ptr len b _ Hp Hl Ha Hlen _ _.
    destruct (qspi_read_spec address ptr len b Hp Hl Ha Hlen) as (b' & H & B & M).
    exists b'. unfold erased. rewrite M. by split_and!.
  - intros address ptr data b len _ Hp Hd Ha Hlen _ _ He.
    destruct (qspi_write_spec address ptr data b Hp Hd Ha Hlen He) as (b' & H & B & M & O).
    exists b'. split_and!; try done. intros a Hout Hw. unfold erased. by rewrite O.
  - intros address b _ Ha _ _. destruct (qspi_erase_spec address b Ha) as (b' & H & B & M).
    exists b'. split_and!; try done; unfold erased; intros a Hin; rewrite M.
    + by rewrite decide_True.
    + by rewrite decide_False.
    + by rewrite decide_False.
Defined.
End driver.

(** ** Properties *)

(** C33: the driver keeps the trait's promises, seen through the example: it erases and writes
    eight pages and reads them back, and every operation completes, no assertion fails, and
    the memory holds the pattern.  However long the operations take, whether READY comes
    before the task's first poll or after it, whatever the interrupt line was left in (a
    stale pending interrupt wakes the task too early), and wherever in RAM the aligned
    buffer is.  Arguments out of alignment panic; none of the trait's errors is returned. *)
Theorem qspi_flash_verifies task time early fuel ptr b :
  task ≠ 0 → (∀ t, 2 * time t + 4 ≤ fuel)%nat → busy b = None → ptr mod 4 = 0 →
  in_ram ptr PAGE_SIZE →
  (∃ b', main (Flash0 := qspi_flash task time early fuel) ptr b = Some (Done (tt, b')) ∧
     busy b' = None ∧
     ∀ i, 0 ≤ i < 8 → mem b' <$> seqZ (i * PAGE_SIZE) PAGE_SIZE = page_pattern i) ∧
  (∀ address len, address mod 4 ≠ 0 ∨ len mod 4 ≠ 0 →
     qspi_read task time early fuel address ptr len b = Some Panic) ∧
  (∀ address data, address mod 4 ≠ 0 ∨ Z.of_nat (length data) mod 4 ≠ 0 →
     qspi_write task time early fuel address ptr data b = Some Panic) ∧
  (∀ address, address mod 4096 ≠ 0 → qspi_erase task time early fuel address b = Some Panic).
Proof.
  intros Ht Hf Hb Hp Hram. split_and!.
  - destruct (main_spec (FlashLaws0 := qspi_flash_laws task time early fuel Ht Hf)
      eq_refl eq_refl eq_refl ptr b Hb (conj Hp Hram)) as (b' & Hm & Hb' & Hh); [done|].
    exists b'. split; [exact Hm|]. split; [exact Hb'|]. rewrite Forall_forall in Hh.
    intros i Hi. apply (Hh i), elem_of_seqZ. lia.
  - intros address len H. unfold qspi_read, mbind, Await_bind, run_operation, Flash_read.
    rewrite (proj2 (Z.eqb_eq _ _) Hp). destruct (Z.eqb_spec (len mod 4) 0); [|done].
    destruct (Z.eqb_spec (address mod 4) 0); [lia|done].
  - intros address data H. unfold qspi_write, mbind, Await_bind, buffer_is, run_operation, Flash_write.
    rewrite (proj2 (Z.eqb_eq _ _) Hp).
    destruct (Z.eqb_spec (Z.of_nat (length data) mod 4) 0); [|done].
    destruct (Z.eqb_spec (address mod 4) 0); [lia|done].
  - intros address H. unfold qspi_erase, mbind, Await_bind, run_operation, Flash_erase.
    by destruct (Z.eqb_spec (address mod 4096) 0).
Qed.

(** The line has been left pending by someone else, and READY is late. *)
Lemma qspi_flash_verifies_witness :
  let line := pend (Irq_new : Irq Fn) in
  let b := mkBoard (mkQspi 0 0 NoTask (mkEv false false line)) (λ _, 0) (λ _, 0) None in
  let ops := qspi_flash 9 (λ _, 3%nat) 2 20 in
  (∃ b', main (Flash0 := ops) 0x20001000 b = Some (Done (tt, b')) ∧
     mem b' <$> seqZ (7 * PAGE_SIZE) PAGE_SIZE = page_pattern 7) ∧
  pattern 0x12345 = 0x67 ∧
  qspi_read 9 (λ _, 3%nat) 2 20 6 0x20001000 4 b = Some Panic.
Proof.
  intros line b ops.
  destruct (qspi_flash_verifies 9 (λ _, 3%nat) 2 20 0x20001000 b) as ((b' & Hm & _ & Hh) & Hr & _).
  - lia.
  - intros t. lia.
  - reflexivity.
  - reflexivity.
  - split; vm_compute; intros H; discriminate H.
  - split; [exists b'; split; [exact Hm|apply Hh; lia]|]. split; [reflexivity|].
    apply Hr. left. intros H. discriminate H.
Defined.
