(* ===== verification/QspiSetup.v ===== *)
(** * QspiSetup: starting and stopping the flash driver

    [new] and [sleep] of [embassy-nrf/src/qspi.rs]: the pins, the configuration registers,
    and the activation, which takes the peripheral some time ([Lag], with the events of
    [System]).  The operations on the flash are in [Qspi]. *)
From stdpp Require Import functions.
From S2P Require Import Prelude Lag System Port NrfGpio.
Local Open Scope Z_scope.

Section setup.
(** The opcodes and page sizes of the register library, with those of the default. *)
Context {ReadOpcode WriteOpcode WritePageSize : Type}.
Context (READ4IO : ReadOpcode) (PP4IO : WriteOpcode) (_256BYTES : WritePageSize).

(** ** Configuration *)
Record DeepPowerDownConfig : Type := mkDpd { enter_time : Z; exit_time : Z }.
Record Config : Type := mkConfig {
  xip_offset : Z; read_opcode : ReadOpcode; write_opcode : WriteOpcode;
  write_page_size : WritePageSize; deep_power_down : option DeepPowerDownConfig
}.
Definition Config_default : Config := mkConfig 0 READ4IO PP4IO _256BYTES None.

(** ** The peripheral *)
Record Psel : Type := mkPsel {
  psel_sck : Z; psel_csn : Z; psel_io0 : Z; psel_io1 : Z; psel_io2 : Z; psel_io3 : Z
}.
Record Ifconfig0 : Type := mkIf0 {
  addrmode_24bit : bool; dpmenable : bool; ppsize : WritePageSize; readoc : ReadOpcode;
  writeoc : WriteOpcode
}.
Record Ifconfig1 : Type := mkIf1 { sckdelay : Z; dpmen : bool; spimode0 : bool; sckfreq : Z }.

(** [ready]: the event READY, the activation under way, and whether the peripheral is
    active. *)
Record Periph : Type := mkPeriph {
  psel : Psel; ifconfig0 : option Ifconfig0; dpmdur : option (Z * Z); ifconfig1 : Ifconfig1;
  xipoffset : Z; enable : bool; ready : Starter unit
}.
Definition set_ready (s : Starter unit) (p : Periph) : Periph :=
  mkPeriph (psel p) (ifconfig0 p) (dpmdur p) (ifconfig1 p) (xipoffset p) (enable p) s.
Definition set_ifconfig1 (c : Ifconfig1) (p : Periph) : Periph :=
  mkPeriph (psel p) (ifconfig0 p) (dpmdur p) c (xipoffset p) (enable p) (ready p).
Definition periph_tick (p : Periph) : Periph := set_ready (starter_tick (ready p)) p.

(** The tasks: a peripheral that is not enabled does nothing; activation takes [time]
    looks. *)
Definition tasks_activate (time : nat) (p : Periph) : Periph :=
  if enable p then set_ready (task_start time tt (ready p)) p else p.
Definition tasks_deactivate (p : Periph) : Periph :=
  set_ready (mkStarter (event (ready p)) None None) p.

(** ** [new]

    The pins are outputs with high drive; the registers are written, and only then is the
    peripheral enabled and activated. *)
Definition qspi_output : PinCnf := mkCnf true false PullNone H0H1 false.
Fixpoint write_confs (has_p1 : bool) (pins : list Z) (g : Regs) : option Regs :=
  match pins with
  | [] => Some g
  | p :: pins' => g' ← write_conf has_p1 p qspi_output g; write_confs has_p1 pins' g'
  end.

Definition Qspi_new (has_p1 : bool) (fuel time : nat) (sck csn io0 io1 io2 io3 : Z) (config : Config)
    (p : Periph) (g : Regs) : option (Periph * Regs) :=
  g ← write_confs has_p1 [sck; csn; io0; io1; io2; io3] g;
  let sel := mkPsel (psel_bits sck) (psel_bits csn) (psel_bits io0) (psel_bits io1)
               (psel_bits io2) (psel_bits io3) in
  let if0 := mkIf0 true (if deep_power_down config is Some _ then true else false)
               (write_page_size config) (read_opcode config) (write_opcode config) in
  let dur := match deep_power_down config with
             | Some dpd => Some (enter_time dpd, exit_time dpd)
             | None => dpmdur p
             end in
  let if1 := mkIf1 80 false true 3 in
  let p := mkPeriph sel (Some if0) dur if1 (xip_offset config) true (ready p) in
  let p := set_ready (write_event false (ready p)) p in
  let p := tasks_activate time p in
  p ← wait_until periph_tick (λ p, event (ready p)) fuel p;
  Some (set_ready (write_event false (ready p)) p, g).

(** [sleep]; the delay in between is left out. *)
Definition sleep (p : Periph) : Periph :=
  let c := ifconfig1 p in
  let p := set_ifconfig1 (mkIf1 (sckdelay c) true (spimode0 c) (sckfreq c)) p in
  tasks_deactivate p.

(** ** Lemmas *)
Lemma write_confs_spec has_p1 pins : ∀ g, Forall (exists_pin has_p1) pins →
  ∃ g', write_confs has_p1 pins g = Some g' ∧
    ∀ q, exists_pin has_p1 q → abs g' q =
      if decide (q ∈ pins) then mkPin qspi_output (lvl (abs g q)) (ext (abs g q)) else abs g q.
Proof.
  induction pins as [|p pins IH]; intros g Hp; cbn [write_confs].
  { exists g. split; [done|]. intros q _. by rewrite decide_False by apply not_elem_of_nil. }
  apply Forall_cons in Hp as [Hp Hps].
  destruct (write_conf_spec has_p1 p qspi_output g Hp) as (g1 & -> & Ho & Hs).
  destruct (IH g1 Hps) as (g2 & Hg2 & Hq2). exists g2. split; [exact Hg2|].
  intros q Hq. rewrite Hq2 by done. destruct (decide (q = p)) as [->|Hne].
  - rewrite Hs. cbn [lvl ext]. rewrite (decide_True (P := p ∈ p :: pins)) by by left.
    by destruct (decide (p ∈ pins)).
  - rewrite Ho by done. destruct (decide (q ∈ pins)) as [Hin|Hin].
    + by rewrite decide_True by by right.
    + by rewrite decide_False by by rewrite elem_of_cons; intros [?|?].
Qed.

Lemma ticks_ready n p : ticks periph_tick n p = set_ready (ticks starter_tick n (ready p)) p.
Proof. revert p. induction n as [|n IH]; intros []; [done|]. simpl. by rewrite IH. Qed.

(** ** Properties *)

(** [new] returns, whatever READY event was left from before, with an active peripheral:
    the six pins are outputs with high drive and no other pin is touched, the registers
    have what the configuration says, and READY is clear for the first operation.
    [sleep] leaves the registers as they are but for the power-down bit, and the
    peripheral inactive. *)
Theorem qspi_new_spec has_p1 fuel time sck csn io0 io1 io2 io3 config p g :
  Forall (exists_pin has_p1) [sck; csn; io0; io1; io2; io3] → (S time < fuel)%nat →
  ∃ p' g', Qspi_new has_p1 fuel time sck csn io0 io1 io2 io3 config p g = Some (p', g') ∧
    (∀ q, exists_pin has_p1 q → abs g' q =
       if decide (q ∈ [sck; csn; io0; io1; io2; io3])
       then mkPin qspi_output (lvl (abs g q)) (ext (abs g q)) else abs g q) ∧
    psel p' = mkPsel sck csn io0 io1 io2 io3 ∧ enable p' = true ∧
    ready p' = mkStarter false None (Some tt) ∧ xipoffset p' = xip_offset config ∧
    ifconfig0 p' = Some (mkIf0 true (bool_decide (deep_power_down config ≠ None))
      (write_page_size config) (read_opcode config) (write_opcode config)) ∧
    (∀ d, deep_power_down config = Some d → dpmdur p' = Some (enter_time d, exit_time d)) ∧
    dpmen (ifconfig1 p') = false ∧
    running (ready (sleep p')) = None ∧ dpmen (ifconfig1 (sleep p')) = true ∧
    ifconfig0 (sleep p') = ifconfig0 p' ∧ sckfreq (ifconfig1 (sleep p')) = sckfreq (ifconfig1 p').
Proof.
  intros Hp Hf. unfold Qspi_new.
  destruct (write_confs_spec has_p1 _ g Hp) as (g' & -> & Hg'). cbn [mbind option_bind].
  match goal with |- context [wait_until _ _ _ ?p1] => set (p1' := p1) end.
  destruct (wait_until_ends periph_tick (λ p, event (ready p)) (S time) fuel p1')
    as (n & _ & -> & Hd); [|done|].
  { rewrite ticks_ready. cbn [ready set_ready].
    rewrite (eq_refl : ready p1' = mkStarter false (Some (time, tt)) (running (ready p))).
    rewrite started. by rewrite (proj2 (Nat.leb_gt _ _)) by lia. }
  assert (Hready : ticks starter_tick n (ready p1') = mkStarter true None (Some tt)).
  { rewrite ticks_ready in Hd. cbn [ready set_ready] in Hd.
    rewrite (eq_refl : ready p1' = mkStarter false (Some (time, tt)) (running (ready p))) in Hd |- *.
    rewrite started in Hd |- *. by destruct (n <=? time)%nat. }
  cbn [mbind option_bind]. eexists _, _. split; [reflexivity|]. split; [exact Hg'|].
  rewrite ticks_ready, Hready. split_and!; try done.
  - destruct (deep_power_down config); [by rewrite bool_decide_true|].
    by rewrite bool_decide_false by tauto.
  - intros d Hd'. cbn. by rewrite Hd'.
Qed.
End setup.

Lemma qspi_new_spec_witness :
  let p := mkPeriph (mkPsel 0 0 0 0 0 0) None None (mkIf1 0 false true 0) 0 false
             (mkStarter true None None) : Periph (ReadOpcode := nat) (WriteOpcode := nat)
                                            (WritePageSize := nat) in
  let g := mkRegs (mkPort 0 0 (λ _, PinCnf_reset)) (mkPort 0 0 (λ _, PinCnf_reset)) in
  ∃ p' g', Qspi_new true 9 5 19 17 20 21 22 23 (mkConfig 0 4 4 256 None)%nat p g = Some (p', g') ∧
    running (ready p') = Some tt ∧ cnf (abs g' 19) = qspi_output ∧ cnf (abs g' 18) = PinCnf_reset.
Proof.
  intros p g.
  destruct (qspi_new_spec true 9 5 19 17 20 21 22 23 (mkConfig 0 4 4 256 None)%nat p g)
    as (p' & g' & Hn & Hg & _ & _ & Hr & _); [repeat constructor; vm_compute; done|lia|].
  exists p', g'. split; [exact Hn|]. rewrite Hr, !Hg by (vm_compute; done). done.
Defined.
