(* ===== verification/Spim.v ===== *)
(** * Spim: SPI transfers by DMA

    [embassy-nrf/src/spim.rs]: the configuration of the pins and of the mode, and
    [read_write], which checks the buffers, hands them to the DMA and waits for END as
    in [EasyDma].  Unlike the one of the UARTE, the future has no guard: dropping it does
    nothing to the transfer. *)
From stdpp Require Import functions.
From S2P Require Import Prelude Port NrfGpio Interrupt EasyDma.
Local Open Scope Z_scope.

(** embedded-hal's [Mode]. *)
Inductive Polarity : Set := IdleLow | IdleHigh.
Inductive SpiPhase : Set := CaptureOnFirstTransition | CaptureOnSecondTransition.
#[export] Instance Polarity_eq_dec : EqDecision Polarity.
Proof. solve_decision. Defined.
#[export] Instance SpiPhase_eq_dec : EqDecision SpiPhase.
Proof. solve_decision. Defined.
Definition SpiMode : Set := Polarity * SpiPhase.
Definition MODE_0 : SpiMode := (IdleLow, CaptureOnFirstTransition).
Definition MODE_1 : SpiMode := (IdleLow, CaptureOnSecondTransition).
Definition MODE_2 : SpiMode := (IdleHigh, CaptureOnFirstTransition).
Definition MODE_3 : SpiMode := (IdleHigh, CaptureOnSecondTransition).

(** The register CONFIG. *)
Inductive Order : Set := MsbFirst | LsbFirst.
Inductive Cpol : Set := ActiveHigh | ActiveLow.
Inductive Cpha : Set := Leading | Trailing.

Inductive Error : Set := TxBufferTooLong | RxBufferTooLong | DMABufferNotInDataMemory.
Record Config : Type := mkConfig { frequency : Z; mode : SpiMode; orc : Z }.

(** The registers; [running], [count] and [mosi] are the hardware's: the transfer in
    progress, the bytes clocked and the bytes sent by it. *)
Record Spim : Type := mkSpim {
  psel_sck : Z; psel_mosi : Z; psel_miso : Z; enable : bool;
  config : Order * Cpol * Cpha; frequency_ : Z; orc_ : Z;
  txd_ptr : Z; txd_maxcnt : Z; rxd_ptr : Z; rxd_maxcnt : Z;
  running : bool; count : Z; mosi : list Z; events_end : Ev
}.
Record Sys : Type := mkSys { spim : Spim; mem : Z → Z }.

(** ** [new] *)
Definition mode_config (m : SpiMode) : Order * Cpol * Cpha :=
  if decide (m = MODE_0) then (MsbFirst, ActiveHigh, Leading)
  else if decide (m = MODE_1) then (MsbFirst, ActiveHigh, Trailing)
  else if decide (m = MODE_2) then (MsbFirst, ActiveLow, Leading)
  else (MsbFirst, ActiveLow, Trailing).

Section pins.
Context (has_p1 : bool).
Definition opt_pin (o : option Z) (f : Z → Regs → option Regs) (g : Regs) : option Regs :=
  match o with Some p => f p g | None => Some g end.
Definition spim_output : PinCnf := mkCnf true false PullNone H0H1 false.
Definition spim_input : PinCnf := mkCnf false true PullNone H0H1 false.
Definition config_pins (sck : Z) (miso mosi : option Z) (pol : Polarity) (g : Regs)
    : option Regs :=
  g ← write_conf has_p1 sck spim_output g;
  g ← opt_pin mosi (λ p, write_conf has_p1 p spim_output) g;
  g ← opt_pin miso (λ p, write_conf has_p1 p spim_input) g;
  match pol with
  | IdleHigh => g ← set_high has_p1 sck g; opt_pin mosi (set_high has_p1) g
  | IdleLow => g ← set_low has_p1 sck g; opt_pin mosi (set_low has_p1) g
  end.
Definition Spim_new (irq : Irq Fn) (sck : Z) (miso mosi : option Z) (c : Config) (g : Regs)
    : option (Spim * Regs) :=
  g ← config_pins sck miso mosi (fst (mode c)) g;
  Some (mkSpim (psel_bits sck) (optional_psel_bits mosi) (optional_psel_bits miso) true
          (mode_config (mode c)) (frequency c) (orc c) 0 0 0 0 false 0 [] (mkEv false false irq), g).
End pins.

(** ** [read_write] *)
Section transfer.
Context {P : Profile} (w : Z).

Definition set_dma (tx tx_len rx rx_len : Z) (s : Spim) : Spim :=
  mkSpim (psel_sck s) (psel_mosi s) (psel_miso s) (enable s) (config s) (frequency_ s) (orc_ s)
    tx (wrap w tx_len) rx (wrap w rx_len) (running s) (count s) (mosi s) (events_end s).
Definition set_event (e : Ev) (s : Spim) : Spim :=
  mkSpim (psel_sck s) (psel_mosi s) (psel_miso s) (enable s) (config s) (frequency_ s) (orc_ s)
    (txd_ptr s) (txd_maxcnt s) (rxd_ptr s) (rxd_maxcnt s) (running s) (count s) (mosi s) e.
Definition task_start (s : Spim) : Spim :=
  mkSpim (psel_sck s) (psel_mosi s) (psel_miso s) (enable s) (config s) (frequency_ s) (orc_ s)
    (txd_ptr s) (txd_maxcnt s) (rxd_ptr s) (rxd_maxcnt s) true 0 [] (events_end s).

(** Up to the await; slices are addresses and lengths. *)
Definition read_write (rx rx_len tx tx_len : Z) (s : Spim) : outcome (Result Spim Error) :=
  r1 ← slice_in_ram_or rx rx_len DMABufferNotInDataMemory;
  match r1 with
  | Err e => Done (Err e)
  | Ok _ =>
      r2 ← slice_in_ram_or tx tx_len DMABufferNotInDataMemory;
      match r2 with
      | Err e => Done (Err e)
      | Ok _ =>
          let s1 := set_dma tx tx_len rx rx_len s in
          let s2 := set_event (begin_event (events_end s1)) s1 in
          Done (Ok (task_start s2))
      end
  end.
(** [read] and [write] give the address of an empty slice for the other one. *)
Definition read (empty : Z) (data len : Z) : Spim → outcome (Result Spim Error) :=
  read_write data len empty 0.
Definition write (empty : Z) (data len : Z) : Spim → outcome (Result Spim Error) :=
  read_write empty 0 data len.
Definition spim_poll (task : Z) (s : Spim) : Poll (Result unit Error) * Spim :=
  match event_poll task (events_end s) with
  | (Ready _, e) => (Ready (Ok tt), set_event e s)
  | (Pending, e) => (Pending, set_event e s)
  end.
(** The future has nothing to drop. *)
Definition future_drop (s : Spim) : Spim := s.
End transfer.

(** ** The hardware

    A byte is clocked out and one in while the longer of the two counts is not reached:
    ORC is sent past the end of TXD, what arrives past the end of RXD is dropped. *)
Definition total (s : Spim) : Z := Z.max (txd_maxcnt s) (rxd_maxcnt s).
Definition set_progress (r : bool) (n : Z) (l : list Z) (s : Spim) : Spim :=
  mkSpim (psel_sck s) (psel_mosi s) (psel_miso s) (enable s) (config s) (frequency_ s) (orc_ s)
    (txd_ptr s) (txd_maxcnt s) (rxd_ptr s) (rxd_maxcnt s) r n l (events_end s).
Definition hw_byte (miso : Z) (y : Sys) : option Sys :=
  let s := spim y in
  if running s && (count s <? total s) then
    let o := if count s <? txd_maxcnt s then mem y (txd_ptr s + count s) else orc_ s in
    Some (mkSys (set_progress true (count s + 1) (mosi s ++ [o]) s)
            (if count s <? rxd_maxcnt s then <[rxd_ptr s + count s := miso]> (mem y) else mem y))
  else None.
Definition hw_end (y : Sys) : option (list Z * Sys) :=
  let s := spim y in
  if running s && (count s =? total s) then
    let '(ws, e) := hw_event (events_end s) in
    Some (ws, mkSys (set_event e (set_progress false (count s) (mosi s) s)) (mem y))
  else None.
Fixpoint hw_bytes (l : list Z) (y : Sys) : option Sys :=
  match l with [] => Some y | b :: l' => y' ← hw_byte b y; hw_bytes l' y' end.

(** ** Proofs *)
Definition in_ram (ptr len : Z) : bool :=
  (len =? 0) || (SRAM_LOWER <=? ptr) && (ptr + len <? SRAM_UPPER).

Lemma slice_in_ram_or_spec {P : Profile} {E} ptr len (e : E) : 0 ≤ ptr → 0 ≤ len → ptr + len < 2 ^ 32 →
  slice_in_ram_or ptr len e = Done (if in_ram ptr len then Ok tt else Err e).
Proof.
  intros. unfold slice_in_ram_or, in_ram. destruct (len =? 0); [done|].
  rewrite slice_in_ram_spec by done. by destruct ((_ <=? _) && _).
Qed.

(** The bytes of memory from [p]. *)
Definition bytes_at (m : Z → Z) (p : Z) (n : nat) : list Z := (λ i, m (p + Z.of_nat i)) <$> seq 0 n.

(** What a transfer of [n] bytes has sent. *)
Definition sent (m : Z → Z) (s : Spim) (n : nat) : list Z :=
  (λ i, if Z.of_nat i <? txd_maxcnt s then m (txd_ptr s + Z.of_nat i) else orc_ s) <$> seq 0 n.
(** Memory after [l] has arrived. *)
Definition stored (m : Z → Z) (s : Spim) (l : list Z) (a : Z) : Z :=
  if decide (rxd_ptr s ≤ a < rxd_ptr s + Z.min (rxd_maxcnt s) (Z.of_nat (length l)))
  then default 0 (l !! Z.to_nat (a - rxd_ptr s)) else m a.

(** The two buffers of a transfer do not overlap. *)
Definition disjoint_bufs (s : Spim) : Prop :=
  txd_ptr s + txd_maxcnt s ≤ rxd_ptr s ∨ rxd_ptr s + rxd_maxcnt s ≤ txd_ptr s ∨
  txd_maxcnt s ≤ 0 ∨ rxd_maxcnt s ≤ 0.

(** The state after [l] has been clocked in. *)
Definition clocked (s : Spim) (m : Z → Z) (l : list Z) (y : Sys) : Prop :=
  spim y = set_progress true (Z.of_nat (length l)) (sent m s (length l)) s ∧
  ∀ a, mem y a = stored m s l a.

Lemma clocked_byte s m l b y : disjoint_bufs s → clocked s m l y →
  Z.of_nat (length l) < total s → ∃ y', hw_byte b y = Some y' ∧ clocked s m (l ++ [b]) y'.
Proof.
  intros Hd [Es Em] Hl. unfold hw_byte. rewrite Es. cbn [running count set_progress].
  change (total (set_progress true (Z.of_nat (length l)) (sent m s (length l)) s)) with (total s).
  rewrite (proj2 (Z.ltb_lt _ _) Hl). cbn [andb]. eexists. split; [done|]. split.
  - cbn [spim txd_maxcnt txd_ptr orc_ mosi set_progress].
    rewrite length_app. cbn [length]. unfold set_progress. cbn. f_equal; [lia|].
    unfold sent. rewrite Nat.add_1_r, seq_S, fmap_app. cbn. f_equal. f_equal.
    destruct (Z.ltb_spec (Z.of_nat (length l)) (txd_maxcnt s)); [|done].
    rewrite Em. unfold stored. rewrite decide_False; [done|]. unfold disjoint_bufs in Hd. lia.
  - intros a. cbn [mem rxd_maxcnt rxd_ptr set_progress]. unfold stored. rewrite length_app. cbn [length].
    destruct (Z.ltb_spec (Z.of_nat (length l)) (rxd_maxcnt s)) as [Hr|Hr].
    + destruct (decide (a = rxd_ptr s + Z.of_nat (length l))) as [->|Hne].
      * rewrite fn_lookup_insert, decide_True by lia.
        rewrite lookup_app_r by lia.
        replace (Z.to_nat _ - length l)%nat with 0%nat by lia. done.
      * rewrite fn_lookup_insert_ne by done. rewrite Em. unfold stored.
        destruct (decide (rxd_ptr s ≤ a < rxd_ptr s + Z.min (rxd_maxcnt s) (Z.of_nat (length l)))).
        -- rewrite decide_True by lia. by rewrite lookup_app_l by lia.
        -- by rewrite decide_False by lia.
    + rewrite Em. unfold stored.
      destruct (decide (rxd_ptr s ≤ a < rxd_ptr s + Z.min (rxd_maxcnt s) (Z.of_nat (length l)))).
      * rewrite decide_True by lia. by rewrite lookup_app_l by lia.
      * by rewrite decide_False by lia.
Qed.

Lemma clocked_bytes s m l2 : ∀ l1 y, disjoint_bufs s → clocked s m l1 y →
  Z.of_nat (length (l1 ++ l2)) ≤ total s → ∃ y', hw_bytes l2 y = Some y' ∧ clocked s m (l1 ++ l2) y'.
Proof.
  induction l2 as [|b l2 IH]; intros l1 y Hd Hc Hl; rewrite length_app in Hl; cbn [length] in Hl.
  - exists y. by rewrite app_nil_r.
  - destruct (clocked_byte s m l1 b y Hd Hc) as (y1 & H1 & C1); [lia|]. cbn [hw_bytes]. rewrite H1.
    destruct (IH (l1 ++ [b]) y1 Hd C1) as (y' & H2 & C2); [rewrite !length_app; cbn; lia|].
    exists y'. split; [done|]. by rewrite <-app_assoc in C2.
Qed.

Lemma sent_split m s n : Z.of_nat n = total s → 0 ≤ txd_maxcnt s → 0 ≤ rxd_maxcnt s →
  sent m s n = bytes_at m (txd_ptr s) (Z.to_nat (txd_maxcnt s)) ++
               replicate (Z.to_nat (rxd_maxcnt s - txd_maxcnt s)) (orc_ s).
Proof.
  unfold total. intros Hn Ht Hr. unfold sent, bytes_at.
  replace n with (Z.to_nat (txd_maxcnt s) + Z.to_nat (rxd_maxcnt s - txd_maxcnt s))%nat by lia.
  rewrite seq_app, fmap_app. f_equal.
  - apply list_fmap_ext. intros i k Hi. apply lookup_seq in Hi as [-> Hi].
    by rewrite (proj2 (Z.ltb_lt _ _)) by lia.
  - apply list_eq. intros i. destruct (decide (i < Z.to_nat (rxd_maxcnt s - txd_maxcnt s))%nat).
    + rewrite list_lookup_fmap, lookup_seq_lt, lookup_replicate_2 by lia. simpl.
      by rewrite (proj2 (Z.ltb_ge _ _)) by lia.
    + rewrite !lookup_ge_None_2; [done|by rewrite length_replicate; lia|
        by rewrite length_fmap, length_seq; lia].
Qed.

Lemma read_write_done {P : Profile} w rx rx_len tx tx_len s s1 :
  read_write w rx rx_len tx tx_len s = Done (Ok s1) →
  s1 = task_start (set_event (begin_event (events_end s)) (set_dma w tx tx_len rx rx_len s)).
Proof.
  unfold read_write. destruct (slice_in_ram_or rx _ _) as [[|]|]; [|done..]. simpl.
  destruct (slice_in_ram_or tx _ _) as [[|]|]; [|done..]. simpl. by intros [= <-].
Qed.

(** The pins, one write at a time; a pin that is not used is left out. *)
Section pins_proofs.
Context (has_p1 : bool).
Lemma opt_conf_abs o c r : (∀ p, o = Some p → exists_pin has_p1 p) →
  ∃ r', opt_pin o (λ p, write_conf has_p1 p c) r = Some r' ∧
    ∀ q, exists_pin has_p1 q → abs r' q =
      if decide (o = Some q) then mkPin c (lvl (abs r q)) (ext (abs r q)) else abs r q.
Proof.
  intros Ho. destruct o as [p|]; simpl; [|by exists r].
  destruct (write_conf_spec has_p1 p c r (Ho p eq_refl)) as (r' & -> & Hoth & Hs).
  exists r'. split; [done|]. intros q Hq. destruct (decide (Some p = Some q)) as [[= <-]|]; [done|].
  apply Hoth; [done|congruence].
Qed.
Lemma opt_level_abs o l r : (∀ p, o = Some p → exists_pin has_p1 p) →
  ∃ r', opt_pin o (λ p, set_level has_p1 p l) r = Some r' ∧
    ∀ q, exists_pin has_p1 q → abs r' q =
      if decide (o = Some q) then mkPin (cnf (abs r q)) (is_High l) (ext (abs r q)) else abs r q.
Proof.
  intros Ho. destruct o as [p|]; simpl; [|by exists r].
  destruct (set_level_spec has_p1 p l r (Ho p eq_refl)) as (r' & -> & Hoth & Hs).
  exists r'. split; [done|]. intros q Hq. destruct (decide (Some p = Some q)) as [[= <-]|]; [done|].
  apply Hoth; [done|congruence].
Qed.
End pins_proofs.

Definition idle_level (p : Polarity) : Level := match p with IdleHigh => High | IdleLow => Low end.
Lemma config_pins_eq has_p1 sck miso mosi pol g :
  config_pins has_p1 sck miso mosi pol g =
    g ← opt_pin (Some sck) (λ p, write_conf has_p1 p spim_output) g;
    g ← opt_pin mosi (λ p, write_conf has_p1 p spim_output) g;
    g ← opt_pin miso (λ p, write_conf has_p1 p spim_input) g;
    g ← opt_pin (Some sck) (λ p, set_level has_p1 p (idle_level pol)) g;
    opt_pin mosi (λ p, set_level has_p1 p (idle_level pol)) g.
Proof. by destruct pol. Qed.

(** ** Theorems *)

(** C34: A transfer that was accepted does what a full-duplex transfer is to do, whatever
    bytes arrive: the first poll is pending; the transmit buffer is sent, filled up with
    the over-read character if the receive buffer is longer; the receive buffer has what
    arrived, what is past its end is dropped, and nothing else in memory changes; the end
    wakes the task, and its next poll is ready.  The lengths are those that the MAXCNT
    registers can hold. *)
Theorem spim_transfer {P : Profile} w rx rx_len tx tx_len s s1 m miso task :
  0 ≤ w → task ≠ 0 →
  let tn := wrap w tx_len in
  let rn := wrap w rx_len in
  tx + tn ≤ rx ∨ rx + rn ≤ tx ∨ tn = 0 ∨ rn = 0 →
  Z.of_nat (length miso) = Z.max tn rn →
  read_write w rx rx_len tx tx_len s = Done (Ok s1) →
  fst (spim_poll task s1) = Pending ∧
  ∃ y1 y2, hw_bytes miso (mkSys (snd (spim_poll task s1)) m) = Some y1 ∧
    hw_end y1 = Some ([task], y2) ∧
    fst (spim_poll task (spim y2)) = Ready (Ok tt) ∧
    mosi (spim y2) = bytes_at m tx (Z.to_nat tn) ++ replicate (Z.to_nat (rn - tn)) (orc_ s) ∧
    ∀ a, mem y2 a = if decide (rx ≤ a < rx + rn) then default 0 (miso !! Z.to_nat (a - rx)) else m a.
Proof.
  intros Hw Ht tn rn Hd Hl Hrw. apply read_write_done in Hrw as ->.
  assert (Htn : 0 ≤ tn) by (apply wrap_range; lia). assert (Hrn : 0 ≤ rn) by (apply wrap_range; lia).
  set (s0 := task_start _). set (s2 := snd (spim_poll task s0)).
  assert (Hp : fst (spim_poll task s0) = Pending) by done. split; [done|].
  destruct (event_no_lost_wake task (events_end s0) Ht eq_refl) as [_ Hev].
  destruct (Hev eq_refl) as (_ & (e' & He & Hready) & _).
  assert (C0 : clocked s2 m [] (mkSys s2 m)).
  { split; [done|]. intros a. unfold stored. simpl. rewrite decide_False by lia. done. }
  destruct (clocked_bytes s2 m miso [] _ ltac:(unfold disjoint_bufs; simpl; fold tn rn; lia) C0
    ltac:(simpl app; unfold total; simpl; fold tn rn; lia)) as ([sp mm] & Hb & Es & Em).
  simpl in Es, Em.
  eexists _, _. split; [exact Hb|]. unfold hw_end. cbn [spim mem]. rewrite Es.
  change (total (set_progress true (Z.of_nat (length miso)) (sent m s2 (length miso)) s2)) with (Z.max tn rn).
  cbn [running count set_progress]. rewrite Hl, Z.eqb_refl. cbn [andb].
  change (events_end (set_progress true (Z.max tn rn) (sent m s2 (length miso)) s2))
    with (snd (event_poll task (events_end s0))). rewrite He.
  split; [done|]. cbn [spim mem]. split_and!.
  - unfold spim_poll. cbn [events_end set_event]. destruct (event_poll task e') as [[[]|] ?]; done.
  - cbn [mosi set_event set_progress]. by rewrite (sent_split m s2).
  - intros a. rewrite Em. unfold stored. change (rxd_ptr s2) with rx. change (rxd_maxcnt s2) with rn.
    rewrite Hl. by replace (Z.min rn (Z.max tn rn)) with rn by lia.
Qed.

(** The buffers are checked to be in RAM, the receive buffer first, before the peripheral
    is touched; their lengths are not: whatever they are, the registers get what is left
    of them in their width, and neither [TxBufferTooLong] nor [RxBufferTooLong] is ever
    the result. *)
Theorem spim_buffers_checked {P : Profile} w rx rx_len tx tx_len s :
  0 ≤ rx → 0 ≤ rx_len → rx + rx_len < 2 ^ 32 → 0 ≤ tx → 0 ≤ tx_len → tx + tx_len < 2 ^ 32 →
  read_write w rx rx_len tx tx_len s =
    (if in_ram rx rx_len && in_ram tx tx_len
     then Done (Ok (task_start (set_event (begin_event (events_end s))
                                  (set_dma w tx tx_len rx rx_len s))))
     else Done (Err DMABufferNotInDataMemory)) ∧
  (0 ≤ w → let s1 := set_dma w tx tx_len rx rx_len s in
   (txd_maxcnt s1 = tx_len ↔ tx_len < 2 ^ w) ∧ (rxd_maxcnt s1 = rx_len ↔ rx_len < 2 ^ w)).
Proof.
  intros H1 H2 H3 H4 H5 H6. split.
  - unfold read_write. rewrite !slice_in_ram_or_spec by done.
    destruct (in_ram rx rx_len), (in_ram tx tx_len); done.
  - intros Hw. cbn. split; (split; [intros <-; by apply wrap_range|intros; by apply wrap_small]).
Qed.

(** A future that is dropped during the transfer does not stop it: what arrives is still
    written to the buffer that was given back. *)
Theorem spim_drop_keeps_writing s m b : running s = true → 0 ≤ count s < rxd_maxcnt s →
  ∃ y, hw_byte b (mkSys (future_drop s) m) = Some y ∧ mem y (rxd_ptr s + count s) = b.
Proof.
  intros Hr Hc. unfold hw_byte, future_drop. cbn [spim mem]. rewrite Hr.
  rewrite (proj2 (Z.ltb_lt (count s) (total s))) by (unfold total; lia). cbn [andb].
  eexists. split; [done|]. cbn [mem]. rewrite (proj2 (Z.ltb_lt _ (rxd_maxcnt s))) by lia.
  by rewrite fn_lookup_insert.
Qed.

(** [new] configures the pins for the mode: the clock idles at the level of the mode's
    polarity, with the data pin, and the register has the polarity and the phase of the
    mode; the pins are selected, a pin that is not used as disconnected; the other pins
    are left as they are. *)
Theorem spim_configured has_p1 irq sck miso mosi_ c g q :
  let used := sck :: option_list miso ++ option_list mosi_ in
  NoDup used → Forall (exists_pin has_p1) used → exists_pin has_p1 q →
  ∃ s g', Spim_new has_p1 irq sck miso mosi_ c g = Some (s, g') ∧
    let idle := match fst (mode c) with IdleHigh => true | IdleLow => false end in
    abs g' q =
      (if decide (q = sck ∨ mosi_ = Some q) then mkPin spim_output idle (ext (abs g q))
       else if decide (miso = Some q) then mkPin spim_input (lvl (abs g q)) (ext (abs g q))
       else abs g q) ∧
    config s = (MsbFirst,
      match fst (mode c) with IdleLow => ActiveHigh | IdleHigh => ActiveLow end,
      match snd (mode c) with CaptureOnFirstTransition => Leading
                            | CaptureOnSecondTransition => Trailing end) ∧
    psel_sck s = sck ∧ psel_mosi s = default (2 ^ 31) mosi_ ∧ psel_miso s = default (2 ^ 31) miso.
Proof.
  intros used Hnd Hf Hq. rewrite Forall_forall in Hf.
  assert (Hs : ∀ p, Some sck = Some p → exists_pin has_p1 p) by (intros ? [= <-]; apply Hf; set_solver).
  assert (Hi : ∀ p, miso = Some p → exists_pin has_p1 p) by (intros ? ->; apply Hf; set_solver).
  assert (Ho : ∀ p, mosi_ = Some p → exists_pin has_p1 p) by (intros ? ->; apply Hf; set_solver).
  unfold Spim_new. rewrite config_pins_eq.
  destruct (opt_conf_abs _ _ spim_output g Hs) as (g1 & -> & A1).
  destruct (opt_conf_abs _ _ spim_output g1 Ho) as (g2 & E2 & A2).
  destruct (opt_conf_abs _ _ spim_input g2 Hi) as (g3 & E3 & A3).
  destruct (opt_level_abs _ _ (idle_level (fst (mode c))) g3 Hs) as (g4 & E4 & A4).
  destruct (opt_level_abs _ _ (idle_level (fst (mode c))) g4 Ho) as (g5 & E5 & A5).
  cbn [mbind option_bind]. rewrite E2. cbn [mbind option_bind]. rewrite E3. cbn [mbind option_bind].
  rewrite E4. cbn [mbind option_bind]. rewrite E5. cbn [mbind option_bind].
  eexists _, _. split; [done|]. split.
  - rewrite A5, A4, A3, A2, A1 by done.
    assert (Hlev : is_High (idle_level (fst (mode c))) =
      match fst (mode c) with IdleHigh => true | IdleLow => false end) by (by destruct (fst (mode c))).
    rewrite <-Hlev. clear -Hnd.
    assert (N : miso ≠ Some sck ∧ mosi_ ≠ Some sck ∧ ∀ x, miso = Some x → mosi_ ≠ Some x).
    { unfold used in Hnd. apply NoDup_cons in Hnd as [Hn Hnd].
      destruct miso as [x|], mosi_ as [y|]; simpl in *; try apply NoDup_cons in Hnd as [Hxy _];
        split_and!; try congruence; intros; set_solver. }
    destruct N as (N1 & N2 & N3).
    destruct (decide (Some sck = Some q)) as [[= ->]|H1].
    + rewrite !(decide_False (P:=mosi_ = Some q)), (decide_False (P:=miso = Some q)) by done.
      by rewrite decide_True by auto.
    + destruct (decide (mosi_ = Some q)) as [H2|H2].
      * rewrite (decide_False (P:=miso = Some q)) by naive_solver. by rewrite decide_True by auto.
      * rewrite (decide_False (P:=q = sck ∨ mosi_ = Some q)) by (intros [->|?]; done).
        by destruct (decide (miso = Some q)).
  - cbn. split_and!; [by destruct (mode c) as [[] []]|done|by destruct mosi_|by destruct miso].
Qed.

(** ** Witnesses *)
#[local] Instance release : Profile := false.
Definition Spim_reset : Spim :=
  mkSpim 0 (2 ^ 31) (2 ^ 31) true (MsbFirst, ActiveHigh, Leading) 0 255 0 0 0 0 false 0 []
    (mkEv false false Irq_new).

Lemma spim_transfer_witness :
  ∃ s1 y1 y2, read_write 8 0x20000010 2 0x20000000 3 Spim_reset = Done (Ok s1) ∧
    hw_bytes [7; 8; 9] (mkSys (snd (spim_poll 64 s1)) (λ a, a mod 256)) = Some y1 ∧
    hw_end y1 = Some ([64], y2) ∧ mosi (spim y2) = [0; 1; 2] ∧ mem y2 0x20000011 = 8.
Proof.
  destruct (spim_transfer 8 0x20000010 2 0x20000000 3 Spim_reset _ (λ a, a mod 256) [7; 8; 9] 64
    ltac:(lia) ltac:(lia) ltac:(left; vm_compute; discriminate) eq_refl eq_refl) as (_ & y1 & y2 & H1 & H2 & _ & H3 & H4).
  eexists _, y1, y2. split; [reflexivity|]. split; [exact H1|]. split; [exact H2|].
  split; [rewrite H3; reflexivity|]. rewrite H4. reflexivity.
Defined.

Lemma spim_buffers_checked_witness :
  read_write 8 0x20000010 0 0x1000 3 Spim_reset = Done (Err DMABufferNotInDataMemory) ∧
  ∃ s1, read_write 8 0x20000010 0 0x20000000 300 Spim_reset = Done (Ok s1) ∧ txd_maxcnt s1 ≠ 300.
Proof.
  split; [exact (proj1 (spim_buffers_checked 8 0x20000010 0 0x1000 3 Spim_reset
    ltac:(lia) ltac:(lia) ltac:(lia) ltac:(lia) ltac:(lia) ltac:(lia)))|].
  destruct (spim_buffers_checked 8 0x20000010 0 0x20000000 300 Spim_reset
    ltac:(lia) ltac:(lia) ltac:(lia) ltac:(lia) ltac:(lia) ltac:(lia)) as [H1 H2].
  eexists. split; [exact H1|]. intros E. apply (proj1 (H2 ltac:(lia))) in E. lia.
Defined.

Lemma spim_drop_keeps_writing_witness :
  let s := mkSpim 0 0 0 true (MsbFirst, ActiveHigh, Leading) 0 255 0 0 0x20000000 4 true 1 [255]
             (mkEv false true Irq_new) in
  ∃ y, hw_byte 9 (mkSys (future_drop s) (λ _, 0)) = Some y ∧ mem y (0x20000000 + 1) = 9.
Proof. intros s. exact (spim_drop_keeps_writing s (λ _, 0) 9 eq_refl ltac:(simpl; lia)). Defined.

Lemma spim_configured_witness :
  ∃ s g', Spim_new true Irq_new 29 (Some 28) (Some 33) (mkConfig 0 MODE_3 0) Regs_reset = Some (s, g') ∧
    lvl (abs g' 29) = true ∧ config s = (MsbFirst, ActiveLow, Trailing) ∧ psel_mosi s = 33.
Proof.
  destruct (spim_configured true Irq_new 29 (Some 28) (Some 33) (mkConfig 0 MODE_3 0) Regs_reset 29)
    as (s & g' & H1 & H2 & H3 & _ & H4 & _).
  - apply (bool_decide_unpack _). reflexivity.
  - repeat constructor; simpl; lia.
  - unfold exists_pin. lia.
  - exists s, g'. split; [exact H1|]. split; [rewrite H2; reflexivity|]. split; [exact H3|exact H4].
Defined.
