(* ===== verification/Saadc.v ===== *)
(** * Saadc: one sample at a time

    [embassy-nrf/src/saadc.rs]: the configuration of a one-shot driver and [sample], which
    lets the DMA write one result into a variable of the future itself; its poll waits
    for END as in [EasyDma]. *)
From stdpp Require Import functions.
From S2P Require Import Prelude Port NrfGpio Interrupt EasyDma.
Local Open Scope Z_scope.

(** The values of the fields are those of the register library. *)
Inductive Oversample : Set := BYPASS | OverNx (n : Z).
#[export] Instance Oversample_eq_dec : EqDecision Oversample.
Proof. solve_decision. Defined.
Record Config : Type := mkConfig {
  resolution : Z; oversample : Oversample; reference : Z; gain : Z; resistor : Z; time : Z
}.
Definition BYPASS_resn : Z := 0.

(** CH[0].CONFIG. *)
Record ChConfig : Type := mkCh {
  refsel : Z; ch_gain : Z; tacq : Z; single_ended : bool; resp : Z; resn : Z; burst : bool
}.
Record Saadc : Type := mkSaadc {
  enabled_ : bool; resolution_ : Z; oversample_ : Oversample; ch0 : ChConfig; pselp : Z;
  result_ptr : Z; result_maxcnt : Z; started : bool; events_end : Ev
}.
Record Sys : Type := mkSys { saadc : Saadc; mem : Z → Z }.

(** [positive_pin_mappings!]: the channel of each pin that has one; [nrf9160] has its own. *)
Definition positive_pins (nrf9160 : bool) : list (Z * Z) :=
  if nrf9160 then
    [(0, impl_pin 0 13); (1, impl_pin 0 14); (2, impl_pin 0 15); (3, impl_pin 0 16);
     (4, impl_pin 0 17); (5, impl_pin 0 18); (6, impl_pin 0 19); (7, impl_pin 0 20)]
  else
    [(0, impl_pin 0 2); (1, impl_pin 0 3); (2, impl_pin 0 4); (3, impl_pin 0 5);
     (4, impl_pin 0 28); (5, impl_pin 0 29); (6, impl_pin 0 30); (7, impl_pin 0 31)].
Definition channel (nrf9160 : bool) (p : Z) : option Z :=
  match list_find (λ x, snd x = p) (positive_pins nrf9160) with
  | Some (_, (ch, _)) => Some ch
  | None => None
  end.

Definition OneShot_new (irq : Irq Fn) (positive_channel : Z) (c : Config) : Saadc :=
  mkSaadc true (resolution c) (oversample c)
    (mkCh (reference c) (gain c) (time c) true (resistor c) BYPASS_resn
       (negb (bool_decide (oversample c = BYPASS))))
    positive_channel 0 0 false (mkEv false false irq).
Definition OneShot_drop (s : Saadc) : Saadc :=
  mkSaadc false (resolution_ s) (oversample_ s) (ch0 s) (pselp s) (result_ptr s)
    (result_maxcnt s) (started s) (events_end s).

(** [sample]: [val] is the address of the variable, set to 0 first. *)
Definition sample_begin (val : Z) (y : Sys) : Sys :=
  let s := saadc y in
  mkSys (mkSaadc (enabled_ s) (resolution_ s) (oversample_ s) (ch0 s) (pselp s) val 1 true
           (begin_event (events_end s)))
        (<[val := 0]> (mem y)).
Definition set_event (e : Ev) (s : Saadc) : Saadc :=
  mkSaadc (enabled_ s) (resolution_ s) (oversample_ s) (ch0 s) (pselp s) (result_ptr s)
    (result_maxcnt s) (started s) e.
Definition sample_poll (task val : Z) (y : Sys) : Poll Z * Sys :=
  match event_poll task (events_end (saadc y)) with
  | (Ready _, e) => (Ready (mem y val), mkSys (set_event e (saadc y)) (mem y))
  | (Pending, e) => (Pending, mkSys (set_event e (saadc y)) (mem y))
  end.
(** The future has nothing to drop but the variable. *)
Definition sample_drop (y : Sys) : Sys := y.

(** The hardware: the result is written, and END occurs. *)
Definition hw_result (v : Z) (y : Sys) : option (list Z * Sys) :=
  let s := saadc y in
  if enabled_ s && started s then
    let '(ws, e) := hw_event (events_end s) in
    Some (ws, mkSys (mkSaadc (enabled_ s) (resolution_ s) (oversample_ s) (ch0 s) (pselp s)
                       (result_ptr s) (result_maxcnt s) false e)
                    (<[result_ptr s := v]> (mem y)))
  else None.

(** A sample is the value that was converted: the first poll is pending, the result
    wakes the task, whose next poll is ready with it; nothing but the variable changes
    in memory.  But a future that was dropped before is written to all the same. *)
Theorem saadc_sample task val v y : task ≠ 0 → enabled_ (saadc y) = true →
  let y1 := sample_begin val y in
  let '(p1, y2) := sample_poll task val y1 in
  p1 = Pending ∧
  ∃ y3, hw_result v y2 = Some ([task], y3) ∧ fst (sample_poll task val y3) = Ready v ∧
    (∀ a, a ≠ val → mem y3 a = mem y a) ∧
    ∃ y4, hw_result v (sample_drop y2) = Some ([task], y4) ∧ mem y4 val = v.
Proof.
  intros Ht He. cbv zeta. set (e0 := begin_event (events_end (saadc y))).
  destruct (event_no_lost_wake task e0 Ht eq_refl) as [_ Hev].
  destruct (Hev eq_refl) as (_ & (e' & Hh & Hr) & _).
  assert (Hp : sample_poll task val (sample_begin val y) =
    (Pending, mkSys (set_event (snd (event_poll task e0)) (saadc (sample_begin val y)))
                (mem (sample_begin val y)))) by done.
  rewrite Hp. split; [done|]. unfold hw_result, sample_drop. 
  cbn [saadc enabled_ started set_event sample_begin events_end result_ptr mem].
  rewrite He. cbn [andb]. fold e0. rewrite Hh. eexists. split; [done|].
  unfold sample_poll. cbn [saadc events_end mem result_ptr]. split_and!.
  - destruct (event_poll task e') as [[[]|] ?]; [|done]. cbn. by rewrite fn_lookup_insert.
  - intros a Ha. by rewrite !fn_lookup_insert_ne by done.
  - eexists. split; [done|]. cbn. by rewrite fn_lookup_insert.
Qed.

(** The pins that have a channel exist, and no two have the same; oversampling is done in
    a burst, and only then. *)
Theorem saadc_channels (nrf9160 has_p1 : bool) :
  NoDup (fst <$> positive_pins nrf9160) ∧
  Forall (λ '(ch, p), exists_pin has_p1 p ∧ channel nrf9160 p = Some ch) (positive_pins nrf9160) ∧
  ∀ irq ch c, burst (ch0 (OneShot_new irq ch c)) = true ↔ oversample c ≠ BYPASS.
Proof.
  split_and!.
  - apply (bool_decide_unpack _). by destruct nrf9160.
  - unfold exists_pin. destruct nrf9160, has_p1; repeat constructor; simpl; try done; lia.
  - intros irq ch c. simpl. rewrite negb_true_iff, bool_decide_eq_false. done.
Qed.

Lemma saadc_sample_witness :
  let y := mkSys (OneShot_new Irq_new 3 (mkConfig 0 BYPASS 0 0 0 0)) (λ _, 0) in
  let y2 := snd (sample_poll 64 0x20000000 (sample_begin 0x20000000 y)) in
  ∃ y3, hw_result 512 y2 = Some ([64], y3) ∧ fst (sample_poll 64 0x20000000 y3) = Ready 512.
Proof.
  intros y y2.
  destruct (saadc_sample 64 0x20000000 512 y ltac:(lia) eq_refl) as (_ & y3 & H1 & H2 & _).
  exists y3. split; [exact H1|exact H2].
Defined.
