(* ===== verification/Std.v ===== *)
(** * Std: the executor on a hosted system

    [embassy-std/src/lib.rs]: a clock made of the system's, an alarm that is a variable,
    and the executor's thread, which runs what is queued and then waits on a condition
    variable.  Other threads wake tasks at any time; the wait is cut at every point where
    the mutex is free. *)
From S2P Require Import Prelude Time.
Local Open Scope Z_scope.

Section std.
Context {P : Profile}.

(** ** Clock

    [ns] is the time since [CLOCK_ZERO] in nanoseconds, as [as_secs] and [subsec_nanos]
    give it. *)
Definition now (ns : Z) : outcome Z :=
  let as_secs := ns / 1000000000 in
  let subsec_nanos := ns mod 1000000000 in
  a ← arith 64 (as_secs * TICKS_PER_SECOND);
  b ← arith 64 (subsec_nanos * TICKS_PER_SECOND);
  arith 64 (a + b / 1000000000).

(** ** Alarm: [ALARM_AT] *)
Definition U64_MAX : Z := 2 ^ 64 - 1.
Definition StdAlarm_set (timestamp alarm_at : Z) : Z := timestamp.
Definition StdAlarm_clear (alarm_at : Z) : Z := U64_MAX.

(** The timeout of the wait, in nanoseconds; the second field is a [u32]. *)
Definition timeout_ns (left : Z) : Z :=
  left / TICKS_PER_SECOND * 1000000000 +
  wrap 32 (left mod TICKS_PER_SECOND * 1000000000 / TICKS_PER_SECOND).

(** ** The threads

    [RunStart] is the executor's thread before it takes the queue, in [init], or in the
    first part of [run_queued]; [Run] from there to setting the alarm; [Head] the loop of [wait] with the mutex, [Blocked] in the condition variable, with
    the time at which it gives up. *)
Inductive Pc : Set := RunStart | Run | Head | Blocked (deadline : option Z).

(** The signaled flag; the alarm; the time; the number of tasks in the run queue; the
    threads, and whether it is the executor's own, that have put a task in the empty
    queue and have yet to signal. *)
Record State : Type := mkState {
  pc : Pc; signaled : bool; alarm_at : Z; time : Z; queue : nat; signaling : nat; own : bool
}.
(** [Executor::new] and the set-up of [run]. *)
Definition State_new (ns : Z) : State := mkState RunStart false U64_MAX ns 0 0 false.

(** What can happen: a task is enqueued, by the executor's thread or another; its
    [signal]; the time goes on; the system lets the wait return, for no reason or at its
    deadline; and a step of the executor's thread, where [a] is the alarm that
    [run_queued] sets at its end. *)
Inductive Event : Set :=
| Enqueue (self : bool)
| Signal (self : bool)
| Tick (n : Z)
| Spurious
| Timeout
| Main (a : Z).

(** [signal]: the flag, and [notify_one]. *)
Definition signal (s : State) : State :=
  mkState (match pc s with Blocked _ => Head | p => p end) true (alarm_at s) (time s) (queue s)
    (signaling s) (own s).
Definition set_pc (p : Pc) (s : State) : State :=
  mkState p (signaled s) (alarm_at s) (time s) (queue s) (signaling s) (own s).
(** The end of [wait]. *)
Definition wait_return (s : State) : State :=
  mkState RunStart false (alarm_at s) (time s) (queue s) (signaling s) (own s).

(** One round of the loop of [wait], up to blocking. *)
Definition wait_head (s : State) : outcome State :=
  if signaled s then Done (wait_return s)
  else if alarm_at s =? U64_MAX then Done (set_pc (Blocked None) s)
  else
    n ← now (time s);
    if alarm_at s <=? n then Done (wait_return s)
    else Done (set_pc (Blocked (Some (time s + timeout_ns (alarm_at s - n)))) s).

Definition step (e : Event) (s : State) : option (outcome State) :=
  match e, pc s with
  | Enqueue self, p =>
      if self && (own s || match p with RunStart | Run => false | _ => true end) then None
      else
        let first := (queue s =? 0)%nat in
        Some (Done (mkState p (signaled s) (alarm_at s) (time s) (S (queue s))
          (if first && negb self then S (signaling s) else signaling s)
          (if first && self then true else own s)))
  | Signal true, _ =>
      if own s then
        Some (Done (signal (mkState (pc s) (signaled s) (alarm_at s) (time s) (queue s)
          (signaling s) false)))
      else None
  | Signal false, _ =>
      match signaling s with
      | O => None
      | S n => Some (Done (signal (mkState (pc s) (signaled s) (alarm_at s) (time s) (queue s) n (own s))))
      end
  | Tick n, _ =>
      if n <? 0 then None
      else Some (Done (mkState (pc s) (signaled s) (alarm_at s) (time s + n) (queue s) (signaling s) (own s)))
  | Spurious, Blocked _ => Some (Done (set_pc Head s))
  | Timeout, Blocked (Some d) => if d <=? time s then Some (Done (wait_return s)) else None
  | Main _, RunStart =>
      if own s then None else
      Some (Done (mkState Run (signaled s) (alarm_at s) (time s) 0 (signaling s) (own s)))
  | Main a, Run =>
      if own s then None
      else Some (Done (mkState Head (signaled s) (StdAlarm_set a (alarm_at s)) (time s) (queue s)
             (signaling s) (own s)))
  | Main _, Head => Some (wait_head s)
  | _, _ => None
  end.
Fixpoint run (es : list Event) (s : State) : option (outcome State) :=
  match es with
  | [] => Some (Done s)
  | e :: es' => match step e s with Some (Done s') => run es' s' | other => other end
  end.

(** ** Proofs *)
Lemma now_spec ns : 0 ≤ ns < 2 ^ 64 → now ns = Done (ns * TICKS_PER_SECOND / 1000000000).
Proof.
  intros Hn. unfold now, TICKS_PER_SECOND.
  rewrite (arith_fits 64 (ns / 1000000000 * 32768)) by zdiv. cbn [mbind outcome_bind].
  rewrite (arith_fits 64 (ns mod 1000000000 * 32768)) by zdiv. cbn [mbind outcome_bind].
  rewrite arith_fits by zdiv. f_equal. zdiv.
Qed.

Lemma timeout_spec left : 0 ≤ left →
  timeout_ns left = left * 1000000000 / TICKS_PER_SECOND.
Proof.
  intros Hl. unfold timeout_ns, TICKS_PER_SECOND. rewrite wrap_small by zdiv. zdiv.
Qed.

(** The clock at the deadline of a wait that starts at [t0]. *)
Lemma deadline_clock t0 a : 0 ≤ t0 →
  let n := t0 * TICKS_PER_SECOND / 1000000000 in
  n < a →
  let d := t0 + timeout_ns (a - n) in
  t0 ≤ d ∧ (d * TICKS_PER_SECOND / 1000000000 = a ∨ d * TICKS_PER_SECOND / 1000000000 = a - 1).
Proof.
  intros H0 n Hn d. unfold d. rewrite timeout_spec by lia. unfold n, TICKS_PER_SECOND in *. zdiv.
Qed.

(** Whoever found the queue empty has signaled, or is about to. *)
Definition SInv (s : State) : Prop :=
  0 ≤ time s ∧
  match pc s with
  | RunStart => True
  | Run => (0 < queue s)%nat → signaled s = true ∨ (0 < signaling s)%nat ∨ own s = true
  | Head => own s = false ∧ ((0 < queue s)%nat → signaled s = true ∨ (0 < signaling s)%nat)
  | Blocked d =>
      own s = false ∧ signaled s = false ∧ ((0 < queue s)%nat → (0 < signaling s)%nat) ∧
      match d with
      | None => alarm_at s = U64_MAX
      | Some d =>
          alarm_at s ≠ U64_MAX ∧ ∃ t0 n, 0 ≤ t0 ≤ time s ∧ now t0 = Done n ∧ n < alarm_at s ∧
            d = t0 + timeout_ns (alarm_at s - n)
      end
  end.

Lemma std_step_inv e s s' : SInv s → step e s = Some (Done s') → SInv s'.
Proof.
  destruct s as [p sg al tm q sn ow]. intros [H0 HI].
  destruct e as [self|[]|n| | |a]; cbn [step pc signaled alarm_at time queue signaling own] in *.
  - destruct p; destruct self, ow; cbn [andb orb] in *; try done; intros [= <-]; (split; [done|]);
      cbn in *; destruct q; cbn in *; try done; try (destruct sn; naive_solver lia).
    all: intros; destruct HI as (? & ? & ? & ?); split_and!; try done; intros; naive_solver lia.
  - destruct ow; [|done]. intros [= <-]. split; [done|]. destruct p; cbn in *; naive_solver.
  - destruct sn; [done|]. intros [= <-]. split; [done|]. destruct p; cbn in *; naive_solver.
  - destruct (Z.ltb_spec n 0); [done|]. intros [= <-]. split; [cbn; lia|].
    destruct p as [| | |[d|]]; cbn in *; try done.
    destruct HI as (? & ? & ? & ? & t0 & k & ? & ? & ? & ?). split_and!; try done.
    exists t0, k. split_and!; try done; lia.
  - destruct p; [done..|]. intros [= <-]. split; [done|]. cbn in *. naive_solver.
  - destruct p as [| | |[d|]]; try done. destruct (d <=? tm); [|done]. by intros [= <-].
  - destruct p as [| | |d]; try done.
    + destruct ow; [done|]. intros [= <-]. split; [done|]. cbn. lia.
    + destruct ow; [done|]. intros [= <-]. split; [done|]. cbn in *. split; [done|]. naive_solver.
    + unfold wait_head. cbn. destruct sg; [by intros [= <-]|].
      destruct (Z.eqb_spec al U64_MAX); [intros [= <-]; split; [done|]; cbn; naive_solver|].
      destruct (now tm) as [nw|] eqn:En; [|done]. cbn.
      destruct (Z.leb_spec al nw); intros [= <-]; (split; [done|]); cbn; [done|].
      destruct HI as [? Hq]. split_and!; try done; [naive_solver|].
      exists tm, nw. split_and!; try done; lia.
Qed.

Lemma std_run_inv es : ∀ s s', SInv s → run es s = Some (Done s') → SInv s'.
Proof.
  induction es as [|e es IH]; intros s s' I; simpl; [by intros [= <-]|].
  destruct (step e s) as [[s1|]|] eqn:Hs; try done. apply IH. by eapply std_step_inv.
Qed.

(** ** Theorems *)

(** The clock is the time in ticks, rounded down, for times below 2^64 ns; the timeout
    for a number of ticks is their length in nanoseconds, rounded down. *)
Theorem std_clock ns : 0 ≤ ns < 2 ^ 64 →
  now ns = Done (ns * TICKS_PER_SECOND / 1000000000) ∧
  ∀ left, 0 ≤ left → timeout_ns left = left * 1000000000 / TICKS_PER_SECOND.
Proof. intros. split; [by apply now_spec|apply timeout_spec]. Qed.

(** C40: The executor's thread does not sleep over work: whenever it is blocked, the flag is
    clear, and if a task is queued, the thread that queued it is about to signal; the
    signal makes it return, and it takes the queue.  It is blocked without a timeout only
    if no alarm is set; with one, it gives up no later than the alarm, and less than
    two ticks before. *)
Theorem std_no_lost_wake ns es s : 0 ≤ ns → run es (State_new ns) = Some (Done s) → time s < 2 ^ 64 →
  ∀ d, pc s = Blocked d →
  signaled s = false ∧ ((0 < queue s)%nat → (0 < signaling s)%nat) ∧
  (∀ s1, step (Signal false) s = Some (Done s1) →
     ∀ a, ∃ s2, run [Main a; Main a] s1 = Some (Done s2) ∧ pc s2 = Run ∧ queue s2 = 0%nat) ∧
  match d with
  | None => alarm_at s = U64_MAX
  | Some d => ∃ c, c = d * TICKS_PER_SECOND / 1000000000 ∧ (c = alarm_at s ∨ c = alarm_at s - 1)
  end.
Proof.
  intros Hn Hr Ht d Hd.
  assert (I : SInv s) by (eapply std_run_inv; [|exact Hr]; by split).
  destruct I as [H0 I]. rewrite Hd in I. destruct I as (Ho & Hs & Hq & Hdl).
  split; [done|]. split; [done|]. split.
  - intros s1. cbn [step]. rewrite Hd. destruct (signaling s) as [|k]; [done|]. intros [= <-] a.
    eexists. split; [unfold signal; cbn; unfold wait_head; cbn; rewrite Ho; done|done].
  - destruct d as [d|]; [|done]. destruct Hdl as (_ & t0 & n & Ht0 & Hnow & Hlt & ->).
    rewrite now_spec in Hnow by lia. injection Hnow as <-.
    eexists. split; [done|]. exact (proj2 (deadline_clock t0 (alarm_at s) ltac:(lia) Hlt)).
Qed.
End std.

Lemma std_clock_witness : let _ : Profile := true in now 1500000000 = Done 49152.
Proof. intros P. exact (proj1 (std_clock 1500000000 ltac:(lia))). Defined.

Lemma std_no_lost_wake_witness : let _ : Profile := true in
  ∃ s, run [Main 0; Main 40000; Main 0; Tick 10; Enqueue false] (State_new 0) = Some (Done s) ∧
    queue s = 1%nat ∧ (0 < signaling s)%nat ∧
    ∀ s1, step (Signal false) s = Some (Done s1) →
     ∀ a, ∃ s2, run [Main a; Main a] s1 = Some (Done s2) ∧ pc s2 = Run ∧ queue s2 = 0%nat.
Proof.
  intros P. set (s := mkState (Blocked (Some 1220703125)) false 40000 10 1 1 false). exists s.
  destruct (std_no_lost_wake 0 [Main 0; Main 40000; Main 0; Tick 10; Enqueue false] s ltac:(lia)
    eq_refl ltac:(simpl; lia) _ eq_refl) as (_ & Hq & Hs & _).
  split; [reflexivity|]. split; [reflexivity|]. split; [exact (Hq ltac:(simpl; lia))|exact Hs].
Defined.
