(* ===== verification/MainSetup.v ===== *)
(** * MainSetup: what [main] does before the executor runs

    [embassy-macros/src/chip]: the code [generate] puts into [main] for each family of
    chips.  It is composed here of the operations it calls: the clocks ([System]), the
    interrupt ([Interrupt]), the timer ([NrfRtc], [Stm32Rtc]), the peripherals
    ([Peripherals]), the clock of [Time] and the executor's alarm ([Task]). *)
From S2P Require Import Prelude Lag Interrupt NrfRtc System Time Task Stm32Rtc Peripherals.
From S2P Require Import RpClocks.
From stdpp Require Import strings.
Local Open Scope Z_scope.

(** ** nRF *)
Module Nrf.

(** The macro has enums of its own; it names the variant of [embassy_nrf::system] by the
    [Debug] output of its variant. *)
Inductive HfclkSource : Set := Internal | ExternalXtal.
Inductive LfclkSource : Set :=
| InternalRC | Synthesized | LfExternalXtal | ExternalLowSwing | ExternalFullSwing.
Record Args : Type := mkArgs { hfclk_source : HfclkSource; lfclk_source : LfclkSource }.
Definition Args_default : Args := mkArgs Internal InternalRC.

Definition debug_hf (s : HfclkSource) : string :=
  match s with Internal => "Internal" | ExternalXtal => "ExternalXtal" end.
Definition debug_lf (s : LfclkSource) : string :=
  match s with
  | InternalRC => "InternalRC"
  | Synthesized => "Synthesized"
  | LfExternalXtal => "ExternalXtal"
  | ExternalLowSwing => "ExternalLowSwing"
  | ExternalFullSwing => "ExternalFullSwing"
  end.

(** The variants of [embassy_nrf::system] by their names. *)
Definition system_hf (name : string) : option System.HfclkSource :=
  if decide (name = "Internal")%string then Some System.Internal
  else if decide (name = "ExternalXtal")%string then Some System.HfExternalXtal else None.
Definition system_lf (name : string) : option System.LfclkSource :=
  if decide (name = "InternalRC")%string then Some System.InternalRC
  else if decide (name = "Synthesized")%string then Some System.Synthesized
  else if decide (name = "ExternalXtal")%string then Some System.ExternalXtal
  else if decide (name = "ExternalLowSwing")%string then Some System.ExternalLowSwing
  else if decide (name = "ExternalFullSwing")%string then Some System.ExternalFullSwing
  else None.

(** [None]: the emitted code names a variant that does not exist. *)
Definition config_of (args : Args) : option Config :=
  hf ← system_hf (debug_hf (hfclk_source args));
  lf ← system_lf (debug_lf (lfclk_source args));
  Some (mkConfig hf lf).

(** The board: the clocks, RTC1 with its interrupt and the [TAKEN] of [take!(RTC1)], the clock
    of [Time], the executor. *)
Record Board : Type := mkBoard {
  clock : System.Clock; rtc1 : NrfRtc.Starting; taken : bool;
  CLOCK : option Z; exec : Executor
}.

Section setup.
(** The times the clocks need to start, and those of RTC1, with the address of [rtc]. *)
Context (hf_time : nat) (lf_time : Lfclksrc → nat).
Context (clear_time start_time looks : nat) (addr : Z).

(** [RTC::new] on the registers of RTC1. *)
Definition rtc_new (h : NrfRtc.Starting) : NrfRtc.Starting :=
  NrfRtc.on_rtc (λ s, NrfRtc.RTC_new (NrfRtc.regs s)) h.

(** [None]: one of the waits is not over after [fuel] looks. *)
Definition setup (fuel : nat) (args : Args) (b : Board) : option (outcome Board) :=
  config ← config_of args;
  clock ← System.configure hf_time lf_time fuel config (clock b);
  match interrupt_take (taken b) with
  | Panic => Some Panic
  | Done taken =>
      let rtc := rtc_new (rtc1 b) in
      rtc ← NrfRtc.start clear_time start_time looks addr fuel rtc;
      let CLOCK := set_clock (CLOCK b) (NrfRtc.now (NrfRtc.rtc_of rtc)) in
      Some (Done (mkBoard clock rtc taken CLOCK (Task.set_alarm (exec b))))
  end.

Definition meant_hf (s : HfclkSource) : System.HfclkSource :=
  match s with Internal => System.Internal | ExternalXtal => System.HfExternalXtal end.
Definition meant_lf (s : LfclkSource) : System.LfclkSource :=
  match s with
  | InternalRC => System.InternalRC
  | Synthesized => System.Synthesized
  | LfExternalXtal => System.ExternalXtal
  | ExternalLowSwing => System.ExternalLowSwing
  | ExternalFullSwing => System.ExternalFullSwing
  end.
Lemma config_of_args args :
  config_of args = Some (mkConfig (meant_hf (hfclk_source args)) (meant_lf (lfclk_source args))).
Proof. by destruct args as [[] []]. Qed.
Lemma config_of_default : config_of Args_default = Some Config_default.
Proof. reflexivity. Qed.

Lemma configure_some fuel config c :
  (S hf_time < fuel)%nat → (∀ s, S (lf_time s) < fuel)%nat →
  ∃ c', System.configure hf_time lf_time fuel config c = Some c' ∧
    running (lfclk c') = Some (lfclksrc_of (System.lfclk_source config)) ∧
    (System.hfclk_source config = System.HfExternalXtal → running (hfclk c') = Some tt).
Proof.
  intros Hh Hl. unfold System.configure.
  destruct (start_hfclk_ends hf_time fuel (System.hfclk_source config) c Hh) as (c1 & -> & H1).
  destruct (start_lfclk_ends lf_time fuel (System.lfclk_source config) c1 (Hl _))
    as (n & c2 & Hc2 & L & _ & H2).
  exists c2. split; [exact Hc2|]. rewrite L. split; [done|]. intros E. rewrite E in H1.
  by rewrite H2, H1, starter_idle.
Qed.

(** RTC1 as a reset leaves it: it does not run, and no event of it is raised. *)
Record fresh (h : NrfRtc.Starting) : Prop := {
  fr_running : NrfRtc.running h = settled false;
  fr_cc : length (NrfRtc.cc (NrfRtc.regs (NrfRtc.rtc_of h))) = 4%nat;
  fr_compare : NrfRtc.events_compare (NrfRtc.regs (NrfRtc.rtc_of h)) = replicate 4 false;
  fr_ovrflw : NrfRtc.events_ovrflw (NrfRtc.regs (NrfRtc.rtc_of h)) = false;
  fr_edge : (NrfRtc.edge_in h ≤ looks)%nat
}.

(** C38: Before the executor runs, the clocks the arguments ask for are running; RTC1 has been
    cleared and started: its counter is 0, counts from there once the tasks have taken
    effect, and raises its event in the middle of its range and at the end of it, with
    both interrupts enabled in it and its line enabled with its handler and nothing
    pending; [Instant::now] has a clock, which is at 0 and follows the counter, and the
    executor an alarm.  The interrupt cannot be taken a second time, and [main] panics if
    it had been.  Assumed: RTC1 is as after a reset, TASKS_CLEAR takes effect no later than
    TASKS_START, and every wait has fuel for the time that the hardware needs. *)
Theorem nrf_main_setup fuel args b :
  (S hf_time < fuel)%nat → (∀ s, S (lf_time s) < fuel)%nat → (S clear_time * S looks < fuel)%nat →
  (clear_time ≤ start_time)%nat → fresh (rtc1 b) →
  ∃ r, setup fuel args b = Some r ∧
    if taken b then r = Panic
    else ∃ b', r = Done b' ∧
      running (lfclk (clock b')) = Some (lfclksrc_of (meant_lf (lfclk_source args))) ∧
      (hfclk_source args = ExternalXtal → running (hfclk (clock b')) = Some tt) ∧
      NrfRtc.Started start_time addr (rtc_new (rtc1 b)) (rtc1 b') ∧
      (∃ d, (d ≤ S start_time)%nat ∧ ∀ n, Z.of_nat (n - d) < 2 ^ 24 →
        NrfRtc.now (NrfRtc.rtc_of (ticks NrfRtc.edge n (rtc1 b'))) = Z.of_nat (n - d)) ∧
      Time.now (CLOCK b') = Done 0 ∧ alarm (exec b') = true ∧
      length (NrfRtc.alarms (NrfRtc.rtc_of (rtc1 b'))) = 3%nat ∧
      (∀ rtc, setup fuel args (mkBoard (clock b') rtc (taken b') (CLOCK b') (exec b')) = Some Panic).
Proof.
  intros Hh Hl Hf Hct [F1 F2 F3 F4 F5]. unfold setup. rewrite config_of_args. cbn [mbind option_bind].
  set (config := mkConfig _ _).
  destruct (configure_some fuel config (clock b) Hh Hl) as (c' & -> & L & H). cbn [mbind option_bind].
  destruct (taken b); [by eexists|]. cbn [interrupt_take].
  destruct (NrfRtc.start_run clear_time start_time looks addr Hct fuel (rtc_new (rtc1 b)))
    as (h & -> & St); [done|done|by cbn; rewrite F3|done|done|].
  pose proof (NrfRtc.sd_period _ _ _ _ St) as Hp. pose proof (NrfRtc.sd_alarms _ _ _ _ St) as Ha.
  cbn [mbind option_bind]. eexists. split; [reflexivity|]. eexists. split; [reflexivity|].
  cbn [clock rtc1 taken CLOCK exec]. split_and!; try done.
  - intros E. apply H. simpl. by rewrite E.
  - by apply (NrfRtc.started_now start_time addr (rtc_new (rtc1 b)) h).
  - cbn. unfold NrfRtc.now. by rewrite Hp, (NrfRtc.sd_counter _ _ _ _ St).
  - by rewrite Ha.
  - intros rtc. by destruct (configure_some fuel config c' Hh Hl) as (c2 & -> & _).
Qed.
End setup.

Definition demo_board : Board :=
  mkBoard (mkClock (mkStarter true None None) (mkStarter true None None) lfclksrc_reset)
    (NrfRtc.mkStarting (NrfRtc.RTC_new (NrfRtc.mkRegs 77 [0; 0; 0; 0] (replicate 4 false) false 0 []))
       (settled false) None 2 (Interrupt.mkIrq None 0 false true 7))
    false None (Executor_new 0).
Lemma nrf_main_setup_witness :
  ∃ b', setup 12 (λ _, 20%nat) 1 2 3 4096 25 (mkArgs ExternalXtal InternalRC) demo_board =
      Some (Done b') ∧
    running (hfclk (clock b')) = Some tt ∧ Time.now (CLOCK b') = Done 0 ∧
    NrfRtc.Started 2 4096 (rtc_new (rtc1 demo_board)) (rtc1 b').
Proof.
  destruct (nrf_main_setup 12 (λ _, 20%nat) 1 2 3 4096 25 (mkArgs ExternalXtal InternalRC) demo_board
    ltac:(lia) ltac:(intros; cbn; lia) ltac:(cbn; lia) ltac:(lia) ltac:(split; cbn; done || lia))
    as (r & Hr & b' & -> & _ & Hh & St & _ & Hn & _).
  exists b'. split; [exact Hr|]. split; [by apply Hh|]. split; [exact Hn|exact St].
Defined.
End Nrf.

(** ** STM32 *)
Module Stm32.

Record Args : Type := mkArgs {
  use_hse : option Z; sysclk : option Z; pclk1 : option Z; require_pll48clk : bool
}.
Definition Args_default : Args := mkArgs None None None false.

(** The calls on the HAL's clock configuration, with frequencies in MHz. *)
Inductive CfgCall : Type := UseHse (mhz : Z) | Sysclk (mhz : Z) | Pclk1 (mhz : Z) | RequirePll48clk.
Definition clock_cfg_args (args : Args) : list CfgCall :=
  let l := [] in
  let l := match use_hse args with Some mhz => l ++ [UseHse mhz] | None => l end in
  let l := match sysclk args with Some mhz => l ++ [Sysclk mhz] | None => l end in
  let l := match pclk1 args with Some mhz => l ++ [Pclk1 mhz] | None => l end in
  if require_pll48clk args then l ++ [RequirePll48clk] else l.

Section setup.
Context {P : Profile} {T : Type} `{!Stm32Rtc.Instance T}.
(** The HAL: what [freeze] makes of the calls, and the bus clock and divider of TIM3. *)
Context {Clocks : Type} (freeze : list CfgCall → Clocks) (ppre1 pclk1_hz : Clocks → Z).

(** [pac_taken]: the register library hands its peripherals out once. *)
Record Board : Type := mkBoard {
  pac_taken : bool; tim3 : Stm32Rtc.RTC T; irq_ops : list Stm32Rtc.IrqOp;
  GLOBAL_CLOCKS : option Clocks; taken : bool; CLOCK : option Z; exec : Executor
}.

Definition setup (args : Args) (b : Board) : outcome Board :=
  _ ← assert (negb (pac_taken b));
  let clocks := freeze (clock_cfg_args args) in
  let GLOBAL_CLOCKS := set_peripherals clocks (GLOBAL_CLOCKS b) in
  taken ← interrupt_take (taken b);
  let rtc := Stm32Rtc.RTC_new (Stm32Rtc.rtc (tim3 b)) in
  '(rtc, ops) ← Stm32Rtc.start (ppre1 clocks) (pclk1_hz clocks) rtc;
  let CLOCK := set_clock (CLOCK b) (Stm32Rtc.now rtc) in
  Done (mkBoard true rtc ops GLOBAL_CLOCKS taken CLOCK (Task.set_alarm (exec b))).

(** Before the executor runs, TIM3 counts, [Instant::now] has a clock and the executor an
    alarm; the clocks are there for [Peripherals::take], which gives them out once.
    [main] panics if the peripherals or the interrupt had been taken, or if the timer's
    clock has no 16-bit divider to [TICKS_PER_SECOND]. *)
Theorem stm32_main_setup {Q} (dp : Q) args b :
  let clocks := freeze (clock_cfg_args args) in
  match setup args b with
  | Panic => pac_taken b = true ∨ taken b = true ∨
      Stm32Rtc.prescaler (ppre1 clocks) (pclk1_hz clocks) = Panic
  | Done b' => pac_taken b = false ∧ taken b = false ∧
      (∃ now, Time.now (CLOCK b') = Done now) ∧ alarm (exec b') = true ∧
      irq_ops b' = [Stm32Rtc.SetHandler; Stm32Rtc.SetHandlerContext; Stm32Rtc.Unpend; Stm32Rtc.Enable] ∧
      length (Stm32Rtc.alarms (tim3 b')) = 3%nat ∧
      std_run dp [None; None] (GLOBAL_CLOCKS b') = [Some (dp, clocks); None] ∧
      setup args b' = Panic
  end.
Proof.
  intros clocks. unfold setup, Stm32Rtc.start. fold clocks.
  destruct (pac_taken b); simpl; [by left|]. destruct (taken b); simpl; [by right; left|].
  destruct (Stm32Rtc.prescaler _ _) as [psc|]; simpl; [|by right; right].
  split_and!; try done. by eexists.
Qed.
End setup.

(** The calls are made in the order of the fields, each at most once, and only those that
    are asked for. *)
Lemma clock_cfg_args_spec args :
  clock_cfg_args args = option_list (UseHse <$> use_hse args) ++
    option_list (Sysclk <$> sysclk args) ++ option_list (Pclk1 <$> pclk1 args) ++
    (if require_pll48clk args then [RequirePll48clk] else []).
Proof. by destruct args as [[] [] [] []]. Qed.
End Stm32.

(** ** RP2040

    The start-up ([RpClocks]) is the whole of it: there is no driver of a timer, and
    neither a clock nor an alarm is set. *)
Module Rp2040.
Record Board : Type := mkBoard {
  machine : RpClocks.Machine; CLOCK : option Z; exec : Executor
}.

Section setup.
Context (io_qspi pads_qspi pll_sys pll_usb adc rtc spi0 spi1 uart0 uart1 usbctrl : Z).
Context (unclocked : Z) (time : nat) (locks : Z → Z → bool).
#[local] Abbreviation ops := (RpClocks.configure io_qspi pads_qspi pll_sys pll_usb adc rtc spi0
  spi1 uart0 uart1 usbctrl unclocked time locks).

(** [Some Panic] if [configure] panics, [None] if it has not returned after [n] looks. *)
Definition setup (n : nat) (b : Board) : option (outcome Board) :=
  match RpClocks.steps n (ops, machine b) with
  | Done ([], m) => Some (Done (mkBoard m (CLOCK b) (exec b)))
  | Done (_ :: _, _) => None
  | Panic => Some Panic
  end.

(** On a board as it comes out of reset, no use of the time works after [main]'s set-up:
    [Instant::now] panics, and the executor sets no alarm. *)
Theorem rp_main_no_clock n b b' ctx :
  CLOCK b = None → exec b = Executor_new ctx → setup n b = Some (Done b') →
  Time.now (CLOCK b') = Panic ∧ Instant_now (CLOCK b') = Panic ∧ alarm (exec b') = false.
Proof.
  unfold setup. intros HC HE Hs. destruct (RpClocks.steps _ _) as [[[|] m]|]; simplify_eq.
  cbn [CLOCK exec]. by rewrite HC, HE.
Qed.
End setup.
End Rp2040.
